(* ===== verification/_CoqProject ===== *)
-Q . S2P
Prelude.v
Errors.v
Micro.v
Cancellation.v
Float64.v
Resource.v
Objects.v
Fencing.v
Workload.v
Security.v
Graph.v
Workflow.v
Schedule.v
Policy.v
Placement.v
Program.v
Journal.v
StateMachine.v
Recovery.v
Semantic.v
Lease.v
Inventory.v
Admission.v
Effects.v
Provider.v
Contracts.v
Nki.v
Extensions.v
Intelligence.v
Analysis.v
ControlPlane.v
Client.v
PyClient.v
Executor.v
Coordinator.v
Process.v
Worker.v
Cli.v
Refines.v
Continuity.v
History.v
Daemon.v
Startup.v
Interleave.v
Tasks.v
Pool.v
Server.v
