(* ===== verification/Prelude.v ===== *)
(** * APEIR Kernel: a verification library

    The APEIR kernel runs AI workloads: clients submit operations, the kernel
    admits them, decides where they run, leases the resources, has a provider
    execute them, and records every step in a journal so that after a crash
    nothing is lost or done twice. This library models the code of the kernel, its
    daemon, its worker, its command-line tool and its micro runtime, and proves
    what makes it correct.

    ** The parts and how they fit

    The journal is the only durable authority: an append-only table with
    sequence numbers, idempotency keys and checksums. State machines, semantic
    state and execution profiles are views written through it; crash recovery
    replays it. The lease manager hands out fenced leases on resources whose
    amounts live in a hierarchy of domains. The effect engine runs side effects
    under an authorization at most once, and execution proofs check what was
    done. The scheduler compiles agent programs to graphs of phases, selects the
    next process and places a workload on a node, device and engine. The
    durable executor journals intent, receipt and commit around a provider
    call. The kernel runtime composes all of these for each request. Providers are
    child processes with a reduced environment; the worker is the reference one.
    The daemon serves the kernel interface over connections, each request checked
    before it is dispatched, and keeps a catalog of developer assets next to the
    journal. The client library and the command-line tool are its users. The micro
    runtime stands alone.

    ** Which file models what

    Shared:
    - [Prelude]: results, the state-and-error monad [M] of a handler with its
      weakest preconditions [wp], machine integers, strings, locks with
      poisoning, hash-map iteration order, serialization, stable sorting.
    - [Float64]: Rust's [f64] on the executable [spec_float], with the orders of
      [<] and of [total_cmp].
    - [Errors]: [nous-types/src/error.rs] and [KernelError] of
      [nous-kernel-core/src/lib.rs].

    Objects and contracts ([crates/nous-types/src]):
    - [Resource]: [resource.rs], with [domain.rs] and the estimator of
      [nous-resource/src].
    - [Objects]: [meta.rs], [traits.rs], [principal.rs]; [Inventory]: [node.rs],
      [device.rs], [engine.rs], [model.rs], the object around a workload,
      [checkpoint.rs], [event.rs], [audit.rs], [contracts.rs], [profile.rs], and
      the C tables of [sdk/c].
    - [Workload]: [workload.rs].
    - [Provider]: [runtime_api.rs] and [nous-kernel-core/src/provider.rs].
    - [Contracts]: [open_runtime.rs].

    State ([crates/nous-state/src]): [Journal]: [journal.rs]; [StateMachine]:
    [state_machine.rs]; [Recovery]: [recovery.rs]; [Semantic]: [semantic.rs] and
    [execution_profile.rs]; [Fencing]: [fencing.rs].

    Resources, effects and security: [Lease] and [Admission]:
    [nous-resource/src]; [Effects]: [nous-execution-proof/src]; [Security]:
    [nous-security/src].

    Scheduling ([crates/nous-scheduler/src]): [Graph]: the queue algorithm of
    [workflow.rs]; [Workflow]: its compiler; [Schedule]: what compiled programs
    promise; [Policy]: [policy.rs]; [Placement]: [placement.rs], [core.rs],
    [node_transport.rs]; [Program]: [program.rs] and [phase.rs].

    The kernel ([crates/nous-kernel-core/src]):
    - [Cancellation]: [cancellation.rs].
    - [Executor]: [BootCore], [DurableExecutor] of [lib.rs] and [fault.rs].
    - [Coordinator]: [KernelRuntime] of [coordinator.rs] and the plans of
      [continuity.rs]; the theorem on leases.
    - [Process]: [ProcessProvider] of [lib.rs]; [Worker]: [providers/worker].
    - [Refines]: each handler of the runtime as a history of the executor;
      [Continuity]: what the execution of a plan with failovers leaves behind;
      [History]: the theorems on arbitrary histories of the runtime.
    - [Interleave]: executions, plans and recovery of [coordinator.rs] as programs
      of critical sections ([alone_is_handler] checks this second translation
      against the handlers); [Tasks]: the assumptions about callers and time
      ([Rules]), and what such a program may rely on while others act; [Pool]: the
      tasks that run at the same time.

    The interface and its users:
    - [Nki]: [nous-nki/src] and the connection loop of the daemon; [Client]:
      [nous-runtime-client/src]; [PyClient]: [sdk/python].
    - [Intelligence] and [Analysis]: [nous-intelligence/src]; [ControlPlane]:
      [nous-control-plane/src].
    - [Extensions] and [Daemon]: the dispatcher of [daemon/nousd/src/main.rs];
      [Startup]: its [main] and [serve], and what can happen on a host when
      requests come one after the other; [Server]: [serve] with requests of many
      connections in flight.
    - [Cli]: [tools/nous/src/main.rs].
    - [Micro]: [micro/src/nous_micro.c].

    ** How code becomes definitions

    A struct is a record, an enum an inductive type, a [HashMap] a [gmap], a
    lock a [Mutex] that may be poisoned. A method that mutates is a function of
    type [M S E A], from the state to a result and the state left behind, on
    the error paths too. Where a method takes a lock several times, each
    critical section is a definition of its own and the method their
    composition, so that interleavings of clients can be stated as step
    relations over the sections ([lstep] in [Lease], [xstep] in [Effects],
    [sem_step] in [Semantic], the steps of [Cancellation]); [estep] in [Executor],
    [rstep] in [History], [dstep] in [Daemon] and [hstep] in [Startup] are the
    histories of whole calls with failures, crashes and restarts; [pstep] in
    [Pool] is a pool of executions, plans and recoveries, each a program of atomic
    actions that, run alone, is the handler of [Coordinator], and [sstep] in [Server]
    is the daemon around such a pool. In these programs an append to the journal is
    two actions, the search for the idempotency key and the insertion, and so is the
    sweep of expired leases in [Lease], first the leases, then their tokens. Integers
    are [Z] with the wrap-around or saturation of the code written out.

    Recursion is structural, except for five loops, which take fuel: the reading
    loop of [PyClient] runs with the number of bytes it reads, the queue algorithm
    of [Graph] and the waves and the path of [Workflow] with the number of nodes,
    the walk of [Analysis] with the number of directories of the tree. That this is
    enough is part of the theorems on them: they return a result.

    What the code does not decide is a parameter: the answers of SQLite and the
    clock at each call ([Io] and the records built from it), SHA-256 and the texts
    of storage errors ([JournalEnv]), serde and YAML ([Serde], [FromValue],
    [ToValue], [Readable], [Writable]), base64 ([Base64]), the iteration order of
    hash maps ([HashOrder]), the notification primitive ([Notify] in [Cancellation],
    with its documented laws), identifiers drawn by the UUID library, what a
    provider, an effector, a model server or a child process answers, the failures
    of the file system, URLs and HTTP, what Python's library gives ([PyPlatform]),
    the platform's logarithm, NaN sign, float rendering, case mapping and behaviour
    of sorts ([FloatPlatform], [TextPlatform], [HostPlatform], [SortPlatform]). Each
    is instantiated in the examples that close the files.

    ** What is assumed

    Of JSON: a value of a type made of strings, integers, booleans, enumerations,
    options, lists, maps and records of these reads back as it was written
    ([SerdeLaws], for the documents of the command-line tool [DocumentLaws], for the
    envelope Python writes [WireLaws]). Of values with floating-point numbers and of
    free [serde_json::Value]s nothing is assumed; the theorems that need it ask it of
    the value at hand ([legible]: the remote call of [Client], the view of
    [Semantic]).

    Of callers: that an operation identifier is used under one workload only and
    that provider revisions do not imitate a journal key ([submitted] in [Executor],
    [valid_request] in [Refines], [request_ok] in [Daemon], [disciplined] in
    [Tasks]). The code checks neither, and [shared_operation_id_unrecorded] shows
    what happens otherwise. The theorems of [Executor], [Continuity], [History],
    [Daemon] and [Startup] on histories of requests are about such callers.

    Of time: that executions end before their leases run out ([timed] in [Tasks]).
    The code does not renew leases, and [expired_lease_admits_second_execution] shows
    what happens otherwise. In [Pool] and [Server] the assumptions on callers and
    time are switches of [Rules], off unless a theorem turns them on, so each
    theorem names the ones it needs; that leases are given back, and that receipts
    and commits are recorded once, needs none.

    Of sizes: programs of fewer than 2^30 steps in [Schedule], so that indices and
    lengths stay within the counters of the code.

    ** What the theorems show

    - Durability: the journal only grows and detects alteration; appends are
      idempotent; a reopened database is the journal that was closed; replay
      computes exactly what the records say ([Journal], [Recovery], [Semantic]).
    - Exactly-once operations, for callers as above: a committed operation is
      answered from the journal, a recorded receipt is never obtained again, a crash
      at any fault point leaves an operation that was never aborted pending,
      recovery that returns leaves nothing pending, and no history of requests one
      after the other calls a provider for a committed operation ([Executor],
      [History]).
    - The host, for callers as above: with requests one after the other the
      databases are those of a history of the executor and of the catalog
      ([Daemon], [Startup]). With requests in flight at once, a server that says it
      is ready listens on a loopback address and has committed what was pending; and
      what it answered is not run again, if leases do not run out either
      ([Server]).
    - Continuity: a failover never reopens a committed operation, its records
      are what happened, and a completed plan is replayed ([Continuity],
      [History]).
    - Interleaved executions, plans and recoveries: receipts and commits are
      recorded once, and no lease remains when all tasks returned, whatever
      happens; as long as executions end before their leases run out, provider calls
      outstanding together are for different workloads, and none begins once a
      receipt of the operation is on record for the workload; for callers as above,
      all receipts returned for an operation agree ([Pool]). The daemon, with any
      number of requests in flight, is such a pool, a course of the extension
      protocol and a history of the catalog at once ([Server]).
    - Mutual exclusion and cancellation: one authorized holder per resource, one
      valid lease per workload, effects run at most once, leases given back on
      every return, no cancellation missed, in every interleaving or on every path
      ([Lease], [Effects], [Coordinator], [Cancellation]).
    - Remote calls: a call through client, frames, checks and dispatcher returns
      what the dispatcher returned, from Rust and from Python; only requests in
      order reach it ([Client], [PyClient], [Nki]).
    - Secrets and authority: the worker sends credentials only to an encrypted or
      local endpoint and only when allowed (the redirects its HTTP client follows
      are recorded, not checked, as in the code), receipts are about their request,
      the execution gate opens exactly under the conditions the code compares and
      the extension protocol exactly when it should, the catalog holds no document
      with a member of a secret's name, provider commands stay in their directory
      ([Process], [Worker], [Security], [Extensions], [ControlPlane], [Cli]).
    - Decisions: admission, compatibility, certificates, placement and policy
      selection, workflow compilation, graph validation and contract checks are
      characterized exactly ([Admission], [Provider], [Effects], [Placement],
      [Policy], [Schedule], [Program], [Intelligence], [Contracts]).
    - Bounds and lifecycle: no domain is allocated beyond its capacity, or beyond
      what it was registered with, project analysis ends
      within its limits, transitions follow the tables, specifications do not
      change ([Resource], [Analysis], [StateMachine], [Workload], [Inventory]).
    - The micro runtime is a bounded queue that refuses altered frames ([Micro]).
    - Defects: some theorems and examples exhibit behaviour the code does not
      intend, such as the lease recorded before the intent that blocks recovery.

    ** What is not modelled

    Sockets and the scheduler of the asynchronous runtime: tasks and requests
    interleave in [Pool] and [Server] in any order. In [Pool] a cancellation sets the
    token and records the request in steps of their own; in [Server] a request that
    neither runs operations nor writes after it has read is one step, its appends
    included, and so is a cancellation; in [Daemon] and [Startup] every request is one
    step. What goes to standard error. Symbolic links: a path names a file or a
    directory ([Cli], [Analysis]). Lookups that would panic on a missing key in
    [graph.rs] are total in [Intelligence]; the keys are there on every path that
    reaches them. Modules that only re-export. *)

From stdpp Require Export base gmap strings list fin_maps sets numbers sorting.
From Stdlib Require Export ZArith Lia Ascii.
From Stdlib Require Import DecimalString DecimalN DecimalZ DecimalFacts.

(** The facts every component's automation may use. *)
Create HintDb apeir.

(** ** Results and fallible state passing

    Rust's [Result<T, E>], and the shape of every handler that mutates kernel
    state and may return early: it consumes a state and yields a result and
    the state left behind, on the error paths too. *)

Inductive result (E A : Type) : Type :=
| Ok (a : A)
| Err (e : E).
Arguments Ok {E A} a.
Arguments Err {E A} e.

#[global] Instance result_eq_dec `{EqDecision E, EqDecision A} : EqDecision (result E A).
Proof. solve_decision. Defined.

#[global] Instance result_ret {E} : MRet (result E) := λ A a, Ok a.
#[global] Instance result_bind {E} : MBind (result E) := λ A B f r,
  match r with Ok a => f a | Err e => Err e end.
#[global] Instance result_fmap {E} : FMap (result E) := λ A B f r,
  match r with Ok a => Ok (f a) | Err e => Err e end.

Definition map_err {E F A} (f : E → F) (r : result E A) : result F A :=
  match r with Ok a => Ok a | Err e => Err (f e) end.

Definition ok_or {E A} (o : option A) (e : E) : result E A :=
  match o with Some a => Ok a | None => Err e end.

Definition is_ok {E A} (r : result E A) : bool :=
  match r with Ok _ => true | Err _ => false end.

Definition result_ok {E A} (r : result E A) : option A :=
  match r with Ok a => Some a | Err _ => None end.

Lemma result_ok_Some {E A} (r : result E A) a : result_ok r = Some a → r = Ok a.
Proof. destruct r; [|done]. by intros [= ->]. Qed.

Definition unwrap_or {E A} (r : result E A) (d : A) : A :=
  match r with Ok a => a | Err _ => d end.

(** The state-and-error monad of a handler. *)
Definition M (S E A : Type) : Type := S → result E A * S.

#[global] Instance M_ret {S E} : MRet (M S E) := λ A a s, (Ok a, s).
#[global] Instance M_bind {S E} : MBind (M S E) := λ A B f m s,
  match m s with
  | (Ok a, s') => f a s'
  | (Err e, s') => (Err e, s')
  end.

Definition throw {S E A} (e : E) : M S E A := λ s, (Err e, s).
Definition gets {S E A} (f : S → A) : M S E A := λ s, (Ok (f s), s).
Definition modify {S E} (f : S → S) : M S E unit := λ s, (Ok tt, f s).
Definition lift {S E A} (r : result E A) : M S E A := λ s, (r, s).

(** [attempt m] runs [m] and returns its outcome as a value: the Rust code
    that inspects a [Result] instead of propagating it with [?]. *)
Definition attempt {S E A} (m : M S E A) : M S E (result E A) := λ s,
  let '(r, s') := m s in (Ok r, s').

(** Run a component's operation on the part of a larger state that holds it. *)
Definition zoom {S T E A} (get : S → T) (set : T → S → S) (m : M T E A) : M S E A :=
  λ s, let '(r, t) := m (get s) in (r, set t s).

Definition map_err_M {S E F A} (f : E → F) (m : M S E A) : M S F A :=
  λ s, let '(r, s') := m s in (map_err f r, s').

Lemma M_bind_ok {S E A B} (m : M S E A) (f : A → M S E B) s a s' :
  m s = (Ok a, s') → (m ≫= f) s = f a s'.
Proof. intros H. unfold mbind, M_bind. by rewrite H. Qed.

Lemma M_bind_err {S E A B} (m : M S E A) (f : A → M S E B) s e s' :
  m s = (Err e, s') → (m ≫= f) s = (Err e, s').
Proof. intros H. unfold mbind, M_bind. by rewrite H. Qed.

Lemma M_bind_inv_ok {S E A B} (m : M S E A) (f : A → M S E B) s b s'' :
  (m ≫= f) s = (Ok b, s'') →
  ∃ a s', m s = (Ok a, s') ∧ f a s' = (Ok b, s'').
Proof. unfold mbind, M_bind. destruct (m s) as [[a|e] s']; naive_solver. Qed.

(** Weakest preconditions of a handler: [Q] of a normal return, [R] of an early
    one, each with the state left behind. *)
Definition wp {S E A} (m : M S E A) (Q : A → S → Prop) (R : E → S → Prop) (s : S) : Prop :=
  match m s with (Ok a, s') => Q a s' | (Err e, s') => R e s' end.

Lemma wp_bind {S E A B} (m : M S E A) (f : A → M S E B) Q R s :
  wp m (λ a, wp (f a) Q R) R s → wp (m ≫= f) Q R s.
Proof. unfold wp, mbind, M_bind. by destruct (m s) as [[a|e] s']. Qed.

Lemma wp_ret {S E A} (a : A) (Q : A → S → Prop) (R : E → S → Prop) s :
  Q a s → wp (mret a) Q R s.
Proof. done. Qed.

Lemma wp_mono {S E A} (m : M S E A) (Q Q' : A → S → Prop) (R R' : E → S → Prop) s :
  wp m Q R s → (∀ a s', Q a s' → Q' a s') → (∀ e s', R e s' → R' e s') → wp m Q' R' s.
Proof. unfold wp. destruct (m s) as [[a|e] s']; auto. Qed.

Lemma wp_any {S E A} (m : M S E A) (Q : A → S → Prop) (R : E → S → Prop) s :
  (∀ a s', Q a s') → (∀ e s', R e s') → wp m Q R s.
Proof. unfold wp. intros HQ HR. by destruct (m s) as [[a|e] s']. Qed.

Lemma wp_and {S E A} (m : M S E A) (Q Q' : A → S → Prop) (R R' : E → S → Prop) s :
  wp m Q R s → wp m Q' R' s → wp m (λ a s', Q a s' ∧ Q' a s') (λ e s', R e s' ∧ R' e s') s.
Proof. unfold wp. by destruct (m s) as [[a|e] s']. Qed.

Lemma wp_elim {S E A} (m : M S E A) (Q : A → S → Prop) (R : E → S → Prop) s r s' :
  wp m Q R s → m s = (r, s') → match r with Ok a => Q a s' | Err e => R e s' end.
Proof. unfold wp. intros Hw Hm. by rewrite Hm in Hw; destruct r. Qed.

Lemma result_bind_inv_ok {E A B} (r : result E A) (f : A → result E B) b :
  r ≫= f = Ok b → ∃ a, r = Ok a ∧ f a = Ok b.
Proof. destruct r; simpl; naive_solver. Qed.

(** ** Machine integers

    [u64] and [i64] values are kept as [Z] within their range. [+] and [+=]
    wrap in the release profile (the workspace does not enable
    [overflow-checks]); the [saturating_*] and [checked] operations are
    written out. *)

Definition u64_max : Z := 2 ^ 64 - 1.
Definition u32_max : Z := 2 ^ 32 - 1.
Definition i64_max : Z := 2 ^ 63 - 1.
Definition i64_min : Z := - 2 ^ 63.

Definition u64_ok (z : Z) : Prop := (0 ≤ z ≤ u64_max)%Z.
#[global] Instance u64_ok_dec z : Decision (u64_ok z).
Proof. unfold u64_ok. apply _. Defined.

Definition wrap64 (z : Z) : Z := z mod 2 ^ 64.
Definition wrap32 (z : Z) : Z := z mod 2 ^ 32.
Definition wrap_i64 (z : Z) : Z := ((z + 2 ^ 63) mod 2 ^ 64 - 2 ^ 63)%Z.
Definition sat_add64 (a b : Z) : Z := Z.min u64_max (a + b).
Definition sat_sub64 (a b : Z) : Z := Z.max 0 (a - b).
Definition sat_mul64 (a b : Z) : Z := Z.min u64_max (a * b).
Definition sat_i64 (z : Z) : Z := Z.max i64_min (Z.min i64_max z).

Lemma wrap64_id z : u64_ok z → wrap64 z = z.
Proof. unfold u64_ok, u64_max, wrap64. intros. apply Z.mod_small. lia. Qed.

Lemma wrap64_ok z : u64_ok (wrap64 z).
Proof. unfold u64_ok, u64_max, wrap64. pose proof (Z.mod_pos_bound z (2^64)). lia. Qed.

Lemma wrap64_succ z : (0 ≤ z < u64_max)%Z → wrap64 (z + 1) = (z + 1)%Z.
Proof. intros. apply wrap64_id. unfold u64_ok. lia. Qed.

Lemma sat_add64_ok a b : u64_ok a → u64_ok b → u64_ok (sat_add64 a b).
Proof. unfold u64_ok, sat_add64, u64_max. lia. Qed.

Lemma sat_sub64_ok a b : u64_ok a → u64_ok b → u64_ok (sat_sub64 a b).
Proof. unfold u64_ok, sat_sub64, u64_max. lia. Qed.

(** ** Strings

    Rust strings are byte sequences; [format!] of strings is concatenation,
    of integers the decimal rendering of the Standard Library. *)

Definition bytes := list Z.

Fixpoint string_bytes (s : string) : bytes :=
  match s with
  | EmptyString => []
  | String c s' => Z.of_N (Ascii.N_of_ascii c) :: string_bytes s'
  end.

(** [to_string] of an unsigned and of a signed integer. *)
Definition show_u (z : Z) : string := NilZero.string_of_uint (N.to_uint (Z.to_N z)).
Definition show_i (z : Z) : string := NilZero.string_of_int (Z.to_int z).

(** [str::parse::<u64>]: an optional [+], at least one digit, no overflow. *)
Definition parse_u64 (s : string) : option Z :=
  let digits := match s with String "+"%char s' => s' | _ => s end in
  u ← NilZero.uint_of_string digits;
  let z := Z.of_N (N.of_uint u) in
  if decide (z ≤ u64_max)%Z then Some z else None.

(** [str::split_once] on a character. *)
Fixpoint split_once (c : Ascii.ascii) (s : string) : option (string * string) :=
  match s with
  | EmptyString => None
  | String d s' =>
      if decide (d = c) then Some (EmptyString, s')
      else '(a, b) ← split_once c s'; Some (String d a, b)
  end.

(** [str::starts_with] and [str::contains]. *)
Fixpoint starts_with (p s : string) : bool :=
  match p, s with
  | EmptyString, _ => true
  | String c p', String d s' => bool_decide (c = d) && starts_with p' s'
  | _, _ => false
  end.

Fixpoint contains (p s : string) : bool :=
  starts_with p s ||
  match s with EmptyString => false | String _ s' => contains p s' end.

(** [s.trim().is_empty()]: nothing but white space, in UTF-8. *)
Definition whitespace1 (a : Z) : bool := ((9 <=? a) && (a <=? 13) || (a =? 32))%Z.
Definition whitespace2 (a b : Z) : bool := ((a =? 194) && ((b =? 133) || (b =? 160)))%Z.
Definition whitespace3 (a b c : Z) : bool :=
  ((a =? 225) && (b =? 154) && (c =? 128)
   || (a =? 226) && (b =? 128)
      && ((128 <=? c) && (c <=? 138) || (c =? 168) || (c =? 169) || (c =? 175))
   || (a =? 226) && (b =? 129) && (c =? 159)
   || (a =? 227) && (b =? 128) && (c =? 128))%Z.
Definition byte_of (c : Ascii.ascii) : Z := Z.of_N (Ascii.N_of_ascii c).
Fixpoint blank (s : string) : bool :=
  match s with
  | EmptyString => true
  | String a s1 =>
      if whitespace1 (byte_of a) then blank s1
      else match s1 with
      | String b s2 =>
          if whitespace2 (byte_of a) (byte_of b) then blank s2
          else match s2 with
          | String c s3 => whitespace3 (byte_of a) (byte_of b) (byte_of c) && blank s3
          | EmptyString => false
          end
      | EmptyString => false
      end
  end.

Fixpoint string_mem (c : Ascii.ascii) (s : string) : bool :=
  match s with
  | EmptyString => false
  | String d s' => bool_decide (d = c) || string_mem c s'
  end.

(** [[String]::join]. *)
Fixpoint join (sep : string) (l : list string) : string :=
  match l with
  | [] => ""
  | [x] => x
  | x :: l' => x +:+ sep +:+ join sep l'
  end.

(** [char::to_ascii_lowercase] over a string. *)
Definition ascii_lower (c : Ascii.ascii) : Ascii.ascii :=
  let n := Ascii.N_of_ascii c in
  if (65 <=? n)%N && (n <=? 90)%N then Ascii.ascii_of_N (n + 32) else c.
Fixpoint to_ascii_lowercase (s : string) : string :=
  match s with
  | EmptyString => EmptyString
  | String c s' => String (ascii_lower c) (to_ascii_lowercase s')
  end.

Lemma uint_of_string_no_plus (u : Decimal.uint) s :
  NilZero.string_of_uint u ≠ String "+"%char s.
Proof. destruct u; simpl; congruence. Qed.

Lemma parse_show_u z : u64_ok z → parse_u64 (show_u z) = Some z.
Proof.
  intros [Hlo Hhi]. unfold parse_u64, show_u.
  assert (Hd : ∀ s u, s = NilZero.string_of_uint u →
    match s with String "+"%char s' => s' | _ => s end = s).
  { intros s u Hs. destruct s as [|[[] [] [] [] [] [] [] []] s]; try done.
    by destruct (uint_of_string_no_plus u s). }
  rewrite (Hd _ _ eq_refl). rewrite NilZero.usu.
  2:{ destruct (Z.to_N z) as [|p]; simpl; [done|]. apply DecimalPos.Unsigned.to_uint_nonnil. }
  simpl. rewrite DecimalN.Unsigned.of_to, Z2N.id by done.
  by rewrite decide_True.
Qed.

Lemma show_u_inj a b : u64_ok a → u64_ok b → show_u a = show_u b → a = b.
Proof.
  intros Ha Hb Hs. apply parse_show_u in Ha, Hb. rewrite Hs in Ha. congruence.
Qed.

Lemma string_app_cons c (a b : string) : String c a +:+ b = String c (a +:+ b).
Proof. done. Qed.
Lemma string_app_nil (b : string) : "" +:+ b = b.
Proof. done. Qed.

Lemma split_once_app c a b :
  string_mem c a = false → split_once c (a +:+ String c b) = Some (a, b).
Proof.
  induction a as [|d a IH]; rewrite ?string_app_cons, ?string_app_nil; simpl; intros H.
  - by rewrite decide_True.
  - apply orb_false_iff in H as [Hd Ha]. apply bool_decide_eq_false in Hd.
    rewrite decide_False by done. by rewrite (IH Ha).
Qed.

Lemma split_once_spec c s a b :
  split_once c s = Some (a, b) → s = a +:+ String c b ∧ string_mem c a = false.
Proof.
  revert a. induction s as [|d s IH]; intros a; simpl; [done|].
  case_decide; [naive_solver|].
  destruct (split_once c s) as [[a' b']|]; simpl; [|done].
  intros [= <- <-]. destruct (IH a' eq_refl) as [-> ?]. split; [done|].
  simpl. rewrite bool_decide_false by done. done.
Qed.

Lemma string_app_assoc (a b c : string) : (a +:+ b) +:+ c = a +:+ b +:+ c.
Proof. induction a; rewrite ?string_app_cons, ?string_app_nil; congruence. Qed.

Lemma string_bytes_app a b : string_bytes (a +:+ b) = string_bytes a ++ string_bytes b.
Proof.
  induction a as [|c a IH]; [done|]. rewrite string_app_cons. simpl. by rewrite IH.
Qed.

Lemma string_bytes_inj a b : string_bytes a = string_bytes b → a = b.
Proof.
  revert b. induction a as [|c a IH]; intros [|d b]; simpl; try done.
  intros [= Hcd Hab]. f_equal; [|by apply IH].
  apply N2Z.inj in Hcd. rewrite <-(Ascii.ascii_N_embedding c), Hcd.
  apply Ascii.ascii_N_embedding.
Qed.

Lemma string_app_length a b : String.length (a +:+ b) = (String.length a + String.length b)%nat.
Proof. induction a as [|c a IH]; [done|]. rewrite string_app_cons. simpl. by rewrite IH. Qed.

(** Concatenations with tails of the same length agree on both parts. *)
Lemma string_app_inj a b s t :
  String.length s = String.length t → a +:+ s = b +:+ t → a = b ∧ s = t.
Proof.
  intros Hl. revert b. induction a as [|c a IH]; intros [|d b];
    rewrite ?string_app_cons, ?string_app_nil; intros He.
  - done.
  - exfalso. apply (f_equal String.length) in He. simpl in He.
    rewrite string_app_length in He. lia.
  - exfalso. apply (f_equal String.length) in He. simpl in He.
    rewrite string_app_length in He. lia.
  - injection He as -> He. destruct (IH _ He) as [-> ->]. done.
Qed.

Lemma starts_with_iff p s : starts_with p s = true ↔ ∃ rest, s = p +:+ rest.
Proof.
  revert s. induction p as [|c p IH]; intros s; simpl.
  - split; [exists s; by rewrite string_app_nil|done].
  - destruct s as [|d s]; [split; [done|by intros [? ?]]|].
    rewrite andb_true_iff, bool_decide_eq_true, IH. setoid_rewrite string_app_cons. naive_solver.
Qed.

Lemma contains_iff p s : contains p s = true ↔ ∃ a b, s = a +:+ p +:+ b.
Proof.
  induction s as [|c s IH]; cbn [contains]; rewrite orb_true_iff, starts_with_iff.
  - split; [intros [[b ->]|?]; [exists "", b; by rewrite string_app_nil|done]|].
    intros ([|] & b & E); [left; exists b; by rewrite E|done].
  - rewrite IH. split.
    + intros [[b ->]|(a & b & ->)]; [exists "", b; by rewrite string_app_nil|].
      exists (String c a), b. by rewrite string_app_cons.
    + intros ([|d a] & b & E); [left; exists b; by rewrite E|right; exists a, b].
      rewrite string_app_cons in E. by injection E.
Qed.

Lemma string_app_cancel a s t : a +:+ s = a +:+ t → s = t.
Proof.
  induction a as [|c a IH]; rewrite ?string_app_cons, ?string_app_nil; [done|].
  intros [= He]. by apply IH.
Qed.

(** [str::ends_with], and the tails of equal concatenations. *)
Fixpoint ends_with (t s : string) : bool :=
  bool_decide (s = t) || match s with EmptyString => false | String _ s' => ends_with t s' end.

Lemma ends_with_app t a : ends_with t (a +:+ t) = true.
Proof.
  induction a as [|c a IH].
  - rewrite string_app_nil. destruct t; cbn [ends_with]; by rewrite bool_decide_eq_true_2.
  - rewrite string_app_cons. simpl. by rewrite IH, orb_true_r.
Qed.

Lemma app_eq_ends a b s t : a +:+ s = b +:+ t → ends_with s t = true ∨ ends_with t s = true.
Proof.
  revert b. induction a as [|c a IH]; intros [|d b];
    rewrite ?string_app_cons, ?string_app_nil; intros E.
  - left. rewrite E. apply (ends_with_app t "").
  - right. rewrite E, <-string_app_cons. apply ends_with_app.
  - left. rewrite <-E, <-string_app_cons. apply ends_with_app.
  - injection E as -> E. by apply (IH b).
Qed.

(** ** Boolean quantifiers over a list *)

Lemma existsb_elem {A} (f : A → bool) (l : list A) :
  existsb f l = true ↔ ∃ x, x ∈ l ∧ f x = true.
Proof. rewrite existsb_exists. by setoid_rewrite list_elem_of_In. Qed.
Lemma forallb_elem {A} (f : A → bool) (l : list A) :
  forallb f l = true ↔ ∀ x, x ∈ l → f x = true.
Proof. rewrite forallb_forall. by setoid_rewrite list_elem_of_In. Qed.

(** ** Locks

    [std::sync::Mutex] and [RwLock]: a panic of a holder poisons the lock, and
    every later acquisition fails. *)

Record Mutex (A : Type) : Type := mkMutex { poisoned : bool; inner : A }.
Arguments mkMutex {A} _ _.
Arguments poisoned {A} _.
Arguments inner {A} _.

Definition mutex_new {A} (a : A) : Mutex A := mkMutex false a.
Definition lock {A} (m : Mutex A) : option A :=
  if poisoned m then None else Some (inner m).
Definition mutex_set {A} (a : A) (m : Mutex A) : Mutex A := mkMutex (poisoned m) a.

Lemma lock_new {A} (a : A) : lock (mutex_new a) = Some a.
Proof. done. Qed.
Lemma lock_set {A} (a : A) m : poisoned m = false → lock (mutex_set a m) = Some a.
Proof. unfold lock. simpl. by intros ->. Qed.
Lemma lock_Some {A} (m : Mutex A) a : lock m = Some a ↔ poisoned m = false ∧ inner m = a.
Proof. unfold lock. destruct (poisoned m); naive_solver. Qed.

(** ** Hash-map iteration

    The order in which a [HashMap] yields its entries is unspecified: it is a
    parameter of the operations that depend on it, constrained only to list
    each entry once. *)

Class HashOrder : Type := {
  hash_iter : ∀ {V : Type}, gmap string V → list (string * V);
  hash_iter_perm : ∀ {V : Type} (m : gmap string V), hash_iter m ≡ₚ map_to_list m
}.

(** The order used to evaluate concrete examples. *)
Definition key_order : HashOrder := {|
  hash_iter := λ V m, map_to_list m;
  hash_iter_perm := λ V m, reflexivity _
|}.

Lemma elem_of_hash_iter `{HashOrder} {V} (m : gmap string V) k v :
  (k, v) ∈ hash_iter m ↔ m !! k = Some v.
Proof. by rewrite hash_iter_perm, elem_of_map_to_list. Qed.

Lemma hash_iter_NoDup `{HashOrder} {V} (m : gmap string V) : NoDup (hash_iter m).*1.
Proof. rewrite hash_iter_perm. apply NoDup_fst_map_to_list. Qed.

(** ** Serialization

    [serde_json::to_vec] and [from_slice] at one payload type with the texts of
    their errors. A value is legible if the document the encoder makes of it
    decodes to it again. That is so of every value of a type made of strings,
    integers, booleans, enumerations, options, lists, maps and records of these, and
    [SerdeLaws] is asked of such types only. It is not promised of values with
    floating-point numbers, which are read to the nearest representable number on a
    best effort, or of free [serde_json::Value]s, which are written at any depth and
    read to a depth of 128: theorems about those ask it of the value at hand. *)

Class Serde (T : Type) : Type := {
  to_vec : T → option bytes;
  from_slice : bytes → option T;
  to_vec_text : T → string;
  from_slice_text : bytes → string
}.

Definition legible `{Serde T} (x : T) : Prop := ∀ b, to_vec x = Some b → from_slice b = Some x.

Class SerdeLaws (T : Type) `{Serde T} : Prop :=
  from_to_vec : ∀ (x : T) b, to_vec x = Some b → from_slice b = Some x.

(** A codec for any countable type, used to evaluate concrete examples. *)
Fixpoint bits_of_pos (p : positive) : bytes :=
  match p with xH => [] | xO p' => 0%Z :: bits_of_pos p' | xI p' => 1%Z :: bits_of_pos p' end.
Fixpoint pos_of_bits (b : bytes) : positive :=
  match b with [] => xH | 0%Z :: b' => xO (pos_of_bits b') | _ :: b' => xI (pos_of_bits b') end.

Lemma pos_of_bits_of_pos p : pos_of_bits (bits_of_pos p) = p.
Proof. induction p; simpl; congruence. Qed.

Definition countable_serde (T : Type) `{Countable T} : Serde T := {|
  to_vec x := Some (bits_of_pos (encode x));
  from_slice b := decode (pos_of_bits b);
  to_vec_text _ := "";
  from_slice_text _ := "malformed document"
|}.

Lemma countable_serde_laws (T : Type) `{Countable T} : @SerdeLaws T (countable_serde T).
Proof.
  intros x b [= <-]. simpl. rewrite pos_of_bits_of_pos. apply decode_encode.
Qed.

(** ** Lists *)

Lemma Forall_filter_1 {A} (P Q : A → Prop) `{∀ x, Decision (Q x)} (l : list A) :
  Forall P l → Forall P (filter Q l).
Proof.
  rewrite !Forall_forall. intros HP x Hx.
  apply HP. by apply list_elem_of_filter in Hx as [_ Hx].
Qed.

Lemma list_filter_all {A} (P : A → Prop) `{∀ x, Decision (P x)} (l : list A) :
  Forall P l → filter P l = l.
Proof.
  induction 1 as [|x l Hx _ IH]; [done|]. rewrite filter_cons_True by done. by rewrite IH.
Qed.

Lemma list_filter_none {A} (P : A → Prop) `{∀ x, Decision (P x)} (l : list A) :
  Forall (λ x, ¬ P x) l → filter P l = [].
Proof.
  induction 1 as [|x l Hx _ IH]; [done|]. by rewrite filter_cons_False.
Qed.

Lemma list_filter_fmap {A B} (f : A → B) (P : B → Prop) (Q : A → Prop)
    `{∀ y, Decision (P y), ∀ x, Decision (Q x)} (l : list A) :
  (∀ x, P (f x) ↔ Q x) → filter P (f <$> l) = f <$> filter Q l.
Proof.
  intros HPQ. induction l as [|x l IH]; [done|]. rewrite fmap_cons.
  destruct (decide (Q x)) as [HQ|HQ].
  - rewrite !filter_cons_True by naive_solver. by rewrite fmap_cons, IH.
  - rewrite !filter_cons_False by naive_solver. done.
Qed.

Lemma list_find_fmap_some {A} (P : A → Prop) `{∀ x, Decision (P x)} (l : list A) x :
  x ∈ l → P x → is_Some (list_find P l).
Proof. intros. by eapply list_find_elem_of. Qed.

(** [slice::sort_by], which is stable: with a comparison that is a total
    preorder the result is determined, and insertion sort computes it. *)
Section SortBy.
Context {A : Type} (cmp : A → A → comparison).

Fixpoint insert_by (x : A) (l : list A) : list A :=
  match l with
  | [] => [x]
  | y :: l' => match cmp x y with Gt => y :: insert_by x l' | _ => x :: l end
  end.

Definition sort_by (l : list A) : list A := foldr insert_by [] l.

Lemma insert_by_perm x l : insert_by x l ≡ₚ x :: l.
Proof.
  induction l as [|y l IH]; [done|]. simpl. destruct (cmp x y); [done..|].
  rewrite IH. apply Permutation_swap.
Qed.

Lemma sort_by_perm l : sort_by l ≡ₚ l.
Proof. induction l as [|x l IH]; [done|]. simpl. by rewrite insert_by_perm, IH. Qed.

Lemma sort_by_nil l : head (sort_by l) = None ↔ l = [].
Proof.
  split; [|by intros ->]. pose proof (sort_by_perm l) as Hp.
  destruct (sort_by l); [|done]. intros _. by apply Permutation_nil_l in Hp.
Qed.

(** The head of the sorted list is the earliest of the least elements. *)
Lemma sort_by_head l x :
  (∀ a, cmp a a ≠ Gt) →
  (∀ a b c, cmp a b ≠ Gt → cmp b c ≠ Gt → cmp a c ≠ Gt) →
  (∀ a b, cmp a b = Gt → cmp b a ≠ Gt) →
  head (sort_by l) = Some x →
  ∃ l1 l2, l = l1 ++ x :: l2 ∧ Forall (λ y, cmp x y ≠ Gt) l ∧ Forall (λ y, cmp y x = Gt) l1.
Proof.
  intros Hrefl Htrans Htot. revert x. induction l as [|a l IH]; intros x; simpl; [done|].
  destruct (sort_by l) as [|b s] eqn:Hs; simpl.
  { intros [= <-]. exists [], l. pose proof (sort_by_perm l) as Hp. rewrite Hs in Hp.
    apply Permutation_nil_l in Hp. subst l. split_and!; [done| |done]. by apply Forall_singleton. }
  destruct (IH b eq_refl) as (l1 & l2 & Hl & Hmin & Hfst).
  destruct (cmp a b) eqn:Hab; simpl; intros [= <-].
  1,2: exists [], l; split_and!; [done| |done]; constructor; [done|];
    eapply Forall_impl; [exact Hmin|]; intros y Hy; apply (Htrans _ b); [by rewrite Hab|done].
  exists (a :: l1), l2. split_and!; [by rewrite Hl| |by constructor].
  constructor; [by apply Htot|done].
Qed.
End SortBy.
