(* ===== verification/Errors.v ===== *)
(** * Errors: the stable error codes and the kernel's error type

    [crates/nous-types/src/error.rs] (error codes, retry hints, [NousError]) and
    the [KernelError] of [crates/nous-kernel-core/src/lib.rs] with its
    classification into codes, categories and retryability. *)

From S2P Require Import Prelude.

(** [ErrorCode]: stable codes, with their wire discriminants in [code_number]. *)
Inductive ErrorCode : Type :=
| Unknown
| InvalidRequest
| NotFound
| AlreadyExists
| PermissionDenied
| Unauthenticated
| ResourceExhausted
| FailedPrecondition
| Aborted
| OutOfRange
| NotImplemented
| Internal
| Unavailable
| DataLoss
| DeadlineExceeded
| WorkloadRejected
| WorkloadCancelled
| WorkloadLost
| WorkloadQuarantined
| WorkloadConflict
| ResourceInsufficient
| LeaseExpired
| LeaseConflict
| ModelNotFound
| ModelIncompatible
| ModelNotLoaded
| ModelValidationFailed
| ModelSecurityBlocked
| EngineNotFound
| EngineIncompatible
| EngineUnhealthy
| EngineTimeout
| DeviceNotFound
| DeviceIncompatible
| DeviceUnhealthy
| DeviceOutOfMemory
| BackendUnavailable
| BackendIncompatible
| NotSupported
| SecurityPolicy
| CapabilityDenied
| IsolationFailed.

#[global] Instance ErrorCode_eq_dec : EqDecision ErrorCode.
Proof. solve_decision. Defined.

Definition code_number (c : ErrorCode) : Z :=
  match c with
  | Unknown => 0
  | InvalidRequest => 1
  | NotFound => 2
  | AlreadyExists => 3
  | PermissionDenied => 4
  | Unauthenticated => 5
  | ResourceExhausted => 6
  | FailedPrecondition => 7
  | Aborted => 8
  | OutOfRange => 9
  | NotImplemented => 10
  | Internal => 11
  | Unavailable => 12
  | DataLoss => 13
  | DeadlineExceeded => 14
  | WorkloadRejected => 20
  | WorkloadCancelled => 21
  | WorkloadLost => 22
  | WorkloadQuarantined => 23
  | WorkloadConflict => 24
  | ResourceInsufficient => 30
  | LeaseExpired => 31
  | LeaseConflict => 32
  | ModelNotFound => 40
  | ModelIncompatible => 41
  | ModelNotLoaded => 42
  | ModelValidationFailed => 43
  | ModelSecurityBlocked => 44
  | EngineNotFound => 50
  | EngineIncompatible => 51
  | EngineUnhealthy => 52
  | EngineTimeout => 53
  | DeviceNotFound => 60
  | DeviceIncompatible => 61
  | DeviceUnhealthy => 62
  | DeviceOutOfMemory => 63
  | BackendUnavailable => 70
  | BackendIncompatible => 71
  | NotSupported => 80
  | SecurityPolicy => 90
  | CapabilityDenied => 91
  | IsolationFailed => 92
  end.

(** [Display] (and [Debug]) of an error code: its constructor name. *)
Definition code_name (c : ErrorCode) : string :=
  match c with
  | Unknown => "Unknown"
  | InvalidRequest => "InvalidRequest"
  | NotFound => "NotFound"
  | AlreadyExists => "AlreadyExists"
  | PermissionDenied => "PermissionDenied"
  | Unauthenticated => "Unauthenticated"
  | ResourceExhausted => "ResourceExhausted"
  | FailedPrecondition => "FailedPrecondition"
  | Aborted => "Aborted"
  | OutOfRange => "OutOfRange"
  | NotImplemented => "NotImplemented"
  | Internal => "Internal"
  | Unavailable => "Unavailable"
  | DataLoss => "DataLoss"
  | DeadlineExceeded => "DeadlineExceeded"
  | WorkloadRejected => "WorkloadRejected"
  | WorkloadCancelled => "WorkloadCancelled"
  | WorkloadLost => "WorkloadLost"
  | WorkloadQuarantined => "WorkloadQuarantined"
  | WorkloadConflict => "WorkloadConflict"
  | ResourceInsufficient => "ResourceInsufficient"
  | LeaseExpired => "LeaseExpired"
  | LeaseConflict => "LeaseConflict"
  | ModelNotFound => "ModelNotFound"
  | ModelIncompatible => "ModelIncompatible"
  | ModelNotLoaded => "ModelNotLoaded"
  | ModelValidationFailed => "ModelValidationFailed"
  | ModelSecurityBlocked => "ModelSecurityBlocked"
  | EngineNotFound => "EngineNotFound"
  | EngineIncompatible => "EngineIncompatible"
  | EngineUnhealthy => "EngineUnhealthy"
  | EngineTimeout => "EngineTimeout"
  | DeviceNotFound => "DeviceNotFound"
  | DeviceIncompatible => "DeviceIncompatible"
  | DeviceUnhealthy => "DeviceUnhealthy"
  | DeviceOutOfMemory => "DeviceOutOfMemory"
  | BackendUnavailable => "BackendUnavailable"
  | BackendIncompatible => "BackendIncompatible"
  | NotSupported => "NotSupported"
  | SecurityPolicy => "SecurityPolicy"
  | CapabilityDenied => "CapabilityDenied"
  | IsolationFailed => "IsolationFailed"
  end.

(** [ErrorCode::is_retryable]. *)
Definition is_retryable (c : ErrorCode) : bool :=
  match c with
  | Unavailable | DeadlineExceeded | ResourceExhausted | Aborted | LeaseExpired
  | EngineUnhealthy | EngineTimeout | DeviceUnhealthy | BackendUnavailable => true
  | _ => false
  end.

(** [ErrorCode::is_terminal]. *)
Definition code_is_terminal (c : ErrorCode) : bool := negb (is_retryable c).

Inductive RetryStrategy : Type := Immediate | Backoff | After | NewIdempotency | Never.

#[global] Instance RetryStrategy_eq_dec : EqDecision RetryStrategy.
Proof. solve_decision. Defined.

Record RetryHint : Type := mkRetryHint {
  retryable : bool;
  recommended_delay_ms : Z;
  max_retries : Z;
  strategy : RetryStrategy
}.

#[global] Instance RetryHint_eq_dec : EqDecision RetryHint.
Proof. solve_decision. Defined.

(** [RetryHint::never]. *)
Definition retry_never : RetryHint := mkRetryHint false 0 0 Never.

(** [RetryHint::for_code]. *)
Definition for_code (c : ErrorCode) : RetryHint :=
  if is_retryable c then mkRetryHint true 100 3 Backoff else mkRetryHint false 0 0 Never.

Record NousError : Type := mkNousError {
  code : ErrorCode;
  message : string;
  failed_phase : string;
  cause : string;
  retry : RetryHint
}.

#[global] Instance NousError_eq_dec : EqDecision NousError.
Proof. solve_decision. Defined.

(** [NousError::new], [with_phase], [with_cause] and the named constructors. *)
Definition nous_error (c : ErrorCode) (m : string) : NousError :=
  mkNousError c m "" "" (for_code c).
Definition with_phase (e : NousError) (p : string) : NousError :=
  mkNousError (code e) (message e) p (cause e) (retry e).
Definition with_cause (e : NousError) (c : string) : NousError :=
  mkNousError (code e) (message e) (failed_phase e) c (retry e).
Definition not_implemented (f : string) : NousError :=
  nous_error NotImplemented ("NOT_IMPLEMENTED: " +:+ f).
Definition not_supported (f : string) : NousError :=
  nous_error NotSupported ("NOT_SUPPORTED: " +:+ f).
Definition backend_unavailable (b : string) : NousError :=
  nous_error BackendUnavailable ("BACKEND_UNAVAILABLE: " +:+ b).
Definition incompatible_error (d : string) : NousError :=
  nous_error BackendIncompatible ("INCOMPATIBLE: " +:+ d).

(** [Display] of [NousError]: ["{code:?}: {message}"]. *)
Definition nous_error_to_string (e : NousError) : string :=
  code_name (code e) +:+ ": " +:+ message e.

(** ** [KernelError] *)

Inductive KernelError : Type :=
| KJournal (m : string)
| KProvider (m : string)
| KSerialization (m : string)
| KUnsafeRecovery (m : string)
| KCancelled (m : string)
| KDeadlineExceeded (m : string)
| KAdmission (m : string)
| KScheduling (m : string)
| KResource (m : string)
| KShuttingDown.

#[global] Instance KernelError_eq_dec : EqDecision KernelError.
Proof. solve_decision. Defined.

(** [Display] of [KernelError]. *)
Definition kernel_error_text (e : KernelError) : string :=
  match e with
  | KJournal m => "journal error: " +:+ m
  | KProvider m => "provider process error: " +:+ m
  | KSerialization m => "serialization error: " +:+ m
  | KUnsafeRecovery m => "unsafe recovery for operation " +:+ m
  | KCancelled m => "operation cancelled: " +:+ m
  | KDeadlineExceeded m => "operation deadline exceeded: " +:+ m
  | KAdmission m => "admission denied: " +:+ m
  | KScheduling m => "scheduling failed: " +:+ m
  | KResource m => "resource error: " +:+ m
  | KShuttingDown => "kernel is shutting down"
  end.

(** [KernelError::code]. *)
Definition kernel_error_code (e : KernelError) : string :=
  match e with
  | KJournal _ => "JOURNAL_ERROR"
  | KProvider _ => "PROVIDER_ERROR"
  | KSerialization _ => "SERIALIZATION_ERROR"
  | KUnsafeRecovery _ => "UNSAFE_RECOVERY"
  | KCancelled _ => "OPERATION_CANCELLED"
  | KDeadlineExceeded _ => "DEADLINE_EXCEEDED"
  | KAdmission _ => "ADMISSION_DENIED"
  | KScheduling _ => "NO_FEASIBLE_PLACEMENT"
  | KResource _ => "RESOURCE_ERROR"
  | KShuttingDown => "KERNEL_SHUTTING_DOWN"
  end.

(** [KernelError::category]. *)
Definition kernel_error_category (e : KernelError) : string :=
  match e with
  | KJournal _ | KSerialization _ => "state"
  | KProvider _ => "provider"
  | KUnsafeRecovery _ | KCancelled _ | KDeadlineExceeded _ | KShuttingDown => "execution"
  | KAdmission _ | KResource _ => "resource"
  | KScheduling _ => "scheduler"
  end.

(** [KernelError::retryable]. *)
Definition kernel_error_retryable (e : KernelError) : bool :=
  match e with
  | KProvider _ | KResource _ | KDeadlineExceeded _ => true
  | _ => false
  end.

(** [KernelError::source_component]. *)
Definition source_component (e : KernelError) : string :=
  match e with
  | KJournal _ | KSerialization _ => "nous-state"
  | KProvider _ => "provider-runtime"
  | KScheduling _ => "nous-scheduler"
  | KAdmission _ | KResource _ => "nous-resource"
  | KUnsafeRecovery _ | KCancelled _ | KDeadlineExceeded _ | KShuttingDown =>
      "nous-kernel-core"
  end.

(** [error.to_string()] carried by the journal errors of the execution core. *)
Definition journal_error (e : NousError) : KernelError := KJournal (nous_error_to_string e).
Definition resource_error (e : NousError) : KernelError := KResource (nous_error_to_string e).

(** The hint of a fresh error agrees with its code, and a hint that forbids
    retrying never recommends a delay or an attempt. *)
Lemma for_code_consistent c :
  retryable (for_code c) = is_retryable c ∧
  (retryable (for_code c) = false → for_code c = retry_never).
Proof. unfold for_code. destruct (is_retryable c); simpl; naive_solver. Qed.

(** Wire discriminants identify a code. *)
Lemma code_number_inj c d : code_number c = code_number d → c = d.
Proof. destruct c, d; simpl; congruence. Qed.
