(* ===== verification/Micro.v ===== *)
(** * The micro runtime

    [micro/src/nous_micro.c] with [micro/include/nous_micro.h]: the runtime for
    microcontrollers. Frames of the micro protocol are checked, kept in a ring of
    fixed size and, one per tick, shown to a safety gate and then to an effector. A
    null pointer is [None]; the two callbacks are functions of the frame and of the
    caller's context, which they may change, and do not call the runtime. *)

From S2P Require Import Prelude.
Local Open Scope Z_scope.

(** ** Data *)

Definition NOUS_NMP_MAGIC : Z := 1313689649.
Definition NOUS_NMP_VERSION : Z := 1.
Definition NOUS_MICRO_ABI_VERSION : Z := 1.
Definition NOUS_MICRO_QUEUE_CAPACITY : Z := 8.
Definition NOUS_MICRO_PAYLOAD_CAPACITY : Z := 256.

Inductive micro_result : Type := MicroOk | MicroInvalid | MicroQueueFull | MicroSafetyDenied | MicroEffectFailed.
Definition micro_code (r : micro_result) : Z :=
  match r with
  | MicroOk => 0 | MicroInvalid => -1 | MicroQueueFull => -2 | MicroSafetyDenied => -3
  | MicroEffectFailed => -4
  end.

Record nmp_frame : Type := mkFrame {
  fr_magic : Z;
  fr_version : Z;
  fr_message_type : Z;
  fr_flags : Z;
  fr_sequence : Z;
  fr_payload_length : Z;
  fr_payload : list Z;
  fr_checksum : Z
}.
(** A frame of zeroes, as [memset] leaves it. *)
Definition zero_frame : nmp_frame := mkFrame 0 0 0 0 0 0 (replicate 256 0) 0.

Definition gate_fn (C : Type) : Type := nmp_frame → C → Z * C.
Record micro_runtime (C : Type) : Type := mkMicro {
  mr_struct_size : Z;
  mr_abi_version : Z;
  mr_queue : list nmp_frame;
  mr_head : Z;
  mr_tail : Z;
  mr_count : Z;
  mr_safety_gate : gate_fn C;
  mr_effector : gate_fn C;
  mr_context : C
}.
Arguments mkMicro {C} _ _ _ _ _ _ _ _ _.
Arguments mr_struct_size {C} _.
Arguments mr_abi_version {C} _.
Arguments mr_queue {C} _.
Arguments mr_head {C} _.
Arguments mr_tail {C} _.
Arguments mr_count {C} _.
Arguments mr_safety_gate {C} _.
Arguments mr_effector {C} _.
Arguments mr_context {C} _.

(** ** Operations *)

Definition wrap8 (z : Z) : Z := z mod 2 ^ 8.

(** One step of the hash: exclusive or, then a product modulo 2^32. *)
Definition fnv_prime : Z := 16777619.
Definition fnv_step (hash x : Z) : Z := wrap32 (Z.lxor hash x * fnv_prime).
Definition hashed (f : nmp_frame) : list Z :=
  [fr_message_type f; fr_flags f; wrap32 (fr_sequence f); wrap32 (Z.shiftr (fr_sequence f) 32)]
  ++ take (Z.to_nat (fr_payload_length f)) (fr_payload f).
(** [nous_nmp_checksum_v1]. *)
Definition nmp_checksum (frame : option nmp_frame) : Z :=
  match frame with
  | None => 0
  | Some f =>
      if NOUS_MICRO_PAYLOAD_CAPACITY <? fr_payload_length f then 0
      else foldl fnv_step 2166136261 (hashed f)
  end.

(** The layout of the two structures, for pointers of [ptr] bytes and 64-bit integers
    aligned to [al] bytes; [nous_nmp_frame_bytes_v1] and
    [nous_micro_static_bytes_v1]. *)
Definition align (n a : Z) : Z := (n + a - 1) / a * a.
Definition nmp_frame_bytes (al : Z) : Z :=
  let sequence := align (4 + 2 + 2 + 4) al in
  let payload := sequence + 8 + 2 in
  let checksum := align (payload + NOUS_MICRO_PAYLOAD_CAPACITY) 4 in
  align (checksum + 4) al.
Definition micro_static_bytes (ptr al : Z) : Z :=
  let queue := align (4 + 4) al in
  let head := queue + NOUS_MICRO_QUEUE_CAPACITY * nmp_frame_bytes al in
  let safety_gate := align (head + 3) ptr in
  align (safety_gate + 3 * ptr) (Z.max ptr al).

Section Micro.
Context {C : Type} (size : Z).

(** [nous_micro_init_v1]; the runtime is null, or whatever was in its memory. *)
Definition micro_init (runtime : option (micro_runtime C)) (gate effector : option (gate_fn C))
    (context : C) : micro_result * option (micro_runtime C) :=
  match runtime, gate, effector with
  | Some _, Some g, Some f =>
      (MicroOk, Some (mkMicro size NOUS_MICRO_ABI_VERSION (replicate 8 zero_frame) 0 0 0 g f context))
  | _, _, _ => (MicroInvalid, runtime)
  end.

Definition frame_ok (f : nmp_frame) : bool :=
  (fr_magic f =? NOUS_NMP_MAGIC) && (fr_version f =? NOUS_NMP_VERSION)
  && negb (NOUS_MICRO_PAYLOAD_CAPACITY <? fr_payload_length f)
  && (fr_checksum f =? nmp_checksum (Some f)).
Definition runtime_ok (r : micro_runtime C) : bool :=
  (mr_struct_size r =? size) && (mr_abi_version r =? NOUS_MICRO_ABI_VERSION).

(** [nous_micro_submit_v1]. *)
Definition micro_submit (runtime : option (micro_runtime C)) (frame : option nmp_frame) :
    micro_result * option (micro_runtime C) :=
  match runtime, frame with
  | Some r, Some f =>
      if negb (runtime_ok r && frame_ok f) then (MicroInvalid, runtime)
      else if mr_count r =? NOUS_MICRO_QUEUE_CAPACITY then (MicroQueueFull, runtime)
      else (MicroOk, Some (mkMicro (mr_struct_size r) (mr_abi_version r)
              (<[Z.to_nat (mr_tail r) := f]> (mr_queue r)) (mr_head r)
              ((mr_tail r + 1) mod NOUS_MICRO_QUEUE_CAPACITY) (wrap8 (mr_count r + 1))
              (mr_safety_gate r) (mr_effector r) (mr_context r)))
  | _, _ => (MicroInvalid, runtime)
  end.

(** [nous_micro_tick_v1]. *)
Definition micro_tick (runtime : option (micro_runtime C)) :
    micro_result * option (micro_runtime C) :=
  match runtime with
  | Some r =>
      if negb (runtime_ok r) || (mr_count r =? 0) then (MicroInvalid, runtime)
      else
        let f := default zero_frame (mr_queue r !! Z.to_nat (mr_head r)) in
        let '(allowed, c1) := mr_safety_gate r f (mr_context r) in
        let '(result, c2) :=
          if allowed =? 0 then (MicroSafetyDenied, c1)
          else
            let '(failed, c2) := mr_effector r f c1 in
            (if negb (failed =? 0) then MicroEffectFailed else MicroOk, c2) in
        (result, Some (mkMicro (mr_struct_size r) (mr_abi_version r) (mr_queue r)
           ((mr_head r + 1) mod NOUS_MICRO_QUEUE_CAPACITY) (mr_tail r) (wrap8 (mr_count r - 1))
           (mr_safety_gate r) (mr_effector r) c2))
  | None => (MicroInvalid, runtime)
  end.
End Micro.

(** ** The ring is a queue *)

Section Ring.
Context {C : Type} (size : Z).
Local Abbreviation runtime := (micro_runtime C).

Record ring_ok (r : runtime) : Prop := {
  ro_queue : length (mr_queue r) = 8%nat;
  ro_head : 0 ≤ mr_head r < 8;
  ro_count : 0 ≤ mr_count r ≤ 8;
  ro_tail : mr_tail r = (mr_head r + mr_count r) mod 8
}.

(** The frames in the order they leave. *)
Definition slot (r : runtime) (i : nat) : nmp_frame :=
  default zero_frame (mr_queue r !! Z.to_nat ((mr_head r + Z.of_nat i) mod 8)).
Definition contents (r : runtime) : list nmp_frame := slot r <$> seq 0 (Z.to_nat (mr_count r)).

Lemma contents_length r : length (contents r) = Z.to_nat (mr_count r).
Proof. unfold contents. by rewrite length_fmap, length_seq. Qed.

Lemma slots_distinct h i n :
  0 ≤ h < 8 → 0 ≤ i < n → n < 8 → (h + i) mod 8 ≠ (h + n) mod 8.
Proof. intros. Z.to_euclidean_division_equations. lia. Qed.

(** A submission that is accepted appends the frame. *)
Lemma submit_contents r f r' :
  ring_ok r → micro_submit size (Some r) (Some f) = (MicroOk, Some r') →
  ring_ok r' ∧ contents r' = contents r ++ [f] ∧ frame_ok f = true ∧
  mr_safety_gate r' = mr_safety_gate r ∧ mr_effector r' = mr_effector r ∧
  mr_context r' = mr_context r.
Proof.
  intros [Hq Hh Hc Ht]. unfold micro_submit, NOUS_MICRO_QUEUE_CAPACITY.
  destruct (runtime_ok size r && frame_ok f) eqn:Hok; [|done]. apply andb_true_iff in Hok as [_ Hf].
  simpl. destruct (mr_count r =? 8) eqn:Hfull; [done|]. apply Z.eqb_neq in Hfull. intros [= <-].
  assert (wrap8 (mr_count r + 1) = mr_count r + 1) as Hw by (unfold wrap8; apply Z.mod_small; lia).
  split_and!; [|..|done|done|done|done].
  { split; simpl; rewrite ?Hw; [by rewrite length_insert|lia|lia|]. rewrite Ht.
    Z.to_euclidean_division_equations. lia. }
  unfold contents. simpl. rewrite Hw.
  replace (Z.to_nat (mr_count r + 1)) with (S (Z.to_nat (mr_count r))) by lia.
  rewrite seq_S, fmap_app. f_equal.
  - apply list_fmap_ext. intros k i Hk%lookup_seq. unfold slot. simpl.
    rewrite list_lookup_insert_ne; [done|].
    pose proof (slots_distinct (mr_head r) (Z.of_nat i) (mr_count r)). rewrite Ht.
    intros E. apply Z2Nat.inj in E; [lia|Z.to_euclidean_division_equations; lia..].
  - simpl. unfold slot. simpl. rewrite Z2Nat.id by lia. rewrite <- Ht.
    rewrite list_lookup_insert_eq; [done|]. rewrite Hq, Ht.
    Z.to_euclidean_division_equations. lia.
Qed.

(** A tick shows the first frame to the gate and drops it. *)
Definition served (r : runtime) (f : nmp_frame) : micro_result * C :=
  let '(allowed, c1) := mr_safety_gate r f (mr_context r) in
  if allowed =? 0 then (MicroSafetyDenied, c1)
  else let '(failed, c2) := mr_effector r f c1 in
       (if negb (failed =? 0) then MicroEffectFailed else MicroOk, c2).
Lemma tick_contents r f rest :
  ring_ok r → runtime_ok size r = true → contents r = f :: rest →
  ∃ r', micro_tick size (Some r) = ((served r f).1, Some r') ∧ ring_ok r' ∧ contents r' = rest ∧
    mr_safety_gate r' = mr_safety_gate r ∧ mr_effector r' = mr_effector r ∧
    mr_context r' = (served r f).2 ∧ runtime_ok size r' = true.
Proof.
  intros [Hq Hh Hc Ht] Hok Hcont. pose proof (contents_length r) as Hl. rewrite Hcont in Hl. simpl in Hl.
  unfold micro_tick. rewrite Hok. simpl. rewrite (proj2 (Z.eqb_neq (mr_count r) 0)) by lia.
  assert (wrap8 (mr_count r - 1) = mr_count r - 1) as Hw by (unfold wrap8; apply Z.mod_small; lia).
  unfold contents in Hcont. rewrite <- Hl in Hcont. simpl in Hcont. injection Hcont as Hf Hrest.
  unfold slot in Hf. rewrite Z.add_0_r, Z.mod_small in Hf by lia. rewrite Hf.
  unfold served. destruct (mr_safety_gate r f (mr_context r)) as [allowed c1].
  set (res := if allowed =? 0 then _ else _). destruct res as [result c2] eqn:Hres.
  eexists. split; [reflexivity|]. unfold NOUS_MICRO_QUEUE_CAPACITY. split_and!; [| |done..].
  - split; simpl; rewrite ?Hw; [done|Z.to_euclidean_division_equations; lia|lia|]. rewrite Ht.
    Z.to_euclidean_division_equations. lia.
  - unfold contents. simpl. rewrite Hw. replace (Z.to_nat (mr_count r - 1)) with (length rest) by lia.
    transitivity (slot r <$> seq 1 (length rest)); [|exact Hrest].
    rewrite <- fmap_S_seq, <- list_fmap_compose. apply list_fmap_ext. intros k i _.
    unfold slot. simpl. do 3 f_equal. rewrite Zplus_mod_idemp_l. f_equal. lia.
Qed.

(** *** The specification *)

(** A bounded first-in first-out queue of checked frames, each shown once to the gate
    and, if that allows it, to the effector. *)
Record QueueSpec : Type := mkSpec { sp_frames : list nmp_frame; sp_context : C }.
Section Spec.
Context (gate effector : gate_fn C).
Definition serve (f : nmp_frame) (c : C) : micro_result * C :=
  let '(allowed, c1) := gate f c in
  if allowed =? 0 then (MicroSafetyDenied, c1)
  else let '(failed, c2) := effector f c1 in
       (if failed =? 0 then MicroOk else MicroEffectFailed, c2).
Inductive micro_op : Type := Submit (frame : option nmp_frame) | Tick.
Definition spec_step (op : micro_op) (s : QueueSpec) : micro_result * QueueSpec :=
  match op with
  | Submit (Some f) =>
      if negb (frame_ok f) then (MicroInvalid, s)
      else if bool_decide (length (sp_frames s) = 8%nat) then (MicroQueueFull, s)
      else (MicroOk, mkSpec (sp_frames s ++ [f]) (sp_context s))
  | Submit None => (MicroInvalid, s)
  | Tick =>
      match sp_frames s with
      | [] => (MicroInvalid, s)
      | f :: rest => let '(res, c) := serve f (sp_context s) in (res, mkSpec rest c)
      end
  end.
End Spec.

Definition micro_step (op : micro_op) (r : option runtime) : micro_result * option runtime :=
  match op with Submit f => micro_submit size r f | Tick => micro_tick size r end.
(** Operations in a row, with their results. *)
Fixpoint run_ops {S} (step : micro_op → S → micro_result * S) (ops : list micro_op) (s : S) :
    list micro_result * S :=
  match ops with
  | [] => ([], s)
  | op :: ops' =>
      let '(res, s1) := step op s in
      let '(results, s2) := run_ops step ops' s1 in (res :: results, s2)
  end.

(** A runtime that stands for a state of the queue. *)
Record represents (gate effector : gate_fn C) (s : QueueSpec) (r : runtime) : Prop := {
  rp_ring : ring_ok r;
  rp_ok : runtime_ok size r = true;
  rp_gate : mr_safety_gate r = gate;
  rp_effector : mr_effector r = effector;
  rp_frames : contents r = sp_frames s;
  rp_context : mr_context r = sp_context s
}.

Lemma micro_step_simulates gate effector op s r :
  represents gate effector s r →
  ∃ r', micro_step op (Some r) = ((spec_step gate effector op s).1, Some r') ∧
    represents gate effector (spec_step gate effector op s).2 r'.
Proof.
  intros [Hring Hok Hg He Hf Hc]. pose proof (contents_length r) as Hl. rewrite Hf in Hl.
  pose proof (ro_count _ Hring). destruct op as [[f|]|]; simpl.
  - unfold micro_submit. rewrite Hok. destruct (frame_ok f) eqn:Hfo; simpl; [|by exists r].
    assert ((mr_count r =? NOUS_MICRO_QUEUE_CAPACITY) = bool_decide (length (sp_frames s) = 8%nat)) as Hfull.
    { rewrite Hl. unfold NOUS_MICRO_QUEUE_CAPACITY. apply eq_bool_prop_intro.
      rewrite bool_decide_spec, Is_true_true, Z.eqb_eq. lia. }
    destruct (mr_count r =? _) eqn:Hn; rewrite <- Hfull; simpl; [by exists r|].
    eexists. split; [reflexivity|].
    match goal with |- represents _ _ _ ?r' =>
      destruct (submit_contents r f r') as (Hr' & Hcont & _ & Hg' & He' & Hc'); [done| |] end.
    { unfold micro_submit. rewrite Hok, Hfo. simpl. by rewrite Hn. }
    split; simpl in *; [done|by unfold runtime_ok in *|congruence..].
  - by exists r.
  - destruct (sp_frames s) as [|f rest] eqn:Hs.
    + exists r. unfold micro_tick. rewrite Hok. simpl in Hl.
      rewrite (proj2 (Z.eqb_eq (mr_count r) 0)) by lia. split; [done|]. split; try done; simpl. by rewrite Hs.
    + destruct (tick_contents r f rest Hring Hok Hf) as (r' & Ht & Hr' & Hcont & Hg' & He' & Hc' & Hok').
      assert (served r f = serve gate effector f (sp_context s)) as Hsv.
      { unfold served, serve. rewrite Hg, He, Hc. destruct (gate f (sp_context s)) as [a c1].
        destruct (a =? 0); [done|]. destruct (effector f c1) as [b c2]. by destruct (b =? 0). }
      exists r'. rewrite Hsv in *. destruct (serve _ _ _ _) as [res c]. split; [done|].
      split; simpl in *; congruence.
Qed.

(** C34: The micro runtime is a bounded queue. Initialised with a gate and an effector,
    any sequence of submissions and ticks gives the results of a first-in first-out
    queue of at most eight frames that passed the checks, and leaves the callbacks'
    context as that queue does: every accepted frame is shown to the gate once and in
    order, to the effector exactly when the gate allowed it, and a refused one never. *)
Theorem micro_refines_queue mem gate effector context ops :
  let r0 := (micro_init size (Some mem) (Some gate) (Some effector) context).2 in
  let '(results, r) := run_ops micro_step ops r0 in
  let '(expected, s) := run_ops (spec_step gate effector) ops (mkSpec [] context) in
  results = expected ∧ ∃ r', r = Some r' ∧ ring_ok r' ∧ contents r' = sp_frames s ∧
    mr_context r' = sp_context s.
Proof.
  simpl. assert (∀ ops s r, represents gate effector s r →
    let '(results, r1) := run_ops micro_step ops (Some r) in
    let '(expected, s1) := run_ops (spec_step gate effector) ops s in
    results = expected ∧ ∃ r', r1 = Some r' ∧ represents gate effector s1 r') as Hrun.
  { clear ops. intros ops. induction ops as [|op ops IH]; intros s r Hr; simpl; [by eauto|].
    destruct (micro_step_simulates gate effector op s r Hr) as (r' & -> & Hr').
    destruct (spec_step gate effector op s) as [res s']. simpl in *. specialize (IH s' r' Hr').
    destruct (run_ops micro_step ops (Some r')), (run_ops _ ops s'). destruct IH as [-> IH]. by split. }
  specialize (Hrun ops (mkSpec [] context) (mkMicro size NOUS_MICRO_ABI_VERSION
    (replicate 8 zero_frame) 0 0 0 gate effector context)).
  destruct (run_ops micro_step _ _), (run_ops _ _ _). destruct Hrun as [-> (r' & -> & [])].
  - split; try done. unfold runtime_ok. simpl. by rewrite Z.eqb_refl.
  - split; [done|]. by exists r'.
Qed.
End Ring.

(** ** Alterations on the wire *)

Definition word (x : Z) : Prop := 0 ≤ x < 2 ^ 32.
Lemma wrap32_word z : word (wrap32 z).
Proof. unfold word, wrap32. apply Z.mod_pos_bound. lia. Qed.
Lemma lxor_word a b : word a → word b → word (Z.lxor a b).
Proof.
  unfold word. intros Ha Hb.
  assert (0 ≤ Z.lxor a b) by (apply Z.lxor_nonneg; lia). split; [done|].
  destruct (Z.eq_dec (Z.lxor a b) 0) as [->|Hne]; [lia|]. apply Z.log2_lt_pow2; [lia|].
  pose proof (Z.log2_lxor a b ltac:(lia) ltac:(lia)) as Hl.
  assert (∀ z, 0 ≤ z < 2 ^ 32 → Z.log2 z < 32) as Hlog.
  { intros z Hz. destruct (Z.eq_dec z 0) as [->|]; [done|]. apply Z.log2_lt_pow2; lia. }
  pose proof (Hlog a Ha). pose proof (Hlog b Hb). lia.
Qed.
(** The multiplier is odd: products with it are told apart. *)
Lemma fnv_mul_inj a b : word a → word b → wrap32 (a * fnv_prime) = wrap32 (b * fnv_prime) → a = b.
Proof.
  unfold word, wrap32, fnv_prime. intros Ha Hb E.
  assert (∀ z, 0 ≤ z < 2 ^ 32 → (z * 16777619) mod 2 ^ 32 * 899433627 mod 2 ^ 32 = z) as Hinv.
  { intros z Hz. rewrite Zmult_mod_idemp_l, <- Z.mul_assoc.
    rewrite <- Zmult_mod_idemp_r. change (16777619 * 899433627 mod 2 ^ 32) with 1.
    rewrite Z.mul_1_r. by apply Z.mod_small. }
  rewrite <- (Hinv a Ha), <- (Hinv b Hb). by rewrite E.
Qed.
Lemma lxor_inj h x y : Z.lxor h x = Z.lxor h y → x = y.
Proof.
  intros E. rewrite <- (Z.lxor_0_l x), <- (Z.lxor_0_l y), <- (Z.lxor_nilpotent h).
  by rewrite !Z.lxor_assoc, E.
Qed.
Lemma fnv_step_word h x : word (fnv_step h x).
Proof. apply wrap32_word. Qed.
Lemma fnv_step_inj h h' x x' :
  word h → word h' → word x → word x' → (h = h' ∨ x = x') → fnv_step h x = fnv_step h' x' →
  h = h' ∧ x = x'.
Proof.
  intros Hh Hh' Hx Hx' Hor E. apply fnv_mul_inj in E; [|by apply lxor_word..].
  destruct Hor as [-> | ->]; [by apply lxor_inj in E|].
  rewrite (Z.lxor_comm h), (Z.lxor_comm h') in E. by apply lxor_inj in E.
Qed.
Lemma fnv_fold_word l h : word h → word (foldl fnv_step h l).
Proof. revert h. induction l as [|x l IH]; intros h Hh; [done|]. apply IH, fnv_step_word. Qed.
Lemma fnv_fold_inj l h h' :
  Forall word l → word h → word h' → foldl fnv_step h l = foldl fnv_step h' l → h = h'.
Proof.
  intros Hl. revert h h'. induction Hl as [|x l Hx _ IH]; intros h h' Hh Hh' E; [done|].
  apply IH in E; [|apply fnv_step_word..]. apply fnv_step_inj in E as [E _]; [done..|by right].
Qed.
(** One word changed, the hash changes. *)
Lemma fnv_one_word a x x' b h :
  word h → word x → word x' → Forall word b → x ≠ x' →
  foldl fnv_step h (a ++ x :: b) ≠ foldl fnv_step h (a ++ x' :: b).
Proof.
  intros Hh Hx Hx' Hb Hne E. rewrite !foldl_app in E. simpl in E.
  apply fnv_fold_inj in E; [|done|apply fnv_step_word..].
  apply fnv_step_inj in E; [naive_solver|by apply fnv_fold_word..|done|done|by left].
Qed.

(** The ranges of the fields. *)
Record frame_wf (f : nmp_frame) : Prop := {
  fw_type : 0 ≤ fr_message_type f < 2 ^ 16;
  fw_flags : word (fr_flags f);
  fw_sequence : 0 ≤ fr_sequence f < 2 ^ 64;
  fw_length : 0 ≤ fr_payload_length f < 2 ^ 16;
  fw_payload : Forall (λ b, 0 ≤ b < 2 ^ 8) (fr_payload f);
  fw_capacity : length (fr_payload f) = 256%nat
}.

(** A frame with one thing changed: its type, its flags, one half of its sequence
    number, or one byte of its payload. *)
Inductive altered (f : nmp_frame) : nmp_frame → Prop :=
| AltType t : t ≠ fr_message_type f →
    altered f (mkFrame (fr_magic f) (fr_version f) t (fr_flags f) (fr_sequence f)
                 (fr_payload_length f) (fr_payload f) (fr_checksum f))
| AltFlags t : t ≠ fr_flags f →
    altered f (mkFrame (fr_magic f) (fr_version f) (fr_message_type f) t (fr_sequence f)
                 (fr_payload_length f) (fr_payload f) (fr_checksum f))
| AltSequence s :
    (wrap32 s = wrap32 (fr_sequence f) ∧ wrap32 (Z.shiftr s 32) ≠ wrap32 (Z.shiftr (fr_sequence f) 32)) ∨
    (wrap32 s ≠ wrap32 (fr_sequence f) ∧ wrap32 (Z.shiftr s 32) = wrap32 (Z.shiftr (fr_sequence f) 32)) →
    altered f (mkFrame (fr_magic f) (fr_version f) (fr_message_type f) (fr_flags f) s
                 (fr_payload_length f) (fr_payload f) (fr_checksum f))
| AltByte i old b : fr_payload f !! i = Some old → (i < Z.to_nat (fr_payload_length f))%nat → b ≠ old →
    altered f (mkFrame (fr_magic f) (fr_version f) (fr_message_type f) (fr_flags f) (fr_sequence f)
                 (fr_payload_length f) (<[i := b]> (fr_payload f)) (fr_checksum f)).

Lemma hashed_words f : frame_wf f → Forall word (hashed f).
Proof.
  intros []. unfold hashed, word in *. repeat apply Forall_cons_2; [lia|done|apply wrap32_word..|].
  apply Forall_take. eapply Forall_impl; [done|]. simpl. lia.
Qed.
(** Such a change is in one word of what is hashed. *)
Lemma altered_hashed f f' :
  frame_wf f → altered f f' →
  ∃ a x x' b, hashed f = a ++ x :: b ∧ hashed f' = a ++ x' :: b ∧ x ≠ x'.
Proof.
  intros Hf [t Ht|t Ht|s [[Hl Hh]|[Hl Hh]]|i old b Hi Hlt Hne]; unfold hashed; simpl.
  - by eexists [], _, _, _.
  - by eexists [_], _, _, _.
  - eexists [_; _; _], _, _, _. rewrite Hl. by split_and!.
  - eexists [_; _], _, _, _. rewrite Hh. by split_and!.
  - exists ([fr_message_type f; fr_flags f; wrap32 (fr_sequence f); wrap32 (Z.shiftr (fr_sequence f) 32)]
            ++ take i (take (Z.to_nat (fr_payload_length f)) (fr_payload f))), old, b,
      (drop (S i) (take (Z.to_nat (fr_payload_length f)) (fr_payload f))).
    assert (take (Z.to_nat (fr_payload_length f)) (fr_payload f) !! i = Some old) as Hi'
      by (by rewrite lookup_take_lt).
    split_and!; [| |done].
    + simpl. do 4 f_equal. by rewrite take_drop_middle.
    + simpl. do 4 f_equal. rewrite take_insert_lt by done. rewrite insert_take_drop; [done|].
      by apply lookup_lt_Some in Hi'.
Qed.

(** An altered frame is not accepted. If a frame passes the checks, then with its
    type, its flags, either half of its sequence number or any one byte of its payload
    changed on the way it is refused, and the runtime is as it was. *)
Theorem altered_frame_refused {C} size (r : option (micro_runtime C)) f f' :
  frame_wf f → frame_wf f' → frame_ok f = true → altered f f' →
  micro_submit size r (Some f') = (MicroInvalid, r).
Proof.
  intros Hf Hf' Hok Halt. destruct r as [r|]; [|done]. unfold micro_submit.
  assert (frame_ok f' = false) as ->; [|by rewrite andb_false_r].
  destruct (altered_hashed f f' Hf Halt) as (a & x & x' & b & E & E' & Hne).
  pose proof (hashed_words f Hf) as Hw. pose proof (hashed_words f' Hf') as Hw'. rewrite E in Hw.
  rewrite E' in Hw'. apply Forall_app in Hw as [_ [Hx Hb]%Forall_cons].
  apply Forall_app in Hw' as [_ [Hx' _]%Forall_cons].
  unfold frame_ok in *. apply andb_true_iff in Hok as [Hok Hsum%Z.eqb_eq].
  apply andb_true_iff in Hok as [_ Hlen%negb_true_iff]. apply andb_false_iff. right. apply Z.eqb_neq.
  assert (fr_checksum f' = fr_checksum f ∧ fr_payload_length f' = fr_payload_length f) as [-> Hl]
    by by destruct Halt.
  rewrite Hsum. unfold nmp_checksum. rewrite Hl, Hlen, E, E'.
  apply fnv_one_word; [by vm_compute|done..].
Qed.

(** ** A frame *)

Definition ex_frame_body : nmp_frame :=
  mkFrame NOUS_NMP_MAGIC NOUS_NMP_VERSION 1 0 1 1 (42 :: replicate 255 0) 0.
Definition ex_frame : nmp_frame :=
  mkFrame NOUS_NMP_MAGIC NOUS_NMP_VERSION 1 0 1 1 (42 :: replicate 255 0)
    (nmp_checksum (Some ex_frame_body)).
Definition ex_flipped : nmp_frame :=
  mkFrame NOUS_NMP_MAGIC NOUS_NMP_VERSION 1 0 1 1 (43 :: replicate 255 0)
    (nmp_checksum (Some ex_frame_body)).
Definition ex_gate : gate_fn nat := λ f n, (1, n).
Definition ex_effector : gate_fn nat := λ f n, (0, S n).
Definition ex_micro : option (micro_runtime nat) :=
  Some (mkMicro 2344 1 (replicate 8 zero_frame) 0 0 0 ex_gate ex_effector 0%nat).

Lemma ex_frame_wf : frame_wf ex_frame ∧ frame_wf ex_flipped.
Proof.
  split; split; try (by vm_compute); unfold ex_frame, ex_flipped; cbn [fr_payload];
    apply Forall_cons_2; try lia; apply Forall_replicate; lia.
Qed.
Lemma altered_frame_refused_witness :
  frame_ok ex_frame = true ∧ micro_submit 2344 ex_micro (Some ex_flipped) = (MicroInvalid, ex_micro).
Proof.
  split; [vm_compute; reflexivity|].
  apply (altered_frame_refused 2344 ex_micro ex_frame ex_flipped).
  - apply ex_frame_wf.
  - apply ex_frame_wf.
  - vm_compute. reflexivity.
  - apply (AltByte ex_frame 0%nat 42 43); [reflexivity|vm_compute; lia|lia].
Defined.

(** The cycle of the test: one frame through gate and effector. The sizes stay within
    the four kilobytes that are asked for. *)
Example one_cycle :
  let '(results, r) := run_ops (micro_step 2344) [Tick; Submit (Some ex_frame); Tick; Tick] ex_micro in
  results = [MicroInvalid; MicroOk; MicroOk; MicroInvalid] ∧ (mr_context <$> r) = Some 1%nat.
Proof. vm_compute. by split. Qed.
Example sizes :
  nmp_frame_bytes 8 = 288 ∧ micro_static_bytes 8 8 = 2344 ∧ micro_static_bytes 4 8 = 2328 ∧
  micro_static_bytes 4 4 ≤ 4096.
Proof. by vm_compute. Qed.
