(* ===== verification/Cancellation.v ===== *)
(** * Cancellation tokens

    [crates/nous-kernel-core/src/cancellation.rs]: a shared flag and a
    notification. Any number of tasks cancel the token and wait for it, and their
    atomic steps interleave. The notification primitive is the runtime library's:
    it is an interface here, with what its documentation promises as laws. *)

From S2P Require Import Prelude.

(** ** The notification primitive *)

(** Where a waiter's registration stands. *)
Inductive Registration : Type := Absent | Waiting | Woken.
#[global] Instance Registration_eq_dec : EqDecision Registration.
Proof. solve_decision. Defined.

Class Notify (N : Type) : Type := {
  notify_new : N;
  registration : N → nat → Registration;
  enable : nat → N → N;
  drop_notified : nat → N → N;
  notify_waiters : N → N
}.

(** Enabling registers a waiter, [notify_waiters] wakes every registered one and
    leaves nothing for later ones, dropping the future ends the registration, and
    no waiter affects another. *)
Class NotifyLaws (N : Type) `{Notify N} : Prop := {
  registration_new i : registration notify_new i = Absent;
  registration_enable i n : registration (enable i n) i = Waiting;
  registration_enable_ne i j n : i ≠ j → registration (enable i n) j = registration n j;
  registration_drop i n : registration (drop_notified i n) i = Absent;
  registration_drop_ne i j n : i ≠ j → registration (drop_notified i n) j = registration n j;
  registration_notify i n :
    registration (notify_waiters n) i
    = match registration n i with Waiting => Woken | r => r end
}.

Section Token.
Context {N : Type} `{Notify N}.

(** ** The token *)

(** Where a call of [cancelled] stands: before it enables its notification,
    before it looks at the flag, awaiting the notification, returned. *)
Inductive WaiterPc : Type := AtEnable | AtCheck | Parked | Returned.

(** The flag, the notification, the calls of [cancel] that set the flag and have
    not notified yet, and the calls of [cancelled]. *)
Record Token : Type := mkToken {
  ct_cancelled : bool;
  ct_notification : N;
  ct_notifying : nat;
  ct_waiters : gmap nat WaiterPc
}.

Definition token_new : Token := mkToken false notify_new 0 ∅.

Definition is_cancelled (t : Token) : bool := ct_cancelled t.

(** [cancel], in its two atomic steps: the swap, and the notification by the call
    that found the flag down. *)
Definition cancel_swap (t : Token) : Token :=
  mkToken true (ct_notification t)
    (if ct_cancelled t then ct_notifying t else S (ct_notifying t)) (ct_waiters t).
Definition cancel_notify (t : Token) : option Token :=
  match ct_notifying t with
  | O => None
  | S n => Some (mkToken (ct_cancelled t) (notify_waiters (ct_notification t)) n (ct_waiters t))
  end.

(** [cancelled], one step of the call [i]; [None] if it cannot move. *)
Definition set_waiter (i : nat) (pc : WaiterPc) (n : N) (t : Token) : Token :=
  mkToken (ct_cancelled t) n (ct_notifying t) (<[i := pc]> (ct_waiters t)).
Definition wait_start (i : nat) (t : Token) : option Token :=
  match ct_waiters t !! i with
  | None => Some (set_waiter i AtEnable (ct_notification t) t)
  | Some _ => None
  end.
Definition waiter_turn (i : nat) (t : Token) : option Token :=
  match ct_waiters t !! i with
  | Some AtEnable => Some (set_waiter i AtCheck (enable i (ct_notification t)) t)
  | Some AtCheck =>
      if is_cancelled t
      then Some (set_waiter i Returned (drop_notified i (ct_notification t)) t)
      else Some (set_waiter i Parked (ct_notification t) t)
  | Some Parked =>
      if decide (registration (ct_notification t) i = Woken)
      then Some (set_waiter i AtEnable (drop_notified i (ct_notification t)) t)
      else None
  | _ => None
  end.

(** A future that is dropped, as the loser of a [select!] is. *)
Definition wait_drop (i : nat) (t : Token) : Token :=
  mkToken (ct_cancelled t) (drop_notified i (ct_notification t)) (ct_notifying t)
    (delete i (ct_waiters t)).

Inductive tstep : Token → Token → Prop :=
| TCancel t : tstep t (cancel_swap t)
| TNotify t t' : cancel_notify t = Some t' → tstep t t'
| TStart i t t' : wait_start i t = Some t' → tstep t t'
| TTurn i t t' : waiter_turn i t = Some t' → tstep t t'
| TDrop i t : tstep t (wait_drop i t).

(** Up to [n] steps of one call, with no other task running. *)
Fixpoint run_alone (n : nat) (i : nat) (t : Token) : Token :=
  match n with
  | O => t
  | S n' => match waiter_turn i t with Some t' => run_alone n' i t' | None => t end
  end.

(** ** No wake-up is lost *)

Context `{!NotifyLaws N}.

Definition waiter_ok (t : Token) (i : nat) (pc : WaiterPc) : Prop :=
  match pc with
  | AtEnable | AtCheck => True
  | Parked => registration (ct_notification t) i ≠ Absent ∧
              (ct_cancelled t = true → ct_notifying t = O →
               registration (ct_notification t) i = Woken)
  | Returned => ct_cancelled t = true
  end.
Definition checking (t : Token) (i : nat) : Prop :=
  ct_waiters t !! i = Some AtCheck → registration (ct_notification t) i ≠ Absent.
Record token_ok (t : Token) : Prop := {
  token_waiters : ∀ i pc, ct_waiters t !! i = Some pc → waiter_ok t i pc;
  token_checking : ∀ i, checking t i;
  token_notifying : (0 < ct_notifying t)%nat → ct_cancelled t = true
}.

Lemma token_new_ok : token_ok token_new.
Proof.
  split; [intros i pc Hl|intros i Hl|simpl; lia]; simpl in Hl; by rewrite lookup_empty in Hl.
Qed.

(** Only the waiter that moves, or no waiter, is touched. *)
Lemma set_waiter_ok i pc n t :
  token_ok t → (∀ j, i ≠ j → registration n j = registration (ct_notification t) j) →
  waiter_ok (set_waiter i pc n t) i pc → (pc = AtCheck → registration n i ≠ Absent) →
  token_ok (set_waiter i pc n t).
Proof.
  intros [Hw Hc Hn] Hr Hi Hci. split; [intros j q Hq|intros j Hq|done]; simpl in Hq.
  - destruct (decide (i = j)) as [<-|Hij].
    + rewrite lookup_insert_eq in Hq. by injection Hq as <-.
    + rewrite lookup_insert_ne in Hq by done. specialize (Hw j q Hq).
      destruct q; simpl in *; rewrite ?Hr by done; done.
  - simpl. destruct (decide (i = j)) as [<-|Hij].
    + rewrite lookup_insert_eq in Hq. apply Hci. by injection Hq.
    + rewrite lookup_insert_ne in Hq by done. rewrite Hr by done. by apply Hc.
Qed.

Lemma cancel_swap_ok t : token_ok t → token_ok (cancel_swap t).
Proof.
  intros [Hw Hc Hn]. split; [intros i pc Hl|done|done]. specialize (Hw i pc Hl).
  destruct pc; simpl in *; [done..| |done]. destruct Hw as [Ha Hw]. split; [done|].
  intros _. destruct (ct_cancelled t) eqn:E; [|done]. by apply Hw.
Qed.

Lemma cancel_notify_ok t t' : token_ok t → cancel_notify t = Some t' → token_ok t'.
Proof.
  intros [Hw Hc Hn]. unfold cancel_notify. destruct (ct_notifying t) as [|k] eqn:E; [done|].
  intros [= <-]. split; [intros i pc Hl|intros i Hl|].
  - specialize (Hw i pc Hl). destruct pc; simpl in *; [done..| |done].
    rewrite registration_notify. destruct Hw as [Ha _]. by destruct (registration _ i).
  - simpl in *. rewrite registration_notify. specialize (Hc i Hl). by destruct (registration _ i).
  - intros _. simpl. apply Hn. lia.
Qed.

Lemma waiter_turn_ok i t t' : token_ok t → waiter_turn i t = Some t' → token_ok t'.
Proof.
  intros Ht. unfold waiter_turn. destruct (ct_waiters t !! i) as [[]|] eqn:Hi; [| | |done..].
  - intros [= <-]. apply set_waiter_ok; [done| |done|].
    + intros. by apply registration_enable_ne.
    + intros _. by rewrite registration_enable.
  - unfold is_cancelled. destruct (ct_cancelled t) eqn:Hc; intros [= <-]; apply set_waiter_ok; try done.
    + intros. by apply registration_drop_ne.
    + split; [by apply (token_checking t Ht)|]. simpl. by rewrite Hc.
  - destruct (decide _); [|done]. intros [= <-]. apply set_waiter_ok; [done| |done|done].
    intros. by apply registration_drop_ne.
Qed.

Lemma wait_drop_ok i t : token_ok t → token_ok (wait_drop i t).
Proof.
  intros [Hw Hc Hn]. split; [intros j q Hq|intros j Hq|done]; simpl in *;
    (destruct (decide (i = j)) as [<-|Hij];
      [by rewrite lookup_delete_eq in Hq|rewrite lookup_delete_ne in Hq by done]).
  - specialize (Hw j q Hq). destruct q; simpl in *; rewrite ?registration_drop_ne by done; done.
  - rewrite registration_drop_ne by done. by apply Hc.
Qed.

Lemma tstep_ok t t' : tstep t t' → token_ok t → token_ok t'.
Proof.
  intros [t0|t0 t1 Hn|i t0 t1 Hs|i t0 t1 Hs|i t0] Ht.
  - by apply cancel_swap_ok.
  - by eapply cancel_notify_ok.
  - unfold wait_start in Hs. destruct (ct_waiters t0 !! i); [done|]. injection Hs as <-.
    by apply set_waiter_ok.
  - by eapply waiter_turn_ok.
  - by apply wait_drop_ok.
Qed.

Lemma token_reachable_ok t : rtc tstep token_new t → token_ok t.
Proof.
  intros Hr. cut (∀ t0, rtc tstep t0 t → token_ok t0 → token_ok t).
  { intros Hall. apply (Hall token_new Hr), token_new_ok. }
  induction 1; eauto using tstep_ok.
Qed.

Lemma run_returned k i t : ct_waiters t !! i = Some Returned → run_alone k i t = t.
Proof. intros Hi. destruct k; simpl; [done|]. unfold waiter_turn. by rewrite Hi. Qed.

Lemma run_check k i t :
  ct_waiters t !! i = Some AtCheck → ct_cancelled t = true →
  ct_waiters (run_alone (S k) i t) !! i = Some Returned.
Proof.
  intros Hi Hc. simpl. unfold waiter_turn, is_cancelled. rewrite Hi, Hc.
  rewrite run_returned; simpl; apply lookup_insert_eq.
Qed.

Lemma run_enable k i t :
  ct_waiters t !! i = Some AtEnable → ct_cancelled t = true →
  ct_waiters (run_alone (S (S k)) i t) !! i = Some Returned.
Proof.
  intros Hi Hc. set (n := S k). simpl. unfold waiter_turn. rewrite Hi.
  apply run_check; [|done]. simpl. apply lookup_insert_eq.
Qed.

(** C14: A wait ends exactly with a cancellation, and none is missed. However the
    calls of [cancel] and [cancelled] on a token interleave, a wait that returned
    was cancelled; and once a cancellation is complete, that is, the flag is set and
    the call that set it has notified, every wait that is in progress, wherever it
    stands, returns within three more steps of its own, whether or not any other
    task runs. *)
Theorem cancellation_not_missed t i pc :
  rtc tstep token_new t → ct_waiters t !! i = Some pc →
  (pc = Returned → is_cancelled t = true) ∧
  (is_cancelled t = true → ct_notifying t = 0%nat →
   ct_waiters (run_alone 3 i t) !! i = Some Returned).
Proof.
  intros Hr Hi. pose proof (token_waiters t (token_reachable_ok t Hr) i pc Hi) as Hw.
  split; [by intros ->|]. unfold is_cancelled. intros Hc Hn.
  destruct pc; simpl in Hw.
  - by apply (run_enable 1).
  - by apply (run_check 2).
  - destruct Hw as [_ Hw]. specialize (Hw Hc Hn). set (k := 2%nat). simpl.
    unfold waiter_turn. rewrite Hi, decide_True by done.
    apply (run_enable 0); [|done]. simpl. apply lookup_insert_eq.
  - by rewrite run_returned.
Qed.
End Token.

(** ** A concrete notification *)

(** The registrations themselves. *)
#[local] Instance registrations : Notify (gmap nat bool) := {|
  notify_new := ∅;
  registration n i := match n !! i with None => Absent | Some false => Waiting | Some true => Woken end;
  enable i n := <[i := false]> n;
  drop_notified i n := delete i n;
  notify_waiters n := (λ _, true) <$> n
|}.
#[local] Instance registrations_laws : NotifyLaws (gmap nat bool).
Proof.
  split; simpl; intros.
  - by rewrite lookup_empty.
  - by rewrite lookup_insert_eq.
  - by rewrite lookup_insert_ne.
  - by rewrite lookup_delete_eq.
  - by rewrite lookup_delete_ne.
  - rewrite lookup_fmap. by destruct (n !! i) as [[]|].
Qed.

(** A wait is parked, another task cancels and notifies. *)
Definition ex_parked : Token :=
  run_alone 2 7 (set_waiter 7 AtEnable notify_new token_new).
Definition ex_cancelled : Token := default token_new (cancel_notify (cancel_swap ex_parked)).

Lemma cancellation_not_missed_witness :
  ct_waiters ex_cancelled !! 7%nat = Some Parked ∧
  ct_waiters (run_alone 3 7 ex_cancelled) !! 7%nat = Some Returned.
Proof.
  split; [reflexivity|].
  apply (cancellation_not_missed ex_cancelled 7 Parked); [|reflexivity..].
  eapply rtc_l; [by apply (TStart 7)|]. eapply rtc_l; [by apply (TTurn 7)|].
  eapply rtc_l; [by apply (TTurn 7)|]. eapply rtc_l; [apply TCancel|].
  eapply rtc_l; [by apply TNotify|]. reflexivity.
Defined.
