(* ===== verification/Float64.v ===== *)
(** * IEEE 754 double precision

    Rust's [f64] as the executable [spec_float] of the core library at
    precision 53 and maximal exponent 1024, with the operations the kernel
    uses: arithmetic rounds to nearest even, comparisons are false on NaN,
    [f64::max] returns the other argument when one is NaN. *)

From S2P Require Import Prelude.
From Corelib Require Import SpecFloat.

Definition f64 : Type := spec_float.

Definition f64_prec : Z := 53.
Definition f64_emax : Z := 1024.

Definition f64_eqb (a b : f64) : bool := SFeqb a b.
Definition f64_ltb (a b : f64) : bool := SFltb a b.
Definition f64_leb (a b : f64) : bool := SFleb a b.
Definition f64_add (a b : f64) : f64 := SFadd f64_prec f64_emax a b.
Definition f64_sub (a b : f64) : f64 := SFsub f64_prec f64_emax a b.
Definition f64_mul (a b : f64) : f64 := SFmul f64_prec f64_emax a b.
Definition f64_div (a b : f64) : f64 := SFdiv f64_prec f64_emax a b.
Definition f64_is_nan (a : f64) : bool :=
  match a with S754_nan => true | _ => false end.

(** [x as f64] for an integer [x]. *)
Definition f64_of_Z (z : Z) : f64 := binary_normalize f64_prec f64_emax z 0 false.

(** A decimal literal [num / den] with both exactly representable: the
    correctly rounded quotient. *)
Definition f64_lit (num den : Z) : f64 := f64_div (f64_of_Z num) (f64_of_Z den).

(** [f64::MAX]. *)
Definition f64_MAX : f64 := f64_of_Z ((2 ^ 53 - 1) * 2 ^ 971).

(** [f64::max]. *)
Definition f64_max (a b : f64) : f64 :=
  match a, b with
  | S754_nan, _ => b
  | _, S754_nan => a
  | _, _ => if f64_ltb a b then b else a
  end.

(** [f64::min]. *)
Definition f64_min (a b : f64) : f64 :=
  match a, b with
  | S754_nan, _ => b
  | _, S754_nan => a
  | _, _ => if f64_ltb b a then b else a
  end.

(** [f64::sqrt], [f64::INFINITY] and [f64::NEG_INFINITY]. *)
Definition f64_sqrt (a : f64) : f64 := SFsqrt f64_prec f64_emax a.
Definition f64_INFINITY : f64 := S754_infinity false.
Definition f64_NEG_INFINITY : f64 := S754_infinity true.

(** What the platform decides: the sign of the NaN its arithmetic produces,
    which only [total_cmp] observes, and [f64::ln], whose result Rust leaves
    to the platform's mathematical library. *)
Class FloatPlatform : Type := {
  nan_negative : bool;
  f64_ln : f64 → f64
}.

(** The place of a value in the order of [f64::total_cmp], compared
    lexicographically. *)
Definition f64_rank `{FloatPlatform} (a : f64) : Z * Z * Z :=
  match a with
  | S754_nan => (if nan_negative then -3 else 3, 0, 0)
  | S754_infinity s => (if s then -2 else 2, 0, 0)
  | S754_zero s => (0, if s then 0 else 1, 0)
  | S754_finite s m e => if s then (-1, - e, Zneg m) else (1, e, Zpos m)
  end%Z.

Definition lex_compare (a b : Z * Z * Z) : comparison :=
  match a.1.1 ?= b.1.1, a.1.2 ?= b.1.2 with
  | Eq, Eq => a.2 ?= b.2
  | Eq, c => c
  | c, _ => c
  end%Z.

(** [f64::total_cmp]. *)
Definition f64_total_cmp `{FloatPlatform} (a b : f64) : comparison :=
  lex_compare (f64_rank a) (f64_rank b).

(** [partial_cmp]. *)
Definition f64_partial_cmp (a b : f64) : option comparison := SFcompare a b.

#[global] Instance f64_eq_dec : EqDecision f64.
Proof. unfold f64. solve_decision. Defined.

#[global] Instance f64_countable : Countable f64.
Proof.
  refine (inj_countable'
    (λ x, match x with
          | S754_zero s => inl (inl s)
          | S754_infinity s => inl (inr (Some s))
          | S754_nan => inl (inr None)
          | S754_finite s m e => inr (s, m, e)
          end)
    (λ y, match y with
          | inl (inl s) => S754_zero s
          | inl (inr (Some s)) => S754_infinity s
          | inl (inr None) => S754_nan
          | inr (s, m, e) => S754_finite s m e
          end) _).
  by intros [].
Defined.

(** ** Orders *)

Definition lex_le (a b : Z * Z * Z) : Prop :=
  (a.1.1 < b.1.1 ∨ a.1.1 = b.1.1 ∧ (a.1.2 < b.1.2 ∨ a.1.2 = b.1.2 ∧ a.2 ≤ b.2))%Z.

Lemma lex_compare_le a b : lex_compare a b ≠ Gt ↔ lex_le a b.
Proof.
  unfold lex_compare, lex_le.
  destruct (Z.compare_spec a.1.1 b.1.1); [|split; [auto|done]|split; [done|lia]].
  destruct (Z.compare_spec a.1.2 b.1.2); [|split; [auto|done]|split; [done|lia]].
  unfold Z.le. naive_solver lia.
Qed.

Lemma lex_compare_gt a b : lex_compare a b = Gt ↔ ¬ lex_le a b.
Proof. rewrite <-lex_compare_le. destruct (lex_compare a b); naive_solver. Qed.

Section TotalCmp.
Context `{FloatPlatform}.

Lemma total_cmp_refl a : f64_total_cmp a a ≠ Gt.
Proof. apply lex_compare_le. unfold lex_le. lia. Qed.

Lemma total_cmp_trans a b c :
  f64_total_cmp a b ≠ Gt → f64_total_cmp b c ≠ Gt → f64_total_cmp a c ≠ Gt.
Proof. unfold f64_total_cmp. rewrite !lex_compare_le. unfold lex_le. lia. Qed.

Lemma total_cmp_total a b : f64_total_cmp a b = Gt → f64_total_cmp b a ≠ Gt.
Proof. unfold f64_total_cmp. rewrite lex_compare_gt, lex_compare_le. unfold lex_le. lia. Qed.

End TotalCmp.

(** The place of a number in the order of [<] and [<=], which does not
    distinguish the zeros. *)
Definition f64_num (a : f64) : Z * Z * Z :=
  match a with
  | S754_nan | S754_zero _ => (0, 0, 0)
  | S754_infinity s => (if s then -2 else 2, 0, 0)
  | S754_finite s m e => if s then (-1, - e, Zneg m) else (1, e, Zpos m)
  end%Z.

Lemma f64_compare_num a b c :
  f64_partial_cmp a b = Some c ↔
  f64_is_nan a = false ∧ f64_is_nan b = false ∧ lex_compare (f64_num a) (f64_num b) = c.
Proof.
  unfold f64_partial_cmp, lex_compare.
  destruct a as [sa|sa| |sa ma ea], b as [sb|sb| |sb mb eb]; simpl;
    try (destruct sa, sb; naive_solver); try (destruct sa; naive_solver);
    try (destruct sb; naive_solver); try naive_solver.
  change (Pos.compare_cont Eq ma mb) with (ma ?= mb)%positive.
  destruct sa, sb; simpl; try naive_solver;
    rewrite ?Z.compare_opp, ?(Z.compare_antisym ea eb);
    destruct (ea ?= eb)%Z, (ma ?= mb)%positive; naive_solver.
Qed.

Lemma f64_ltb_num a b :
  f64_ltb a b = true ↔
  f64_is_nan a = false ∧ f64_is_nan b = false ∧ ¬ lex_le (f64_num b) (f64_num a).
Proof.
  assert (f64_ltb a b = true ↔ f64_partial_cmp a b = Some Lt) as ->.
  { unfold f64_ltb, SFltb, f64_partial_cmp. destruct (SFcompare a b) as [[]|]; naive_solver. }
  rewrite f64_compare_num. do 2 f_equiv. rewrite <-lex_compare_gt. unfold lex_compare.
  rewrite !(Z.compare_antisym (f64_num a).1.1), !(Z.compare_antisym (f64_num a).1.2),
    !(Z.compare_antisym (f64_num a).2).
  destruct (_ ?= _)%Z, (_ ?= _)%Z, (_ ?= _)%Z; naive_solver.
Qed.

Lemma f64_leb_num a b :
  f64_leb a b = true ↔
  f64_is_nan a = false ∧ f64_is_nan b = false ∧ lex_le (f64_num a) (f64_num b).
Proof.
  rewrite <-lex_compare_le.
  assert (f64_leb a b = true ↔ ∃ c, c ≠ Gt ∧ f64_partial_cmp a b = Some c) as ->.
  { unfold f64_leb, SFleb, f64_partial_cmp. destruct (SFcompare a b) as [[]|]; split;
      first [done | by intros _; eexists; split; [|reflexivity] |
              intros (c & ? & Hc); by simplify_eq]. }
  split; [intros (c & Hc & (? & ? & <-)%f64_compare_num); done|].
  intros (? & ? & Hc). eexists. split; [exact Hc|]. by apply f64_compare_num.
Qed.

Lemma f64_ltb_trans a b c : f64_ltb a b = true → f64_ltb b c = true → f64_ltb a c = true.
Proof.
  rewrite !f64_ltb_num. unfold lex_le. intros (? & ? & ?) (? & ? & ?).
  split; [done|]. split; [done|]. lia.
Qed.

Lemma f64_ltb_leb_trans a b c : f64_ltb a b = true → f64_leb b c = true → f64_ltb a c = true.
Proof.
  rewrite !f64_ltb_num, f64_leb_num. unfold lex_le. intros (? & ? & ?) (? & ? & ?).
  split; [done|]. split; [done|]. lia.
Qed.

(** ** Rounding

    A non-negative significand never rounds to NaN, and the sign is kept. *)

Definition signed (s : bool) (x : f64) : Prop :=
  match x with
  | S754_nan => False
  | S754_zero t | S754_infinity t | S754_finite t _ _ => t = s
  end.

Lemma iter_pos_invariant {A} (P : A → Prop) (f : A → A) n x :
  (∀ y, P y → P (f y)) → P x → P (iter_pos f n x).
Proof. intros Hf. revert x. induction n; simpl; auto. Qed.

Lemma shr_fexp_nonneg prec emax m e l : (0 ≤ m)%Z → (0 ≤ shr_m (shr_fexp prec emax m e l).1)%Z.
Proof.
  intros Hm. unfold shr_fexp, shr. destruct (_ - _)%Z as [|n|n]; simpl;
    [by destruct l as [|[]]| |by destruct l as [|[]]].
  apply (iter_pos_invariant (λ r, 0 ≤ shr_m r)%Z); [|by destruct l as [|[]]].
  intros [[|[m'|m'|]|m'] ? ?]; simpl; lia.
Qed.

Lemma binary_round_aux_signed prec emax s m e l :
  (0 ≤ m)%Z → signed s (binary_round_aux prec emax s m e l).
Proof.
  intros Hm. unfold binary_round_aux.
  pose proof (shr_fexp_nonneg prec emax m e l Hm) as H1.
  destruct (shr_fexp prec emax m e l) as [r e1]. simpl in H1.
  assert (0 ≤ round_nearest_even (shr_m r) (loc_of_shr_record r))%Z as H2.
  { unfold round_nearest_even. destruct (loc_of_shr_record r) as [|[]]; try lia.
    destruct (Z.even _); lia. }
  pose proof (shr_fexp_nonneg prec emax _ e1 loc_Exact H2) as H3.
  destruct (shr_fexp prec emax _ e1 loc_Exact) as [r' e2]. simpl in H3.
  destruct (shr_m r') as [|m'|m']; [done| |lia]. by destruct (_ <=? _)%Z.
Qed.

(** A number greater than zero. *)
Definition f64_positive (x : f64) : Prop := f64_ltb (S754_zero false) x = true.

Lemma f64_positive_cases x :
  f64_positive x ↔ x = f64_INFINITY ∨ ∃ m e, x = S754_finite false m e.
Proof.
  unfold f64_positive, f64_ltb, SFltb. destruct x as [s|[]| |[] m e]; simpl; naive_solver.
Qed.

Lemma f64_max_positive a b : f64_positive b → f64_positive (f64_max a b).
Proof.
  intros Hb. unfold f64_positive in *.
  assert (f64_is_nan a = false → f64_is_nan b = false → f64_ltb a b = false →
    f64_ltb (S754_zero false) a = true) as Ha.
  { intros Hna Hnb Hlt. apply f64_ltb_num in Hb as (_ & _ & Hb). apply not_true_iff_false in Hlt.
    rewrite f64_ltb_num in *. split_and!; [done|done|].
    assert (¬ ¬ lex_le (f64_num b) (f64_num a)) as Hle by tauto. clear Hlt.
    unfold lex_le in *. lia. }
  unfold f64_max. destruct a, b; try done;
    match goal with |- context [if f64_ltb ?x ?y then _ else _] =>
      destruct (f64_ltb x y) eqn:Hlt end; auto.
Qed.

(** Dividing positive numbers. *)
Lemma f64_div_positive a b :
  f64_positive a → f64_positive b →
  (f64_is_nan (f64_div a b) = true ↔ a = f64_INFINITY ∧ b = f64_INFINITY) ∧
  f64_ltb (f64_div a b) (S754_zero false) = false.
Proof.
  intros [->|(m & e & ->)]%f64_positive_cases [->|(m' & e' & ->)]%f64_positive_cases;
    try (split; [naive_solver|done]).
  unfold f64_div, SFdiv. destruct (SFdiv_core_binary _ _ _ _ _) as [[q ez] lz] eqn:Hq.
  assert (0 ≤ q)%Z as Hnn.
  { unfold SFdiv_core_binary in Hq. cbv zeta in Hq.
    set (n := match (_ - _ - _)%Z with Z0 => _ | _ => _ end) in Hq.
    assert (0 ≤ n)%Z as Hn.
    { subst n. destruct (_ - _ - _)%Z; [lia| |lia]. apply Z.shiftl_nonneg. lia. }
    clearbody n. pose proof (Z_div_mod n (Zpos m') ltac:(lia)) as Hdm.
    destruct (Z.div_eucl n (Zpos m')) as [q' r']. injection Hq as <- <- <-. nia. }
  pose proof (binary_round_aux_signed f64_prec f64_emax (xorb false false) q ez lz Hnn) as Hs.
  destruct (binary_round_aux _ _ _ _ _ _) as [s|s| |s m0 e0]; simpl in Hs; subst; try done;
    split; naive_solver.
Qed.
