(* ===== verification/Resource.v ===== *)
(** * Resources: vectors, domains and the domain hierarchy

    [crates/nous-types/src/resource.rs] (the thirteen-dimensional
    [ResourceVector] with its saturating arithmetic, [ResourceDomain]),
    [crates/nous-resource/src/domain.rs] ([DomainHierarchy]) and the baseline
    estimator of [crates/nous-resource/src/lib.rs]. *)

From S2P Require Import Prelude Errors Float64.

(** ** Resource vectors *)

Record ResourceVector : Type := mkRV {
  cpu_cores_millis : Z;
  cpu_time_us : Z;
  ram_bytes : Z;
  pinned_ram_bytes : Z;
  device_memory_bytes : Z;
  kv_cache_bytes : Z;
  storage_bytes : Z;
  memory_bandwidth_bps : Z;
  interconnect_bandwidth_bps : Z;
  network_bandwidth_bps : Z;
  power_milliwatts : Z;
  thermal_budget_millic : Z;
  time_budget_us : Z
}.

#[global] Instance ResourceVector_eq_dec : EqDecision ResourceVector.
Proof. solve_decision. Defined.

(** The dimensions in declaration order. *)
Definition rv_dims (v : ResourceVector) : list Z :=
  [cpu_cores_millis v; cpu_time_us v; ram_bytes v; pinned_ram_bytes v; device_memory_bytes v; kv_cache_bytes v; storage_bytes v; memory_bandwidth_bps v; interconnect_bandwidth_bps v; network_bandwidth_bps v; power_milliwatts v; thermal_budget_millic v; time_budget_us v].

Definition rv_map2 (f : Z → Z → Z) (a b : ResourceVector) : ResourceVector :=
  mkRV (f (cpu_cores_millis a) (cpu_cores_millis b))
    (f (cpu_time_us a) (cpu_time_us b))
    (f (ram_bytes a) (ram_bytes b))
    (f (pinned_ram_bytes a) (pinned_ram_bytes b))
    (f (device_memory_bytes a) (device_memory_bytes b))
    (f (kv_cache_bytes a) (kv_cache_bytes b))
    (f (storage_bytes a) (storage_bytes b))
    (f (memory_bandwidth_bps a) (memory_bandwidth_bps b))
    (f (interconnect_bandwidth_bps a) (interconnect_bandwidth_bps b))
    (f (network_bandwidth_bps a) (network_bandwidth_bps b))
    (f (power_milliwatts a) (power_milliwatts b))
    (f (thermal_budget_millic a) (thermal_budget_millic b))
    (f (time_budget_us a) (time_budget_us b)).

(** [ResourceVector::default] and [zero]. *)
Definition rv_zero : ResourceVector := mkRV 0 0 0 0 0 0 0 0 0 0 0 0 0.

(** [ResourceVector::fits_within]. *)
Definition fits_within (v capacity : ResourceVector) : bool :=
  (cpu_cores_millis v <=? cpu_cores_millis capacity)%Z
  && (cpu_time_us v <=? cpu_time_us capacity)%Z
  && (ram_bytes v <=? ram_bytes capacity)%Z
  && (pinned_ram_bytes v <=? pinned_ram_bytes capacity)%Z
  && (device_memory_bytes v <=? device_memory_bytes capacity)%Z
  && (kv_cache_bytes v <=? kv_cache_bytes capacity)%Z
  && (storage_bytes v <=? storage_bytes capacity)%Z
  && (memory_bandwidth_bps v <=? memory_bandwidth_bps capacity)%Z
  && (interconnect_bandwidth_bps v <=? interconnect_bandwidth_bps capacity)%Z
  && (network_bandwidth_bps v <=? network_bandwidth_bps capacity)%Z
  && (power_milliwatts v <=? power_milliwatts capacity)%Z
  && (thermal_budget_millic v <=? thermal_budget_millic capacity)%Z
  && (time_budget_us v <=? time_budget_us capacity)%Z.

(** [ResourceVector::is_zero]. *)
Definition rv_is_zero (v : ResourceVector) : bool := bool_decide (v = rv_zero).

(** [ResourceVector::max_per_dimension]. *)
Definition max_per_dimension (a b : ResourceVector) : ResourceVector := rv_map2 Z.max a b.

(** [Add] and [Sub]: saturating in every dimension. *)
Definition rv_add (a b : ResourceVector) : ResourceVector := rv_map2 sat_add64 a b.
Definition rv_sub (a b : ResourceVector) : ResourceVector := rv_map2 sat_sub64 a b.

(** One dimension of a vector (zero past the thirteenth): statements about
    vectors are proved for an arbitrary dimension at once. *)
Definition rv_get (i : nat) (v : ResourceVector) : Z := nth i (rv_dims v) 0%Z.

(** Every dimension is a [u64]. *)
Definition rv_ok (v : ResourceVector) : Prop := ∀ i, u64_ok (rv_get i v).

(** The pointwise order the boolean test decides. *)
Definition rv_le (a b : ResourceVector) : Prop := ∀ i, (rv_get i a ≤ rv_get i b)%Z.

Lemma rv_get_map2 f a b i :
  f 0%Z 0%Z = 0%Z → rv_get i (rv_map2 f a b) = f (rv_get i a) (rv_get i b).
Proof. intros Hf. unfold rv_get, rv_dims. simpl. do 13 (destruct i as [|i]; [done|]). by destruct i. Qed.

Lemma rv_get_add a b i : rv_get i (rv_add a b) = sat_add64 (rv_get i a) (rv_get i b).
Proof. by apply rv_get_map2. Qed.
Lemma rv_get_sub a b i : rv_get i (rv_sub a b) = sat_sub64 (rv_get i a) (rv_get i b).
Proof. by apply rv_get_map2. Qed.
Lemma rv_get_max a b i : rv_get i (max_per_dimension a b) = Z.max (rv_get i a) (rv_get i b).
Proof. by apply rv_get_map2. Qed.
Lemma rv_get_sum a b i : rv_get i (rv_map2 Z.add a b) = (rv_get i a + rv_get i b)%Z.
Proof. by apply rv_get_map2. Qed.
Lemma rv_get_zero i : rv_get i rv_zero = 0%Z.
Proof. unfold rv_get, rv_dims. simpl. do 13 (destruct i as [|i]; [done|]). by destruct i. Qed.

Create Rewrite HintDb rv.
#[export] Hint Rewrite rv_get_add rv_get_sub rv_get_max rv_get_sum rv_get_zero : rv.

Lemma rv_get_ext a b : (∀ i, rv_get i a = rv_get i b) → a = b.
Proof.
  intros H. destruct a, b.
  pose proof (H 0); pose proof (H 1); pose proof (H 2); pose proof (H 3); pose proof (H 4);
  pose proof (H 5); pose proof (H 6); pose proof (H 7); pose proof (H 8); pose proof (H 9);
  pose proof (H 10); pose proof (H 11); pose proof (H 12).
  unfold rv_get, rv_dims in *. simpl in *. congruence.
Qed.

(** Prove a statement about vectors in an arbitrary dimension [i]. *)
Ltac rv_dim i :=
  repeat match goal with
  | H : rv_ok _ |- _ => specialize (H i)
  | H : rv_le _ _ |- _ => specialize (H i)
  end;
  autorewrite with rv in *;
  unfold u64_ok, sat_add64, sat_sub64, u64_max in *; simpl in *; try lia.

Lemma fits_within_spec a b : fits_within a b = true ↔ rv_le a b.
Proof.
  unfold fits_within, rv_le. rewrite !andb_true_iff, !Z.leb_le. split.
  - intros H i. unfold rv_get, rv_dims. destruct_and?.
    do 13 (destruct i as [|i]; [done|]). by destruct i.
  - intros H. unfold rv_get, rv_dims in H.
    split_and!; [apply (H 0)|apply (H 1)|apply (H 2)|apply (H 3)|apply (H 4)|apply (H 5)
      |apply (H 6)|apply (H 7)|apply (H 8)|apply (H 9)|apply (H 10)|apply (H 11)|apply (H 12)].
Qed.

#[global] Instance rv_le_dec : RelDecision rv_le.
Proof.
  intros a b. destruct (fits_within a b) eqn:E.
  - left. by apply fits_within_spec.
  - right. intros H%fits_within_spec. congruence.
Defined.

#[global] Instance rv_le_preorder : PreOrder rv_le.
Proof. split; [intros a i; lia|intros a b c H1 H2 i; rv_dim i]. Qed.

#[global] Instance rv_le_antisymm : AntiSymm (=) rv_le.
Proof. intros a b H1 H2. apply rv_get_ext. intros i. rv_dim i. Qed.

(** Saturating addition is monotone for the order, saturating subtraction
    monotone in its first argument and antitone in its second. *)
#[global] Instance rv_add_mono : Proper (rv_le ==> rv_le ==> rv_le) rv_add.
Proof. intros a a' Ha b b' Hb i. rv_dim i. Qed.
#[global] Instance rv_sub_mono : Proper (rv_le ==> flip rv_le ==> rv_le) rv_sub.
Proof. intros a a' Ha b b' Hb i. unfold flip in Hb. rv_dim i. Qed.

#[global] Instance rv_ok_dec v : Decision (rv_ok v).
Proof.
  refine (cast_if (decide (Forall u64_ok (rv_dims v)))); unfold rv_ok, rv_get, rv_dims in *.
  - intros i. do 13 (destruct i as [|i]; [by repeat (apply Forall_cons in f as [? f])|]).
    by destruct i.
  - contradict n. repeat (apply Forall_cons; split); [..|by constructor];
      [apply (n 0)|apply (n 1)|apply (n 2)|apply (n 3)|apply (n 4)|apply (n 5)|apply (n 6)
      |apply (n 7)|apply (n 8)|apply (n 9)|apply (n 10)|apply (n 11)|apply (n 12)].
Defined.

Lemma rv_add_ok a b : rv_ok a → rv_ok b → rv_ok (rv_add a b).
Proof. intros Ha Hb i. rv_dim i. Qed.
Lemma rv_sub_ok a b : rv_ok a → rv_ok b → rv_ok (rv_sub a b).
Proof. intros Ha Hb i. rv_dim i. Qed.
#[export] Hint Resolve rv_add_ok rv_sub_ok : core.

(** ** Domains *)

Record ResourceLimits : Type := mkLimits {
  max_cpu_cores_millis : option Z;
  max_ram_bytes : option Z;
  max_device_memory_bytes : option Z;
  max_kv_cache_bytes : option Z;
  max_storage_bytes : option Z;
  max_power_milliwatts : option Z;
  max_concurrent_workloads : option Z
}.

#[global] Instance ResourceLimits_eq_dec : EqDecision ResourceLimits.
Proof. solve_decision. Defined.

Definition limits_default : ResourceLimits := mkLimits None None None None None None None.

Record ResourceDomain : Type := mkDomain {
  domain_id : string;
  parent_domain_id : option string;
  capacity : ResourceVector;
  allocated : ResourceVector;
  reserved : ResourceVector;
  hard_limits : ResourceLimits;
  soft_limits : ResourceLimits
}.

(** [ResourceDomain::can_fit] and [available]. *)
Definition available (d : ResourceDomain) : ResourceVector :=
  rv_sub (rv_sub (capacity d) (allocated d)) (reserved d).
Definition can_fit (d : ResourceDomain) (request : ResourceVector) : bool :=
  fits_within request (rv_sub (rv_sub (capacity d) (allocated d)) (reserved d)).

Definition set_allocated (v : ResourceVector) (d : ResourceDomain) : ResourceDomain :=
  mkDomain (domain_id d) (parent_domain_id d) (capacity d) v (reserved d)
    (hard_limits d) (soft_limits d).

(** A domain never promises more than it has. *)
Definition domain_ok (d : ResourceDomain) : Prop :=
  rv_ok (capacity d) ∧ rv_ok (allocated d) ∧ rv_ok (reserved d) ∧
  rv_le (rv_map2 Z.add (allocated d) (reserved d)) (capacity d).

#[global] Instance domain_ok_dec d : Decision (domain_ok d).
Proof. unfold domain_ok. apply _. Defined.

Lemma can_fit_room d r :
  domain_ok d → rv_ok r →
  can_fit d r = true ↔
  rv_le (rv_map2 Z.add (rv_map2 Z.add (allocated d) r) (reserved d)) (capacity d).
Proof.
  intros (Hc & Ha & Hr & Hle) Hok. unfold can_fit. rewrite fits_within_spec.
  split; intros H i; rv_dim i.
Qed.

Lemma set_allocated_add_ok d r :
  domain_ok d → rv_ok r → can_fit d r = true →
  domain_ok (set_allocated (rv_add (allocated d) r) d).
Proof.
  intros Hd Hok Hfit. apply can_fit_room in Hfit; [|done..].
  destruct Hd as (Hc & Ha & Hr & Hle).
  split_and!; simpl; auto. intros i; rv_dim i.
Qed.

Lemma set_allocated_sub_ok d r :
  domain_ok d → rv_ok r → domain_ok (set_allocated (rv_sub (allocated d) r) d).
Proof.
  intros (Hc & Ha & Hr & Hle) Hok. split_and!; simpl; auto. intros i; rv_dim i.
Qed.

(** Freeing what was just allocated restores the vector: no saturation occurs
    inside a well-formed domain. *)
Lemma rv_add_sub_cancel d r :
  domain_ok d → rv_ok r → can_fit d r = true →
  rv_sub (rv_add (allocated d) r) r = allocated d.
Proof.
  intros Hd Hok Hfit. apply can_fit_room in Hfit; [|done..].
  destruct Hd as (Hc & Ha & Hr & Hle). apply rv_get_ext. intros i. rv_dim i.
Qed.

(** [Debug] of a vector, as it appears in error messages. *)
Definition rv_debug (v : ResourceVector) : string :=
  "ResourceVector { " +:+ join ", " [
    "cpu_cores_millis: " +:+ show_u (cpu_cores_millis v);
    "cpu_time_us: " +:+ show_u (cpu_time_us v);
    "ram_bytes: " +:+ show_u (ram_bytes v);
    "pinned_ram_bytes: " +:+ show_u (pinned_ram_bytes v);
    "device_memory_bytes: " +:+ show_u (device_memory_bytes v);
    "kv_cache_bytes: " +:+ show_u (kv_cache_bytes v);
    "storage_bytes: " +:+ show_u (storage_bytes v);
    "memory_bandwidth_bps: " +:+ show_u (memory_bandwidth_bps v);
    "interconnect_bandwidth_bps: " +:+ show_u (interconnect_bandwidth_bps v);
    "network_bandwidth_bps: " +:+ show_u (network_bandwidth_bps v);
    "power_milliwatts: " +:+ show_u (power_milliwatts v);
    "thermal_budget_millic: " +:+ show_u (thermal_budget_millic v);
    "time_budget_us: " +:+ show_u (time_budget_us v)
  ] +:+ " }".

(** ** The domain hierarchy ([DomainHierarchy]) *)

Module DomainHierarchy.

Definition hierarchy : Type := Mutex (gmap string ResourceDomain).

(** [DomainHierarchy::new]. *)
Definition new (root : ResourceDomain) : hierarchy := mutex_new {[ domain_id root := root ]}.

Definition poisoned_error : NousError :=
  nous_error Internal "resource domain lock is poisoned".

Definition with_domains {A} (f : gmap string ResourceDomain →
    result NousError (A * gmap string ResourceDomain)) : M hierarchy NousError A := λ h,
  match lock h with
  | None => (Err poisoned_error, h)
  | Some domains =>
      match f domains with
      | Ok (a, domains') => (Ok a, mutex_set domains' h)
      | Err e => (Err e, h)
      end
  end.

(** [DomainHierarchy::register]: the parent, when named, must exist. *)
Definition register (domain : ResourceDomain) : M hierarchy NousError unit :=
  with_domains (λ domains,
    match parent_domain_id domain with
    | Some parent_id =>
        if decide (is_Some (domains !! parent_id))
        then Ok (tt, <[domain_id domain := domain]> domains)
        else Err (nous_error NotFound ("Parent domain '" +:+ parent_id +:+ "' not found"))
    | None => Ok (tt, <[domain_id domain := domain]> domains)
    end).

Definition missing (id : string) : NousError :=
  nous_error NotFound ("Domain '" +:+ id +:+ "' not found").

(** [DomainHierarchy::allocate]. *)
Definition allocate (id : string) (request : ResourceVector) : M hierarchy NousError unit :=
  with_domains (λ domains,
    match domains !! id with
    | None => Err (missing id)
    | Some domain =>
        if can_fit domain request
        then Ok (tt, <[id := set_allocated (rv_add (allocated domain) request) domain]> domains)
        else Err (nous_error ResourceInsufficient
          ("Insufficient resources in domain '" +:+ id +:+ "': available="
           +:+ rv_debug (available domain) +:+ ", requested=" +:+ rv_debug request))
    end).

(** [DomainHierarchy::free]. *)
Definition free (id : string) (freed : ResourceVector) : M hierarchy NousError unit :=
  with_domains (λ domains,
    match domains !! id with
    | None => Err (missing id)
    | Some domain =>
        Ok (tt, <[id := set_allocated (rv_sub (allocated domain) freed) domain]> domains)
    end).

(** [DomainHierarchy::available]. *)
Definition available_in (h : hierarchy) (id : string) : option ResourceVector :=
  domains ← lock h; available <$> domains !! id.

(** [DomainHierarchy::is_under_pressure]. *)
Definition is_under_pressure (h : hierarchy) (id : string) : bool :=
  match lock h with
  | None => true
  | Some domains =>
      match domains !! id with
      | Some domain =>
          if (0 <? ram_bytes (capacity domain))%Z then
            let used := wrap64 (ram_bytes (allocated domain) + ram_bytes (reserved domain)) in
            f64_ltb (f64_lit 8 10)
              (f64_div (f64_of_Z used) (f64_of_Z (ram_bytes (capacity domain))))
          else false
      | None => false
      end
  end.

(** *** Invariant *)

(** Every domain is filed under its own id, promises no more than it has, and
    names a parent that is registered. *)
Definition ok (h : hierarchy) : Prop :=
  ∀ id d, inner h !! id = Some d →
    domain_id d = id ∧ domain_ok d ∧
    (∀ parent, parent_domain_id d = Some parent → is_Some (inner h !! parent)).

Inductive op : Type :=
| Register (d : ResourceDomain)
| Allocate (id : string) (v : ResourceVector)
| Free (id : string) (v : ResourceVector).

Definition step (o : op) : M hierarchy NousError unit :=
  match o with
  | Register d => register d
  | Allocate id v => allocate id v
  | Free id v => free id v
  end.

Definition op_ok (o : op) : Prop :=
  match o with
  | Register d => domain_ok d
  | Allocate _ v | Free _ v => rv_ok v
  end.

(** Any sequence of operations, failing ones included. *)
Definition run (ops : list op) (h : hierarchy) : hierarchy := foldl (λ h o, (step o h).2) h ops.

Lemma ok_insert h id d :
  ok h → domain_id d = id → domain_ok d →
  (∀ parent, parent_domain_id d = Some parent → is_Some (inner h !! parent)) →
  ok (mutex_set (<[id := d]> (inner h)) h).
Proof.
  intros Hok Hid Hd Hp id' d'. simpl. rewrite lookup_insert_Some.
  assert (∀ p, is_Some (inner h !! p) → is_Some (<[id := d]> (inner h) !! p)) as Hmono.
  { intros p. rewrite lookup_insert_is_Some'. auto. }
  intros [[<- <-]|[_ Hl]]; [by eauto|].
  destruct (Hok _ _ Hl) as (? & ? & ?). eauto.
Qed.

Lemma ok_set_allocated h id d v :
  ok h → inner h !! id = Some d → domain_ok (set_allocated v d) →
  ok (mutex_set (<[id := set_allocated v d]> (inner h)) h).
Proof.
  intros Hok Hl Hd. destruct (Hok _ _ Hl) as (? & ? & ?). by apply ok_insert.
Qed.

Lemma step_ok o h : op_ok o → ok h → ok (step o h).2.
Proof.
  intros Ho Hok. destruct o as [d|id v|id v]; simpl in *;
    unfold register, allocate, free, with_domains, lock; destruct (poisoned h); try done.
  - destruct (parent_domain_id d) as [p|] eqn:Hp; [case_decide|]; simpl; try done;
      apply ok_insert; naive_solver.
  - destruct (inner h !! id) as [d|] eqn:Hl; [|done].
    destruct (can_fit d v) eqn:Hfit; [|done].
    apply ok_set_allocated; [done..|]. apply set_allocated_add_ok; [|done..].
    by apply (Hok _ _ Hl).
  - destruct (inner h !! id) as [d|] eqn:Hl; [|done].
    apply ok_set_allocated; [done..|]. apply set_allocated_sub_ok; [|done].
    by apply (Hok _ _ Hl).
Qed.

(** Domains registered within their capacity, by operations on them. *)
Lemma run_ok ops h : Forall op_ok ops → ok h → ok (run ops h).
Proof.
  intros Hops. revert h. induction Hops as [|o ops Ho _ IH]; intros h Hok; [done|].
  simpl. apply IH. by apply step_ok.
Qed.

(** *** Domains registered as they come

    [register] checks the parent and nothing else. The vectors are [u64]s. *)
Definition domain_sized (d : ResourceDomain) : Prop :=
  rv_ok (capacity d) ∧ rv_ok (allocated d) ∧ rv_ok (reserved d).
Definition op_sized (o : op) : Prop :=
  match o with
  | Register d => domain_sized d
  | Allocate _ v | Free _ v => rv_ok v
  end.
Definition registered (o : op) : option ResourceDomain :=
  match o with Register d => Some d | _ => None end.

(** [d] is what became of [d0], as it was registered: what it promises is within
    its capacity, or was promised when it was registered. *)
Record promised_from (d0 d : ResourceDomain) : Prop := {
  pf_id : domain_id d = domain_id d0;
  pf_parent : parent_domain_id d = parent_domain_id d0;
  pf_capacity : capacity d = capacity d0;
  pf_reserved : reserved d = reserved d0;
  pf_sized : domain_sized d;
  pf_within : ∀ i, (rv_get i (allocated d) + rv_get i (reserved d) ≤
    Z.max (rv_get i (capacity d)) (rv_get i (allocated d0) + rv_get i (reserved d0)))%Z
}.

Lemma promised_refl d : domain_sized d → promised_from d d.
Proof. intros Hd. split; [done..|]. intros i. lia. Qed.
Lemma promised_allocate d0 d r :
  promised_from d0 d → rv_ok r → can_fit d r = true →
  promised_from d0 (set_allocated (rv_add (allocated d) r) d).
Proof.
  intros [? ? ? ? (Hc & Ha & Hr) Hw] Hok Hfit%fits_within_spec.
  split; simpl; [done..|split_and!; simpl; auto|]. intros i. specialize (Hw i). rv_dim i.
Qed.
Lemma promised_free d0 d r :
  promised_from d0 d → rv_ok r → promised_from d0 (set_allocated (rv_sub (allocated d) r) d).
Proof.
  intros [? ? ? ? (Hc & Ha & Hr) Hw] Hok.
  split; simpl; [done..|split_and!; simpl; auto|]. intros i. specialize (Hw i). rv_dim i.
Qed.
(** A domain registered within its capacity stays within it. *)
Lemma promised_within d0 d : promised_from d0 d → domain_ok d0 → domain_ok d.
Proof.
  intros [_ _ Hcap Hres (Hc & Ha & Hr) Hw] (_ & _ & _ & Hle). split_and!; [done..|].
  intros i. specialize (Hw i). specialize (Hle i). rewrite Hcap, Hres in *. autorewrite with rv in *. lia.
Qed.

(** Every domain comes from one of [ds], is filed under its own id, and names a
    parent that is registered, or that the root [root] was created with. *)
Definition promises (root : ResourceDomain) (ds : list ResourceDomain) (h : hierarchy) : Prop :=
  ∀ id d, inner h !! id = Some d →
    domain_id d = id ∧ (∃ d0, d0 ∈ ds ∧ promised_from d0 d) ∧
    ∀ parent, parent_domain_id d = Some parent →
      is_Some (inner h !! parent) ∨ parent_domain_id root = Some parent.

Lemma promises_insert root ds h d0 d :
  promises root ds h → d0 ∈ ds → promised_from d0 d →
  (∀ parent, parent_domain_id d = Some parent →
     is_Some (inner h !! parent) ∨ parent_domain_id root = Some parent) →
  promises root ds (mutex_set (<[domain_id d := d]> (inner h)) h).
Proof.
  intros Hok Hin Hd Hp id' d'. simpl. rewrite lookup_insert_Some.
  assert (∀ p, is_Some (inner h !! p) → is_Some (<[domain_id d := d]> (inner h) !! p)) as Hmono.
  { intros p. rewrite lookup_insert_is_Some'. auto. }
  intros [[<- <-]|[_ Hl]].
  - split_and!; [done|eauto|]. intros p [?|?]%Hp; auto.
  - destruct (Hok _ _ Hl) as (? & ? & Hp'). split_and!; [done..|]. intros p [?|?]%Hp'; auto.
Qed.
Lemma promises_more root ds ds' h : ds ⊆ ds' → promises root ds h → promises root ds' h.
Proof.
  intros Hs Hok id d Hl. destruct (Hok _ _ Hl) as (? & (d0 & Hin & ?) & ?).
  split_and!; [done| |done]. exists d0. auto.
Qed.

Lemma step_promises root ds o h :
  op_sized o → promises root ds h → promises root (ds ++ option_list (registered o)) (step o h).2.
Proof.
  intros Ho Hok. apply (promises_more _ _ (ds ++ option_list (registered o))) in Hok; [|set_solver].
  destruct o as [d|id v|id v]; simpl in *;
    unfold register, allocate, free, with_domains, lock; destruct (poisoned h); try done.
  - assert (d ∈ ds ++ [d]) as Hin by set_solver. pose proof (promised_refl d Ho) as Hd.
    destruct (parent_domain_id d) as [p|] eqn:Hp; [case_decide|]; simpl; try done;
      apply (promises_insert _ _ _ d); naive_solver.
  - destruct (inner h !! id) as [d|] eqn:Hl; [|done]. destruct (can_fit d v) eqn:Hfit; [|done].
    destruct (Hok _ _ Hl) as (<- & (d0 & Hin & Hd) & Hp).
    exact (promises_insert _ _ _ d0 (set_allocated _ d) Hok Hin (promised_allocate _ _ _ Hd Ho Hfit) Hp).
  - destruct (inner h !! id) as [d|] eqn:Hl; [|done].
    destruct (Hok _ _ Hl) as (<- & (d0 & Hin & Hd) & Hp).
    exact (promises_insert _ _ _ d0 (set_allocated _ d) Hok Hin (promised_free _ _ _ Hd Ho) Hp).
Qed.

(** C39: Capacity safety. Whatever sequence of registrations of any domains,
    allocations and releases a hierarchy goes through, failing calls included, every
    domain in it is one that was registered (or the root), with its capacity and
    reservation, and in each of the thirteen dimensions what is allocated and
    reserved is at most its capacity or what the registration itself brought along;
    a domain registered within its capacity stays within it; and every parent named
    is registered, or is the one the root was created with. *)
Theorem hierarchy_capacity_safe root ops id d :
  domain_sized root → Forall op_sized ops → inner (run ops (new root)) !! id = Some d →
  (∃ d0, (d0 = root ∨ Register d0 ∈ ops) ∧ promised_from d0 d ∧ (domain_ok d0 → domain_ok d)) ∧
  ∀ parent, parent_domain_id d = Some parent →
    is_Some (inner (run ops (new root)) !! parent) ∨ parent_domain_id root = Some parent.
Proof.
  intros Hroot Hops.
  assert (promises root (root :: omap registered ops) (run ops (new root))) as Hok.
  { cut (∀ ds h, promises root ds h → promises root (ds ++ omap registered ops) (run ops h)).
    { intros Hrun. apply (Hrun [root]). intros id' d'. simpl. rewrite lookup_singleton_Some.
      intros [<- <-]. split_and!; [done| |by right]. exists root. split; [set_solver|].
      by apply promised_refl. }
    induction Hops as [|o ops Ho _ IH]; intros ds h Hh; [by rewrite app_nil_r|].
    pose proof (IH _ _ (step_promises root ds o h Ho Hh)) as IH'. simpl.
    destruct (registered o); simpl in IH'; [by rewrite <-(assoc app) in IH'|by rewrite app_nil_r in IH']. }
  intros Hl. destruct (Hok _ _ Hl) as (_ & (d0 & Hin & Hd) & Hp). split; [|done].
  exists d0. split_and!; [|done|by apply promised_within].
  apply elem_of_cons in Hin as [->|(o & Ho & Hr)%list_elem_of_omap]; [by left|right].
  destruct o; simplify_eq/=. done.
Qed.

(** A 16 GiB system domain and a tenant below it. *)
Definition ex_ram (n : Z) : ResourceVector := mkRV 0 0 n 0 0 0 0 0 0 0 0 0 0.
Definition ex_system : ResourceDomain :=
  mkDomain "system" None (ex_ram 17179869184) rv_zero rv_zero limits_default limits_default.
Definition ex_tenant : ResourceDomain :=
  mkDomain "tenant" (Some "system") (ex_ram 34359738368) rv_zero (ex_ram 1024)
    limits_default limits_default.

Lemma ex_system_ok : ok (new ex_system).
Proof.
  intros id d. simpl. rewrite lookup_singleton_Some. intros [<- <-].
  split_and!; [done|by apply (bool_decide_unpack _)|done].
Qed.

(** A tenant registered with more than its capacity: what it brought along stays,
    and nothing is added to it. *)
Definition ex_over : ResourceDomain :=
  mkDomain "over" (Some "system") (ex_ram 1000) (ex_ram 1500) (ex_ram 1) limits_default limits_default.
Definition ex_ops : list op :=
  [Register ex_tenant; Allocate "tenant" (ex_ram 25000000000); Register ex_over;
   Allocate "over" (ex_ram 1); Free "over" (ex_ram 300)].
Example over_registered :
  (ram_bytes ∘ allocated <$> inner (run ex_ops (new ex_system)) !! "over") = Some 1200%Z ∧
  (step (Allocate "over" (ex_ram 1)) (run ex_ops (new ex_system))).1 ≠ Ok tt.
Proof. by vm_compute. Qed.

Definition ex_over_now : ResourceDomain := set_allocated (ex_ram 1200) ex_over.
Lemma hierarchy_capacity_safe_witness :
  (∃ d0, (d0 = ex_system ∨ Register d0 ∈ ex_ops) ∧ promised_from d0 ex_over_now ∧
     (domain_ok d0 → domain_ok ex_over_now)) ∧
  ∀ parent, parent_domain_id ex_over_now = Some parent →
    is_Some (inner (run ex_ops (new ex_system)) !! parent) ∨
    parent_domain_id ex_system = Some parent.
Proof.
  apply (hierarchy_capacity_safe ex_system ex_ops "over" ex_over_now).
  - split_and!; by apply (bool_decide_unpack _).
  - repeat (apply Forall_cons; split); [..|by constructor]; simpl; try (by apply (bool_decide_unpack _));
      split_and!; by apply (bool_decide_unpack _).
  - vm_compute. reflexivity.
Defined.

(** A child domain may allocate more than its parent holds: [register] and
    [allocate] never consult the parent's capacity. *)
Example child_exceeds_parent :
  let h := run [Register ex_tenant; Allocate "tenant" (ex_ram 25000000000)] (new ex_system) in
  (ram_bytes ∘ allocated <$> inner h !! "tenant") = Some 25000000000%Z ∧
  (ram_bytes ∘ capacity <$> inner h !! "system") = Some 17179869184%Z.
Proof. vm_compute. done. Qed.

(** Allocation followed by release of the same vector is the identity on
    the hierarchy, and allocation succeeds exactly when the request fits in
    what is left of the capacity. *)
Theorem allocate_free_roundtrip h id d r :
  poisoned h = false → ok h → inner h !! id = Some d → rv_ok r →
  rv_le (rv_map2 Z.add (rv_map2 Z.add (allocated d) r) (reserved d)) (capacity d) →
  ∃ h', allocate id r h = (Ok tt, h') ∧ free id r h' = (Ok tt, h).
Proof.
  intros Hp Hok Hl Hr Hroom. destruct (Hok _ _ Hl) as (? & Hd & ?).
  apply can_fit_room in Hroom; [|done..].
  destruct h as [ph m]; simpl in *; subst ph.
  eexists. unfold allocate, free, with_domains, lock. simpl. rewrite Hl, Hroom.
  split; [done|]. simpl. rewrite lookup_insert_eq. unfold mutex_set. simpl.
  rewrite insert_insert_eq, rv_add_sub_cancel by done. do 2 f_equal.
  destruct d; simpl. by apply insert_id.
Qed.

Lemma allocate_free_roundtrip_witness :
  ∃ h', allocate "system" (ex_ram 4096) (new ex_system) = (Ok tt, h') ∧
        free "system" (ex_ram 4096) h' = (Ok tt, new ex_system).
Proof.
  apply (allocate_free_roundtrip (new ex_system) "system" ex_system (ex_ram 4096)).
  - reflexivity.
  - apply ex_system_ok.
  - reflexivity.
  - by apply (bool_decide_unpack _).
  - by apply (bool_decide_unpack _).
Defined.

End DomainHierarchy.

(** ** The baseline estimator *)

(** [estimate_resources]. *)
Definition estimate_resources (model_params context_length max_output_tokens
    quantization_bits : Z) : ResourceVector :=
  let bytes_per_param := (quantization_bits / 8)%Z in
  let weight_bytes := wrap64 (model_params * bytes_per_param) in
  let kv_bytes_per_token := if (quantization_bits <=? 4)%Z then 512%Z else 1024%Z in
  let kv_cache := wrap64 (kv_bytes_per_token * context_length) in
  let output_buffer := wrap64 (max_output_tokens * kv_bytes_per_token) in
  mkRV 0 0 weight_bytes 0
    (wrap64 (wrap64 (weight_bytes + kv_cache) + output_buffer)) kv_cache 0 0 0 0 0 0 0.

(** The estimator drops the model weights of every quantization below
    eight bits: [quantization_bits / 8] is zero, so the estimate of a four-bit
    model asks for no RAM at all, whatever its size. *)
Theorem estimate_subbyte_weights_vanish params ctx out bits :
  (0 ≤ bits < 8)%Z → ram_bytes (estimate_resources params ctx out bits) = 0%Z.
Proof.
  intros Hb. simpl. rewrite Z.div_small by lia. rewrite Z.mul_0_r. done.
Qed.

Lemma estimate_subbyte_weights_vanish_witness :
  ram_bytes (estimate_resources 7000000000 4096 512 4) = 0%Z.
Proof. apply (estimate_subbyte_weights_vanish 7000000000 4096 512 4). lia. Defined.
