(* ===== verification/Objects.v ===== *)
(** * Kernel objects

    [crates/nous-types/src/meta.rs], [traits.rs] and [principal.rs]: the metadata
    every kernel object carries, the split into specification and status, and
    principals with their capability grants. *)

From S2P Require Import Prelude Resource.
Local Open Scope Z_scope.

(** ** Data *)

Inductive ConditionStatus : Type := CondTrue | CondFalse | CondUnknown.
Inductive HealthStatus : Type := HUnknown | HHealthy | HDegraded | HUnhealthy | HCritical.

Record Condition : Type := mkCondition {
  cn_condition_type : string;
  cn_status : ConditionStatus;
  cn_reason : string;
  cn_message : string;
  cn_last_transition_time : Z;
  cn_observed_time : Z
}.

(** [Condition::new_true] and [new_false] at the time [now]. *)
Definition condition_true (now : Z) (type reason message : string) : Condition :=
  mkCondition type CondTrue reason message now now.
Definition condition_false (now : Z) (type reason message : string) : Condition :=
  mkCondition type CondFalse reason message now now.

Record AuditMetadata : Type := mkAudit {
  am_created_by : string;
  am_updated_by : string;
  am_approved_by : string;
  am_deployment : string
}.

Record ObjectMeta : Type := mkMeta {
  om_uid : string;
  om_schema_version : Z;
  om_name : string;
  om_namespace : string;
  om_owner_principal : string;
  om_created_at : Z;
  om_updated_at : Z;
  om_generation : Z;
  om_resource_version : string;
  om_labels : gmap string string;
  om_annotations : gmap string string;
  om_phase : string;
  om_phase_reason : string;
  om_health : HealthStatus;
  om_conditions : list Condition;
  om_trace_id : string;
  om_audit : option AuditMetadata
}.

(** [ObjectMeta::new]; [uuid] and [now] are what it draws. *)
Definition meta_new (uuid : string) (now : Z) (name namespace owner : string) : ObjectMeta :=
  mkMeta uuid 1 name namespace owner now now 1 "1" ∅ ∅ "CREATED" "" HUnknown [] "" None.

(** [ObjectMeta::bump_generation]. *)
Definition bump_generation (now : Z) (m : ObjectMeta) : ObjectMeta :=
  let g := wrap64 (om_generation m + 1) in
  mkMeta (om_uid m) (om_schema_version m) (om_name m) (om_namespace m) (om_owner_principal m)
    (om_created_at m) now g (show_u g) (om_labels m) (om_annotations m) (om_phase m)
    (om_phase_reason m) (om_health m) (om_conditions m) (om_trace_id m) (om_audit m).

(** [ObjectMeta::set_phase]. *)
Definition set_phase (now : Z) (phase reason : string) (m : ObjectMeta) : ObjectMeta :=
  bump_generation now
    (mkMeta (om_uid m) (om_schema_version m) (om_name m) (om_namespace m) (om_owner_principal m)
       (om_created_at m) (om_updated_at m) (om_generation m) (om_resource_version m) (om_labels m)
       (om_annotations m) phase reason (om_health m) (om_conditions m) (om_trace_id m)
       (om_audit m)).

(** [ObjectMeta::set_condition]. *)
Definition set_condition (now : Z) (c : Condition) (m : ObjectMeta) : ObjectMeta :=
  let cs := filter (λ d, cn_condition_type d ≠ cn_condition_type c) (om_conditions m) ++ [c] in
  bump_generation now
    (mkMeta (om_uid m) (om_schema_version m) (om_name m) (om_namespace m) (om_owner_principal m)
       (om_created_at m) (om_updated_at m) (om_generation m) (om_resource_version m) (om_labels m)
       (om_annotations m) (om_phase m) (om_phase_reason m) (om_health m) cs (om_trace_id m)
       (om_audit m)).

(** ** The trait [KernelObject] *)

Class KernelObject (T Spec Status : Type) : Type := {
  ko_meta : T → ObjectMeta;
  ko_set_meta : ObjectMeta → T → T;
  ko_spec : T → Spec;
  ko_status : T → Status;
  ko_set_status : Status → T → T
}.

(** The mutable references of an object reach its metadata and its status and
    nothing else. *)
Class KernelObjectLaws (T Spec Status : Type) `{KernelObject T Spec Status} : Prop := {
  ko_meta_set m o : ko_meta (ko_set_meta m o) = m;
  ko_meta_status st o : ko_meta (ko_set_status st o) = ko_meta o;
  ko_status_set st o : ko_status (ko_set_status st o) = st;
  ko_status_meta m o : ko_status (ko_set_meta m o) = ko_status o;
  ko_spec_meta m o : ko_spec (ko_set_meta m o) = ko_spec o;
  ko_spec_status st o : ko_spec (ko_set_status st o) = ko_spec o
}.

Definition uid `{KernelObject T Spec Status} (o : T) : string := om_uid (ko_meta o).
Definition generation `{KernelObject T Spec Status} (o : T) : Z := om_generation (ko_meta o).

(** [KernelObject::update_status]. *)
Definition update_status `{KernelObject T Spec Status} (now : Z) (st : Status) (o : T) : T :=
  let o1 := ko_set_status st o in ko_set_meta (bump_generation now (ko_meta o1)) o1.

(** ** Principals *)

Inductive PrincipalType : Type := PT_Unspecified | PT_User | PT_Service | PT_Node | PT_System.

Record PrincipalSpec : Type := mkPrincipalSpec {
  ps_principal_type : PrincipalType;
  ps_display_name : string;
  ps_public_key : list Z;
  ps_roles : list string
}.

Record PrincipalStatus : Type := mkPrincipalStatus {
  pt_authenticated : bool;
  pt_last_seen : option Z;
  pt_active_leases : list string
}.

Record Principal : Type := mkPrincipal {
  p_meta : ObjectMeta;
  p_spec : PrincipalSpec;
  p_status : PrincipalStatus
}.

#[global] Instance principal_object : KernelObject Principal PrincipalSpec PrincipalStatus := {|
  ko_meta := p_meta;
  ko_set_meta := λ m p, mkPrincipal m (p_spec p) (p_status p);
  ko_spec := p_spec;
  ko_status := p_status;
  ko_set_status := λ st p, mkPrincipal (p_meta p) (p_spec p) st
|}.
#[global] Instance principal_object_laws :
  KernelObjectLaws Principal PrincipalSpec PrincipalStatus.
Proof. by split. Qed.

Record CapabilityGrant : Type := mkGrant {
  cg_grant_id : string;
  cg_principal_id : string;
  cg_capability : string;
  cg_paths : list string;
  cg_hosts : list string;
  cg_limits : option ResourceLimits;
  cg_requires_approval : bool;
  cg_data_classification : string;
  cg_granted_at : option Z;
  cg_expires_at : option Z
}.

(** [CapabilityGrant::is_valid] at the time [now]. *)
Definition grant_is_valid (now : Z) (g : CapabilityGrant) : bool :=
  match cg_expires_at g with Some expires => now <? expires | None => true end.

(** ** Versions of an object *)

(** Every update of an object's metadata. *)
Inductive mstep : ObjectMeta → ObjectMeta → Prop :=
| MBump now m : mstep m (bump_generation now m)
| MPhase now phase reason m : mstep m (set_phase now phase reason m)
| MCondition now c m : mstep m (set_condition now c m).

Record meta_ok (uuid : string) (created n : Z) (m : ObjectMeta) : Prop := {
  mo_uid : om_uid m = uuid;
  mo_created : om_created_at m = created;
  mo_generation : om_generation m = n;
  mo_version : om_resource_version m = show_u n;
  mo_conditions : NoDup (cn_condition_type <$> om_conditions m)
}.

(** Replacing a condition keeps one of each type. *)
Lemma set_condition_NoDup c cs :
  NoDup (cn_condition_type <$> cs) →
  NoDup (cn_condition_type <$>
    filter (λ d, cn_condition_type d ≠ cn_condition_type c) cs ++ [c]).
Proof.
  intros Hn. rewrite fmap_app. apply NoDup_app. split_and!.
  - induction cs as [|d cs IH]; [constructor|]. apply NoDup_cons in Hn as [Hd Hn].
    rewrite filter_cons. case_decide; [|by apply IH]. simpl. constructor; [|by apply IH].
    intros (e & He & [_ Hin]%list_elem_of_filter)%list_elem_of_fmap.
    apply Hd, list_elem_of_fmap. eauto.
  - intros t (d & -> & [Hd _]%list_elem_of_filter)%list_elem_of_fmap.
    by intros ?%list_elem_of_singleton.
  - apply NoDup_singleton.
Qed.

Lemma bump_ok uuid created n now m :
  0 ≤ n < u64_max → meta_ok uuid created n m →
  meta_ok uuid created (n + 1) (bump_generation now m).
Proof.
  intros Hn []. split; simpl; try done; by rewrite mo_generation0, wrap64_succ.
Qed.

Lemma mstep_ok uuid created n m m' :
  0 ≤ n < u64_max → mstep m m' → meta_ok uuid created n m → meta_ok uuid created (n + 1) m'.
Proof.
  intros Hn [now m0|now phase reason m0|now c m0] []; apply bump_ok; try done.
  split; simpl; try done. by apply set_condition_NoDup.
Qed.

(** An object's metadata after any history of updates: identity and creation time
    never change, the generation counts the updates and the resource version
    renders it (so no two versions are confused), and there is at most one
    condition of each type. *)
Theorem object_meta_versioned uuid now name ns owner n m :
  nsteps mstep n (meta_new uuid now name ns owner) m → Z.of_nat n < u64_max →
  om_uid m = uuid ∧ om_created_at m = now ∧ om_generation m = 1 + Z.of_nat n ∧
  om_resource_version m = show_u (1 + Z.of_nat n) ∧
  NoDup (cn_condition_type <$> om_conditions m).
Proof.
  intros Hs Hn.
  assert (∀ k m1, nsteps mstep k m1 m → ∀ g, 0 ≤ g → g + Z.of_nat k ≤ u64_max →
    meta_ok uuid now g m1 → meta_ok uuid now (g + Z.of_nat k) m) as Hinv.
  { induction 1 as [m1|k m1 m2 m3 H12 _ IH]; intros g Hg Hk Hm; [by rewrite Z.add_0_r|].
    replace (g + Z.of_nat (S k)) with ((g + 1) + Z.of_nat k) by lia.
    apply IH; try lia; [done|]. by apply (mstep_ok _ _ _ m1); [lia|..]. }
  destruct (Hinv n _ Hs 1) as []; [lia|lia| |done].
  split; simpl; try done. constructor.
Qed.

Lemma object_meta_versioned_witness :
  let m := set_condition 3 (condition_true 3 "Ready" "" "")
    (set_condition 2 (condition_false 2 "Ready" "" "") (meta_new "u" 1 "n" "ns" "o")) in
  om_generation m = 3 ∧ om_resource_version m = "3" ∧
  om_conditions m = [condition_true 3 "Ready" "" ""].
Proof.
  intros m.
  destruct (object_meta_versioned "u" 1 "n" "ns" "o" 2 m) as (_ & _ & Hg & Hv & _).
  - eapply nsteps_l; [apply MCondition|]. eapply nsteps_l; [apply MCondition|]. constructor.
  - vm_compute. reflexivity.
  - rewrite Hg, Hv. split_and!; reflexivity.
Defined.

(** A status update of any kernel object changes its status and version and
    nothing else. *)
Lemma update_status_spec `{KernelObjectLaws T Spec Status} now (st : Status) (o : T) :
  ko_spec (update_status now st o) = ko_spec o ∧ ko_status (update_status now st o) = st ∧
  ko_meta (update_status now st o) = bump_generation now (ko_meta o).
Proof.
  unfold update_status.
  by rewrite ko_spec_meta, ko_spec_status, ko_status_meta, ko_status_set, ko_meta_set, ko_meta_status.
Qed.
