(* ===== verification/Fencing.v ===== *)
(** * Fencing tokens

    [crates/nous-state/src/fencing.rs]: a per-node counter whose values are
    rendered as ["node:value"] and compared exactly when a lease is used. *)

From S2P Require Import Prelude.

Record FencingToken : Type := mkFencing { fence_value : Z; fence_node_id : string }.

(** [FencingToken::new]. *)
Definition fencing_new (node_id : string) : FencingToken := mkFencing 0 node_id.

Definition render_token (node_id : string) (v : Z) : string :=
  node_id +:+ ":" +:+ show_u v.

(** [FencingToken::next]: an atomic fetch-and-add, returning the new value. *)
Definition next (f : FencingToken) : string * FencingToken :=
  let v := wrap64 (fence_value f + 1) in
  (render_token (fence_node_id f) v, mkFencing v (fence_node_id f)).

(** [FencingToken::current_value]. *)
Definition current_value (f : FencingToken) : Z := fence_value f.

(** [FencingToken::parse]. *)
Definition parse (token : string) : option (string * Z) :=
  '(node_id, value_str) ← split_once ":"%char token;
  value ← parse_u64 value_str;
  Some (node_id, value).

(** [FencingToken::is_token_valid]. *)
Definition is_token_valid (current_token provided_token : string) : bool :=
  match parse current_token, parse provided_token with
  | Some (cur_node, cur_val), Some (prov_node, prov_val) =>
      bool_decide (cur_node = prov_node) && bool_decide (prov_val = cur_val)
  | _, _ => false
  end.

(** The first [n] tokens of a generator, in order. *)
Fixpoint tokens (n : nat) (f : FencingToken) : list string * FencingToken :=
  match n with
  | O => ([], f)
  | S n' => let '(t, f') := next f in let '(ts, f'') := tokens n' f' in (t :: ts, f'')
  end.

Lemma parse_render node v :
  string_mem ":" node = false → u64_ok v → parse (render_token node v) = Some (node, v).
Proof.
  intros Hn Hv. unfold parse, render_token.
  change (node +:+ ":" +:+ show_u v) with (node +:+ String ":" (show_u v)).
  rewrite split_once_app by done. simpl. by rewrite parse_show_u.
Qed.

Lemma render_token_inj node a b :
  string_mem ":" node = false → u64_ok a → u64_ok b →
  render_token node a = render_token node b → a = b.
Proof.
  intros Hn Ha Hb He.
  pose proof (parse_render node a Hn Ha) as H1. pose proof (parse_render node b Hn Hb) as H2.
  rewrite He in H1. congruence.
Qed.

Lemma is_token_valid_render node a b :
  string_mem ":" node = false → u64_ok a → u64_ok b →
  is_token_valid (render_token node a) (render_token node b) = bool_decide (a = b).
Proof.
  intros Hn Ha Hb. unfold is_token_valid. rewrite !parse_render by done.
  rewrite bool_decide_true by done. simpl. apply bool_decide_ext. naive_solver.
Qed.

Lemma is_token_valid_parse cur prov :
  is_token_valid cur prov = true ↔ ∃ node v, parse cur = Some (node, v) ∧ parse prov = Some (node, v).
Proof.
  unfold is_token_valid. destruct (parse cur) as [[n v]|], (parse prov) as [[n' v']|];
    rewrite ?andb_true_iff, ?bool_decide_eq_true; naive_solver.
Qed.

Lemma tokens_lookup (n : nat) f (i : nat) t :
  (0 ≤ fence_value f)%Z → (fence_value f + Z.of_nat n ≤ u64_max)%Z →
  (tokens n f).1 !! i = Some t →
  t = render_token (fence_node_id f) (fence_value f + Z.of_nat i + 1) ∧ (i < n)%nat.
Proof.
  revert f i. induction n as [|n IH]; intros f i H0 Hn; [done|]. simpl.
  set (f' := mkFencing _ _). destruct (tokens n f') as [ts f''] eqn:E. simpl.
  assert (fence_value f' = fence_value f + 1)%Z as Hf' by (apply wrap64_succ; lia).
  destruct i as [|i]; simpl.
  - intros [= <-]. split; [|lia]. f_equal. simpl in Hf'. lia.
  - intros Hl. destruct (IH f' i) as [-> ?]; [lia..|by rewrite E|].
    split; [|lia]. rewrite Hf'. f_equal. lia.
Qed.

(** Fencing. Of the tokens a node's generator issues, the one presented is
    accepted against the one recorded as current exactly when they were issued
    by the same call: an older token is never accepted for a newer one, nor a
    newer for an older. Holds for any node id without the separator and until
    the 64-bit counter would wrap. *)
Theorem token_accepted_iff_current node n i j ti tj :
  string_mem ":" node = false → (Z.of_nat n ≤ u64_max)%Z →
  (tokens n (fencing_new node)).1 !! i = Some ti →
  (tokens n (fencing_new node)).1 !! j = Some tj →
  is_token_valid ti tj = bool_decide (i = j).
Proof.
  intros Hnode Hn Hi Hj.
  apply tokens_lookup in Hi as [-> ?]; [|simpl; lia..].
  apply tokens_lookup in Hj as [-> ?]; [|simpl; lia..].
  simpl. rewrite is_token_valid_render; unfold u64_ok; [|done|lia..].
  apply bool_decide_ext. lia.
Qed.

Lemma token_accepted_iff_current_witness :
  is_token_valid "node-1:1" "node-1:2" = false ∧ is_token_valid "node-1:2" "node-1:2" = true.
Proof.
  split.
  - apply (token_accepted_iff_current "node-1" 2 0 1 "node-1:1" "node-1:2");
      [reflexivity|vm_compute; congruence|reflexivity|reflexivity].
  - apply (token_accepted_iff_current "node-1" 2 1 1 "node-1:2" "node-1:2");
      [reflexivity|vm_compute; congruence|reflexivity|reflexivity].
Defined.

(** A node id that contains the separator breaks the format: its own tokens
    never validate. *)
Example separator_in_node_id : is_token_valid "rack:1:5" "rack:1:5" = false.
Proof. reflexivity. Qed.
