(* ===== verification/Workload.v ===== *)
(** * Workloads: the immutable spec and the seventeen-phase lifecycle

    [crates/nous-types/src/workload.rs]: [WorkloadSpec] with its nested
    requirement, budget and policy records and their defaults, and
    [WorkloadPhase] with its transition table. *)

From S2P Require Import Prelude Errors Float64 Resource.

(** ** Enumerations of the spec *)

Inductive WorkloadType : Type :=
  | WT_Unspecified | WT_Chat | WT_Completion | WT_StructuredOutput | WT_Embedding
  | WT_Rerank | WT_Vision | WT_Speech | WT_ModelInference | WT_AgentProgram
  | WT_Workflow | WT_ToolExecution | WT_Retrieval | WT_Evaluation | WT_Batch
  | WT_DeviceOperation | WT_ModelImport | WT_ModelCompile | WT_Benchmark
  | WT_KernelCommand.
#[global] Instance WorkloadType_eq_dec : EqDecision WorkloadType.
Proof. solve_decision. Defined.
Inductive SchedulingClass : Type :=
  | SC_System | SC_Deadline | SC_Interactive | SC_Batch | SC_Background
  | SC_Maintenance.
#[global] Instance SchedulingClass_eq_dec : EqDecision SchedulingClass.
Proof. solve_decision. Defined.
Inductive PhaseType : Type :=
  | PT_Unspecified | PT_Receive | PT_Validate | PT_Authenticate | PT_ResolveContext
  | PT_Retrieve | PT_Plan | PT_Admit | PT_Place | PT_Prepare | PT_Tokenize | PT_Encode
  | PT_Prefill | PT_Decode | PT_ToolExecute | PT_Observe | PT_Verify | PT_Replan
  | PT_Finalize | PT_Commit | PT_Compensate | PT_Checkpoint.
#[global] Instance PhaseType_eq_dec : EqDecision PhaseType.
Proof. solve_decision. Defined.
Inductive Modality : Type :=
  | Mod_Unspecified | Mod_Text | Mod_Image | Mod_Audio | Mod_Video | Mod_Code.
#[global] Instance Modality_eq_dec : EqDecision Modality.
Proof. solve_decision. Defined.
Inductive QuantizationTolerance : Type := QT_FullPrecisionOnly | QT_Int8Ok | QT_Int4Ok | QT_Any.
#[global] Instance QuantizationTolerance_eq_dec : EqDecision QuantizationTolerance.
Proof. solve_decision. Defined.
Inductive RoutingPreference : Type :=
  | Route_Any | Route_LocalOnly | Route_LocalPreferred | Route_LowestLatency
  | Route_LowestCost | Route_HighestQuality.
#[global] Instance RoutingPreference_eq_dec : EqDecision RoutingPreference.
Proof. solve_decision. Defined.
Inductive DeviceType : Type :=
  | Dev_Unspecified | Dev_Cpu | Dev_Cuda | Dev_Rocm | Dev_Vulkan | Dev_OpenVino
  | Dev_Metal | Dev_Sycl | Dev_Cann | Dev_Qnn | Dev_Dsp | Dev_Fpga | Dev_Npu
  | Dev_Remote.
#[global] Instance DeviceType_eq_dec : EqDecision DeviceType.
Proof. solve_decision. Defined.
Inductive DataClassification : Type := DC_Public | DC_Internal | DC_Confidential | DC_Restricted.
#[global] Instance DataClassification_eq_dec : EqDecision DataClassification.
Proof. solve_decision. Defined.
Inductive CostModel : Type := CM_PerToken | CM_PerRequest | CM_PerSecond.
#[global] Instance CostModel_eq_dec : EqDecision CostModel.
Proof. solve_decision. Defined.
Inductive CheckpointStrategy : Type :=
  | CS_None | CS_BeforeRiskyPhase | CS_Periodic | CS_AfterEveryPhase.
#[global] Instance CheckpointStrategy_eq_dec : EqDecision CheckpointStrategy.
Proof. solve_decision. Defined.
Inductive OutputFormat : Type := OF_Text | OF_Json | OF_JsonSchema | OF_Stream.
#[global] Instance OutputFormat_eq_dec : EqDecision OutputFormat.
Proof. solve_decision. Defined.
Inductive PriorityClass : Type := PC_System | PC_Interactive | PC_Batch | PC_BestEffort.
#[global] Instance PriorityClass_eq_dec : EqDecision PriorityClass.
Proof. solve_decision. Defined.
Inductive PreemptionPolicy : Type := PP_Never | PP_IfLowerPriority | PP_Always.
#[global] Instance PreemptionPolicy_eq_dec : EqDecision PreemptionPolicy.
Proof. solve_decision. Defined.

Inductive EdgeCondition : Type :=
| EC_Always
| EC_OnSuccess
| EC_OnFailure
| EC_OnOutput (field_path pattern : string)
| EC_OnQuality (threshold : f64)
| EC_OnApproval (approver_role : string)
| EC_OnRetryExhausted (max_retries : Z).

(** ** Records of the spec *)

Record PhaseConfig : Type := mkPhaseConfig {
  pc_input_artifacts : list string;
  pc_output_artifacts : list string;
  pc_allowed_devices : list string;
  pc_allowed_engines : list string;
  pc_estimated_resources : option ResourceVector;
  pc_is_idempotent : bool;
  pc_is_cancellable : bool;
  pc_is_retryable : bool;
  pc_is_migratable : bool;
  pc_is_checkpointable : bool;
  pc_is_speculatable : bool;
  pc_has_side_effects : bool;
  pc_compensation_phase_id : option string;
  pc_timeout_seconds : Z;
  pc_estimated_duration_ms : Z;
  pc_quality_verifier_phase_id : option string
}.

Record PhaseNode : Type := mkPhaseNode {
  pn_node_id : string;
  pn_phase_type : PhaseType;
  pn_config : PhaseConfig;
  pn_description : string
}.

Record PhaseEdge : Type := mkPhaseEdge {
  pe_from_node_id : string;
  pe_to_node_id : string;
  pe_condition : option EdgeCondition
}.

Record ExecutionGraph : Type := mkExecutionGraph {
  eg_nodes : list PhaseNode;
  eg_edges : list PhaseEdge;
  eg_entry_node_id : string
}.

Record ModelRequirements : Type := mkModelRequirements {
  mr_allowed_model_families : list string;
  mr_allowed_architectures : list string;
  mr_excluded_models : list string;
  mr_preferred_model : string;
  mr_max_tokens_per_request : Z;
  mr_min_context_length : Z;
  mr_max_context_length : Z;
  mr_min_quality_score : f64;
  mr_thinking_required : bool;
  mr_min_thinking_budget : Z;
  mr_input_modalities : list Modality;
  mr_output_modalities : list Modality;
  mr_quantization : QuantizationTolerance;
  mr_max_acceptable_perplexity_increase : f64;
  mr_routing : RoutingPreference
}.

Record CapabilityRequirements : Type := mkCapabilityRequirements {
  cr_required_capabilities : list string;
  cr_forbidden_capabilities : list string;
  cr_minimum_capability_level : string
}.

Record DeviceRequirements : Type := mkDeviceRequirements {
  dr_allowed_device_types : list DeviceType;
  dr_min_vram_bytes : Z;
  dr_require_unified_memory : bool;
  dr_required_extensions : list string
}.

Record QualityEscalation : Type := mkQualityEscalation {
  qe_enabled : bool;
  qe_max_retries : Z;
  qe_fallback_model : string;
  qe_escalation_verifier : string
}.

Record QualityRequirements : Type := mkQualityRequirements {
  qr_minimum_quality : f64;
  qr_uncertainty_limit : f64;
  qr_verification_required : bool;
  qr_verifier_model : string;
  qr_evidence_required : bool;
  qr_human_review_required : bool;
  qr_escalation : option QualityEscalation;
  qr_required_benchmarks : list string
}.

Record SecurityRequirements : Type := mkSecurityRequirements {
  sr_data_classification : DataClassification;
  sr_allow_network_access : bool;
  sr_allowed_hosts : list string;
  sr_allow_file_access : bool;
  sr_allowed_paths : list string;
  sr_allow_side_effects : bool;
  sr_reversible_side_effects_only : bool;
  sr_require_approval : bool;
  sr_isolation_profile : string;
  sr_audit_all_output : bool
}.

Record ResourceRequirements : Type := mkResourceRequirements {
  rr_minimum : ResourceVector;
  rr_maximum : ResourceVector;
  rr_preferred : ResourceVector;
  rr_priority : PriorityClass;
  rr_preemption : PreemptionPolicy
}.

Record LatencySLO : Type := mkLatencySLO {
  slo_max_ttft_ms : Z;
  slo_max_tpot_ms : Z;
  slo_max_total_ms : Z;
  slo_max_queue_ms : Z
}.

Record EnergyBudget : Type := mkEnergyBudget {
  eb_max_joules : Z;
  eb_prefer_efficiency : bool
}.

Record CostBudget : Type := mkCostBudget {
  cb_max_microcents : Z;
  cb_currency : string;
  cb_cost_model : CostModel
}.

Record CheckpointPolicy : Type := mkCheckpointPolicy {
  cp_enabled : bool;
  cp_strategy : CheckpointStrategy;
  cp_min_interval_seconds : Z;
  cp_max_checkpoints : Z;
  cp_retention_seconds : Z
}.

Record CancellationPolicy : Type := mkCancellationPolicy {
  cxp_cancellable : bool;
  cxp_graceful : bool;
  cxp_grace_period_seconds : Z;
  cxp_uncancellable_phases : list string
}.

Record RetryPolicy : Type := mkRetryPolicy {
  rp_max_retries : Z;
  rp_initial_backoff_ms : Z;
  rp_max_backoff_ms : Z;
  rp_backoff_multiplier : f64;
  rp_retryable_errors : list string;
  rp_retry_on_timeout : bool
}.

Record FallbackStep : Type := mkFallbackStep {
  fs_condition : string;
  fs_action : string;
  fs_target : string
}.

Record FallbackPolicy : Type := mkFallbackPolicy {
  fp_enabled : bool;
  fp_steps : list FallbackStep
}.

Record OutputContract : Type := mkOutputContract {
  oc_format : OutputFormat;
  oc_json_schema : string;
  oc_max_output_tokens : Z;
  oc_include_reasoning : bool;
  oc_include_evidence : bool;
  oc_include_tool_traces : bool;
  oc_include_metrics : bool;
  oc_redact_patterns : list string
}.

Record WorkloadSpec : Type := mkWorkloadSpec {
  ws_workload_id : string;
  ws_idempotency_key : string;
  ws_schema_version : Z;
  ws_principal_id : string;
  ws_namespace : string;
  ws_goal : string;
  ws_workload_type : WorkloadType;
  ws_execution_graph : ExecutionGraph;
  ws_model_requirements : ModelRequirements;
  ws_capability_requirements : CapabilityRequirements;
  ws_device_requirements : DeviceRequirements;
  ws_quality_requirements : QualityRequirements;
  ws_security_requirements : SecurityRequirements;
  ws_resource_requirements : ResourceRequirements;
  ws_scheduling_class : SchedulingClass;
  ws_latency_slo : LatencySLO;
  ws_deadline_us : Z;
  ws_energy_budget : EnergyBudget;
  ws_cost_budget : CostBudget;
  ws_checkpoint_policy : CheckpointPolicy;
  ws_cancellation_policy : CancellationPolicy;
  ws_retry_policy : RetryPolicy;
  ws_fallback_policy : FallbackPolicy;
  ws_output_contract : OutputContract
}.

(** ** Defaults *)

Definition PhaseConfig_default : PhaseConfig :=
  mkPhaseConfig [] [] [] [] None false false false false false false false None 0 0 None.
Definition ExecutionGraph_default : ExecutionGraph := mkExecutionGraph [] [] "".
Definition ModelRequirements_default : ModelRequirements :=
  mkModelRequirements [] [] [] "" 0 0 0 (f64_of_Z 0) false 0 [] [] QT_FullPrecisionOnly
    (f64_of_Z 0) Route_Any.
Definition CapabilityRequirements_default : CapabilityRequirements :=
  mkCapabilityRequirements [] [] "".
Definition DeviceRequirements_default : DeviceRequirements := mkDeviceRequirements [] 0 false [].
Definition QualityRequirements_default : QualityRequirements :=
  mkQualityRequirements (f64_of_Z 0) (f64_of_Z 0) false "" false false None [].
Definition SecurityRequirements_default : SecurityRequirements :=
  mkSecurityRequirements DC_Public false [] false [] false false false "" false.
Definition ResourceRequirements_default : ResourceRequirements :=
  mkResourceRequirements rv_zero rv_zero rv_zero PC_Interactive PP_Never.
Definition CheckpointPolicy_default : CheckpointPolicy :=
  mkCheckpointPolicy false CS_None 60 5 3600.
Definition CancellationPolicy_default : CancellationPolicy :=
  mkCancellationPolicy true true 30 [].
Definition RetryPolicy_default : RetryPolicy := mkRetryPolicy 3 100 10000 (f64_of_Z 2) [] true.
Definition OutputContract_default : OutputContract :=
  mkOutputContract OF_Text "" 4096 false false false false [].

(** [WorkloadSpec::default]. *)
Definition WorkloadSpec_default : WorkloadSpec := {|
  ws_workload_id := ""; ws_idempotency_key := ""; ws_schema_version := 1;
  ws_principal_id := ""; ws_namespace := ""; ws_goal := "";
  ws_workload_type := WT_Unspecified;
  ws_execution_graph := ExecutionGraph_default;
  ws_model_requirements := ModelRequirements_default;
  ws_capability_requirements := CapabilityRequirements_default;
  ws_device_requirements := DeviceRequirements_default;
  ws_quality_requirements := QualityRequirements_default;
  ws_security_requirements := SecurityRequirements_default;
  ws_resource_requirements := ResourceRequirements_default;
  ws_scheduling_class := SC_Interactive;
  ws_latency_slo := mkLatencySLO 0 0 0 0;
  ws_deadline_us := 0;
  ws_energy_budget := mkEnergyBudget 0 false;
  ws_cost_budget := mkCostBudget 0 "" CM_PerToken;
  ws_checkpoint_policy := CheckpointPolicy_default;
  ws_cancellation_policy := CancellationPolicy_default;
  ws_retry_policy := RetryPolicy_default;
  ws_fallback_policy := mkFallbackPolicy false [];
  ws_output_contract := OutputContract_default
|}.

(** ** The lifecycle *)

Inductive WorkloadPhase : Type :=
| Created | Validating | Validated | Rejected | WAdmitted | Placed | Preparing | Running
| Quiescing | Checkpointing | Checkpointed | Recovering | Succeeded | Failed | Cancelled
| Lost | Quarantined.
#[global] Instance WorkloadPhase_eq_dec : EqDecision WorkloadPhase.
Proof. solve_decision. Defined.

Definition all_phases : list WorkloadPhase :=
  [Created; Validating; Validated; Rejected; WAdmitted; Placed; Preparing; Running; Quiescing;
   Checkpointing; Checkpointed; Recovering; Succeeded; Failed; Cancelled; Lost; Quarantined].

(** [WorkloadPhase::is_terminal]. *)
Definition phase_is_terminal (p : WorkloadPhase) : bool :=
  match p with
  | Rejected | Succeeded | Failed | Cancelled | Lost | Quarantined => true
  | _ => false
  end.

(** [WorkloadPhase::is_active]. *)
Definition phase_is_active (p : WorkloadPhase) : bool :=
  match p with
  | Preparing | Running | Quiescing | Checkpointing | Recovering => true
  | _ => false
  end.

(** [WorkloadPhase::can_transition_to]. *)
Definition can_transition_to (self target : WorkloadPhase) : bool :=
  if decide (self = target) then true
  else match self, target with
  | Created, Validating | Created, Cancelled
  | Validating, Validated | Validating, Rejected
  | Validated, WAdmitted | Validated, Rejected
  | WAdmitted, Placed | WAdmitted, Cancelled
  | Placed, Preparing | Placed, Cancelled
  | Preparing, Running | Preparing, Failed | Preparing, Cancelled
  | Running, Quiescing | Running, Checkpointing | Running, Succeeded
  | Running, Failed | Running, Cancelled | Running, Lost
  | Quiescing, Checkpointing | Quiescing, Succeeded | Quiescing, Failed | Quiescing, Cancelled
  | Checkpointing, Checkpointed | Checkpointing, Failed
  | Checkpointed, Running | Checkpointed, Recovering | Checkpointed, Cancelled
  | Recovering, Running | Recovering, Failed | Recovering, Cancelled
  | Failed, Recovering | Failed, Quarantined
  | Lost, Recovering => true
  | _, _ => false
  end.

(** The histories (latest phase first) a workload can have: it starts in
    [Created] and every step is allowed by the table. *)
Inductive lifecycle : list WorkloadPhase → Prop :=
| lifecycle_created : lifecycle [Created]
| lifecycle_step p q h :
    lifecycle (p :: h) → can_transition_to p q = true → lifecycle (q :: p :: h).

Create HintDb workload.
#[export] Hint Constructors lifecycle : workload.

(** The gates every history goes through before [p]. *)
Definition gates (p : WorkloadPhase) : list WorkloadPhase :=
  match p with
  | Created | Cancelled => [Created]
  | Validating => [Created]
  | Validated | Rejected => [Created; Validating]
  | WAdmitted => [Created; Validating; Validated]
  | Placed => [Created; Validating; Validated; WAdmitted]
  | Preparing => [Created; Validating; Validated; WAdmitted; Placed]
  | Running | Failed | Quarantined | Recovering =>
      [Created; Validating; Validated; WAdmitted; Placed; Preparing]
  | Quiescing | Checkpointing | Checkpointed | Succeeded | Lost =>
      [Created; Validating; Validated; WAdmitted; Placed; Preparing; Running]
  end.

Lemma gates_step p q :
  can_transition_to p q = true → p ≠ q →
  Forall (λ g, g = p ∨ g ∈ gates p) (gates q).
Proof.
  intros H Hne; destruct p, q; vm_compute in H; try discriminate H; try (by destruct Hne);
    apply (bool_decide_unpack _); vm_compute; exact I.
Qed.

Lemma lifecycle_gates h : lifecycle h →
  match h with [] => False | p :: h' => Forall (λ g, g ∈ p :: h') (gates p) end.
Proof.
  induction 1 as [|p q h Hl IH Hstep]; [repeat constructor|].
  destruct (decide (p = q)) as [<-|Hne].
  - eapply Forall_impl; [exact IH|]. intros g Hg. set_solver.
  - eapply Forall_impl; [by apply gates_step|]. simpl. intros g [->|Hg]; [set_solver|].
    rewrite Forall_forall in IH. specialize (IH _ Hg). set_solver.
Qed.

(** No execution without governance. In every history the transition
    table allows, a workload that is consuming resources (preparing, running,
    quiescing, checkpointing or recovering) has been validated, admitted and
    placed before. *)
Theorem active_workload_was_admitted p h :
  lifecycle (p :: h) → phase_is_active p = true →
  Validated ∈ h ∧ WAdmitted ∈ h ∧ Placed ∈ h.
Proof.
  intros Hl Ha. pose proof (lifecycle_gates _ Hl) as Hg. rewrite Forall_forall in Hg.
  assert (∀ g, g ∈ [Validated; WAdmitted; Placed] → g ∈ h) as Hin; [|set_solver].
  intros g Hg'. assert (g ∈ gates p ∧ g ≠ p) as [Hgp Hne].
  { revert g Hg'. apply Forall_forall. destruct p; try discriminate Ha;
      apply (bool_decide_unpack _); vm_compute; exact I. }
  specialize (Hg _ Hgp). set_solver.
Qed.

Lemma active_workload_was_admitted_witness :
  Validated ∈ [Preparing; Placed; WAdmitted; Validated; Validating; Created] ∧
  WAdmitted ∈ [Preparing; Placed; WAdmitted; Validated; Validating; Created] ∧
  Placed ∈ [Preparing; Placed; WAdmitted; Validated; Validating; Created].
Proof.
  apply (active_workload_was_admitted Running
    [Preparing; Placed; WAdmitted; Validated; Validating; Created]).
  - repeat (apply lifecycle_step; [|reflexivity]). apply lifecycle_created.
  - reflexivity.
Defined.

(** What [is_terminal] means. The only phases reported as terminal that
    still have an outgoing transition are [Failed] (to [Recovering] or
    [Quarantined]) and [Lost] (to [Recovering]); the four others are absorbing.
    The source documents all six as having no further transitions. *)
Theorem terminal_phases_outgoing p q :
  phase_is_terminal p = true → p ≠ q →
  can_transition_to p q = true ↔
    (p = Failed ∧ q = Recovering) ∨ (p = Failed ∧ q = Quarantined) ∨ (p = Lost ∧ q = Recovering).
Proof.
  intros Ht Hne. unfold can_transition_to. rewrite decide_False by done.
  destruct p; try done; destruct q; naive_solver.
Qed.

Lemma terminal_phases_outgoing_witness :
  can_transition_to Failed Recovering = true ∧ can_transition_to Succeeded Running = false.
Proof.
  split.
  - apply (terminal_phases_outgoing Failed Recovering); [reflexivity|congruence|naive_solver].
  - apply not_true_is_false. rewrite (terminal_phases_outgoing Succeeded Running);
      [naive_solver|reflexivity|congruence].
Defined.

(** Every phase that is not terminal can be left. *)
Lemma non_terminal_progress p :
  phase_is_terminal p = false → ∃ q, q ≠ p ∧ can_transition_to p q = true.
Proof.
  destruct p; try done; intros _;
    [exists Validating|exists Validated|exists WAdmitted|exists Placed|exists Preparing
    |exists Running|exists Succeeded|exists Succeeded|exists Checkpointed|exists Running
    |exists Running]; done.
Qed.
