(* ===== verification/Security.v ===== *)
(** * Security

    [crates/nous-security/src/lib.rs]: the execution gate, capability manifests
    and the security engine; [credential.rs]: the credential broker. The clock,
    the environment variables and drawn identifiers are arguments. *)

From S2P Require Import Prelude Errors Resource Objects Workload.
Local Open Scope Z_scope.

(** ** The execution gate *)

Record ExecutionGate : Type := mkGate {
  eg_principal_authenticated : bool;
  eg_capability_granted : bool;
  eg_workload_validated : bool;
  eg_lease_active : bool;
  eg_deadline_valid : bool;
  eg_cancellation_policy_set : bool;
  eg_governance_approved : bool;
  eg_isolation_configured : bool;
  eg_audit_id_set : bool;
  eg_failure_reasons : list string
}.

(** [ExecutionGate::new]. *)
Definition gate_new : ExecutionGate :=
  mkGate false false false false false false false false false [].

(** [ExecutionGate::is_open] and [is_open_for]. *)
Definition is_open (g : ExecutionGate) : bool :=
  eg_principal_authenticated g && eg_capability_granted g && eg_workload_validated g
  && eg_lease_active g && eg_deadline_valid g && eg_cancellation_policy_set g
  && eg_governance_approved g && eg_isolation_configured g && eg_audit_id_set g.
Definition is_open_for (g : ExecutionGate) (has_side_effects : bool) : bool :=
  if has_side_effects then is_open g
  else eg_principal_authenticated g && eg_workload_validated g && eg_lease_active g.

(** [ExecutionGate::summary]. *)
Definition gate_summary (g : ExecutionGate) : string :=
  join " | "
    ((λ '(name, open), name +:+ ": " +:+ (if open : bool then "pass" else "fail")) <$>
      [("Principal", eg_principal_authenticated g); ("Capability", eg_capability_granted g);
       ("Workload", eg_workload_validated g); ("Lease", eg_lease_active g);
       ("Deadline", eg_deadline_valid g); ("Cancellation", eg_cancellation_policy_set g);
       ("Governance", eg_governance_approved g); ("Isolation", eg_isolation_configured g);
       ("Audit", eg_audit_id_set g)]).

(** The field the caller sets after validating the specification. *)
Definition set_workload_validated (b : bool) (g : ExecutionGate) : ExecutionGate :=
  mkGate (eg_principal_authenticated g) (eg_capability_granted g) b (eg_lease_active g)
    (eg_deadline_valid g) (eg_cancellation_policy_set g) (eg_governance_approved g)
    (eg_isolation_configured g) (eg_audit_id_set g) (eg_failure_reasons g).

(** ** Capability manifests *)

Record CapabilityManifest : Type := mkCapabilityManifest {
  cm_reads : list string;
  cm_writes : list string;
  cm_devices : list string;
  cm_network_destinations : list string;
  cm_credentials : list string;
  cm_side_effects : list string;
  cm_reversible : bool;
  cm_data_classification : DataClassification;
  cm_requires_approval : bool;
  cm_resource_limits : option ResourceLimits
}.

(** The three tests of [CapabilityManifest::validate]. *)
Definition path_allowed (capability : string) (grants : list CapabilityGrant) (path : string) :
    bool :=
  existsb (λ g, bool_decide (cg_capability g = capability)
                && existsb (λ p, starts_with p path) (cg_paths g)) grants.
Definition host_allowed (grants : list CapabilityGrant) (host : string) : bool :=
  existsb (λ g, bool_decide (cg_capability g = "network")
                && existsb (λ h, contains h host || contains host h) (cg_hosts g)) grants.
Definition side_effects_allowed (grants : list CapabilityGrant) : bool :=
  existsb (λ g, bool_decide (cg_capability g = "side_effect")) grants.

(** The pushes of one loop. *)
Definition issues_of (text : string) (allowed : string → bool) (l : list string) : list string :=
  omap (λ x, if allowed x then None else Some (text +:+ x)) l.

(** [CapabilityManifest::validate]. *)
Definition validate_manifest (m : CapabilityManifest) (grants : list CapabilityGrant) :
    result (list string) unit :=
  let issues :=
    issues_of "Read access not granted for: " (path_allowed "read" grants) (cm_reads m)
    ++ issues_of "Write access not granted for: " (path_allowed "write" grants) (cm_writes m)
    ++ issues_of "Network access not granted for: " (host_allowed grants)
         (cm_network_destinations m)
    ++ (if negb (bool_decide (cm_side_effects m = [])) && negb (side_effects_allowed grants)
        then ["Side effects not explicitly granted"] else []) in
  if bool_decide (issues = []) then Ok tt else Err issues.

(** ** The security engine *)

Record SecurityEngine : Type := mkSecurity {
  se_principals : Mutex (gmap string Principal);
  se_grants : Mutex (gmap string (list CapabilityGrant))
}.

Definition security_new : SecurityEngine := mkSecurity (mutex_new ∅) (mutex_new ∅).

(** [SecurityEngine::register_principal]. *)
Definition register_principal (p : Principal) : M SecurityEngine NousError unit := λ s,
  match lock (se_principals s) with
  | None => (Err (nous_error Internal "principal state lock is poisoned"), s)
  | Some ps =>
      (Ok tt, mkSecurity (mutex_set (<[uid p := p]> ps) (se_principals s)) (se_grants s))
  end.

(** [SecurityEngine::grant]. *)
Definition grant (g : CapabilityGrant) : M SecurityEngine NousError unit := λ s,
  match lock (se_grants s) with
  | None => (Err (nous_error Internal "grant state lock is poisoned"), s)
  | Some gs =>
      let old := default [] (gs !! cg_principal_id g) in
      (Ok tt, mkSecurity (se_principals s)
                (mutex_set (<[cg_principal_id g := old ++ [g]]> gs) (se_grants s)))
  end.

(** [SecurityEngine::check_capability] and [get_grants]. *)
Definition check_capability (now : Z) (s : SecurityEngine) (principal_id capability : string) :
    bool :=
  match lock (se_grants s) with
  | None => false
  | Some gs =>
      match gs !! principal_id with
      | None => false
      | Some l =>
          existsb (λ g, bool_decide (cg_capability g = capability) && grant_is_valid now g) l
      end
  end.
Definition get_grants (now : Z) (s : SecurityEngine) (principal_id : string) :
    list CapabilityGrant :=
  match lock (se_grants s) with
  | None => []
  | Some gs => List.filter (grant_is_valid now) (default [] (gs !! principal_id))
  end.

(** [SecurityEngine::evaluate]; [now] is the clock when the grants are read,
    [now_us] when the deadline is. *)
Definition evaluate (now now_us : Z) (s : SecurityEngine) (principal_id : string)
    (m : CapabilityManifest) (has_lease : bool) (deadline_us : Z) (has_cancellation_policy : bool)
    (isolation_profile : string) : ExecutionGate :=
  let authenticated :=
    match lock (se_principals s) with
    | None => false
    | Some ps => bool_decide (is_Some (ps !! principal_id))
    end in
  let granted :=
    match validate_manifest m (get_grants now s principal_id) with
    | Ok _ => true | Err _ => false end in
  let deadline := (deadline_us =? 0) || (now_us <? deadline_us) in
  let isolated := negb (bool_decide (isolation_profile = "")) in
  mkGate authenticated granted false has_lease deadline has_cancellation_policy
    (negb (cm_requires_approval m)) isolated true
    ((if negb authenticated then ["Principal not authenticated"] else [])
     ++ (if negb granted then ["Capability not granted"] else [])
     ++ (if negb has_lease then ["No active resource lease"] else [])
     ++ (if negb deadline then ["Deadline has passed"] else [])
     ++ (if negb isolated then ["No isolation profile configured"] else [])).

(** ** The credential broker *)

Record CredentialReference : Type := mkCredentialReference {
  cr_credential_id : string;
  cr_environment_variable : string;
  cr_allowed_principals : list string;
  cr_allowed_capabilities : list string
}.

Record CredentialLease : Type := mkCredentialLease {
  cl_lease_id : string;
  cl_credential_id : string;
  cl_principal_id : string;
  cl_capability : string;
  cl_expires_at_us : Z;
  cl_secret : list Z
}.

Record CredentialBroker : Type := mkBroker {
  cb_references : Mutex (gmap string CredentialReference)
}.
Definition broker_default : CredentialBroker := mkBroker (mutex_new ∅).

(** [CredentialLease::with_secret]. *)
Definition with_secret {T} (now_us : Z) (l : CredentialLease) (operation : list Z → T) :
    result NousError T :=
  if cl_expires_at_us l <=? now_us
  then Err (nous_error Unauthenticated "Credential lease expired")
  else Ok (operation (cl_secret l)).

(** [Drop for CredentialLease]: what is left of the secret in memory. *)
Definition lease_dropped (l : CredentialLease) : list Z := (λ _, 0) <$> cl_secret l.

(** [CredentialBroker::register]. *)
Definition register_reference (r : CredentialReference) : M CredentialBroker NousError unit :=
  λ b,
  if blank (cr_environment_variable r) then
    (Err (nous_error InvalidRequest "Credential reference requires an environment variable"), b)
  else
    match lock (cb_references b) with
    | None => (Err (nous_error Internal "credential reference lock is poisoned"), b)
    | Some rs => (Ok tt, mkBroker (mutex_set (<[cr_credential_id r := r]> rs) (cb_references b)))
    end.

(** [CredentialBroker::lease]; [env] is the environment, decoded, [uuid] and
    [now_us] are what the lease draws. *)
Definition lease_credential (env : string → option (list Z)) (uuid : string) (now_us : Z)
    (b : CredentialBroker) (credential_id principal_id capability : string) (ttl_seconds : Z) :
    result NousError CredentialLease :=
  match lock (cb_references b) with
  | None => Err (nous_error Internal "credential reference lock is poisoned")
  | Some rs =>
      match rs !! credential_id with
      | None => Err (nous_error NotFound "Credential reference not found")
      | Some r =>
          if negb (bool_decide (principal_id ∈ cr_allowed_principals r)) then
            Err (nous_error PermissionDenied "Principal is not allowed to lease this credential")
          else if negb (bool_decide (capability ∈ cr_allowed_capabilities r)) then
            Err (nous_error CapabilityDenied
                   "Credential is not valid for the requested capability")
          else
            match env (cr_environment_variable r) with
            | None => Err (nous_error Unauthenticated "Credential source is unavailable")
            | Some secret =>
                Ok (mkCredentialLease uuid credential_id principal_id capability
                      (wrap_i64 (now_us + Z.max ttl_seconds 1 * 1000000)) secret)
            end
      end
  end.

(** ** What opens the gate *)

(** The grants of a principal cover what a manifest declares to read, write,
    contact or affect, compared as the code does: a path by a textual prefix, a host
    by containment of either text in the other, side effects by any grant named so.
    The manifest's devices and credential references are compared with nothing. *)
Definition path_covered (capability : string) (gs : list CapabilityGrant) (path : string) : Prop :=
  ∃ g p rest, g ∈ gs ∧ cg_capability g = capability ∧ p ∈ cg_paths g ∧ path = p +:+ rest.
Definition part_of (x y : string) : Prop := ∃ a b, y = a +:+ x +:+ b.
Definition host_covered (gs : list CapabilityGrant) (host : string) : Prop :=
  ∃ g h, g ∈ gs ∧ cg_capability g = "network" ∧ h ∈ cg_hosts g ∧ (part_of h host ∨ part_of host h).
Definition covered (gs : list CapabilityGrant) (m : CapabilityManifest) : Prop :=
  Forall (path_covered "read" gs) (cm_reads m) ∧
  Forall (path_covered "write" gs) (cm_writes m) ∧
  Forall (host_covered gs) (cm_network_destinations m) ∧
  (cm_side_effects m ≠ [] → ∃ g, g ∈ gs ∧ cg_capability g = "side_effect").

Lemma path_allowed_iff c gs path : path_allowed c gs path = true ↔ path_covered c gs path.
Proof.
  unfold path_allowed, path_covered. rewrite existsb_elem.
  setoid_rewrite andb_true_iff. setoid_rewrite bool_decide_eq_true.
  setoid_rewrite existsb_elem. setoid_rewrite starts_with_iff. naive_solver.
Qed.

Lemma host_allowed_iff gs host : host_allowed gs host = true ↔ host_covered gs host.
Proof.
  unfold host_allowed, host_covered, part_of. rewrite existsb_elem.
  setoid_rewrite andb_true_iff. setoid_rewrite bool_decide_eq_true.
  setoid_rewrite existsb_elem. setoid_rewrite orb_true_iff. setoid_rewrite contains_iff.
  naive_solver.
Qed.

Lemma side_effects_allowed_iff gs :
  side_effects_allowed gs = true ↔ ∃ g, g ∈ gs ∧ cg_capability g = "side_effect".
Proof.
  unfold side_effects_allowed. rewrite existsb_elem. by setoid_rewrite bool_decide_eq_true.
Qed.

Lemma issues_nil text allowed (P : string → Prop) l :
  (∀ x, allowed x = true ↔ P x) → issues_of text allowed l = [] ↔ Forall P l.
Proof.
  intros HP. unfold issues_of. induction l as [|x l IH]; simpl; [by split|].
  rewrite Forall_cons, <-HP, <-IH. destruct (allowed x); naive_solver.
Qed.

Lemma validate_manifest_iff m gs : validate_manifest m gs = Ok tt ↔ covered gs m.
Proof.
  unfold validate_manifest, covered. 
  rewrite <-(issues_nil "Read access not granted for: " _ _ _ (path_allowed_iff "read" gs)).
  rewrite <-(issues_nil "Write access not granted for: " _ _ _ (path_allowed_iff "write" gs)).
  rewrite <-(issues_nil "Network access not granted for: " _ _ _ (host_allowed_iff gs)).
  rewrite <-side_effects_allowed_iff.
  case_bool_decide as Hn; rewrite !app_nil in Hn.
  - split; [intros _|done]. destruct Hn as (? & ? & ? & Hs). split_and!; try done.
    intros Hne. rewrite bool_decide_eq_false_2 in Hs by done. by destruct (side_effects_allowed gs).
  - split; [done|]. intros (Hr & Hw & Hh & Hs). destruct Hn. split_and!; try done.
    case_bool_decide as Hne; [done|]. by rewrite Hs.
Qed.

(** Any use of the engine. *)
Inductive SecOp : Type := ORegister (p : Principal) | OGrant (g : CapabilityGrant).
Definition sec_run (op : SecOp) (s : SecurityEngine) : SecurityEngine :=
  match op with ORegister p => (register_principal p s).2 | OGrant g => (grant g s).2 end.
Definition sec_runs (ops : list SecOp) : SecurityEngine :=
  foldl (λ s op, sec_run op s) security_new ops.

(** What a history granted to a principal, in order. *)
Definition granted_to (pid : string) (ops : list SecOp) : list CapabilityGrant :=
  omap (λ op, match op with
              | OGrant g => if decide (cg_principal_id g = pid) then Some g else None
              | ORegister _ => None
              end) ops.

Lemma granted_to_elem pid ops g :
  g ∈ granted_to pid ops ↔ OGrant g ∈ ops ∧ cg_principal_id g = pid.
Proof.
  unfold granted_to. rewrite list_elem_of_omap. split.
  - intros ([p|g'] & Hin & He); [done|]. case_decide; naive_solver.
  - intros [Hin Hp]. exists (OGrant g). split; [done|]. by rewrite decide_True.
Qed.

(** The engine holds exactly what was registered and granted. *)
Lemma sec_runs_state ops :
  (∃ ps, lock (se_principals (sec_runs ops)) = Some ps ∧
     ∀ pid, is_Some (ps !! pid) ↔ ∃ p, ORegister p ∈ ops ∧ uid p = pid) ∧
  (∃ gs, lock (se_grants (sec_runs ops)) = Some gs ∧
     ∀ pid, default [] (gs !! pid) = granted_to pid ops).
Proof.
  induction ops as [|op ops IH] using rev_ind.
  { split; exists ∅; (split; [done|]); intros pid; rewrite lookup_empty; [|done].
    split; [by intros []|]. by intros (p & ?%not_elem_of_nil & _). }
  destruct IH as [(ps & Hps & Hp) (gs & Hgs & Hg)]. unfold sec_runs. rewrite foldl_app. simpl.
  fold (sec_runs ops). unfold granted_to. setoid_rewrite omap_app. fold granted_to.
  apply lock_Some in Hps as [Hpo Hps], Hgs as [Hgo Hgs].
  destruct op as [p|g]; unfold sec_run, register_principal, grant, lock; simpl.
  - rewrite Hpo. simpl. rewrite Hgo, Hgs. split; [|exists gs; split; [done|]; intros; by rewrite app_nil_r].
    rewrite Hpo. eexists. split; [done|]. intros pid. rewrite lookup_insert_is_Some', Hps, Hp.
    setoid_rewrite elem_of_app. setoid_rewrite list_elem_of_singleton. naive_solver.
  - rewrite Hgo. simpl. rewrite Hpo, Hps. split.
    + exists ps. split; [done|]. intros pid. rewrite Hp. setoid_rewrite elem_of_app.
      setoid_rewrite list_elem_of_singleton. naive_solver.
    + rewrite Hgo. eexists. split; [done|]. intros pid. rewrite Hgs.
      destruct (decide (cg_principal_id g = pid)) as [<-|Hne].
      * rewrite lookup_insert_eq. simpl. by rewrite Hg.
      * by rewrite lookup_insert_ne, app_nil_r.
Qed.

(** C27: Default deny, as implemented. Whatever was registered and granted before,
    the gate of a workload is open for side effects exactly when its principal's
    identifier was registered (nothing authenticates the caller as that principal),
    the grants made to that principal and still valid cover the reads, writes,
    network destinations and side effects its manifest declares ([covered]; its
    devices and credential references are not looked at), its specification was validated, it holds a lease, its
    deadline is open, it has a cancellation policy, needs no approval, and has an
    isolation profile. *)
Theorem gate_opens_exactly ops now now_us pid m has_lease deadline_us has_cancel isolation valid :
  is_open (set_workload_validated valid
    (evaluate now now_us (sec_runs ops) pid m has_lease deadline_us has_cancel isolation)) = true ↔
  (∃ p, ORegister p ∈ ops ∧ uid p = pid) ∧
  covered (List.filter (grant_is_valid now) (granted_to pid ops)) m ∧
  valid = true ∧ has_lease = true ∧ (deadline_us = 0 ∨ now_us < deadline_us) ∧
  has_cancel = true ∧ cm_requires_approval m = false ∧ isolation ≠ "".
Proof.
  destruct (sec_runs_state ops) as [(ps & Hps & Hp) (gs & Hgs & Hg)].
  rewrite <-Hp, <-validate_manifest_iff. unfold is_open, evaluate, get_grants. simpl.
  rewrite Hps, Hgs, Hg, !andb_true_iff, bool_decide_eq_true, !negb_true_iff, bool_decide_eq_false,
    orb_true_iff, Z.eqb_eq, Z.ltb_lt.
  destruct (validate_manifest _ _) as [[]|]; naive_solver.
Qed.

(** A grant only ever widens what a principal may do, and only for that
    principal. *)
Lemma covered_mono gs gs' m : gs ⊆ gs' → covered gs m → covered gs' m.
Proof.
  intros Hs (Hr & Hw & Hh & He). split_and!.
  1,2: eapply Forall_impl; [eassumption|]; intros path (g & p & rest & Hin & ?);
    exists g, p, rest; split; [by apply Hs|done].
  - eapply Forall_impl; [eassumption|]. intros h (g & k & Hin & ?). exists g, k.
    split; [by apply Hs|done].
  - intros Hne. destruct (He Hne) as (g & Hin & ?). exists g. split; [by apply Hs|done].
Qed.

(** ** What the broker hands out *)

(** Any use of the broker, and the reference it keeps for a credential: the last
    one registered with a usable variable. *)
Definition broker_runs (rs : list CredentialReference) : CredentialBroker :=
  foldl (λ b r, (register_reference r b).2) broker_default rs.
Definition registered (rs : list CredentialReference) (id : string) : option CredentialReference :=
  last (filter (λ r, cr_credential_id r = id ∧ blank (cr_environment_variable r) = false) rs).

Lemma broker_runs_state rs :
  ∃ refs, lock (cb_references (broker_runs rs)) = Some refs ∧
    ∀ id, refs !! id = registered rs id.
Proof.
  induction rs as [|r rs (refs & Hl & Hr)] using rev_ind; [by exists ∅|].
  unfold broker_runs. rewrite foldl_app. simpl. fold (broker_runs rs). unfold register_reference.
  unfold registered. setoid_rewrite filter_app. setoid_rewrite filter_cons.
  destruct (blank (cr_environment_variable r)) eqn:Hb.
  - exists refs. split; [done|]. intros id. rewrite decide_False by (by intros []).
    by rewrite app_nil_r, Hr.
  - rewrite Hl. apply lock_Some in Hl as [Hp Hi]. eexists.
    split; [by apply lock_set|]. intros id. destruct (decide (cr_credential_id r = id)) as [<-|Hne].
    + rewrite lookup_insert_eq, decide_True by done. by rewrite filter_nil, last_snoc.
    + rewrite lookup_insert_ne by done. rewrite decide_False by (by intros []).
      by rewrite app_nil_r, Hr.
Qed.

Lemma wrap_i64_id z : i64_min ≤ z ≤ i64_max → wrap_i64 z = z.
Proof. unfold wrap_i64, i64_min, i64_max. intros. rewrite Z.mod_small; lia. Qed.

(** The broker hands out a credential exactly to the principals and for the
    capabilities of the reference registered last, if its variable is set; the
    secret in the lease is that variable's, and it can be read until the requested
    time, at least a second, is over and never after. *)
Theorem credential_lease_exact rs env uuid now_us id pid cap ttl :
  0 ≤ now_us ≤ 2 ^ 62 → 0 ≤ ttl < 2 ^ 32 →
  let res := lease_credential env uuid now_us (broker_runs rs) id pid cap ttl in
  (∀ secret, (∃ l, res = Ok l ∧ cl_secret l = secret) ↔
     ∃ r, registered rs id = Some r ∧ pid ∈ cr_allowed_principals r ∧
          cap ∈ cr_allowed_capabilities r ∧ env (cr_environment_variable r) = Some secret) ∧
  (∀ l t, res = Ok l →
     cl_principal_id l = pid ∧ cl_capability l = cap ∧
     (is_ok (with_secret t l (λ s, s)) = true ↔ t < now_us + Z.max ttl 1 * 1000000)).
Proof.
  intros Hnow Httl res. destruct (broker_runs_state rs) as (refs & Hl & Hr).
  unfold res, lease_credential. rewrite Hl, Hr. clear res. split.
  - intros secret. destruct (registered rs id) as [r|]; [|by split; intros (? & ? & _)].
    case_bool_decide; simpl; [|by split; [intros (? & ? & _)|intros (? & [= <-] & ? & _)]].
    case_bool_decide; simpl; [|by split; [intros (? & ? & _)|intros (? & [= <-] & _ & ? & _)]].
    destruct (env (cr_environment_variable r)) as [sec|] eqn:He.
    + split; [intros (l & [= <-] & <-); by eauto|].
      intros (r' & [= <-] & _ & _ & Hs). rewrite He in Hs. injection Hs as ->. by eexists.
    + split; [by intros (? & ? & _)|]. intros (r' & [= <-] & _ & _ & Hs). congruence.
  - intros l t. destruct (registered rs id) as [r|]; [|done].
    case_bool_decide; simpl; [|done]. case_bool_decide; simpl; [|done].
    destruct (env _); [|done]. intros [= <-]. unfold with_secret. simpl.
    rewrite wrap_i64_id by (unfold i64_min, i64_max; lia).
    split_and!; [done|done|]. destruct (Z.leb_spec (now_us + Z.max ttl 1 * 1000000) t); simpl;
      (split; [done || lia|lia || done]).
Qed.

(** ** Concrete engines *)

Definition ex_principal (pid : string) (authenticated : bool) : Principal :=
  mkPrincipal (meta_new pid 0 "n" "ns" "o") (mkPrincipalSpec PT_User "" [] [])
    (mkPrincipalStatus authenticated None []).
Definition ex_grant (capability : string) (paths hosts : list string) : CapabilityGrant :=
  mkGrant "g" "p" capability paths hosts None false "" None None.
Definition ex_caps (reads devices hosts credentials effects : list string) (approval : bool) :
    CapabilityManifest :=
  mkCapabilityManifest reads [] devices hosts credentials effects true DC_Public approval None.

Lemma credential_lease_exact_witness :
  ∃ l, lease_credential (λ _, Some [7]) "u" 5 (broker_runs
    [mkCredentialReference "c" "TOKEN" ["p"] ["net"]]) "c" "p" "net" 0 = Ok l ∧
    is_ok (with_secret 1000004 l (λ s, s)) = true.
Proof.
  destruct (credential_lease_exact [mkCredentialReference "c" "TOKEN" ["p"] ["net"]]
    (λ _, Some [7]) "u" 5 "c" "p" "net" 0) as [Hiff Ht]; [lia|lia|].
  destruct (proj2 (Hiff [7])) as (l & Hl & _).
  - eexists. split_and!; [reflexivity|by left|by left|reflexivity].
  - exists l. split; [exact Hl|]. apply (Ht l 1000004 Hl). lia.
Defined.

(** A grant on a directory covers everything whose name starts with the same
    letters. *)
Example path_prefix_is_textual :
  validate_manifest (ex_caps ["/database/secrets"; "/data/../etc/shadow"] [] [] [] [] false)
    [ex_grant "read" ["/data"] []] = Ok tt.
Proof. reflexivity. Qed.

(** A grant on a host covers longer and shorter names. *)
Example host_match_is_symmetric :
  validate_manifest (ex_caps [] [] ["api.example.com.attacker.net"; "com"; ""] [] [] false)
    [ex_grant "network" [] ["api.example.com"]] = Ok tt.
Proof. reflexivity. Qed.

(** Devices and credentials need no grant at all. *)
Example devices_and_credentials_ungranted :
  validate_manifest (ex_caps [] ["gpu0"] [] ["root-token"] [] false) [] = Ok tt.
Proof. reflexivity. Qed.

(** A registered principal passes for authenticated whatever its status says. *)
Example unauthenticated_principal_passes :
  eg_principal_authenticated
    (evaluate 0 0 (sec_runs [ORegister (ex_principal "p" false)]) "p"
       (ex_caps [] [] [] [] [] false) true 0 true "iso") = true.
Proof. reflexivity. Qed.

(** A gate closed for want of approval or of a cancellation policy gives no
    reason. *)
Example closed_without_reason :
  let g := set_workload_validated true
    (evaluate 0 0 (sec_runs [ORegister (ex_principal "p" true)]) "p"
       (ex_caps [] [] [] [] [] true) true 0 false "iso") in
  is_open g = false ∧ eg_failure_reasons g = [].
Proof. split; reflexivity. Qed.
