(* ===== verification/Graph.v ===== *)
(** * Dependency graphs

    What the schedulers share: multigraphs given by their edges, in-degree and
    adjacency tables, and the queue algorithm that [workflow.rs] runs twice (to
    sort steps and to order phase nodes), with the proof that it stops, never
    decrements a degree below zero, and finds an order exactly if there is no
    cycle. *)

From S2P Require Import Prelude.

(** ** Edges *)

Abbreviation Edges := (list (string * string)).

Definition edge (E : Edges) (m n : string) : Prop := (m, n) ∈ E.

(** The targets of a vertex in the order of the edges, and how many edges lead
    into one. *)
Definition succs (E : Edges) (m : string) : list string := (filter (λ e, e.1 = m) E).*2.
Definition occurs (n : string) (l : list string) : nat := length (filter (λ x, x = n) l).
Definition indeg (E : Edges) (n : string) : nat := occurs n E.*2.

(** No way leads back. *)
Definition acyclic (E : Edges) : Prop := ∀ v, ¬ tc (edge E) v v.

(** Every edge into a listed vertex starts at an earlier one. *)
Definition ordered (E : Edges) (l : list string) : Prop :=
  ∀ i m n, l !! i = Some n → edge E m n → ∃ j, (j < i)%nat ∧ l !! j = Some m.

Lemma occurs_cons n x l : occurs n (x :: l) = ((if decide (x = n) then 1 else 0) + occurs n l)%nat.
Proof. unfold occurs. rewrite filter_cons. by case_decide. Qed.
Lemma occurs_app n l k : occurs n (l ++ k) = (occurs n l + occurs n k)%nat.
Proof. unfold occurs. by rewrite filter_app, length_app. Qed.
Lemma occurs_pos n l : (0 < occurs n l)%nat ↔ n ∈ l.
Proof.
  induction l as [|x l IH]; [split; [unfold occurs; simpl; lia|by intros ?%not_elem_of_nil]|].
  rewrite occurs_cons, elem_of_cons, <-IH. case_decide; [|naive_solver]. split; [by left|lia].
Qed.

(** The edges into a vertex, split by the vertices already passed. *)
Definition pending_in (E : Edges) (passed : list string) (n : string) : nat :=
  occurs n (filter (λ e, e.1 ∉ passed) E).*2.

Lemma pending_in_nil E n : pending_in E [] n = indeg E n.
Proof.
  unfold pending_in, indeg. induction E as [|e E IH]; [done|].
  rewrite filter_cons, decide_True by apply not_elem_of_nil. cbn [fmap list_fmap].
  by rewrite !occurs_cons, IH.
Qed.

Lemma pending_in_snoc E passed v n :
  v ∉ passed →
  pending_in E passed n = (pending_in E (passed ++ [v]) n + occurs n (succs E v))%nat.
Proof.
  intros Hv. unfold pending_in, succs. induction E as [|[a b] E IH]; [done|].
  rewrite !filter_cons. cbn [fst].
  destruct (decide (a = v)) as [->|Ha].
  - rewrite decide_True by done. rewrite (decide_False (P := v ∉ passed ++ [v])) by set_solver.
    cbn [fmap list_fmap snd]. rewrite !occurs_cons. lia.
  - destruct (decide (a ∈ passed)) as [Hin|Hin].
    + rewrite decide_False by (intros Hc; by apply Hc).
      rewrite (decide_False (P := a ∉ passed ++ [v])) by set_solver. done.
    + rewrite decide_True by done. rewrite (decide_True (P := a ∉ passed ++ [v])) by set_solver.
      cbn [fmap list_fmap snd]. rewrite !occurs_cons. lia.
Qed.

Lemma pending_in_zero E passed n :
  pending_in E passed n = 0%nat ↔ ∀ m, edge E m n → m ∈ passed.
Proof.
  unfold pending_in. split.
  - intros H0 m Hm. destruct (decide (m ∈ passed)) as [|Hn]; [done|exfalso].
    assert (0 < occurs n (filter (λ e, e.1 ∉ passed) E).*2)%nat; [|lia].
    apply occurs_pos, list_elem_of_fmap. exists (m, n). split; [done|].
    by apply list_elem_of_filter.
  - intros Hall. destruct (occurs _ _) eqn:Ho; [done|exfalso].
    assert (n ∈ (filter (λ e, e.1 ∉ passed) E).*2) as Hin by (apply occurs_pos; lia).
    apply list_elem_of_fmap in Hin as ([a b] & -> & [Hna He]%list_elem_of_filter).
    by apply Hna, Hall.
Qed.

(** ** The queue algorithm *)

(** The inner loop: each neighbour's degree goes down by one, and a neighbour
    whose degree reaches zero is queued. [None] is the subtraction below zero. *)
Fixpoint relax (ns : list string) (deg : gmap string nat) (queue : list string) :
    option (gmap string nat * list string) :=
  match ns with
  | [] => Some (deg, queue)
  | n :: ns' =>
      match deg !! n with
      | None => relax ns' deg queue
      | Some O => None
      | Some (S d) =>
          relax ns' (<[n := d]> deg) (if decide (d = 0)%nat then queue ++ [n] else queue)
      end
  end.

(** [while let Some(node) = queue.pop_front()]; [None] also when the fuel runs
    out. *)
Fixpoint kahn_loop (fuel : nat) (adj : gmap string (list string)) (deg : gmap string nat)
    (queue order : list string) : option (list string) :=
  match queue with
  | [] => Some order
  | node :: q =>
      match fuel with
      | O => None
      | S f =>
          match relax (default [] (adj !! node)) deg q with
          | None => None
          | Some (deg', q') => kahn_loop f adj deg' q' (order ++ [node])
          end
      end
  end.

(** The whole of it: the queue starts with the vertices of degree zero, in the
    order of the table; each vertex is popped at most once. *)
Definition kahn `{HashOrder} (adj : gmap string (list string)) (deg : gmap string nat) :
    option (list string) :=
  kahn_loop (size deg) adj deg (filter (λ p, p.2 = 0%nat) (hash_iter deg)).*1 [].

Lemma relax_spec ns deg q :
  (∀ n k, deg !! n = Some k → occurs n ns ≤ k)%nat →
  ∃ deg' new, relax ns deg q = Some (deg', q ++ new) ∧ NoDup new ∧
    (∀ n, deg' !! n = (λ k, (k - occurs n ns)%nat) <$> deg !! n) ∧
    (∀ n, n ∈ new ↔ ∃ k, deg !! n = Some k ∧ (0 < k)%nat ∧ occurs n ns = k).
Proof.
  revert deg q. induction ns as [|n ns IH]; intros deg q Hle; simpl.
  { exists deg, []. split_and!; [by rewrite app_nil_r|constructor|..].
    - intros n. unfold occurs. simpl. destruct (deg !! n) as [k|]; simpl; [|done]. f_equal. lia.
    - intros n. unfold occurs. simpl. split; [by intros ?%not_elem_of_nil|].
      intros (k & _ & ? & ?). lia. }
  destruct (deg !! n) as [k|] eqn:Hn.
  2:{ destruct (IH deg q) as (deg' & new & -> & Hnd & Hd & Hin).
      { intros m k Hm. specialize (Hle m k Hm). rewrite occurs_cons in Hle. lia. }
      exists deg', new. split_and!; [done|done|..].
      - intros m. rewrite Hd, occurs_cons. case_decide as Hc; [subst m; by rewrite Hn|done].
      - intros m. rewrite Hin, occurs_cons. case_decide as Hc; [subst m; naive_solver|done]. }
  pose proof (Hle n k Hn) as Hk. rewrite occurs_cons, decide_True in Hk by done.
  destruct k as [|d]; [lia|].
  destruct (IH (<[n:=d]> deg) (if decide (d = 0)%nat then q ++ [n] else q))
    as (deg' & new & -> & Hnd & Hd & Hin).
  { intros m k. destruct (decide (m = n)) as [->|Hne].
    - rewrite lookup_insert_eq. intros [= <-]. lia.
    - rewrite lookup_insert_ne by done. intros Hm. specialize (Hle m k Hm).
      rewrite occurs_cons in Hle. lia. }
  assert (∀ m, deg' !! m = (λ k, (k - occurs m (n :: ns))%nat) <$> deg !! m) as Hd'.
  { intros m. rewrite Hd, occurs_cons. destruct (decide (m = n)) as [->|Hne].
    - by rewrite lookup_insert_eq, decide_True, Hn by done.
    - rewrite lookup_insert_ne, decide_False by congruence. done. }
  assert (n ∉ new ∨ d ≠ 0)%nat as Hfresh.
  { destruct (decide (d = 0)%nat) as [->|]; [left|by right].
    rewrite Hin. rewrite lookup_insert_eq. intros (k & [= <-] & ? & _). lia. }
  assert (∀ m, m ∈ new ∨ (m = n ∧ d = 0%nat) ↔
    ∃ k, deg !! m = Some k ∧ (0 < k)%nat ∧ occurs m (n :: ns) = k) as Hin'.
  { intros m. rewrite Hin, occurs_cons. destruct (decide (m = n)) as [->|Hne].
    - rewrite lookup_insert_eq, Hn. rewrite (decide_True (P := n = n)) by done. split.
      + intros [(k & [= <-] & ? & ?)|[_ ->]]; eexists; (split_and!; [done|lia|lia]).
      + intros (k & [= <-] & _ & Ho). destruct (decide (d = 0)%nat); [by right|left].
        exists d. split_and!; [done|lia|lia].
    - rewrite lookup_insert_ne, (decide_False (P := n = m)) by done. naive_solver. }
  case_decide as Hd0.
  - subst d. exists deg', (n :: new). rewrite <-app_assoc. split_and!; [done| |done|].
    + constructor; [|done]. by destruct Hfresh.
    + intros m. rewrite elem_of_cons, <-Hin'. naive_solver.
  - exists deg', new. split_and!; [done|done|done|].
    intros m. rewrite <-Hin'. naive_solver.
Qed.

(** ** Correctness *)

Section Kahn.
Context (V : gset string) (E : Edges) (adj : gmap string (list string)).
Context (Hadj : ∀ m, default [] (adj !! m) = succs E m).

(** The tables after the vertices of [order] were popped. *)
Record kahn_inv (deg : gmap string nat) (queue order : list string) : Prop := {
  ki_nodup : NoDup (order ++ queue);
  ki_sub : ∀ n, n ∈ order ++ queue → n ∈ V;
  ki_deg : ∀ n, deg !! n = if decide (n ∈ V) then Some (pending_in E order n) else None;
  ki_ready : ∀ n, n ∈ V → n ∈ order ++ queue ↔ pending_in E order n = 0%nat;
  ki_ordered : ordered E order
}.

Lemma kahn_step deg node q order :
  kahn_inv deg (node :: q) order →
  ∃ deg' q', relax (succs E node) deg q = Some (deg', q') ∧ kahn_inv deg' q' (order ++ [node]).
Proof.
  intros [Hnd Hsub Hdeg Hready Hord].
  assert (node ∉ order) as Hnode.
  { apply NoDup_app in Hnd as (_ & Hdis & _). intros Hin. by apply (Hdis node Hin); left. }
  assert (node ∈ V) as HV by (apply Hsub; set_solver).
  pose proof (λ n, pending_in_snoc E order node n Hnode) as Hpend.
  destruct (relax_spec (succs E node) deg q) as (deg' & new & -> & Hnew & Hd & Hin).
  { intros n k. rewrite Hdeg. case_decide; [|done]. intros [= <-]. rewrite Hpend. lia. }
  assert (∀ n, n ∈ new ↔ n ∈ V ∧ (0 < pending_in E order n)%nat ∧
    pending_in E (order ++ [node]) n = 0%nat) as Hnew'.
  { intros n. rewrite Hin, Hdeg, (Hpend n). case_decide; [|naive_solver]. split.
    - intros (k & [= <-] & ? & ?). split_and!; [done|lia|lia].
    - intros (_ & ? & ?). eexists. split_and!; [done|lia|lia]. }
  exists deg', (q ++ new). split; [done|].
  assert ((order ++ [node]) ++ q ++ new = (order ++ node :: q) ++ new) as Happ
    by (by rewrite <-!app_assoc).
  split; rewrite ?Happ.
  - apply NoDup_app. split_and!; [done| |done].
    intros n Hn (HnV & Hpos & _)%Hnew'. apply Hready in Hn; [lia|done].
  - intros n [Hn|Hn]%elem_of_app; [by apply Hsub|]. by apply Hnew' in Hn as [? _].
  - intros n. rewrite Hd, Hdeg. case_decide; simpl; [|done]. f_equal. rewrite Hpend. lia.
  - intros n HnV. rewrite elem_of_app, Hready, Hnew' by done. specialize (Hpend n).
    destruct (pending_in E order n); [split; [lia|auto]|].
    split; [intros [?|(_ & _ & ?)]; [done|done]|]. intros H0. right. split_and!; [done|lia|done].
  - intros i m n Hi Hm. apply lookup_app_Some in Hi as [Hi|[Hlen Hi]].
    + destruct (Hord i m n Hi Hm) as (j & Hj & Hjm). exists j. split; [done|].
      by apply lookup_app_l_Some.
    + apply list_lookup_singleton_Some in Hi as [Hi <-].
      assert (m ∈ order) as Hmo.
      { eapply pending_in_zero; [|exact Hm]. apply Hready; [done|]. set_solver. }
      apply list_elem_of_lookup in Hmo as [j Hj]. exists j. pose proof (lookup_lt_Some _ _ _ Hj).
      split; [lia|]. by apply lookup_app_l_Some.
Qed.

(** Fuel for as many vertices as are not popped yet is enough. *)
Lemma kahn_loop_spec fuel deg queue order :
  kahn_inv deg queue order → (size V ≤ fuel + length order)%nat →
  ∃ result deg', kahn_loop fuel adj deg queue order = Some result ∧ kahn_inv deg' [] result.
Proof.
  revert deg queue order. induction fuel as [|f IH]; intros deg queue order Hinv Hf.
  - destruct queue as [|node q]; [by exists order, deg|exfalso].
    assert (length (order ++ node :: q) ≤ size V)%nat as Hlen.
    { rewrite <-(size_list_to_set (C := gset string)) by apply Hinv.
      apply subseteq_size. intros n Hn%elem_of_list_to_set. by apply Hinv. }
    rewrite length_app in Hlen. simpl in *. lia.
  - destruct queue as [|node q]; [by exists order, deg|]. simpl. rewrite Hadj.
    destruct (kahn_step _ _ _ _ Hinv) as (deg' & q' & -> & Hinv').
    apply IH; [done|]. rewrite length_app. simpl. lia.
Qed.

Definition degrees_ok (deg : gmap string nat) : Prop :=
  ∀ n, deg !! n = if decide (n ∈ V) then Some (indeg E n) else None.

Lemma degrees_dom deg : degrees_ok deg → dom deg = V.
Proof.
  intros Hd. apply set_eq. intros n. rewrite elem_of_dom, Hd. case_decide; [done|].
  split; [by intros []|done].
Qed.

Lemma kahn_spec `{HashOrder} deg :
  degrees_ok deg →
  ∃ order, kahn adj deg = Some order ∧ NoDup order ∧ (∀ n, n ∈ order → n ∈ V) ∧
    ordered E order ∧
    (∀ n, n ∈ V → (∀ m, edge E m n → m ∈ order) → n ∈ order).
Proof.
  intros Hd.
  assert (∀ n, n ∈ (filter (λ p, p.2 = 0%nat) (hash_iter deg)).*1 ↔ deg !! n = Some 0%nat) as Hq.
  { intros n. rewrite list_elem_of_fmap. split.
    - intros ([k d] & -> & [Hz Hin]%list_elem_of_filter). simpl in *. subst d.
      by apply elem_of_hash_iter.
    - intros Hn. exists (n, 0%nat). split; [done|]. apply list_elem_of_filter.
      split; [done|by apply elem_of_hash_iter]. }
  destruct (kahn_loop_spec (size deg) deg (filter (λ p, p.2 = 0%nat) (hash_iter deg)).*1 [])
    as (order & deg' & Hk & [Hnd Hsub _ Hready Hord]).
  { split; simpl.
    - eapply sublist_NoDup; [apply (hash_iter_NoDup deg)|].
      apply fmap_sublist, sublist_filter.
    - intros n Hn%Hq. rewrite Hd in Hn. by case_decide.
    - intros n. rewrite Hd. by rewrite pending_in_nil.
    - intros n HnV. rewrite Hq, Hd, decide_True, pending_in_nil by done. naive_solver.
    - by intros i m n Hi. }
  { rewrite <-(degrees_dom deg Hd), size_dom. simpl. lia. }
  rewrite app_nil_r in *. exists order. split_and!; [exact Hk|done|done|done|].
  intros n HnV Hp. apply Hready; [done|]. by apply pending_in_zero.
Qed.
End Kahn.

(** ** Order and cycles *)

Lemma ordered_tc E l m n i :
  ordered E l → tc (edge E) m n → l !! i = Some n → ∃ j, (j < i)%nat ∧ l !! j = Some m.
Proof.
  intros Ho Ht. revert i. induction Ht as [m n He|m k n He _ IH]; intros i Hi; [by eapply Ho|].
  destruct (IH i Hi) as (j & Hj & Hk). destruct (Ho j m k Hk He) as (j' & ? & ?).
  exists j'. split; [lia|done].
Qed.

Lemma tc_last_edge E a b : tc (edge E) a b → ∃ m, edge E m b.
Proof. induction 1; eauto. Qed.

Lemma ordered_acyclic E l :
  NoDup l → ordered E l → (∀ m n, edge E m n → n ∈ l) → acyclic E.
Proof.
  intros Hnd Ho Hall v Hv.
  assert (v ∈ l) as [i Hi]%list_elem_of_lookup.
  { destruct (tc_last_edge _ _ _ Hv) as [m Hm]. by eapply Hall. }
  destruct (ordered_tc _ _ _ _ _ Ho Hv Hi) as (j & Hj & Hlj).
  pose proof (NoDup_lookup _ _ _ _ Hnd Hi Hlj). lia.
Qed.

(** From a set in which everything has a predecessor one can walk back for
    ever. *)
Lemma walk_back (R : string → string → Prop) (U : gset string) k u :
  (∀ v, v ∈ U → ∃ w, w ∈ U ∧ R w v) → u ∈ U →
  ∃ l, length l = k ∧ Forall (.∈ U) l ∧ Forall (λ b, tc R b u) l ∧
    ∀ i j a b, (i < j)%nat → l !! i = Some a → l !! j = Some b → tc R b a.
Proof.
  intros Hpred. revert u. induction k as [|k IH]; intros u Hu.
  { exists []. split_and!; [done|constructor|constructor|]. by intros. }
  destruct (Hpred u Hu) as (w & Hw & Hwu).
  destruct (IH w Hw) as (l & Hlen & HU & Htc & Hpairs). exists (w :: l). split_and!.
  - simpl. by rewrite Hlen.
  - by constructor.
  - constructor; [by apply tc_once|]. eapply Forall_impl; [exact Htc|].
    intros b Hb. eapply tc_rtc_r; [exact Hb|by apply rtc_once].
  - intros [|i] [|j] a b Hij; simpl; try lia.
    + intros [= <-] Hb. rewrite Forall_forall in Htc. by eapply Htc, list_elem_of_lookup_2.
    + intros. apply (Hpairs i j); [lia|done|done].
Qed.

Lemma acyclic_has_source E (U : gset string) :
  acyclic E → (∀ v, v ∈ U → ∃ w, w ∈ U ∧ edge E w v) → U = ∅.
Proof.
  intros Hac Hpred. destruct (set_choose_or_empty U) as [[u Hu]|HU]; [exfalso|by apply leibniz_equiv].
  destruct (walk_back (edge E) U (S (size U)) u Hpred Hu) as (l & Hlen & HU & _ & Hpairs).
  assert (NoDup l) as Hnd.
  { apply NoDup_alt. intros i j x Hi Hj. destruct (Nat.lt_trichotomy i j) as [Hlt|[|Hlt]]; [|done|];
      destruct (Hac x); eauto. }
  assert (size (list_to_set l : gset string) ≤ size U)%nat as Hs.
  { apply subseteq_size. intros x Hx%elem_of_list_to_set. rewrite Forall_forall in HU. by apply HU. }
  rewrite size_list_to_set in Hs by done. lia.
Qed.

Section Cycles.
Context `{HashOrder} (V : gset string) (E : Edges) (adj : gmap string (list string)).
Context (deg : gmap string nat).
Context (Hadj : ∀ m, default [] (adj !! m) = succs E m) (Hdeg : degrees_ok V E deg).
Context (Hends : ∀ m n, edge E m n → m ∈ V ∧ n ∈ V).

(** The algorithm stops; what it returns lists vertices once each, after all
    their predecessors, and lists all of them exactly if there is no cycle. *)
Theorem kahn_exact :
  ∃ order, kahn adj deg = Some order ∧ NoDup order ∧ list_to_set order ⊆ V ∧ ordered E order ∧
    (list_to_set order = V ↔ acyclic E) ∧ (length order = size V ↔ acyclic E).
Proof.
  destruct (kahn_spec V E adj Hadj deg Hdeg) as (order & Hk & Hnd & Hsub & Hord & Hclosed).
  assert (list_to_set order ⊆ V) as HsubV.
  { intros n Hn%elem_of_list_to_set. by apply Hsub. }
  assert (list_to_set order = V ↔ acyclic E) as Hiff.
  { split.
    - intros HV. apply (ordered_acyclic E order Hnd Hord). intros m n He.
      apply Hends in He as [_ Hn]. rewrite <-HV in Hn. by apply elem_of_list_to_set in Hn.
    - intros Hac. apply (anti_symm (⊆)); [done|].
      assert (V ∖ list_to_set order = ∅) as Hempty; [|by apply empty_difference_subseteq_L].
      apply (acyclic_has_source E); [done|]. intros v [HvV Hv]%elem_of_difference.
      rewrite elem_of_list_to_set in Hv.
      destruct (pending_in E order v) eqn:Hp.
      { destruct Hv. apply Hclosed; [done|]. by apply pending_in_zero. }
      assert (v ∈ (filter (λ e, e.1 ∉ order) E).*2) as Hin
        by (apply occurs_pos; fold (pending_in E order v); lia).
      apply list_elem_of_fmap in Hin as ([w b] & -> & [Hw He]%list_elem_of_filter).
      exists w. split; [|done]. apply elem_of_difference. rewrite elem_of_list_to_set.
      split; [by apply (Hends w b)|done]. }
  exists order. split_and!; try done. rewrite <-Hiff.
  rewrite <-(size_list_to_set (C := gset string) order) by done. split; [|by intros ->].
  intros Hs. apply (anti_symm (⊆)); [done|].
  destruct (decide (V ⊆ list_to_set order)) as [|Hn]; [done|exfalso].
  assert (list_to_set order ⊂ V) as Hss by done. apply subset_size in Hss. lia.
Qed.
End Cycles.

(** ** The tables the code builds *)

Definition Tables : Type := gmap string (list string) * gmap string nat.

(** [adj.entry(v).or_default(); in_degree.entry(v).or_insert(0)]. *)
Definition add_vertex (v : string) (t : Tables) : Tables :=
  (<[v := default [] (t.1 !! v)]> t.1, <[v := default 0%nat (t.2 !! v)]> t.2).

(** [adj.entry(m).or_default().push(n); *in_degree.entry(n).or_insert(0) += 1]. *)
Definition add_edge (m n : string) (t : Tables) : Tables :=
  (<[m := default [] (t.1 !! m) ++ [n]]> t.1, <[n := S (default 0%nat (t.2 !! n))]> t.2).

Record tables_ok (V : gset string) (E : Edges) (t : Tables) : Prop := {
  to_adj : ∀ m, default [] (t.1 !! m) = succs E m;
  to_deg : degrees_ok V E t.2;
  to_ends : ∀ m n, edge E m n → n ∈ V
}.

Lemma tables_empty : tables_ok ∅ [] (∅, ∅).
Proof.
  split; [done| |by intros m n ?%not_elem_of_nil].
  intros n. rewrite decide_False by set_solver. done.
Qed.

Lemma indeg_outside V E t n : tables_ok V E t → n ∉ V → indeg E n = 0%nat.
Proof.
  intros [_ _ He] Hn. unfold indeg. destruct (occurs n E.*2) eqn:Ho; [done|exfalso].
  assert (n ∈ E.*2) as Hin by (apply occurs_pos; lia).
  apply list_elem_of_fmap in Hin as ([m k] & -> & Hin). by apply Hn, (He m).
Qed.

Lemma add_vertex_ok V E t v : tables_ok V E t → tables_ok ({[v]} ∪ V) E (add_vertex v t).
Proof.
  intros Ht. pose proof Ht as [Ha Hd He]. split; simpl.
  - intros m. destruct (decide (m = v)) as [->|Hne].
    + by rewrite lookup_insert_eq, <-Ha.
    + by rewrite lookup_insert_ne.
  - intros n. destruct (decide (n = v)) as [->|Hne].
    + rewrite lookup_insert_eq, decide_True by set_solver. rewrite Hd. case_decide; [done|].
      simpl. by erewrite indeg_outside.
    + rewrite lookup_insert_ne, Hd by done. by do 2 case_decide; set_solver.
  - intros m n Hmn%He. set_solver.
Qed.

Lemma add_edge_ok V E t m n :
  tables_ok V E t → tables_ok ({[n]} ∪ V) (E ++ [(m, n)]) (add_edge m n t).
Proof.
  intros Ht. pose proof Ht as [Ha Hd He]. split; simpl.
  - intros k. unfold succs. rewrite filter_app, fmap_app, filter_cons, filter_nil. cbn [fst].
    fold (succs E k). destruct (decide (k = m)) as [->|Hne].
    + rewrite lookup_insert_eq, decide_True by done. simpl. by rewrite Ha.
    + rewrite lookup_insert_ne, decide_False by done. by rewrite app_nil_r.
  - intros k. unfold indeg. rewrite fmap_app, occurs_app. simpl. rewrite occurs_cons.
    change (occurs k []) with 0%nat. fold (indeg E k). destruct (decide (k = n)) as [->|Hne].
    + rewrite lookup_insert_eq, !decide_True by set_solver. f_equal.
      rewrite Hd. case_decide; simpl; [lia|]. erewrite indeg_outside by done. done.
    + rewrite lookup_insert_ne, Hd by done. rewrite (decide_False (P := n = k)) by done.
      rewrite !Nat.add_0_r. by do 2 case_decide; set_solver.
  - intros a b [Hab| [= -> ->]%list_elem_of_singleton]%elem_of_app; [|set_solver].
    apply He in Hab. set_solver.
Qed.

Lemma add_vertices_ok vs :
  tables_ok (list_to_set vs) [] (foldl (λ t v, add_vertex v t) (∅, ∅) vs).
Proof.
  induction vs as [|v vs IH] using rev_ind; [apply tables_empty|]. rewrite foldl_app. simpl.
  replace (list_to_set (vs ++ [v]) : gset string)
    with ({[v]} ∪ list_to_set vs : gset string) by set_solver.
  by apply add_vertex_ok.
Qed.

Lemma add_edges_ok V E0 E t :
  tables_ok V E0 t → (∀ m n, (m, n) ∈ E → n ∈ V) →
  tables_ok V (E0 ++ E) (foldl (λ t e, add_edge e.1 e.2 t) t E).
Proof.
  revert E0 t. induction E as [|[m n] E IH]; intros E0 t Ht Hin; simpl; [by rewrite app_nil_r|].
  rewrite cons_middle, app_assoc. apply IH; [|intros a b Hab; apply (Hin a b); by right].
  replace V with ({[n]} ∪ V); [by apply add_edge_ok|].
  assert (n ∈ V) by (apply (Hin m n); left). set_solver.
Qed.
