(* ===== verification/Workflow.v ===== *)
(** * Agent programs

    [crates/nous-scheduler/src/workflow.rs]: the compiler from agent steps to an
    execution graph (validation, topological order, phase nodes and edges,
    parallel groups, critical path, estimates) and the critical-path scheduler.
    [None] stands for a panic or a loop that does not end. *)

From S2P Require Import Prelude Float64 Resource Workload Graph.
Local Open Scope Z_scope.

(** ** Data *)

Inductive AgentStepType : Type :=
| AS_Think | AS_Retrieve | AS_ToolCall | AS_Generate | AS_Verify | AS_Approval | AS_Commit
| AS_Compensate.

Record AgentStep : Type := mkAgentStep {
  as_id : string;
  as_description : string;
  as_step_type : AgentStepType;
  as_depends_on : list string;
  as_model_calls : Z;
  as_requires_strong_model : bool;
  as_tools : list string;
  as_estimated_input_tokens : Z;
  as_estimated_output_tokens : Z;
  as_has_side_effects : bool;
  as_side_effects_reversible : bool;
  as_required_capabilities : list string;
  as_requires_approval : bool;
  as_requires_verification : bool;
  as_max_retries : Z
}.

Record AgentExecutionGraph : Type := mkAgentGraph {
  ag_graph : ExecutionGraph;
  ag_critical_path : list string;
  ag_parallel_groups : list (list string);
  ag_cache_reuse_nodes : gset string;
  ag_total_resources : ResourceVector;
  ag_critical_path_duration_ms : Z;
  ag_verification_boundaries : Z;
  ag_approval_boundaries : Z;
  ag_checkpoint_nodes : list string
}.

Record AgentProgramCompiler : Type := mkCompiler {
  ac_default_verifier_model : string;
  ac_auto_checkpoint : bool;
  ac_auto_verify : bool;
  ac_quality_threshold : f64
}.
Definition AgentProgramCompiler_default : AgentProgramCompiler :=
  mkCompiler "" true true (f64_lit 8 10).

Inductive CompileError : Type :=
| MissingDependency (step missing_dep : string)
| CircularDependency (step : string)
| InvalidStep (step reason : string).

(** ** Validation and order *)

(** [validate_steps]: the checks of one step, then of all. *)
Definition validate_step (ids : gset string) (s : AgentStep) : result CompileError unit :=
  match filter (λ d, d ∉ ids) (as_depends_on s) with
  | d :: _ => Err (MissingDependency (as_id s) d)
  | [] =>
      if decide (as_id s ∈ as_depends_on s) then Err (CircularDependency (as_id s)) else Ok tt
  end.
Fixpoint validate_loop (ids : gset string) (steps : list AgentStep) : result CompileError unit :=
  match steps with
  | [] => Ok tt
  | s :: rest => _ ← validate_step ids s; validate_loop ids rest
  end.
Definition step_ids (steps : list AgentStep) : list string := as_id <$> steps.
Definition validate_steps (steps : list AgentStep) : result CompileError unit :=
  validate_loop (list_to_set (step_ids steps)) steps.

(** The tables of [topological_sort]. *)
Definition step_tables_entry (t : Tables) (s : AgentStep) : Tables :=
  foldl (λ t d, add_edge d (as_id s) t) (add_vertex (as_id s) t) (as_depends_on s).
Definition step_tables (steps : list AgentStep) : Tables := foldl step_tables_entry (∅, ∅) steps.

(** [topological_sort]. *)
Definition topological_sort `{HashOrder} (steps : list AgentStep) :
    option (result CompileError (list string)) :=
  let '(graph, in_degree) := step_tables steps in
  sorted ← kahn graph in_degree;
  Some (if decide (length sorted ≠ length steps)
        then Err (CircularDependency "cycle detected in dependency graph") else Ok sorted).

(** ** Phase nodes *)

(** A [PhaseConfig] with the fields the compiler sets. *)
Definition phase_config (engines : list string)
    (idempotent cancellable retryable checkpointable side_effects : bool)
    (compensation : option string) (timeout duration : Z) (verifier : option string) :
    PhaseConfig :=
  mkPhaseConfig [] [] [] engines None idempotent cancellable retryable false checkpointable false
    side_effects compensation timeout duration verifier.

(** [estimated_output_tokens as u32 / 50 * 1000]. *)
Definition token_duration (tokens : Z) : Z := wrap32 (wrap32 tokens / 50 * 1000).

(** The nodes of the eight kinds of steps. *)
Definition tool_nodes (c : AgentProgramCompiler) (s : AgentStep) : list PhaseNode :=
  let sid := as_id s in
  (if ac_auto_checkpoint c && as_has_side_effects s
   then [mkPhaseNode (sid +:+ "-checkpoint") PT_Checkpoint
           (phase_config [] true false false true false None 0 0 None)
           ("Checkpoint before: " +:+ as_description s)]
   else [])
  ++ [mkPhaseNode (sid +:+ "-tool") PT_ToolExecute
        (phase_config [] (negb (as_has_side_effects s)) true (negb (as_has_side_effects s)) false
           (as_has_side_effects s)
           (if as_side_effects_reversible s then Some (sid +:+ "-compensate") else None) 120 0 None)
        ("Tool: " +:+ as_description s)]
  ++ (if as_side_effects_reversible s
      then [mkPhaseNode (sid +:+ "-compensate") PT_Compensate
              (phase_config [] true false false false false None 0 0 None)
              ("Compensate: " +:+ as_description s)]
      else []).

Definition compensate_nodes (s : AgentStep) : list PhaseNode :=
  [mkPhaseNode (as_id s +:+ "-compensate") PT_Compensate
     (phase_config [] true false false false true None 0 0 None)
     ("Compensate: " +:+ as_description s)].

Definition type_nodes (c : AgentProgramCompiler) (s : AgentStep) : list PhaseNode :=
  let sid := as_id s in
  let text := as_description s in
  match as_step_type s with
  | AS_Think =>
      [mkPhaseNode (sid +:+ "-think") PT_Plan
         (phase_config [] true true true false false None 0
            (token_duration (as_estimated_output_tokens s)) None) ("Think: " +:+ text)]
  | AS_Retrieve =>
      [mkPhaseNode (sid +:+ "-retrieve") PT_Retrieve
         (phase_config [] true true true false false None 0 500 None) ("Retrieve: " +:+ text)]
  | AS_ToolCall => tool_nodes c s
  | AS_Generate =>
      [mkPhaseNode (sid +:+ "-tokenize") PT_Tokenize
         (phase_config [] true true false false false None 0 10 None) "Tokenize input";
       mkPhaseNode (sid +:+ "-generate") PT_Decode
         (phase_config (if as_requires_strong_model s then [] else ["small-model"]) false true true
            false false None 300 (token_duration (as_estimated_output_tokens s)) None)
         ("Generate: " +:+ text)]
  | AS_Verify =>
      [mkPhaseNode (sid +:+ "-verify") PT_Verify
         (phase_config [] true true true false false None 0 0 (Some (sid +:+ "-verify-retry")))
         ("Verify: " +:+ text)]
  | AS_Approval =>
      [mkPhaseNode (sid +:+ "-approval") PT_Validate
         (phase_config [] true true false false false None 0 0 None) ("Await approval: " +:+ text)]
  | AS_Commit =>
      [mkPhaseNode (sid +:+ "-commit") PT_Commit
         (phase_config [] true false false false true None 60 0 None) ("Commit: " +:+ text)]
  | AS_Compensate => compensate_nodes s
  end.

(** The verification that may follow a step. *)
Definition auto_verify_nodes (c : AgentProgramCompiler) (s : AgentStep) : list PhaseNode :=
  if ac_auto_verify c && as_requires_verification s
  then [mkPhaseNode (as_id s +:+ "-auto-verify") PT_Verify
          (phase_config [] true true true false false None 0 0
             (Some (as_id s +:+ "-verifier")))
          ("Auto-verify: " +:+ as_description s)]
  else [].

(** [step_to_phase_nodes]. *)
Definition step_to_phase_nodes (c : AgentProgramCompiler) (s : AgentStep) : list PhaseNode :=
  type_nodes c s ++ auto_verify_nodes c s.

(** ** Nodes and edges of the program *)

Definition on_success (m n : string) : PhaseEdge := mkPhaseEdge m n (Some EC_OnSuccess).

(** The edges into the first node of a step, and those between its nodes. *)
Definition entry_edges (node_map : gmap string string) (deps : list string) (n : string) :
    list PhaseEdge :=
  omap (λ d, (λ last, on_success last n) <$> node_map !! d) deps.
Fixpoint link_nodes (node_map : gmap string string) (deps : list string) (prev : option string)
    (pns : list PhaseNode) : list PhaseEdge * option string :=
  match pns with
  | [] => ([], prev)
  | pn :: rest =>
      let id := pn_node_id pn in
      let new := match prev with
                 | Some p => [on_success p id]
                 | None => entry_edges node_map deps id
                 end in
      let '(more, last) := link_nodes node_map deps (Some id) rest in (new ++ more, last)
  end.

Record BuildState : Type := mkBuild {
  bs_nodes : list PhaseNode;
  bs_edges : list PhaseEdge;
  bs_node_map : gmap string string
}.

Definition build_step (c : AgentProgramCompiler) (s : AgentStep) (b : BuildState) : BuildState :=
  let pns := step_to_phase_nodes c s in
  let '(new, last) := link_nodes (bs_node_map b) (as_depends_on s) None pns in
  mkBuild (bs_nodes b ++ pns) (bs_edges b ++ new)
    (match last with Some l => <[as_id s := l]> (bs_node_map b) | None => bs_node_map b end).

Definition find_step (steps : list AgentStep) (id : string) : option AgentStep :=
  snd <$> list_find (λ s, as_id s = id) steps.

(** The loop over the order; the [unwrap] may fail. *)
Fixpoint build_loop (c : AgentProgramCompiler) (steps : list AgentStep) (order : list string)
    (b : BuildState) : option BuildState :=
  match order with
  | [] => Some b
  | id :: rest => s ← find_step steps id; build_loop c steps rest (build_step c s b)
  end.

(** ** Parallel groups *)

Definition node_ids (nodes : list PhaseNode) : list string := pn_node_id <$> nodes.
Definition edge_pairs (edges : list PhaseEdge) : Edges :=
  (λ e, (pe_from_node_id e, pe_to_node_id e)) <$> edges.

(** [blocks] and [blocked_by]. *)
Definition blocks_of (nodes : list PhaseNode) (edges : list PhaseEdge) :
    gmap string (list string) :=
  foldl (λ m e, <[e.1 := default [] (m !! e.1) ++ [e.2]]> m)
    (foldl (λ m v, <[v := default [] (m !! v)]> m) ∅ (node_ids nodes)) (edge_pairs edges).
Definition blocked_by_of (nodes : list PhaseNode) (edges : list PhaseEdge) :
    gmap string (list string) :=
  foldl (λ m e, <[e.2 := default [] (m !! e.2) ++ [e.1]]> m)
    (foldl (λ m v, <[v := default [] (m !! v)]> m) ∅ (node_ids nodes)) (edge_pairs edges).

(** [remaining_deps] at the start. *)
Definition remaining_of (nodes : list PhaseNode) (blocked_by : gmap string (list string)) :
    gmap string nat :=
  foldl (λ m v, <[v := match blocked_by !! v with Some l => length l | None => 0%nat end]> m) ∅
    (node_ids nodes).

(** The removal of a wave: [saturating_sub] on what each of its nodes blocks. *)
Definition unblock (targets : list string) (rem : gmap string nat) : gmap string nat :=
  foldl (λ r t, match r !! t with Some k => <[t := (k - 1)%nat]> r | None => r end) rem targets.
Definition remove_ready (blocks : gmap string (list string)) (ready : list string)
    (rem : gmap string nat) : gmap string nat :=
  foldl (λ r id, unblock (default [] (blocks !! id)) (delete id r)) rem ready.

Fixpoint waves `{HashOrder} (fuel : nat) (blocks : gmap string (list string))
    (rem : gmap string nat) (groups : list (list string)) : option (list (list string)) :=
  if decide (rem = ∅) then Some groups
  else
    match (filter (λ p, p.2 = 0%nat) (hash_iter rem)).*1 with
    | [] => Some groups
    | ready =>
        match fuel with
        | O => None
        | S f => waves f blocks (remove_ready blocks ready rem) (groups ++ [ready])
        end
    end.

(** [find_parallel_groups]; every wave removes a node. *)
Definition find_parallel_groups `{HashOrder} (nodes : list PhaseNode) (edges : list PhaseEdge) :
    option (list (list string)) :=
  let rem := remaining_of nodes (blocked_by_of nodes edges) in
  waves (size rem) (blocks_of nodes edges) rem [].

(** ** Critical path *)

Definition node_tables (nodes : list PhaseNode) (edges : list PhaseEdge) : Tables :=
  foldl (λ t e, add_edge e.1 e.2 t) (foldl (λ t v, add_vertex v t) (∅, ∅) (node_ids nodes))
    (edge_pairs edges).

Definition find_node (nodes : list PhaseNode) (id : string) : option PhaseNode :=
  snd <$> list_find (λ n, pn_node_id n = id) nodes.
Definition node_len (nodes : list PhaseNode) (id : string) : Z :=
  match find_node nodes id with Some n => pc_estimated_duration_ms (pn_config n) | None => 1 end.

Record PathState : Type := mkPathState {
  ps_longest_to : gmap string Z;
  ps_predecessor : gmap string (option string);
  ps_max_len : Z;
  ps_max_node : string
}.

(** The incoming edges of a node, and the node itself. *)
Definition best_incoming (longest : gmap string Z) (len : Z) (froms : list string) :
    Z * option string :=
  foldl (λ '(best, pred) m,
           match longest !! m with
           | Some l => if best <? wrap64 (l + len) then (wrap64 (l + len), Some m) else (best, pred)
           | None => (best, pred)
           end) (len, None) froms.
Definition froms (edges : list PhaseEdge) (n : string) : list string :=
  (filter (λ e, e.2 = n) (edge_pairs edges)).*1.
Definition path_step (nodes : list PhaseNode) (edges : list PhaseEdge) (st : PathState)
    (node : string) : PathState :=
  let '(best, pred) :=
    best_incoming (ps_longest_to st) (node_len nodes node) (froms edges node) in
  let '(max_len, max_node) :=
    if ps_max_len st <? best then (best, node) else (ps_max_len st, ps_max_node st) in
  mkPathState (<[node := best]> (ps_longest_to st)) (<[node := pred]> (ps_predecessor st))
    max_len max_node.

(** The walk back from the last node. *)
Fixpoint walk_path (fuel : nat) (predecessor : gmap string (option string)) (node : string)
    (path : list string) : option (list string) :=
  match fuel with
  | O => None
  | S f =>
      match mjoin (predecessor !! node) with
      | Some p => walk_path f predecessor p (node :: path)
      | None => Some (node :: path)
      end
  end.

(** [compute_critical_path]. *)
Definition compute_critical_path `{HashOrder} (nodes : list PhaseNode) (edges : list PhaseEdge) :
    option (list string) :=
  let '(adj, in_degree) := node_tables nodes edges in
  order ← kahn adj in_degree;
  let st := foldl (path_step nodes edges)
              (mkPathState ∅ ∅ 0 (default "" (head order))) order in
  walk_path (S (length order)) (ps_predecessor st) (ps_max_node st) [].

(** ** Estimates *)

(** The test of [detect_cache_reuse] on a pair of steps. *)
Definition abs_i64 (z : Z) : Z := wrap_i64 (Z.abs z).
Definition cache_similar (si sj : AgentStep) : bool :=
  Bool.eqb (as_requires_strong_model si) (as_requires_strong_model sj)
  && (abs_i64 (wrap_i64 (wrap_i64 (as_estimated_input_tokens si)
                         - wrap_i64 (as_estimated_input_tokens sj)))
      <? Z.quot (wrap_i64 (as_estimated_input_tokens si)) 2).
Fixpoint detect_cache_reuse (nodes : list PhaseNode) (steps : list AgentStep) : gset string :=
  match steps with
  | [] => ∅
  | si :: rest =>
      list_to_set (omap (λ sj,
        let id := as_id sj +:+ "-generate" in
        if cache_similar si sj && bool_decide (id ∈ node_ids nodes) then Some id else None) rest)
      ∪ detect_cache_reuse nodes rest
  end.

Definition sum_u64 (l : list Z) : Z := foldl (λ a x, wrap64 (a + x)) 0 l.

(** [estimate_resources] of the compiler. *)
Definition estimate_program (steps : list AgentStep) : ResourceVector :=
  let total_tokens :=
    sum_u64 ((λ s, wrap64 (as_estimated_input_tokens s + as_estimated_output_tokens s)) <$> steps)
  in
  let model_calls := sum_u64 (as_model_calls <$> steps) in
  let kv_bytes := wrap64 (total_tokens * 1024) in
  mkRV 0 (wrap64 (model_calls * 500000)) (4 * 1024 * 1024 * 1024) 0
    (wrap64 (kv_bytes + 2 * 1024 * 1024 * 1024)) kv_bytes 0 0 0 0 0 0 0.

(** [estimate_duration]. *)
Definition estimate_duration (path : list string) (nodes : list PhaseNode) : Z :=
  sum_u64 ((λ n, pc_estimated_duration_ms (pn_config n)) <$> omap (find_node nodes) path).

Definition count_u32 (p : PhaseNode → bool) (nodes : list PhaseNode) : Z :=
  wrap32 (Z.of_nat (length (List.filter p nodes))).
Definition is_phase (t : PhaseType) (n : PhaseNode) : bool := bool_decide (pn_phase_type n = t).

(** ** The compiler *)

(** The graph returned. *)
Definition assemble (steps : list AgentStep) (nodes : list PhaseNode) (edges : list PhaseEdge)
    (critical_path : list string) (parallel_groups : list (list string)) : AgentExecutionGraph :=
  mkAgentGraph (mkExecutionGraph nodes edges (default "" (pn_node_id <$> head nodes)))
    critical_path parallel_groups (detect_cache_reuse nodes steps)
    (estimate_program steps) (estimate_duration critical_path nodes)
    (count_u32 (is_phase PT_Verify) nodes)
    (count_u32 (λ n, bool_decide
       (pc_quality_verifier_phase_id (pn_config n) = Some "approval")) nodes)
    (pn_node_id <$> List.filter (is_phase PT_Checkpoint) nodes).

(** [AgentProgramCompiler::compile]. *)
Definition compile `{HashOrder} (c : AgentProgramCompiler) (steps : list AgentStep) :
    option (result CompileError AgentExecutionGraph) :=
  match validate_steps steps with
  | Err e => Some (Err e)
  | Ok _ =>
      sorted ← topological_sort steps;
      match sorted with
      | Err e => Some (Err e)
      | Ok order =>
          b ← build_loop c steps order (mkBuild [] [] ∅);
          let nodes := bs_nodes b in
          let edges := bs_edges b in
          parallel_groups ← find_parallel_groups nodes edges;
          critical_path ← compute_critical_path nodes edges;
          Some (Ok (assemble steps nodes edges critical_path parallel_groups))
      end
  end.

(** ** The critical-path scheduler *)

Record ScheduledProgram : Type := mkScheduled {
  sp_graph : AgentExecutionGraph;
  sp_execution_order : list string
}.

Definition fan_out (edges : list PhaseEdge) : gmap string nat :=
  foldl (λ acc e, <[e.1 := S (default 0%nat (acc !! e.1))]> acc) ∅ (edge_pairs edges).
Definition priority (g : AgentExecutionGraph) (id : string) : nat :=
  (default 0 (fan_out (eg_edges (ag_graph g)) !! id) * 10
   + (if decide (id ∈ ag_cache_reuse_nodes g) then 1 else 0))%nat.

(** The order of [CriticalPathScheduler::schedule]: the critical path, then the
    other nodes by descending priority. *)
Definition execution_order (g : AgentExecutionGraph) : list string :=
  ag_critical_path g
  ++ sort_by (λ a b, Nat.compare (priority g b) (priority g a))
       (filter (λ id, id ∉ ag_critical_path g) (node_ids (eg_nodes (ag_graph g)))).
Definition schedule `{HashOrder} (c : AgentProgramCompiler) (steps : list AgentStep) :
    option (result CompileError ScheduledProgram) :=
  r ← compile c steps;
  Some (g ← r; Ok (mkScheduled g (execution_order g))).

(** ** The order of the steps *)

(** Each dependency as an edge. *)
Definition step_edges (steps : list AgentStep) : Edges :=
  steps ≫= λ s, (λ d, (d, as_id s)) <$> as_depends_on s.

Lemma step_edges_elem steps m n :
  edge (step_edges steps) m n ↔ ∃ s, s ∈ steps ∧ as_id s = n ∧ m ∈ as_depends_on s.
Proof.
  unfold edge, step_edges. rewrite list_elem_of_bind. split.
  - intros (s & (d & [= -> ->] & Hd)%list_elem_of_fmap & Hs). eauto.
  - intros (s & Hs & <- & Hm). exists s. split; [|done]. apply list_elem_of_fmap. eauto.
Qed.

(** What validation guarantees. *)
Definition steps_ok (steps : list AgentStep) : Prop :=
  ∀ s d, s ∈ steps → d ∈ as_depends_on s → d ∈ step_ids steps ∧ d ≠ as_id s.

Lemma validate_step_Ok ids s :
  validate_step ids s = Ok tt ↔ ∀ d, d ∈ as_depends_on s → d ∈ ids ∧ d ≠ as_id s.
Proof.
  unfold validate_step. destruct (filter _ _) as [|d l] eqn:Hf.
  - assert (∀ d, d ∈ as_depends_on s → d ∈ ids) as Hin.
    { intros d Hd. destruct (decide (d ∈ ids)) as [|Hn]; [done|].
      assert (d ∈ filter (λ d, d ∉ ids) (as_depends_on s)) as Hc by (by apply list_elem_of_filter).
      rewrite Hf in Hc. by apply not_elem_of_nil in Hc. }
    case_decide; [split; [done|]|split; [|done]].
    + intros Hall. by destruct (Hall (as_id s)).
    + intros _ d Hd. split; [by apply Hin|]. by intros ->.
  - split; [done|]. intros Hall. assert (d ∈ d :: l) as Hd by left. rewrite <-Hf in Hd.
    apply list_elem_of_filter in Hd as [Hn Hd]. by destruct (Hall d Hd).
Qed.

Lemma validate_steps_Ok steps : validate_steps steps = Ok tt ↔ steps_ok steps.
Proof.
  unfold validate_steps, steps_ok.
  assert (∀ l ids, validate_loop ids l = Ok tt ↔ ∀ s, s ∈ l → validate_step ids s = Ok tt) as Hl.
  { intros l ids. induction l as [|s l IH]; simpl.
    - split; [intros _ s ?%not_elem_of_nil; done|done].
    - setoid_rewrite elem_of_cons. destruct (validate_step ids s) as [[]|e] eqn:Hs; simpl.
      + rewrite IH. naive_solver.
      + split; [done|]. intros Hall. rewrite <-Hs. auto. }
  rewrite Hl. setoid_rewrite validate_step_Ok. setoid_rewrite elem_of_list_to_set. naive_solver.
Qed.

Lemma step_tables_entry_ok V E t s :
  tables_ok V E t →
  tables_ok ({[as_id s]} ∪ V) (E ++ ((λ d, (d, as_id s)) <$> as_depends_on s))
    (step_tables_entry t s).
Proof.
  intros Ht. unfold step_tables_entry. apply (add_vertex_ok _ _ _ (as_id s)) in Ht.
  revert E Ht. generalize (add_vertex (as_id s) t). induction (as_depends_on s) as [|d l IH];
    intros t' E Ht; simpl; [by rewrite app_nil_r|].
  rewrite cons_middle, app_assoc. apply IH.
  replace ({[as_id s]} ∪ V) with ({[as_id s]} ∪ ({[as_id s]} ∪ V)) by set_solver.
  by apply add_edge_ok.
Qed.

Lemma step_tables_ok steps :
  tables_ok (list_to_set (step_ids steps)) (step_edges steps) (step_tables steps).
Proof.
  unfold step_tables. induction steps as [|s steps IH] using rev_ind; [apply tables_empty|].
  rewrite foldl_app. simpl. unfold step_ids, step_edges. rewrite fmap_app, bind_app. simpl.
  rewrite app_nil_r. fold (step_ids steps) (step_edges steps).
  replace (list_to_set (step_ids steps ++ [as_id s]) : gset string)
    with ({[as_id s]} ∪ list_to_set (step_ids steps) : gset string) by set_solver.
  by apply step_tables_entry_ok.
Qed.

Lemma size_list_to_set_le (l : list string) : (size (list_to_set l : gset string) ≤ length l)%nat.
Proof.
  induction l as [|x l IH]; simpl; [done|].
  pose proof (size_union_alt ({[x]} : gset string) (list_to_set l)) as Hs.
  rewrite size_singleton in Hs.
  pose proof (subseteq_size (list_to_set l ∖ {[x]} : gset string) (list_to_set l)) as Hd.
  assert (list_to_set l ∖ {[x]} ⊆ (list_to_set l : gset string)) as Hsub by set_solver.
  specialize (Hd Hsub). lia.
Qed.

Lemma size_list_to_set_NoDup (l : list string) :
  size (list_to_set l : gset string) = length l → NoDup l.
Proof.
  induction l as [|x l IH]; simpl; intros Hs; [constructor|].
  pose proof (size_list_to_set_le l) as Hle.
  destruct (decide (x ∈ (list_to_set l : gset string))) as [Hx|Hx].
  - replace ({[x]} ∪ list_to_set l : gset string) with (list_to_set l : gset string) in Hs
      by set_solver. lia.
  - rewrite size_union, size_singleton in Hs by set_solver.
    constructor; [by rewrite elem_of_list_to_set in Hx|]. apply IH. lia.
Qed.

Section Order.
Context `{HashOrder}.

Lemma topological_sort_total steps :
  steps_ok steps →
  ∃ order, topological_sort steps =
    Some (if decide (length order ≠ length steps)
          then Err (CircularDependency "cycle detected in dependency graph") else Ok order) ∧
    NoDup order ∧ (∀ n, n ∈ order → n ∈ step_ids steps) ∧ ordered (step_edges steps) order ∧
    (length order = length steps ↔ NoDup (step_ids steps) ∧ acyclic (step_edges steps)).
Proof.
  intros Hok. pose proof (step_tables_ok steps) as [Ha Hd He].
  unfold topological_sort. destruct (step_tables steps) as [graph in_degree]. simpl in *.
  destruct (kahn_exact (list_to_set (step_ids steps)) (step_edges steps) graph in_degree Ha Hd)
    as (order & -> & Hnd & Hsub & Hord & _ & Hlen).
  { intros m n Hmn. split; [|by eapply He]. apply step_edges_elem in Hmn as (s & Hs & <- & Hm).
    apply elem_of_list_to_set. by apply (Hok s m). }
  exists order. simpl. split_and!; [done|done| |done|].
  - intros n Hn. assert (n ∈ (list_to_set order : gset string)) as Hin
      by (by apply elem_of_list_to_set).
    apply Hsub in Hin. by apply elem_of_list_to_set in Hin.
  - pose proof (size_list_to_set_le (step_ids steps)) as Hle.
    assert (length order ≤ size (list_to_set (step_ids steps) : gset string))%nat as Hol.
    { rewrite <-(size_list_to_set (C := gset string) order) by done. by apply subseteq_size. }
    unfold step_ids in Hle at 2. rewrite length_fmap in Hle. rewrite <-Hlen. split.
    + intros Heq. split; [|lia]. apply size_list_to_set_NoDup. unfold step_ids at 2.
      rewrite length_fmap. lia.
    + intros [Hn Heq]. rewrite Heq, size_list_to_set by done. unfold step_ids.
      by rewrite length_fmap.
Qed.

(** The steps are ordered whenever they can be. On validated steps the sort
    always stops; it succeeds exactly when no two steps share a name and no chain
    of dependencies returns to its start, and then it lists every step once,
    after all the steps it depends on. *)
Theorem topological_sort_exact steps :
  validate_steps steps = Ok tt →
  ∃ res, topological_sort steps = Some res ∧
    (is_ok res = true ↔ NoDup (step_ids steps) ∧ acyclic (step_edges steps)) ∧
    ∀ order, res = Ok order →
      order ≡ₚ step_ids steps ∧
      ∀ s d i, s ∈ steps → d ∈ as_depends_on s → order !! i = Some (as_id s) →
        ∃ j, (j < i)%nat ∧ order !! j = Some d.
Proof.
  intros Hok%validate_steps_Ok.
  destruct (topological_sort_total steps Hok) as (order & -> & Hnd & Hsub & Hord & Hlen).
  eexists. split; [done|]. case_decide as Hd.
  - split; [|done]. split; [done|]. by intros ?%Hlen.
  - split; [split; [by intros _; apply Hlen|done]|].
    intros order' [= <-]. split.
    + apply submseteq_length_Permutation; [by apply NoDup_submseteq|].
      unfold step_ids. rewrite length_fmap. lia.
    + intros s d i Hs Hin Hi. eapply Hord; [exact Hi|]. apply step_edges_elem. eauto.
Qed.
End Order.

(** ** The compiled graph *)

(** An edge from an earlier to a later position. *)
Definition forward (ids : list string) (e : string * string) : Prop :=
  ∃ i j, (i < j)%nat ∧ ids !! i = Some e.1 ∧ ids !! j = Some e.2.

Lemma forward_app ids more e : forward ids e → forward (ids ++ more) e.
Proof.
  intros (i & j & Hij & Hi & Hj). exists i, j. split_and!; [done|by apply lookup_app_l_Some..].
Qed.

Lemma forward_snoc ids m n : m ∈ ids → forward (ids ++ [n]) (m, n).
Proof.
  intros [i Hi]%list_elem_of_lookup. pose proof (lookup_lt_Some _ _ _ Hi).
  exists i, (length ids). simpl. split; [done|]. split; [by apply lookup_app_l_Some|].
  by rewrite lookup_app_r, Nat.sub_diag by done.
Qed.

Lemma forward_acyclic ids E : NoDup ids → Forall (forward ids) E → acyclic E.
Proof.
  intros Hnd Hf v Hv.
  assert (∀ a b, tc (edge E) a b → forward ids (a, b)) as Htc.
  { intros a b. induction 1 as [a b He|a b c He _ (j & k & ? & Hj & Hk)].
    - rewrite Forall_forall in Hf. by apply Hf.
    - rewrite Forall_forall in Hf. destruct (Hf _ He) as (i & j' & ? & Hi & Hj').
      simpl in *. pose proof (NoDup_lookup _ _ _ _ Hnd Hj Hj'). exists i, k. simpl.
      split; [lia|done]. }
  destruct (Htc v v Hv) as (i & j & ? & Hi & Hj). simpl in *.
  pose proof (NoDup_lookup _ _ _ _ Hnd Hi Hj). lia.
Qed.

Lemma entry_edges_pairs nm deps n :
  edge_pairs (entry_edges nm deps n) = (λ m, (m, n)) <$> omap (nm !!.) deps.
Proof.
  unfold edge_pairs, entry_edges. induction deps as [|d deps IH]; [done|]. simpl.
  destruct (nm !! d); simpl; [f_equal|]; exact IH.
Qed.

(** The nodes of a step are chained behind what is already there. *)
Lemma link_nodes_forward nm deps pns pre prev :
  (∀ p, prev = Some p → p ∈ pre) → (∀ d l, nm !! d = Some l → l ∈ pre) →
  Forall (forward (pre ++ node_ids pns)) (edge_pairs (link_nodes nm deps prev pns).1) ∧
  (link_nodes nm deps prev pns).2 = match last (node_ids pns) with Some l => Some l | None => prev end.
Proof.
  revert pre prev. induction pns as [|pn pns IH]; intros pre prev Hp Hnm; simpl; [by split|].
  destruct (IH (pre ++ [pn_node_id pn]) (Some (pn_node_id pn))) as [Hf Hl].
  { intros p [= <-]. apply elem_of_app. right. by left. }
  { intros d l Hd. apply elem_of_app. left. by eapply Hnm. }
  destruct (link_nodes nm deps (Some (pn_node_id pn)) pns) as [more lst]. simpl in *.
  rewrite <-app_assoc in Hf. simpl in Hf. split.
  - unfold edge_pairs. rewrite fmap_app. apply Forall_app. split; [|exact Hf].
    rewrite cons_middle, app_assoc. apply (Forall_impl (forward (pre ++ [pn_node_id pn])));
      [|intros e; apply forward_app].
    destruct prev as [p|].
    + apply Forall_singleton, forward_snoc. by apply Hp.
    + fold (edge_pairs (entry_edges nm deps (pn_node_id pn))). rewrite entry_edges_pairs.
      apply Forall_fmap, Forall_forall. intros m (d & _ & Hd)%list_elem_of_omap.
      by eapply forward_snoc, Hnm.
  - rewrite Hl. rewrite last_cons. by destruct (last (node_ids pns)).
Qed.

(** Every step has a first and a last node. *)
Lemma step_nodes_cons c s : ∃ pn pns, step_to_phase_nodes c s = pn :: pns.
Proof.
  unfold step_to_phase_nodes, auto_verify_nodes, type_nodes, tool_nodes, compensate_nodes.
  destruct (as_step_type s); simpl; try by eexists _, _.
  destruct (_ && _); simpl; by eexists _, _.
Qed.
Definition first_node (c : AgentProgramCompiler) (s : AgentStep) : option string :=
  head (node_ids (step_to_phase_nodes c s)).
Definition last_node (c : AgentProgramCompiler) (s : AgentStep) : option string :=
  last (node_ids (step_to_phase_nodes c s)).

Lemma last_node_Some c s : ∃ k, last_node c s = Some k.
Proof.
  destruct (step_nodes_cons c s) as (pn & pns & Hs).
  apply last_is_Some. unfold node_ids. by rewrite Hs.
Qed.

(** The loop, as a fold over the steps in order. *)
Definition build_list (c : AgentProgramCompiler) (l : list AgentStep) : BuildState :=
  foldl (λ b s, build_step c s b) (mkBuild [] [] ∅) l.

Lemma build_loop_list c steps l b :
  (∀ s, s ∈ l → find_step steps (as_id s) = Some s) →
  build_loop c steps (as_id <$> l) b = Some (foldl (λ b s, build_step c s b) b l).
Proof.
  revert b. induction l as [|s l IH]; intros b Hf; [done|]. simpl.
  rewrite Hf by left. simpl. apply IH. intros t Ht. apply Hf. by right.
Qed.

Record build_ok (c : AgentProgramCompiler) (l : list AgentStep) (b : BuildState) : Prop := {
  bo_nodes : bs_nodes b = l ≫= step_to_phase_nodes c;
  bo_forward : Forall (forward (node_ids (bs_nodes b))) (edge_pairs (bs_edges b));
  bo_map : ∀ d k, bs_node_map b !! d = Some k ↔ ∃ t, t ∈ l ∧ as_id t = d ∧ last_node c t = Some k;
  bo_deps : ∀ i j s t, (j < i)%nat → l !! i = Some s → l !! j = Some t →
    as_id t ∈ as_depends_on s →
    ∃ m n, last_node c t = Some m ∧ first_node c s = Some n ∧ edge (edge_pairs (bs_edges b)) m n
}.

Lemma link_nodes_entry nm deps pn pns d k :
  d ∈ deps → nm !! d = Some k →
  edge (edge_pairs (link_nodes nm deps None (pn :: pns)).1) k (pn_node_id pn).
Proof.
  intros Hd Hk. simpl. destruct (link_nodes nm deps (Some (pn_node_id pn)) pns) as [more lst].
  unfold edge, edge_pairs. simpl. rewrite fmap_app. apply elem_of_app. left.
  fold (edge_pairs (entry_edges nm deps (pn_node_id pn))). rewrite entry_edges_pairs.
  apply list_elem_of_fmap. exists k. split; [done|]. apply list_elem_of_omap. eauto.
Qed.

Lemma last_node_elem c t k l :
  t ∈ l → last_node c t = Some k → k ∈ node_ids (l ≫= step_to_phase_nodes c).
Proof.
  intros Ht Hk. unfold last_node in Hk. apply last_Some_elem_of in Hk.
  unfold node_ids in *. apply list_elem_of_fmap in Hk as (n & -> & Hn).
  apply list_elem_of_fmap. exists n. split; [done|]. apply list_elem_of_bind. eauto.
Qed.

Lemma build_list_ok c l : NoDup (as_id <$> l) → build_ok c l (build_list c l).
Proof.
  induction l as [|s l IH] using rev_ind; intros Hnd.
  { split; try done. intros d k. simpl. rewrite lookup_empty.
    split; [done|by intros (t & ?%not_elem_of_nil & _)]. }
  rewrite fmap_app in Hnd. apply NoDup_app in Hnd as (Hnd & Hfresh & _).
  destruct (IH Hnd) as [Hn Hf Hm Hd]. unfold build_list. rewrite foldl_app. simpl.
  fold (build_list c l). unfold build_step.
  assert (∀ d k, bs_node_map (build_list c l) !! d = Some k →
    k ∈ node_ids (bs_nodes (build_list c l))) as Hmin.
  { intros d k (t & Ht & _ & Hk)%Hm. rewrite Hn. by eapply last_node_elem. }
  pose proof (link_nodes_forward (bs_node_map (build_list c l)) (as_depends_on s)
    (step_to_phase_nodes c s) (node_ids (bs_nodes (build_list c l))) None ltac:(done) Hmin)
    as [Hf' Hl].
  destruct (step_nodes_cons c s) as (pn & pns & Hs).
  pose proof (λ d k, link_nodes_entry (bs_node_map (build_list c l)) (as_depends_on s) pn pns d k)
    as Hentry. rewrite <-Hs in Hentry.
  destruct (link_nodes _ _ None (step_to_phase_nodes c s)) as [new lst]. simpl in *.
  assert (lst = last_node c s) as ->.
  { rewrite Hl. unfold last_node. by destruct (last (node_ids _)). }
  destruct (last_node_Some c s) as [k Hk].
  rewrite Hk. split; simpl.
  - rewrite Hn, bind_app. simpl. by rewrite app_nil_r.
  - unfold node_ids, edge_pairs. rewrite !fmap_app. apply Forall_app. split; [|done].
    eapply Forall_impl; [exact Hf|]. intros e. apply forward_app.
  - intros d k'. destruct (decide (as_id s = d)) as [<-|Hne].
    + rewrite lookup_insert_eq. split.
      * intros [= <-]. exists s. split_and!; [|done|done]. apply elem_of_app. right. by left.
      * intros (t & Ht & Hid & Hkt). apply elem_of_app in Ht as [Ht|Ht].
        { destruct (Hfresh (as_id s)); [|by left]. rewrite <-Hid. apply list_elem_of_fmap. eauto. }
        apply list_elem_of_singleton in Ht as ->. congruence.
    + rewrite lookup_insert_ne, Hm by done. setoid_rewrite elem_of_app.
      setoid_rewrite list_elem_of_singleton. naive_solver.
  - intros i j s' t Hij Hi Hj Hdep. unfold edge_pairs. rewrite fmap_app.
    apply lookup_app_Some in Hi as [Hi|[Hlen Hi]].
    + destruct (Hd i j s' t Hij Hi) as (m & n & ? & ? & He); [|done|].
      { rewrite lookup_app_l in Hj; [done|]. apply lookup_lt_Some in Hi. lia. }
      exists m, n. split_and!; [done..|]. apply elem_of_app. by left.
    + apply list_lookup_singleton_Some in Hi as [Hi <-].
      rewrite lookup_app_l in Hj by lia. apply list_elem_of_lookup_2 in Hj.
      destruct (last_node_Some c t) as [m Hlm].
      exists m, (pn_node_id pn). split_and!; [done|unfold first_node; by rewrite Hs|].
      apply elem_of_app. right. apply (Hentry (as_id t) m); [done|]. apply Hm. eauto.
Qed.
