(* ===== verification/Schedule.v ===== *)
(** * What a compiled program promises

    Parallel groups, critical path and execution order of the graphs that
    [Workflow] builds: the waves respect every edge and reach every node, the
    critical path is a longest one, and the compiler always returns. *)

From S2P Require Import Prelude Float64 Resource Workload Graph Workflow.
Local Open Scope Z_scope.

(** ** Tables built by insertion *)

Lemma push_all {A} (f g : A → string) (l : list A) (m : gmap string (list string)) k :
  default [] (foldl (λ m e, <[f e := default [] (m !! f e) ++ [g e]]> m) m l !! k)
  = default [] (m !! k) ++ (g <$> filter (λ e, f e = k) l).
Proof.
  revert m. induction l as [|e l IH]; intros m; simpl; [by rewrite app_nil_r|].
  rewrite IH, filter_cons. destruct (decide (f e = k)) as [<-|Hne].
  - rewrite lookup_insert_eq. simpl. by rewrite <-app_assoc.
  - by rewrite lookup_insert_ne.
Qed.

Lemma empty_lists (vs : list string) (m : gmap string (list string)) k :
  (∀ j, default [] (m !! j) = []) →
  default [] (foldl (λ m v, <[v := default [] (m !! v)]> m) m vs !! k) = [].
Proof.
  revert m. induction vs as [|v vs IH]; intros m Hm; simpl; [done|]. apply IH. intros j.
  destruct (decide (v = j)) as [<-|Hne]; [|by rewrite lookup_insert_ne].
  rewrite lookup_insert_eq. apply Hm.
Qed.

Lemma insert_all {A} (h : string → A) (vs : list string) (m : gmap string A) k :
  foldl (λ m v, <[v := h v]> m) m vs !! k = if decide (k ∈ vs) then Some (h k) else m !! k.
Proof.
  revert m. induction vs as [|v vs IH]; intros m; [done|].
  cbn [foldl]. rewrite IH. destruct (decide (k ∈ vs)) as [Hin|Hin].
  - rewrite decide_True by (by right). done.
  - destruct (decide (v = k)) as [<-|Hne].
    + rewrite lookup_insert_eq, decide_True by left. done.
    + rewrite lookup_insert_ne, decide_False by set_solver. done.
Qed.

Lemma blocks_succs nodes edges m :
  default [] (blocks_of nodes edges !! m) = succs (edge_pairs edges) m.
Proof. unfold blocks_of. rewrite push_all, empty_lists by done. done. Qed.

Lemma blocked_by_indeg nodes edges n :
  length (default [] (blocked_by_of nodes edges !! n)) = indeg (edge_pairs edges) n.
Proof.
  unfold blocked_by_of. rewrite (push_all snd fst), empty_lists by done. simpl.
  unfold indeg, occurs. rewrite length_fmap.
  induction (edge_pairs edges) as [|e E IH]; [done|]. simpl. rewrite !filter_cons.
  case_decide; simpl; by rewrite IH.
Qed.

Lemma remaining_spec nodes edges n :
  remaining_of nodes (blocked_by_of nodes edges) !! n =
  if decide (n ∈ node_ids nodes) then Some (indeg (edge_pairs edges) n) else None.
Proof.
  unfold remaining_of. rewrite insert_all, lookup_empty. case_decide; [|done]. f_equal.
  rewrite <-(blocked_by_indeg nodes). by destruct (_ !! n).
Qed.

(** ** Waves *)

Lemma unblock_lookup ts rem n :
  unblock ts rem !! n = (λ k, (k - occurs n ts)%nat) <$> rem !! n.
Proof.
  unfold unblock. revert rem. induction ts as [|t ts IH]; intros rem; simpl.
  { unfold occurs. simpl. destruct (rem !! n); simpl; [f_equal; lia|done]. }
  rewrite IH, occurs_cons. destruct (rem !! t) as [k|] eqn:Ht.
  - destruct (decide (t = n)) as [<-|Hne].
    + rewrite lookup_insert_eq, Ht. simpl. f_equal. lia.
    + by rewrite lookup_insert_ne.
  - destruct (decide (t = n)) as [<-|Hne]; [by rewrite Ht|done].
Qed.

Section Waves.
Context `{HashOrder} (V : gset string) (E : Edges) (blocks : gmap string (list string)).
Context (Hblocks : ∀ m, default [] (blocks !! m) = succs E m).

(** What remains after the nodes of [passed] were removed. *)
Definition rem_ok (passed : list string) (rem : gmap string nat) : Prop :=
  ∀ n, rem !! n = if decide (n ∈ V ∧ n ∉ passed) then Some (pending_in E passed n) else None.

Lemma remove_one passed rem id :
  id ∉ passed → rem_ok passed rem →
  rem_ok (passed ++ [id]) (unblock (succs E id) (delete id rem)).
Proof.
  intros Hid Hrem n. rewrite unblock_lookup. destruct (decide (n = id)) as [->|Hne].
  - rewrite lookup_delete_eq. rewrite decide_False by set_solver. done.
  - rewrite lookup_delete_ne, Hrem by done. pose proof (pending_in_snoc E passed id n Hid).
    destruct (decide (n ∈ V ∧ n ∉ passed)) as [Hn|Hn].
    + rewrite decide_True by set_solver. simpl. f_equal. lia.
    + rewrite decide_False by set_solver. done.
Qed.

Lemma remove_wave passed rem ready :
  NoDup ready → (∀ n, n ∈ ready → n ∉ passed) → rem_ok passed rem →
  rem_ok (passed ++ ready) (remove_ready blocks ready rem).
Proof.
  unfold remove_ready. revert passed rem. induction ready as [|id ready IH];
    intros passed rem Hnd Hnew Hrem; simpl; [by rewrite app_nil_r|].
  apply NoDup_cons in Hnd as [Hid Hnd]. rewrite cons_middle, app_assoc, Hblocks.
  apply IH; [done| |apply remove_one; [apply Hnew; left|done]].
  intros n Hn [Hp|Hp%list_elem_of_singleton]%elem_of_app; [|by subst].
  by apply (Hnew n); [right|].
Qed.

(** Each group lies behind all the predecessors of its members. *)
Inductive layered : list (list string) → Prop :=
| layered_nil : layered []
| layered_snoc groups g :
    layered groups → (∀ m n, n ∈ g → edge E m n → m ∈ concat groups) → layered (groups ++ [g]).

Record waves_ok (groups : list (list string)) (rem : gmap string nat) : Prop := {
  wo_rem : rem_ok (concat groups) rem;
  wo_nodup : NoDup (concat groups);
  wo_sub : ∀ n, n ∈ concat groups → n ∈ V;
  wo_layered : layered groups
}.

Definition ready_of (rem : gmap string nat) : list string :=
  (filter (λ p, p.2 = 0%nat) (hash_iter rem)).*1.

Lemma ready_elem rem n : n ∈ ready_of rem ↔ rem !! n = Some 0%nat.
Proof.
  unfold ready_of. rewrite list_elem_of_fmap. split.
  - intros ([k d] & -> & [Hz Hin]%list_elem_of_filter). simpl in *. subst d.
    by apply elem_of_hash_iter.
  - intros Hn. exists (n, 0%nat). split; [done|]. apply list_elem_of_filter.
    split; [done|by apply elem_of_hash_iter].
Qed.
Lemma ready_NoDup rem : NoDup (ready_of rem).
Proof.
  eapply sublist_NoDup; [apply (hash_iter_NoDup rem)|]. apply fmap_sublist, sublist_filter.
Qed.

Lemma waves_step groups rem :
  waves_ok groups rem →
  waves_ok (groups ++ [ready_of rem]) (remove_ready blocks (ready_of rem) rem).
Proof.
  intros [Hrem Hnd Hsub Hlay].
  assert (∀ n, n ∈ ready_of rem → n ∈ V ∧ (n ∉ concat groups) ∧
    pending_in E (concat groups) n = 0%nat) as Hready.
  { intros n Hn%ready_elem. rewrite Hrem in Hn. case_decide as Hc; [|done]. naive_solver. }
  assert (concat (groups ++ [ready_of rem]) = concat groups ++ ready_of rem) as Hcat
    by (rewrite concat_app; simpl; by rewrite app_nil_r).
  split; rewrite ?Hcat.
  - apply remove_wave; [apply ready_NoDup|naive_solver|done].
  - apply NoDup_app. split_and!; [done| |apply ready_NoDup]. intros n Hn ?%Hready. naive_solver.
  - intros n [Hn|Hn%Hready]%elem_of_app; naive_solver.
  - constructor; [done|]. intros m n (_ & _ & Hp)%Hready Hm. by eapply pending_in_zero.
Qed.

Lemma waves_shrink groups rem :
  waves_ok groups rem → ready_of rem ≠ [] →
  (size (remove_ready blocks (ready_of rem) rem) < size rem)%nat.
Proof.
  intros Hok Hne. pose proof (waves_step _ _ Hok) as [Hrem' _ _ _]. destruct Hok as [Hrem _ _ _].
  destruct (ready_of rem) as [|id l] eqn:Hr; [done|].
  assert (id ∈ ready_of rem) as Hid by (rewrite Hr; left). apply ready_elem in Hid.
  rewrite concat_app in Hrem'. simpl in Hrem'. rewrite app_nil_r in Hrem'.
  rewrite <-!size_dom. apply subset_size, strict_spec_alt. split.
  - intros n. rewrite !elem_of_dom, Hrem', Hrem. do 2 case_decide; set_solver.
  - intros Heq. assert (id ∈ dom rem) as Hin by (apply elem_of_dom; eauto).
    rewrite <-Heq, elem_of_dom, Hrem' in Hin. case_decide as Hc; [|by destruct Hin]. set_solver.
Qed.

(** The waves end, and leave over only nodes that wait for each other. *)
Lemma waves_spec fuel groups rem :
  waves_ok groups rem → (size rem ≤ fuel)%nat →
  ∃ result rem', waves fuel blocks rem groups = Some result ∧ waves_ok result rem' ∧
    ready_of rem' = [].
Proof.
  revert groups rem. induction fuel as [|f IH]; intros groups rem Hok Hf; cbn [waves].
  - assert (rem = ∅) as -> by (apply map_size_empty_inv; lia). rewrite decide_True by done.
    exists groups, ∅. split_and!; [done|done|]. apply elem_of_nil_inv.
    intros n Hn%ready_elem. by rewrite lookup_empty in Hn.
  - case_decide as He.
    { subst rem. exists groups, ∅. split_and!; [done|done|]. apply elem_of_nil_inv.
      intros n Hn%ready_elem. by rewrite lookup_empty in Hn. }
    fold (ready_of rem). destruct (ready_of rem) as [|id l] eqn:Hr; [by exists groups, rem|].
    rewrite <-Hr. apply IH; [by apply waves_step|].
    assert (ready_of rem ≠ []) as Hne by (by rewrite Hr).
    pose proof (waves_shrink _ _ Hok Hne). lia.
Qed.
End Waves.

(** ** Longest paths *)

(** Consecutive nodes are joined by edges. *)
Fixpoint linked (E : Edges) (p : list string) : Prop :=
  match p with
  | m :: ((n :: _) as rest) => edge E m n ∧ linked E rest
  | _ => True
  end.

Lemma linked_snoc E p m n : linked E (p ++ [m]) → edge E m n → linked E (p ++ [m; n]).
Proof.
  induction p as [|a p IH]; simpl; [done|]. intros Hl He. destruct p as [|b p]; simpl in *; naive_solver.
Qed.
Lemma linked_app_l E p q : linked E (p ++ q) → linked E p.
Proof.
  induction p as [|a p IH]; simpl; [done|]. destruct p as [|b p]; simpl in *; [done|naive_solver].
Qed.
Lemma linked_last E p m n : linked E (p ++ [m; n]) → edge E m n.
Proof.
  induction p as [|a p IH]; simpl; [naive_solver|]. destruct p as [|b p]; simpl in *; naive_solver.
Qed.

(** A path through a graph without cycles meets every node once. *)
Lemma linked_tc E p i j a b :
  linked E p → (i < j)%nat → p !! i = Some a → p !! j = Some b → tc (edge E) a b.
Proof.
  revert i j a. induction p as [|x p IH]; intros i j a Hl Hij Hi Hj; [done|].
  destruct j as [|j]; [lia|]. destruct p as [|y p]; [done|]. destruct Hl as [He Hl].
  destruct i as [|i]; simpl in Hi.
  - injection Hi as <-. destruct j as [|j]; simpl in Hj; [injection Hj as <-; by apply tc_once|].
    apply (tc_l _ _ y); [done|]. apply (IH 0%nat (S j)); [done|lia|done|done].
  - apply (IH i j); [done|lia|done|done].
Qed.
Lemma linked_NoDup E p : acyclic E → linked E p → NoDup p.
Proof.
  intros Ha Hl. apply NoDup_alt. intros i j x Hi Hj.
  destruct (Nat.lt_trichotomy i j) as [Hlt|[|Hlt]]; [|done|]; destruct (Ha x);
    by eapply linked_tc.
Qed.

Section Longest.
Context (V : list string) (E : Edges) (len : string → Z).
Context (Hlen : ∀ n, n ∈ V → 0 ≤ len n ≤ u32_max).

Definition weight (p : list string) : Z := foldr (λ n w, len n + w) 0 p.

Lemma weight_app p q : weight (p ++ q) = weight p + weight q.
Proof. induction p as [|a p IH]; simpl; [done|]. rewrite IH. lia. Qed.
Lemma weight_snoc p n : weight (p ++ [n]) = weight p + len n.
Proof. rewrite weight_app. simpl. lia. Qed.

(** The choice among the incoming edges of [n]. *)
Lemma best_incoming_spec longest l ms best pred :
  0 ≤ l → (∀ m k, longest !! m = Some k → 0 ≤ k ∧ k + l ≤ u64_max) →
  best_incoming longest l ms = (best, pred) →
  l ≤ best ∧ (∀ m k, m ∈ ms → longest !! m = Some k → k + l ≤ best) ∧
  match pred with
  | None => best = l
  | Some m => m ∈ ms ∧ ∃ k, longest !! m = Some k ∧ best = k + l
  end.
Proof.
  intros Hl Hb. unfold best_incoming. revert best pred.
  induction ms as [|m ms IH] using rev_ind; intros best pred.
  { simpl. intros [= <- <-]. split_and!; [lia| |done]. by intros m k ?%not_elem_of_nil. }
  rewrite foldl_app. simpl.
  destruct (foldl _ _ ms) as [best0 pred0] eqn:Hf. destruct (IH best0 pred0 eq_refl) as (H1 & H2 & H3).
  assert (match pred0 with
    | None => best0 = l
    | Some m0 => m0 ∈ ms ++ [m] ∧ ∃ k, longest !! m0 = Some k ∧ best0 = k + l end) as H3'.
  { destruct pred0; [|done]. destruct H3 as [? ?]. split; [apply elem_of_app; by left|done]. }
  destruct (longest !! m) as [k|] eqn:Hm.
  2:{ intros [= <- <-]. split_and!; [lia| |done]. intros m' k' [Hin|Hin]%elem_of_app; [by apply H2|].
      apply list_elem_of_singleton in Hin. congruence. }
  destruct (Hb _ _ Hm) as [Hk0 Hk].
  assert (wrap64 (k + l) = k + l) as -> by (apply wrap64_id; unfold u64_ok; lia).
  destruct (best0 <? k + l) eqn:Hlt; intros [= <- <-].
  - apply Z.ltb_lt in Hlt.
    split_and!; [lia| |apply elem_of_app; right; by left|by exists k].
    intros m' k' [Hin|Hin]%elem_of_app Hm'; [specialize (H2 m' k' Hin Hm'); lia|].
    apply list_elem_of_singleton in Hin as ->. rewrite Hm in Hm'. injection Hm' as <-. lia.
  - apply Z.ltb_ge in Hlt. split_and!; [lia| |done].
    intros m' k' [Hin|Hin]%elem_of_app Hm'; [by apply (H2 m')|].
    apply list_elem_of_singleton in Hin as ->. rewrite Hm in Hm'. injection Hm' as <-. lia.
Qed.
End Longest.

(** ** The critical path *)

Section CriticalPath.
Context (nodes : list PhaseNode) (edges : list PhaseEdge).
Local Abbreviation E := (edge_pairs edges).
Local Abbreviation len := (node_len nodes).
Local Abbreviation V := (node_ids nodes).
Context (Hlen : ∀ n, n ∈ V → 0 ≤ len n ≤ u32_max).

Lemma froms_elem m n : m ∈ froms edges n ↔ edge E m n.
Proof.
  unfold froms, edge. rewrite list_elem_of_fmap. split.
  - intros ([a b] & -> & [Hb Hin]%list_elem_of_filter). simpl in *. by subst.
  - intros Hin. exists (m, n). split; [done|]. by apply list_elem_of_filter.
Qed.

Lemma weight_nonneg p : Forall (.∈ V) p → 0 ≤ weight len p.
Proof. induction 1 as [|n p Hn _ IH]; simpl; [done|]. specialize (Hlen n Hn). lia. Qed.

(** What the tables say after the nodes of [passed]. *)
Record path_ok (start : string) (passed : list string) (st : PathState) : Prop := {
  po_dom : ∀ n, n ∈ passed ↔ is_Some (ps_longest_to st !! n);
  po_bound : ∀ n k, ps_longest_to st !! n = Some k →
    0 ≤ k ≤ Z.of_nat (length passed) * u32_max;
  po_upper : ∀ p n k, Forall (.∈ V) p → linked E (p ++ [n]) → ps_longest_to st !! n = Some k →
    weight len (p ++ [n]) ≤ k;
  po_pred : ∀ i n, passed !! i = Some n → ∃ k, ps_longest_to st !! n = Some k ∧
    match mjoin (ps_predecessor st !! n) with
    | Some m => edge E m n ∧ ∃ j k', (j < i)%nat ∧ passed !! j = Some m ∧
        ps_longest_to st !! m = Some k' ∧ k = k' + len n
    | None => k = len n
    end;
  po_max : ∀ n k, ps_longest_to st !! n = Some k → k ≤ ps_max_len st;
  po_best : ps_longest_to st !! ps_max_node st = Some (ps_max_len st) ∨
    ps_max_len st = 0 ∧ ps_max_node st = start
}.

Lemma path_ok_init start : path_ok start [] (mkPathState ∅ ∅ 0 start).
Proof.
  split; simpl; try done; [|by right].
  - intros n. rewrite lookup_empty. split; [by intros ?%not_elem_of_nil|by intros []].
Qed.

Lemma path_step_ok start passed st n :
  path_ok start passed st → n ∉ passed → n ∈ V → (∀ m, edge E m n → m ∈ passed ∧ m ∈ V) →
  Z.of_nat (length passed) < u32_max →
  path_ok start (passed ++ [n]) (path_step nodes edges st n).
Proof.
  intros [Hdom Hbound Hupper Hpred Hmax Hbest] Hnew HnV Hm Hsize. unfold path_step.
  destruct (best_incoming _ _ _) as [best pred] eqn:Hb. destruct (Hlen n HnV) as [Hl0 Hl1].
  apply best_incoming_spec in Hb as (Hlb & Hge & Hreal); [|done|].
  2:{ intros m k Hk. apply Hbound in Hk. unfold u32_max, u64_max in *. nia. }
  assert (0 ≤ best ≤ (Z.of_nat (length passed) + 1) * u32_max) as Hbb.
  { destruct pred as [m|]; [|subst; unfold u32_max in *; nia].
    destruct Hreal as (_ & k & Hk & ->). apply Hbound in Hk. lia. }
  assert (ps_longest_to st !! n = None) as Hnone.
  { apply eq_None_not_Some. by rewrite <-Hdom. }
  set (st' := if ps_max_len st <? best then (best, n) else (ps_max_len st, ps_max_node st)).
  assert (ps_max_len st ≤ st'.1 ∧ best ≤ st'.1 ∧
    (st' = (best, n) ∨ st' = (ps_max_len st, ps_max_node st))) as (Hm1 & Hm2 & Hm3).
  { unfold st'. destruct (Z.ltb_spec (ps_max_len st) best); simpl; split_and!; auto; lia. }
  destruct st' as [max_len max_node]. simpl in Hm1, Hm2. split; simpl.
  - intros k. rewrite elem_of_app, list_elem_of_singleton, Hdom.
    destruct (decide (n = k)) as [<-|Hne]; [rewrite lookup_insert_eq; split; eauto|].
    rewrite lookup_insert_ne by done. naive_solver.
  - intros k w. rewrite length_app. simpl. destruct (decide (n = k)) as [<-|Hne].
    + rewrite lookup_insert_eq. intros [= <-]. lia.
    + rewrite lookup_insert_ne by done. intros Hk%Hbound. unfold u32_max in *. lia.
  - intros p k w Hp Hlk. destruct (decide (n = k)) as [<-|Hne].
    + rewrite lookup_insert_eq. intros [= <-]. rewrite weight_snoc.
      destruct p as [|m p _] using rev_ind; [simpl; lia|].
      rewrite <-app_assoc in Hlk. pose proof (linked_last _ _ _ _ Hlk) as He.
      destruct (Hm m He) as [Hmp _]. apply Hdom in Hmp as [k Hk].
      apply Forall_app in Hp as [Hp _].
      rewrite cons_middle, app_assoc in Hlk. apply linked_app_l in Hlk.
      pose proof (Hupper p m k Hp Hlk Hk). specialize (Hge m k). rewrite froms_elem in Hge.
      specialize (Hge He Hk). lia.
    + rewrite lookup_insert_ne by done. by apply Hupper.
  - intros i k Hi. apply lookup_app_Some in Hi as [Hi|[Hlen' Hi]].
    + destruct (Hpred i k Hi) as (w & Hw & Hrest).
      assert (n ≠ k) as Hne by (intros ->; apply Hnew; by eapply list_elem_of_lookup_2).
      exists w. rewrite !lookup_insert_ne by done. split; [done|].
      destruct (mjoin _) as [m|]; [|done]. destruct Hrest as (He & j & k' & Hj & Hjm & Hk' & ->).
      split; [done|]. exists j, k'. split_and!; [done|by apply lookup_app_l_Some| |done].
      rewrite lookup_insert_ne; [done|]. intros ->. rewrite Hnone in Hk'. done.
    + apply list_lookup_singleton_Some in Hi as [Hi <-]. exists best.
      rewrite !lookup_insert_eq. split; [done|]. simpl. destruct pred as [m|]; [|done].
      destruct Hreal as (Hin & k & Hk & ->). split; [by apply froms_elem|].
      assert (m ∈ passed) as [j Hj]%list_elem_of_lookup by (apply Hdom; eauto).
      exists j, k. pose proof (lookup_lt_Some _ _ _ Hj).
      split_and!; [lia|by apply lookup_app_l_Some| |done].
      rewrite lookup_insert_ne; [done|]. intros ->. congruence.
  - intros k w. destruct (decide (n = k)) as [<-|Hne].
    + rewrite lookup_insert_eq. by intros [= <-].
    + rewrite lookup_insert_ne by done. intros Hw%Hmax. lia.
  - destruct Hm3 as [[= -> ->]|[= -> ->]]; [left; by rewrite lookup_insert_eq|].
    destruct Hbest as [Hbest|Hbest]; [left|by right].
    rewrite lookup_insert_ne; [done|]. intros Heq. rewrite Heq in Hnone. congruence.
Qed.

Lemma path_steps_ok start order :
  NoDup order → (∀ n, n ∈ order → n ∈ V) → ordered E order →
  Z.of_nat (length order) ≤ u32_max →
  path_ok start order (foldl (path_step nodes edges) (mkPathState ∅ ∅ 0 start) order).
Proof.
  induction order as [|n order IH] using rev_ind; intros Hnd HV Hord Hsize;
    [apply path_ok_init|].
  rewrite length_app in Hsize. simpl in Hsize. rewrite foldl_app. simpl.
  apply NoDup_app in Hnd as (Hnd & Hn & _). apply path_step_ok.
  - apply IH; [done| | |lia].
    + intros m Hm. apply HV, elem_of_app. by left.
    + intros i a b Hi He. destruct (Hord i a b) as (j & Hj & Hja); [by apply lookup_app_l_Some|done|].
      exists j. split; [done|]. rewrite lookup_app_l in Hja; [done|].
      apply lookup_lt_Some in Hi. lia.
  - intros Hc. apply (Hn n Hc). by left.
  - apply HV, elem_of_app. right. by left.
  - intros m He. destruct (Hord (length order) m n) as (j & Hj & Hjm); [|done|].
    { by rewrite lookup_app_r, Nat.sub_diag by done. }
    rewrite lookup_app_l in Hjm by done. apply list_elem_of_lookup_2 in Hjm.
    split; [done|]. apply HV, elem_of_app. by left.
  - lia.
Qed.

(** The walk back along the predecessors ends and realizes the length found. *)
Lemma walk_path_spec start passed st fuel i n k path :
  path_ok start passed st → (i < fuel)%nat → passed !! i = Some n →
  ps_longest_to st !! n = Some k →
  ∃ p, walk_path fuel (ps_predecessor st) n path = Some (p ++ n :: path) ∧
    linked E (p ++ [n]) ∧ weight len (p ++ [n]) = k ∧ (∀ m, m ∈ p → m ∈ passed).
Proof.
  intros Hok. revert i n k path. induction fuel as [|f IH]; intros i n k path Hi Hn Hk; [lia|].
  simpl. destruct (po_pred _ _ _ Hok i n Hn) as (k' & Hk' & Hp).
  assert (k' = k) as -> by congruence. destruct (mjoin (ps_predecessor st !! n)) as [m|].
  - destruct Hp as (He & j & w & Hj & Hjm & Hw & ->).
    destruct (IH j m w (n :: path)) as (p & -> & Hl & Hwt & Hin); [lia|done|done|].
    exists (p ++ [m]). rewrite <-app_assoc. split_and!; [done| | |].
    + rewrite <-app_assoc. by apply linked_snoc.
    + rewrite weight_snoc. lia.
    + intros x [Hx|Hx%list_elem_of_singleton]%elem_of_app; [by apply Hin|subst x].
      by eapply list_elem_of_lookup_2.
  - exists []. split_and!; [done|done|simpl; lia|by intros m ?%not_elem_of_nil].
Qed.
End CriticalPath.

(** ** Graphs whose edges join their nodes *)

Section Graphs.
Context `{HashOrder} (nodes : list PhaseNode) (edges : list PhaseEdge).
Local Abbreviation E := (edge_pairs edges).
Local Abbreviation ids := (node_ids nodes).
Context (Hends : ∀ m n, edge E m n → m ∈ ids ∧ n ∈ ids).

Lemma layered_lookup groups j g m n :
  layered E groups → groups !! j = Some g → n ∈ g → edge E m n →
  ∃ i g', (i < j)%nat ∧ groups !! i = Some g' ∧ m ∈ g'.
Proof.
  intros Hl. revert j. induction Hl as [|groups g0 Hl IH Hg]; intros j Hj Hn He; [done|].
  apply lookup_app_Some in Hj as [Hj|[Hlen Hj]].
  - destruct (IH j Hj Hn He) as (i & g' & Hi & Hg' & Hm). exists i, g'.
    split_and!; [done|by apply lookup_app_l_Some|done].
  - apply list_lookup_singleton_Some in Hj as [Hj <-].
    pose proof (Hg m n Hn He) as Hm.
    apply list_elem_of_In, in_concat in Hm as (g' & Hi%list_elem_of_In & Hm%list_elem_of_In).
    apply list_elem_of_lookup in Hi as [i Hi].
    exists i, g'. pose proof (lookup_lt_Some _ _ _ Hi).
    split_and!; [lia|by apply lookup_app_l_Some|done].
Qed.

(** The waves: no node twice, predecessors in earlier groups, and every node if
    there is no cycle. *)
Lemma parallel_groups_spec :
  ∃ groups, find_parallel_groups nodes edges = Some groups ∧ NoDup (concat groups) ∧
    (∀ n, n ∈ concat groups → n ∈ ids) ∧ layered E groups ∧
    (acyclic E → ∀ n, n ∈ ids → n ∈ concat groups).
Proof.
  set (V := list_to_set ids : gset string).
  assert (∀ n, n ∈ V ↔ n ∈ ids) as HV by (intros; apply elem_of_list_to_set).
  unfold find_parallel_groups. set (rem := remaining_of nodes (blocked_by_of nodes edges)).
  destruct (waves_spec V E (blocks_of nodes edges) (blocks_succs nodes edges) (size rem) [] rem)
    as (groups & rem' & -> & [Hrem Hnd Hsub Hlay] & Hdone); [|done|].
  { split; simpl; [|constructor|by intros n ?%not_elem_of_nil|constructor].
    intros n. unfold rem. rewrite remaining_spec, pending_in_nil.
    destruct (decide (n ∈ ids)) as [Hn|Hn].
    - rewrite decide_True; [done|]. split; [by apply HV|apply not_elem_of_nil].
    - rewrite decide_False; [done|]. by intros [?%HV _]. }
  exists groups. split_and!; [done|done|intros n Hn; by apply HV, Hsub|done|].
  intros Hac n Hn. apply HV in Hn.
  assert (V ∖ list_to_set (concat groups) = ∅) as Hempty.
  { apply (acyclic_has_source E); [done|]. intros v [HvV Hv]%elem_of_difference.
    rewrite elem_of_list_to_set in Hv.
    destruct (pending_in E (concat groups) v) eqn:Hp.
    { assert (v ∈ ready_of rem') as Hr.
      { apply ready_elem. rewrite Hrem, decide_True by done. by rewrite Hp. }
      rewrite Hdone in Hr. by apply not_elem_of_nil in Hr. }
    assert (v ∈ (filter (λ e, e.1 ∉ concat groups) E).*2) as Hin
      by (apply occurs_pos; fold (pending_in E (concat groups) v); lia).
    apply list_elem_of_fmap in Hin as ([w b] & -> & [Hw He]%list_elem_of_filter).
    exists w. split; [|done]. apply elem_of_difference. rewrite elem_of_list_to_set, HV.
    split; [by apply (Hends w b)|done]. }
  apply empty_difference_subseteq_L in Hempty. apply Hempty in Hn.
  by apply elem_of_list_to_set in Hn.
Qed.

Lemma node_tables_ok : tables_ok (list_to_set ids) E (node_tables nodes edges).
Proof.
  apply (add_edges_ok _ []); [apply add_vertices_ok|].
  intros m n He. apply elem_of_list_to_set. by apply (Hends m n).
Qed.

Context (Hdur : ∀ n, n ∈ ids → 0 ≤ node_len nodes n ≤ u32_max).
Context (Hsize : Z.of_nat (length nodes) ≤ u32_max).

Lemma critical_path_spec :
  ∃ order p, compute_critical_path nodes edges = Some p ∧
    NoDup order ∧ (∀ n, n ∈ order → n ∈ ids) ∧ (acyclic E → ∀ n, n ∈ ids → n ∈ order) ∧
    (order ≠ [] →
      linked E p ∧ (∀ m, m ∈ p → m ∈ ids) ∧
      ∀ q n, Forall (.∈ ids) q → linked E (q ++ [n]) → n ∈ order →
        weight (node_len nodes) (q ++ [n]) ≤ weight (node_len nodes) p).
Proof.
  pose proof node_tables_ok as [Ha Hd He]. unfold compute_critical_path.
  destruct (node_tables nodes edges) as [adj in_degree]. simpl in *.
  destruct (kahn_exact (list_to_set ids) E adj in_degree Ha Hd)
    as (order & -> & Hnd & Hsub & Hord & Hac & _).
  { intros m n Hmn. rewrite !elem_of_list_to_set. by apply Hends. }
  assert (∀ n, n ∈ order → n ∈ ids) as Hin.
  { intros n Hn. assert (n ∈ (list_to_set order : gset string)) as Hs
      by (by apply elem_of_list_to_set). apply Hsub in Hs. by apply elem_of_list_to_set in Hs. }
  assert (acyclic E → ∀ n, n ∈ ids → n ∈ order) as Hcover.
  { intros Hacy%Hac n Hn. assert (n ∈ (list_to_set ids : gset string)) as Hs
      by (by apply elem_of_list_to_set). rewrite <-Hacy in Hs. by apply elem_of_list_to_set in Hs. }
  assert (length order ≤ length ids)%nat as Hlen.
  { apply submseteq_length, NoDup_submseteq; done. }
  unfold node_ids in Hlen. rewrite length_fmap in Hlen. simpl.
  set (start := default "" (head order)).
  set (st := foldl (path_step nodes edges) (mkPathState ∅ ∅ 0 start) order).
  assert (path_ok nodes edges start order st) as Hok by (apply path_steps_ok; [done..|lia]).
  exists order. destruct order as [|a order'] eqn:Horder.
  { eexists. split; [reflexivity|]. split_and!; [done|done| |done].
    intros Hacy n Hn. by apply Hcover. }
  rewrite <-Horder in *. clearbody st.
  assert (ps_longest_to st !! ps_max_node st = Some (ps_max_len st)) as Hbest.
  { destruct (po_best _ _ _ _ _ Hok) as [|[Hz Hs]]; [done|].
    assert (start ∈ order) as Hst by (unfold start; rewrite Horder; left).
    rewrite Hs, Hz. apply (po_dom _ _ _ _ _ Hok) in Hst as [k Hk]. rewrite Hk. f_equal.
    pose proof (po_bound _ _ _ _ _ Hok _ _ Hk). pose proof (po_max _ _ _ _ _ Hok _ _ Hk). lia. }
  assert (ps_max_node st ∈ order) as Hmax by (apply (po_dom _ _ _ _ _ Hok); eauto).
  pose proof Hmax as [i Hi]%list_elem_of_lookup.
  destruct (walk_path_spec _ _ _ _ _ (S (length order)) i _ _ [] Hok
    ltac:(apply lookup_lt_Some in Hi; lia) Hi Hbest) as (p & Hw & Hl & Hwt & Hpin).
  exists (p ++ [ps_max_node st]). split; [exact Hw|]. split_and!; [done|done| |].
  - intros Hacy n Hn. by apply Hcover.
  - intros _. split_and!; [done| |].
    + intros m [Hm|Hm%list_elem_of_singleton]%elem_of_app; [by apply Hin, Hpin|subst].
      by apply Hin.
    + intros q n Hq Hlq Hn. rewrite Hwt. apply (po_dom _ _ _ _ _ Hok) in Hn as [k Hk].
      pose proof (po_upper _ _ _ _ _ Hok q n k Hq Hlq Hk).
      pose proof (po_max _ _ _ _ _ Hok _ _ Hk). lia.
Qed.
End Graphs.

(** ** Sums *)

Lemma sum_u64_exact l acc :
  Forall (λ x, 0 ≤ x) l → 0 ≤ acc → acc + foldr Z.add 0 l ≤ u64_max →
  foldl (λ a x, wrap64 (a + x)) acc l = acc + foldr Z.add 0 l.
Proof.
  revert acc. induction l as [|x l IH]; intros acc Hl Ha Hb; simpl in *; [lia|].
  apply Forall_cons in Hl as [Hx Hl].
  assert (0 ≤ foldr Z.add 0 l) as Hs.
  { clear -Hl. induction Hl; simpl; lia. }
  rewrite wrap64_id by (unfold u64_ok; lia). rewrite IH; [lia|done|lia|lia].
Qed.

Lemma weight_bound nodes p :
  (∀ n, n ∈ node_ids nodes → 0 ≤ node_len nodes n ≤ u32_max) → Forall (.∈ node_ids nodes) p →
  0 ≤ weight (node_len nodes) p ≤ Z.of_nat (length p) * u32_max.
Proof.
  intros Hd. induction 1 as [|n p Hn _ IH]; simpl; [lia|]. specialize (Hd n Hn). lia.
Qed.

(** The duration reported for a path of distinct nodes is its weight. *)
Lemma estimate_duration_weight nodes p :
  (∀ n, n ∈ node_ids nodes → 0 ≤ node_len nodes n ≤ u32_max) →
  Z.of_nat (length nodes) ≤ u32_max → NoDup p → Forall (.∈ node_ids nodes) p →
  estimate_duration p nodes = weight (node_len nodes) p.
Proof.
  intros Hd Hlen Hnd Hp. unfold estimate_duration, sum_u64.
  assert (∀ q, Forall (.∈ node_ids nodes) q →
    Forall (λ x, 0 ≤ x)
      ((λ n, pc_estimated_duration_ms (pn_config n)) <$> omap (find_node nodes) q) ∧
    foldr Z.add 0 ((λ n, pc_estimated_duration_ms (pn_config n)) <$> omap (find_node nodes) q)
    = weight (node_len nodes) q) as Hq.
  { induction 1 as [|n q Hn _ [IH1 IH2]]; [done|].
    assert (∃ x, find_node nodes n = Some x) as [x Hx].
    { unfold find_node. apply list_elem_of_fmap in Hn as (x & -> & Hin).
      destruct (list_find_elem_of (λ y, pn_node_id y = pn_node_id x) nodes x Hin eq_refl)
        as [[i y] ->]. by eexists. }
    assert (omap (find_node nodes) (n :: q) = x :: omap (find_node nodes) q) as ->
      by (cbn; by rewrite Hx).
    assert (node_len nodes n = pc_estimated_duration_ms (pn_config x)) as Hv
      by (unfold node_len; by rewrite Hx).
    specialize (Hd n Hn). rewrite Hv in Hd. rewrite fmap_cons. split; [constructor; [lia|done]|].
    cbn [foldr]. rewrite IH2. unfold weight. cbn [foldr fmap list_fmap]. by rewrite Hv. }
  destruct (Hq p Hp) as [Hnn Hsum]. rewrite sum_u64_exact; [by rewrite Hsum|done|lia|].
  rewrite Hsum. pose proof (weight_bound nodes p Hd Hp) as [_ Hw].
  assert (length p ≤ length (node_ids nodes))%nat as Hl.
  { apply submseteq_length, NoDup_submseteq; [done|]. by apply Forall_forall. }
  unfold node_ids in Hl. rewrite length_fmap in Hl. unfold u32_max, u64_max in *. nia.
Qed.

(** ** Programs *)

Lemma token_duration_bound tokens : 0 ≤ token_duration tokens ≤ u32_max.
Proof.
  unfold token_duration, wrap32, u32_max. pose proof (Z.mod_pos_bound (tokens mod 2 ^ 32 / 50 * 1000)
    (2 ^ 32)). lia.
Qed.

Lemma step_nodes_facts c s :
  Forall (λ n, 0 ≤ pc_estimated_duration_ms (pn_config n) ≤ u32_max ∧
    pc_quality_verifier_phase_id (pn_config n) ≠ Some "approval") (step_to_phase_nodes c s) ∧
  (length (step_to_phase_nodes c s) ≤ 4)%nat.
Proof.
  assert (∀ a b, ends_with b "approval" = false → Some (a +:+ b) ≠ Some "approval") as Hne.
  { intros a b Hb [= E']. rewrite <-E', ends_with_app in Hb. done. }
  assert (0 ≤ 0 ≤ u32_max ∧ 0 ≤ 10 ≤ u32_max ∧ 0 ≤ 500 ≤ u32_max) as (H0' & H10 & H500)
    by (unfold u32_max; lia).
  pose proof (token_duration_bound (as_estimated_output_tokens s)) as Ht.
  unfold step_to_phase_nodes, auto_verify_nodes, type_nodes, tool_nodes, compensate_nodes.
  split; [apply Forall_app; split|rewrite length_app];
    destruct (as_step_type s), (ac_auto_checkpoint c && as_has_side_effects s),
      (as_side_effects_reversible s), (ac_auto_verify c && as_requires_verification s);
    simpl; try lia; repeat constructor; simpl; try done; try lia; by apply Hne.
Qed.

(** Names of nodes: the step's name and one of these tails. *)
Definition tails : list string :=
  ["-think"; "-retrieve"; "-checkpoint"; "-tool"; "-compensate"; "-tokenize"; "-generate";
   "-verify"; "-approval"; "-commit"; "-auto-verify"].

Lemma step_nodes_tails c s :
  ∃ ts, node_ids (step_to_phase_nodes c s) = (λ t, as_id s +:+ t) <$> ts ∧ NoDup ts ∧ ts ⊆ tails.
Proof.
  unfold step_to_phase_nodes, auto_verify_nodes, type_nodes, tool_nodes, compensate_nodes, node_ids. rewrite fmap_app.
  assert (∀ ts, bool_decide (NoDup ts ∧ Forall (.∈ tails) ts) = true → NoDup ts ∧ ts ⊆ tails) as Hts.
  { intros ts [Hn Hf]%bool_decide_eq_true. split; [done|]. rewrite Forall_forall in Hf. exact Hf. }
  destruct (as_step_type s), (ac_auto_checkpoint c && as_has_side_effects s),
    (as_side_effects_reversible s), (ac_auto_verify c && as_requires_verification s); simpl.
  all: match goal with
  | |- ∃ ts, ?l = _ ∧ _ =>
      let rec go l := lazymatch l with
        | (_ +:+ ?t) :: ?r => let r' := go r in constr:(t :: r')
        | [] => constr:(@nil string)
        end in
      let ts := go l in exists ts; split; [reflexivity|apply Hts; reflexivity]
  end.
Qed.

(** Only one pair of tails can be confused. *)
Lemma tails_clash a b t u :
  t ∈ tails → u ∈ tails → a +:+ t = b +:+ u →
  a = b ∧ t = u ∨ a = b +:+ "-auto" ∨ b = a +:+ "-auto".
Proof.
  intros Ht Hu Hab.
  assert (ends_with t u = true ∨ ends_with u t = true) as He by (by eapply app_eq_ends).
  assert (t = u ∨ (t = "-verify" ∧ u = "-auto-verify") ∨ (t = "-auto-verify" ∧ u = "-verify"))
    as [->|[[-> ->]|[-> ->]]].
  { assert (forallb (λ t, forallb (λ u, negb (ends_with t u || ends_with u t) ||
      bool_decide (t = u ∨ (t = "-verify" ∧ u = "-auto-verify") ∨
                   (t = "-auto-verify" ∧ u = "-verify"))) tails) tails = true) as Hall
      by (vm_compute; reflexivity).
    rewrite forallb_elem in Hall. specialize (Hall t Ht). rewrite forallb_elem in Hall.
    specialize (Hall u Hu). apply orb_true_iff in Hall as [Hall|Hall%bool_decide_eq_true]; [|done].
    apply negb_true_iff, orb_false_iff in Hall. destruct He; naive_solver congruence. }
  - left. by apply string_app_inj in Hab as [-> _].
  - right; left. change "-auto-verify" with ("-auto" +:+ "-verify") in Hab.
    rewrite <-string_app_assoc in Hab. by apply string_app_inj in Hab as [-> _].
  - right; right. change "-auto-verify" with ("-auto" +:+ "-verify") in Hab.
    rewrite <-string_app_assoc in Hab. by apply string_app_inj in Hab as [-> _].
Qed.

(** Step names that cannot be confused. *)
Definition plain_names (steps : list AgentStep) : Prop :=
  ∀ s t, s ∈ steps → t ∈ steps → as_id s ≠ as_id t +:+ "-auto".

Lemma node_ids_distinct c l :
  NoDup (as_id <$> l) → plain_names l → NoDup (node_ids (l ≫= step_to_phase_nodes c)).
Proof.
  induction l as [|s l IH]; intros Hnd Hp; [constructor|]. simpl in *.
  apply NoDup_cons in Hnd as [Hs Hnd]. unfold node_ids. rewrite fmap_app.
  fold (node_ids (step_to_phase_nodes c s)).
  destruct (step_nodes_tails c s) as (ts & -> & Hts & Hsub). apply NoDup_app. split_and!.
  - apply NoDup_fmap_2_strong; [|done]. intros t u _ _ E'. by eapply string_app_cancel.
  - intros x (t & -> & Ht)%list_elem_of_fmap Hin.
    apply list_elem_of_fmap in Hin as (n & En & (q & Hn & Hq)%list_elem_of_bind).
    destruct (step_nodes_tails c q) as (us & Hus & _ & Husub).
    assert (pn_node_id n ∈ node_ids (step_to_phase_nodes c q)) as Hin
      by (apply list_elem_of_fmap; eauto).
    rewrite Hus in Hin. apply list_elem_of_fmap in Hin as (u & Eu & Hu). rewrite Eu in En.
    destruct (tails_clash (as_id s) (as_id q) t u) as [[Heq _]|[Heq|Heq]]; auto.
    + apply Hs. rewrite Heq. apply list_elem_of_fmap. eauto.
    + apply (Hp s q); [left|by right|done].
    + apply (Hp q s); [by right|left|done].
  - apply IH; [done|]. intros a b Ha Hb. apply Hp; by right.
Qed.

Lemma find_step_elem steps s :
  NoDup (step_ids steps) → s ∈ steps → find_step steps (as_id s) = Some s.
Proof.
  intros Hnd Hs. unfold find_step. induction steps as [|a steps IH]; [by apply not_elem_of_nil in Hs|].
  apply NoDup_cons in Hnd as [Ha Hnd]. simpl. apply elem_of_cons in Hs as [<-|Hs].
  - by rewrite decide_True.
  - rewrite decide_False.
    + specialize (IH Hnd Hs). by destruct (list_find _ steps) as [[]|].
    + intros E'. apply Ha. rewrite E'. apply list_elem_of_fmap. eauto.
Qed.

(** A build, as the compiler does it: every step once and after the steps it
    depends on. *)
Record built (steps l : list AgentStep) : Prop := {
  bt_perm : l ≡ₚ steps;
  bt_nodup : NoDup (as_id <$> l);
  bt_order : ∀ i s d, l !! i = Some s → d ∈ as_depends_on s →
    ∃ j t, (j < i)%nat ∧ l !! j = Some t ∧ as_id t = d
}.

Section Programs.
Context `{HashOrder} (c : AgentProgramCompiler).

Lemma build_sound steps order :
  steps_ok steps → topological_sort steps = Some (Ok order) →
  ∃ l, built steps l ∧
    build_loop c steps order (mkBuild [] [] ∅) = Some (build_list c l).
Proof.
  intros Hok Hsort.
  destruct (topological_sort_total steps Hok) as (order' & Hsort' & Hnd & Hsub & Hord & Hlen).
  rewrite Hsort' in Hsort. case_decide as Hd; [done|]. injection Hsort as ->.
  pose proof (proj1 Hlen Hd) as [Hids _].
  assert (order ≡ₚ as_id <$> steps) as Hp.
  { apply submseteq_length_Permutation; [by apply NoDup_submseteq|]. rewrite length_fmap. lia. }
  apply Permutation_map_inv in Hp as (l & -> & Hl). symmetry in Hl. exists l. split; [split|].
  - done.
  - done.
  - intros i s d Hi Hdep. destruct (Hord i d (as_id s)) as (j & Hj & Hjd).
    + rewrite list_lookup_fmap. fold (fmap (M := list) as_id l). by rewrite Hi.
    + apply step_edges_elem. exists s. split_and!; [|done|done]. rewrite <-Hl.
      by eapply list_elem_of_lookup_2.
    + apply list_lookup_fmap_Some in Hjd as (t & -> & Ht). by exists j, t.
  - apply build_loop_list. intros s Hs. apply find_step_elem; [done|]. by rewrite <-Hl.
Qed.

(** The nodes of a build have durations in range and are joined by its edges. *)
Lemma built_graph steps l :
  built steps l → Z.of_nat (length steps) ≤ 2 ^ 30 - 1 →
  let b := build_list c l in
  build_ok c l b ∧
  (∀ m n, edge (edge_pairs (bs_edges b)) m n →
     m ∈ node_ids (bs_nodes b) ∧ n ∈ node_ids (bs_nodes b)) ∧
  (∀ n, n ∈ node_ids (bs_nodes b) → 0 ≤ node_len (bs_nodes b) n ≤ u32_max) ∧
  Z.of_nat (length (bs_nodes b)) ≤ u32_max.
Proof.
  intros [Hp Hnd _] Hsize b. pose proof (build_list_ok c l Hnd) as Hok. fold b in Hok.
  split; [done|]. split_and!.
  - intros m n He. pose proof (bo_forward _ _ _ Hok) as Hf. rewrite Forall_forall in Hf.
    destruct (Hf _ He) as (i & j & _ & Hi & Hj). simpl in *.
    split; by eapply list_elem_of_lookup_2.
  - intros n Hn. unfold node_len, find_node.
    destruct (list_find (λ x, pn_node_id x = n) (bs_nodes b)) as [[i x]|] eqn:Hf; simpl;
      [|unfold u32_max; lia].
    apply list_find_Some in Hf as (Hi & _ & _). apply list_elem_of_lookup_2 in Hi.
    rewrite (bo_nodes _ _ _ Hok) in Hi. apply list_elem_of_bind in Hi as (s & Hx & _).
    destruct (step_nodes_facts c s) as [Hall _]. rewrite Forall_forall in Hall. by apply Hall.
  - rewrite (bo_nodes _ _ _ Hok).
    assert (length (l ≫= step_to_phase_nodes c) ≤ 4 * length l)%nat as Hl.
    { clear. induction l as [|s l IH]; [done|]. rewrite bind_cons, length_app. cbn [length].
      destruct (step_nodes_facts c s) as [_ ?]. lia. }
    apply Permutation_length in Hp. unfold u32_max. lia.
Qed.

(** Every run of the compiler: an error, or the graph of a build. *)
Lemma compile_cases steps :
  Z.of_nat (length steps) ≤ 2 ^ 30 - 1 →
  (∃ e, compile c steps = Some (Err e)) ∨
  (∃ l groups path, steps_ok steps ∧ built steps l ∧
     let b := build_list c l in
     find_parallel_groups (bs_nodes b) (bs_edges b) = Some groups ∧
     compute_critical_path (bs_nodes b) (bs_edges b) = Some path ∧
     compile c steps = Some (Ok (assemble steps (bs_nodes b) (bs_edges b) path groups))).
Proof.
  intros Hsize. unfold compile. destruct (validate_steps steps) as [[]|e] eqn:Hv; [|eauto].
  apply validate_steps_Ok in Hv.
  destruct (topological_sort steps) as [[order|e]|] eqn:Hs; simpl; [|by eauto|].
  2:{ destruct (topological_sort_total steps Hv) as (? & Ht & _). congruence. }
  destruct (build_sound steps order Hv Hs) as (l & Hb & ->).
  destruct (built_graph steps l Hb Hsize) as (Hok & Hends & Hdur & Hlen). simpl.
  destruct (parallel_groups_spec _ _ Hends) as (groups & Hg & _).
  destruct (critical_path_spec _ _ Hends Hdur Hlen) as (order' & path & Hpath & _).
  right. exists l, groups, path. rewrite Hg, Hpath. split_and!; done.
Qed.

(** C23: On programs of fewer than 2^30 steps the compiler always returns, and
    accepts exactly the sound ones: every dependency names a step, no two steps share
    a name, and no chain of dependencies returns to its start. *)
Theorem compile_returns steps :
  Z.of_nat (length steps) ≤ 2 ^ 30 - 1 →
  ∃ res, compile c steps = Some res ∧
    (is_ok res = true ↔
       steps_ok steps ∧ NoDup (step_ids steps) ∧ acyclic (step_edges steps)).
Proof.
  intros Hsize. unfold compile.
  destruct (validate_steps steps) as [[]|e] eqn:Hv.
  2:{ eexists. split; [done|]. split; [done|]. intros (Hok%validate_steps_Ok & _). congruence. }
  pose proof Hv as Hok%validate_steps_Ok.
  destruct (topological_sort_total steps Hok) as (order & Hs & _ & _ & _ & Hlen).
  rewrite Hs. simpl. case_decide as Hd.
  { eexists. split; [done|]. split; [done|].
    intros (_ & Hnd & Hac). destruct Hd. by apply Hlen. }
  destruct (build_sound steps order Hok) as (l & Hb & ->).
  { exact Hs. }
  destruct (built_graph steps l Hb Hsize) as (_ & Hends & Hdur & Hl). simpl.
  destruct (parallel_groups_spec _ _ Hends) as (groups & -> & _). simpl.
  destruct (critical_path_spec _ _ Hends Hdur Hl) as (order' & path & -> & _). simpl.
  eexists. split; [done|]. split; [|done]. intros _. split; [done|]. by apply Hlen.
Qed.

(** C24: A compiled graph (of fewer than 2^30 steps) does the steps in order. It
    consists of the nodes of every step, every edge leads from an earlier to a later
    node, and if a step depends on another, an edge leads from the last node of that
    one to its first node. *)
Theorem compile_respects_dependencies steps g :
  Z.of_nat (length steps) ≤ 2 ^ 30 - 1 → compile c steps = Some (Ok g) →
  let nodes := eg_nodes (ag_graph g) in
  let E := edge_pairs (eg_edges (ag_graph g)) in
  nodes ≡ₚ steps ≫= step_to_phase_nodes c ∧
  Forall (forward (node_ids nodes)) E ∧
  ∀ s t, s ∈ steps → t ∈ steps → as_id t ∈ as_depends_on s →
    ∃ m n, last_node c t = Some m ∧ first_node c s = Some n ∧ edge E m n.
Proof.
  intros Hsize Hc.
  destruct (compile_cases steps Hsize) as [[e He]|(l & groups & path & Hok & Hb & _ & _ & He)];
    [congruence|]. rewrite He in Hc. injection Hc as <-. simpl.
  destruct (built_graph steps l Hb Hsize) as ([Hn Hf _ Hd] & _). destruct Hb as [Hp Hnd Hord].
  split_and!; [|done|].
  - rewrite Hn. by rewrite Hp.
  - intros s t Hs Ht Hdep. rewrite <-Hp in Hs, Ht.
    apply list_elem_of_lookup in Hs as [i Hi].
    destruct (Hord i s (as_id t) Hi Hdep) as (j & t' & Hj & Ht' & Hid).
    assert (t' = t) as ->.
    { apply list_elem_of_lookup in Ht as [k Hk].
      assert (j = k) as ->; [|congruence].
      eapply (NoDup_lookup (as_id <$> l)); [done|..]; rewrite list_lookup_fmap;
        [rewrite Ht'|rewrite Hk]; simpl; by rewrite ?Hid. }
    by apply (Hd i j).
Qed.

(** What the names of the steps must not be confused for. *)
Lemma compiled_graph_ok steps g :
  Z.of_nat (length steps) ≤ 2 ^ 30 - 1 → plain_names steps → compile c steps = Some (Ok g) →
  let nodes := eg_nodes (ag_graph g) in
  let edges := eg_edges (ag_graph g) in
  NoDup (node_ids nodes) ∧ acyclic (edge_pairs edges) ∧
  (∀ m n, edge (edge_pairs edges) m n → m ∈ node_ids nodes ∧ n ∈ node_ids nodes) ∧
  (∀ n, n ∈ node_ids nodes → 0 ≤ node_len nodes n ≤ u32_max) ∧
  Z.of_nat (length nodes) ≤ u32_max ∧
  find_parallel_groups nodes edges = Some (ag_parallel_groups g) ∧
  compute_critical_path nodes edges = Some (ag_critical_path g) ∧
  ag_critical_path_duration_ms g = estimate_duration (ag_critical_path g) nodes ∧
  (steps ≠ [] → nodes ≠ []).
Proof.
  intros Hsize Hplain Hc.
  destruct (compile_cases steps Hsize) as [[e He]|(l & groups & path & Hok & Hb & Hg & Hpath & He)];
    [congruence|]. rewrite He in Hc. injection Hc as <-. simpl.
  destruct (built_graph steps l Hb Hsize) as ([Hn Hf _ _] & Hends & Hdur & Hlen).
  destruct Hb as [Hp Hnd _].
  assert (NoDup (node_ids (bs_nodes (build_list c l)))) as Hids.
  { rewrite Hn. apply node_ids_distinct; [done|]. intros s t Hs Ht. rewrite Hp in Hs, Ht.
    by apply Hplain. }
  split_and!; try done; [by eapply forward_acyclic|]. intros Hne. rewrite Hn.
  destruct l as [|s l]; [by apply Permutation_nil_l in Hp|]. rewrite bind_cons.
  by destruct (step_nodes_cons c s) as (? & ? & ->).
Qed.

(** C26: Parallel groups are safe and complete. Every node is in exactly one
    group, and every edge leads from an earlier group to a later one, so the nodes
    of a group can run at the same time. *)
Theorem parallel_groups_exact steps g :
  Z.of_nat (length steps) ≤ 2 ^ 30 - 1 → plain_names steps → compile c steps = Some (Ok g) →
  concat (ag_parallel_groups g) ≡ₚ node_ids (eg_nodes (ag_graph g)) ∧
  ∀ m n, edge (edge_pairs (eg_edges (ag_graph g))) m n →
    ∃ i j gi gj, (i < j)%nat ∧ ag_parallel_groups g !! i = Some gi ∧ m ∈ gi ∧
      ag_parallel_groups g !! j = Some gj ∧ n ∈ gj.
Proof.
  intros Hsize Hplain Hc.
  destruct (compiled_graph_ok steps g Hsize Hplain Hc) as (Hnd & Hac & Hends & _ & _ & Hg & _).
  destruct (parallel_groups_spec _ _ Hends) as (groups & Hg' & Hgn & Hsub & Hlay & Hall).
  rewrite Hg in Hg'. injection Hg' as ->. split.
  - apply NoDup_Permutation; [done|done|]. intros n. split; [apply Hsub|by apply Hall].
  - intros m n He. destruct (Hends m n He) as [_ Hn]. apply (Hall Hac) in Hn.
    apply list_elem_of_In, in_concat in Hn as (gj & Hj%list_elem_of_In & Hn%list_elem_of_In).
    apply list_elem_of_lookup in Hj as [j Hj].
    destruct (layered_lookup _ _ j gj m n Hlay Hj Hn He) as (i & gi & ? & ? & ?).
    exists i, j, gi, gj. done.
Qed.

Lemma critical_path_facts steps g :
  Z.of_nat (length steps) ≤ 2 ^ 30 - 1 → plain_names steps → steps ≠ [] →
  compile c steps = Some (Ok g) →
  let nodes := eg_nodes (ag_graph g) in
  let E := edge_pairs (eg_edges (ag_graph g)) in
  let p := ag_critical_path g in
  linked E p ∧ NoDup p ∧ Forall (.∈ node_ids nodes) p ∧
  ∀ q, Forall (.∈ node_ids nodes) q → linked E q →
    weight (node_len nodes) q ≤ weight (node_len nodes) p.
Proof.
  intros Hsize Hplain Hne Hc nodes E p.
  destruct (compiled_graph_ok steps g Hsize Hplain Hc)
    as (Hnd & Hac & Hends & Hdur & Hlen & _ & Hpath & _ & Hnn). specialize (Hnn Hne).
  destruct (critical_path_spec _ _ Hends Hdur Hlen)
    as (order & p' & Hp & Hon & Hsub & Hcover & Hbest).
  rewrite Hpath in Hp. injection Hp as <-. specialize (Hcover Hac).
  destruct Hbest as (Hlink & Hpin & Hmax).
  { intros ->. destruct (eg_nodes (ag_graph g)) as [|n ns]; [done|].
    apply (not_elem_of_nil (pn_node_id n)), Hcover. left. }
  split_and!; [done|by eapply linked_NoDup|by apply Forall_forall|].
  intros q Hq Hlq. destruct q as [|n q _] using rev_ind.
  - simpl. apply weight_nonneg; [done|]. by apply Forall_forall.
  - apply Forall_app in Hq as [Hq [Hn _]%Forall_cons]. apply Hmax; [done|done|by apply Hcover].
Qed.

(** C25: The critical path is a longest path, for a program of at least one step
    and fewer than 2^30 whose step names do not collide once the phases are appended
    ([plain_names]); [empty_program_path] and [node_names_collide] show the other
    two cases. It is a path of the graph without repetition, no path of the graph
    takes longer by the nodes' estimates, and the duration reported is the sum along
    it. *)
Theorem critical_path_longest steps g :
  Z.of_nat (length steps) ≤ 2 ^ 30 - 1 → plain_names steps → steps ≠ [] →
  compile c steps = Some (Ok g) →
  let nodes := eg_nodes (ag_graph g) in
  let E := edge_pairs (eg_edges (ag_graph g)) in
  let p := ag_critical_path g in
  linked E p ∧ NoDup p ∧ Forall (.∈ node_ids nodes) p ∧
  ag_critical_path_duration_ms g = weight (node_len nodes) p ∧
  ∀ q, Forall (.∈ node_ids nodes) q → linked E q →
    weight (node_len nodes) q ≤ weight (node_len nodes) p.
Proof.
  intros Hsize Hplain Hne Hc nodes E p.
  destruct (compiled_graph_ok steps g Hsize Hplain Hc)
    as (_ & _ & _ & Hdur & Hlen & _ & _ & Hms & _).
  destruct (critical_path_facts steps g Hsize Hplain Hne Hc) as (Hl & Hnd & Hf & Hmax).
  split_and!; try done. rewrite Hms. by apply estimate_duration_weight.
Qed.

(** The execution order lists every node once, the critical path first. *)
Theorem execution_order_complete steps sp :
  Z.of_nat (length steps) ≤ 2 ^ 30 - 1 → plain_names steps → steps ≠ [] →
  schedule c steps = Some (Ok sp) →
  sp_execution_order sp ≡ₚ node_ids (eg_nodes (ag_graph (sp_graph sp))) ∧
  ag_critical_path (sp_graph sp) `prefix_of` sp_execution_order sp.
Proof.
  intros Hsize Hplain Hne Hs. unfold schedule in Hs.
  destruct (compile c steps) as [[g|e]|] eqn:Hc; simplify_eq/=.
  destruct (compiled_graph_ok steps g Hsize Hplain Hc) as (Hnd & _).
  destruct (critical_path_facts steps g Hsize Hplain Hne Hc) as (_ & Hpn & Hpf & _).
  split; [|by eexists]. unfold execution_order. rewrite sort_by_perm.
  apply NoDup_Permutation; [|done|].
  - apply NoDup_app. split_and!; [done| |by apply NoDup_filter].
    by intros n Hn [? _]%list_elem_of_filter.
  - intros n. rewrite elem_of_app, list_elem_of_filter. rewrite Forall_forall in Hpf.
    destruct (decide (n ∈ ag_critical_path g)); naive_solver.
Qed.
End Programs.

(** ** A concrete program *)

#[local] Existing Instance key_order.

Definition ex_step (id : string) (ty : AgentStepType) (deps : list string) (tokens : Z)
    (effects reversible verified : bool) : AgentStep :=
  mkAgentStep id id ty deps 1 false [] 100 tokens effects reversible [] false verified 0.
Definition ex_steps : list AgentStep :=
  [ex_step "plan" AS_Think [] 500 false false false;
   ex_step "read" AS_Retrieve [] 0 false false false;
   ex_step "write" AS_ToolCall ["plan"; "read"] 0 true true false;
   ex_step "report" AS_Generate ["write"] 100 false false true].
Definition ex_c : AgentProgramCompiler := AgentProgramCompiler_default.

Lemma ex_plain : plain_names ex_steps.
Proof.
  unfold plain_names.
  assert (Forall (λ s, Forall (λ t, as_id s ≠ as_id t +:+ "-auto") ex_steps) ex_steps) as Hf
    by (repeat constructor; discriminate).
  rewrite Forall_forall in Hf. intros s t Hs Ht. specialize (Hf s Hs).
  rewrite Forall_forall in Hf. by apply Hf.
Qed.

Lemma topological_sort_exact_witness :
  validate_steps ex_steps = Ok tt ∧
  topological_sort ex_steps = Some (Ok ["read"; "plan"; "write"; "report"]) ∧
  acyclic (step_edges ex_steps).
Proof.
  split; [reflexivity|].
  destruct (topological_sort_exact ex_steps eq_refl) as (res & Hr & Hok & _).
  assert (topological_sort ex_steps = Some (Ok ["read"; "plan"; "write"; "report"])) as Hs
    by (vm_compute; reflexivity).
  split; [exact Hs|]. rewrite Hs in Hr. injection Hr as <-. by apply Hok.
Defined.

Lemma compile_returns_witness :
  ∃ res, compile ex_c ex_steps = Some res ∧ is_ok res = true ∧ acyclic (step_edges ex_steps).
Proof.
  destruct (compile_returns ex_c ex_steps ltac:(vm_compute; discriminate)) as (res & Hr & Hok).
  exists res. split; [exact Hr|].
  assert (is_ok res = true) as Ht.
  { assert (is_ok <$> compile ex_c ex_steps = Some true) as Hc by (vm_compute; reflexivity).
    rewrite Hr in Hc. by injection Hc. }
  split; [done|]. by apply Hok.
Defined.

Lemma compile_respects_dependencies_witness :
  ∃ g, compile ex_c ex_steps = Some (Ok g) ∧
    edge (edge_pairs (eg_edges (ag_graph g))) "read-retrieve" "write-checkpoint".
Proof.
  eexists. split; [vm_compute; reflexivity|].
  destruct (compile_respects_dependencies ex_c ex_steps _ ltac:(vm_compute; discriminate)
    ltac:(vm_compute; reflexivity)) as (_ & _ & Hd).
  destruct (Hd (ex_step "write" AS_ToolCall ["plan"; "read"] 0 true true false)
    (ex_step "read" AS_Retrieve [] 0 false false false)) as (m & n & Hm & Hn & He).
  - do 2 right. left.
  - right. left.
  - right. left.
  - vm_compute in Hm, Hn. injection Hm as <-. injection Hn as <-. exact He.
Defined.

Lemma parallel_groups_exact_witness :
  ∃ g, compile ex_c ex_steps = Some (Ok g) ∧
    ag_parallel_groups g !! 0%nat = Some ["read-retrieve"; "plan-think"] ∧
    concat (ag_parallel_groups g) ≡ₚ node_ids (eg_nodes (ag_graph g)).
Proof.
  eexists. split; [vm_compute; reflexivity|]. split; [vm_compute; reflexivity|].
  apply (parallel_groups_exact ex_c ex_steps); [vm_compute; discriminate|exact ex_plain|].
  vm_compute. reflexivity.
Defined.

Lemma critical_path_longest_witness :
  ∃ g, compile ex_c ex_steps = Some (Ok g) ∧ ag_critical_path_duration_ms g = 12010 ∧
    ∀ q, Forall (.∈ node_ids (eg_nodes (ag_graph g))) q →
      linked (edge_pairs (eg_edges (ag_graph g))) q →
      weight (node_len (eg_nodes (ag_graph g))) q ≤ 12010.
Proof.
  eexists. split; [vm_compute; reflexivity|]. split; [vm_compute; reflexivity|].
  intros q Hq Hl.
  destruct (critical_path_longest ex_c ex_steps _ ltac:(vm_compute; discriminate) ex_plain
    ltac:(discriminate) ltac:(vm_compute; reflexivity)) as (_ & _ & _ & Hw & Hmax).
  specialize (Hmax q Hq Hl). etrans; [exact Hmax|]. rewrite <-Hw. vm_compute. discriminate.
Defined.

(** ** What the compiler makes of particular programs *)

Definition compiled (steps : list AgentStep) : option AgentExecutionGraph :=
  r ← compile ex_c steps; match r with Ok g => Some g | Err _ => None end.

(** The critical path is put first although one of its nodes waits for a node
    that is not on it: ["read-retrieve"] comes after ["write-checkpoint"]. *)
Example execution_order_breaks_dependency :
  (r ← schedule ex_c ex_steps;
   match r with Ok sp => Some (sp_execution_order sp) | Err _ => None end)
  = Some ["plan-think"; "write-checkpoint"; "write-tool"; "write-compensate"; "report-tokenize";
          "report-generate"; "read-retrieve"; "report-auto-verify"].
Proof. vm_compute. reflexivity. Qed.

(** A reversible tool call is followed by its compensation on success. *)
Example compensation_follows_success :
  (g ← compiled ex_steps;
   Some (filter (λ e, pe_to_node_id e = "write-compensate") (eg_edges (ag_graph g))))
  = Some [mkPhaseEdge "write-tool" "write-compensate" (Some EC_OnSuccess)].
Proof. vm_compute. reflexivity. Qed.

(** Two steps with one name are reported as a cycle. *)
Example duplicate_names_are_a_cycle :
  compile ex_c [ex_step "a" AS_Think [] 0 false false false;
                ex_step "a" AS_Think [] 0 false false false]
  = Some (Err (CircularDependency "cycle detected in dependency graph")).
Proof. vm_compute. reflexivity. Qed.

(** A program without steps has a critical path of one nameless node. *)
Example empty_program_path : ag_critical_path <$> compiled [] = Some [""].
Proof. vm_compute. reflexivity. Qed.

(** The verification added to step ["x"] and the step ["x-auto"] share a node
    name; together with the edge between them the node waits for itself and is in
    no parallel group. *)
Example node_names_collide :
  ag_parallel_groups <$>
    compiled [ex_step "x" AS_Think [] 50 false false true;
              ex_step "x-auto" AS_Verify ["x"] 0 false false false]
  = Some [["x-think"]].
Proof. vm_compute. reflexivity. Qed.

(** The estimate of a long answer wraps around. *)
Example token_duration_wraps : token_duration 214748400 = 704.
Proof. vm_compute. reflexivity. Qed.
