(* ===== verification/Policy.v ===== *)
(** * Scheduling policies

    [crates/nous-scheduler/src/policy.rs]: the trait [SchedulerPolicy] as a
    record of its methods, the nine baseline policies and their registry.
    Scores are evaluated in [Float64]. A policy that reads the clock or a
    history in [score] takes the reading as a parameter: it stands for one call
    of [select] during which they do not change. *)

From S2P Require Import Prelude Errors Float64 Resource Workload.

Record SchedulerCandidate : Type := mkCandidate {
  sc_node_id : string;
  sc_device_id : string;
  sc_engine_id : string;
  sc_model_revision : string;
  sc_resources_available : ResourceVector;
  sc_resources_required : ResourceVector;
  sc_estimated_ttft_ms : Z;
  sc_estimated_tps : f64;
  sc_estimated_cost_microcents : Z;
  sc_estimated_quality : f64;
  sc_kv_cache_hit_rate : f64;
  sc_engine_load : f64;
  sc_device_utilization : f64
}.

Inductive FallbackStrategy : Type := TryNextBest | DegradeModel | QueueAndWait | RejectWorkload.

Record ScheduleDecision : Type := mkScheduleDecision {
  sd_selected : option SchedulerCandidate;
  sd_candidates : list SchedulerCandidate;
  sd_rejections : gmap nat string;
  sd_score_breakdown : gmap string f64;
  sd_confidence_interval : f64 * f64;
  sd_is_out_of_distribution : bool;
  sd_fallback_strategy : FallbackStrategy
}.

(** [trait SchedulerPolicy]. *)
Record SchedulerPolicy : Type := mkPolicy {
  sp_name : string;
  sp_filter : WorkloadSpec → list SchedulerCandidate → list nat;
  sp_score : WorkloadSpec → SchedulerCandidate → f64;
  sp_select : WorkloadSpec → list SchedulerCandidate → ScheduleDecision
}.

(** The indices of the candidates that pass a test: the body of every
    [filter]. *)
Definition filter_indices (p : SchedulerCandidate → bool) (cs : list SchedulerCandidate) :
    list nat :=
  (filter (λ ic, p ic.2 = true) (imap pair cs)).*1.

Definition fits (c : SchedulerCandidate) : bool :=
  fits_within (sc_resources_required c) (sc_resources_available c).

Definition filter_fits (w : WorkloadSpec) (cs : list SchedulerCandidate) : list nat :=
  filter_indices fits cs.

Definition no_interval : f64 * f64 := (f64_of_Z 0, f64_of_Z 0).

(** A [select] that takes the first index of its own [filter]. *)
Definition select_first_feasible (ood : bool) (fb : FallbackStrategy) (w : WorkloadSpec)
    (cs : list SchedulerCandidate) : ScheduleDecision :=
  mkScheduleDecision (i ← head (filter_fits w cs); cs !! i) cs ∅ ∅ no_interval ood fb.

(** [FifoPolicy]. *)
Definition fifo_policy : SchedulerPolicy :=
  mkPolicy "FIFO" filter_fits (λ _ _, f64_of_Z 0) (select_first_feasible false TryNextBest).

(** [ParetoPolicy]: its objectives are never read. *)
Definition pareto_policy : SchedulerPolicy :=
  mkPolicy "Pareto" filter_fits
    (λ _ _, f64_div (f64_of_Z 1) (f64_add (f64_of_Z 1) (f64_of_Z 0)))
    (select_first_feasible true DegradeModel).

(** ** The weighted sum *)

Record SchedulingWeights : Type := mkWeights {
  latency_weight : f64;
  throughput_weight : f64;
  cost_weight : f64;
  quality_weight : f64;
  cache_weight : f64;
  load_weight : f64
}.

Definition SchedulingWeights_default : SchedulingWeights :=
  mkWeights (f64_lit 25 100) (f64_lit 20 100) (f64_lit 15 100) (f64_lit 20 100)
    (f64_lit 10 100) (f64_lit 10 100).

(** [1.0 / (1.0 + x as f64 / unit)]. *)
Definition inverse_score (x unit : Z) : f64 :=
  f64_div (f64_of_Z 1) (f64_add (f64_of_Z 1) (f64_div (f64_of_Z x) (f64_of_Z unit))).

(** [WeightedSumPolicy::score]. *)
Definition weighted_score (p : SchedulingWeights) (w : WorkloadSpec) (c : SchedulerCandidate) :
    f64 :=
  let latency_score := inverse_score (sc_estimated_ttft_ms c) 1000 in
  let throughput_score :=
    f64_div (f64_min (sc_estimated_tps c) (f64_of_Z 100)) (f64_of_Z 100) in
  let cost_score := inverse_score (sc_estimated_cost_microcents c) 1000000 in
  let quality_score := sc_estimated_quality c in
  let cache_score := sc_kv_cache_hit_rate c in
  let load_score := f64_sub (f64_of_Z 1) (sc_engine_load c) in
  f64_add (f64_add (f64_add (f64_add (f64_add
    (f64_mul (latency_weight p) latency_score)
    (f64_mul (throughput_weight p) throughput_score))
    (f64_mul (cost_weight p) cost_score))
    (f64_mul (quality_weight p) quality_score))
    (f64_mul (cache_weight p) cache_score))
    (f64_mul (load_weight p) load_score).

(** The loop of [WeightedSumPolicy::select]: best score, its index, and the
    scores by node. *)
Definition weighted_step (score : SchedulerCandidate → f64)
    (st : f64 * option nat * gmap string f64) (ic : nat * SchedulerCandidate) :
    f64 * option nat * gmap string f64 :=
  let '(best, idx, breakdown) := st in
  let s := score ic.2 in
  let breakdown' := <[sc_node_id ic.2 := s]> breakdown in
  if f64_ltb best s then (s, Some ic.1, breakdown') else (best, idx, breakdown').

Definition weighted_scan (score : SchedulerCandidate → f64) (cs : list SchedulerCandidate) :
    f64 * option nat * gmap string f64 :=
  foldl (weighted_step score) (f64_NEG_INFINITY, None, ∅) (imap pair cs).

Definition weighted_select (p : SchedulingWeights) (w : WorkloadSpec)
    (cs : list SchedulerCandidate) : ScheduleDecision :=
  let '(best, idx, breakdown) := weighted_scan (weighted_score p w) cs in
  mkScheduleDecision (i ← idx; cs !! i) cs ∅ breakdown
    (f64_sub best (f64_lit 5 100), f64_add best (f64_lit 5 100)) false TryNextBest.

Definition weighted_sum_policy (p : SchedulingWeights) : SchedulerPolicy :=
  mkPolicy "WeightedSum" filter_fits (weighted_score p) (weighted_select p).

(** ** Policies that rank by score *)

Section Ranked.
Context `{FloatPlatform}.

(** [candidates.sort_by(|a, b| score(b).total_cmp(&score(a)))], then the first. *)
Definition ranked_select (score : WorkloadSpec → SchedulerCandidate → f64)
    (fb : FallbackStrategy) (w : WorkloadSpec) (cs : list SchedulerCandidate) :
    ScheduleDecision :=
  let sorted := sort_by (λ a b, f64_total_cmp (score w b) (score w a)) cs in
  mkScheduleDecision (head sorted) sorted ∅ ∅ no_interval false fb.

(** [PriorityPolicy]. *)
Definition priority_score (w : WorkloadSpec) (c : SchedulerCandidate) : f64 :=
  match rr_priority (ws_resource_requirements w) with
  | PC_System => f64_of_Z 4
  | PC_Interactive => f64_of_Z 3
  | PC_Batch => f64_of_Z 2
  | PC_BestEffort => f64_of_Z 1
  end.
Definition priority_policy : SchedulerPolicy :=
  mkPolicy "Priority" (λ _ cs, seq 0 (length cs)) priority_score
    (ranked_select priority_score QueueAndWait).

(** [MultiplicativePolicy]. *)
Definition multiplicative_score (w : WorkloadSpec) (c : SchedulerCandidate) : f64 :=
  let latency_factor := inverse_score (sc_estimated_ttft_ms c) 500 in
  let quality_factor := f64_add (f64_lit 1 10) (f64_mul (f64_lit 9 10) (sc_estimated_quality c)) in
  let cache_factor := f64_add (f64_lit 5 10) (f64_mul (f64_lit 5 10) (sc_kv_cache_hit_rate c)) in
  let load_factor := f64_sub (f64_of_Z 1) (f64_mul (f64_lit 5 10) (sc_engine_load c)) in
  f64_mul (f64_mul (f64_mul latency_factor quality_factor) cache_factor) load_factor.
Definition multiplicative_policy : SchedulerPolicy :=
  mkPolicy "Multiplicative" filter_fits multiplicative_score
    (ranked_select multiplicative_score TryNextBest).

(** [CacheAwarePolicy]. *)
Definition cache_aware_score (w : WorkloadSpec) (c : SchedulerCandidate) : f64 :=
  f64_mul (sc_kv_cache_hit_rate c)
    (f64_sub (f64_of_Z 1) (f64_mul (f64_lit 3 10) (sc_engine_load c))).
Definition cache_aware_policy (min_cache_hit_rate : f64) : SchedulerPolicy :=
  mkPolicy "CacheAware"
    (λ _, filter_indices (λ c, fits c && f64_leb min_cache_hit_rate (sc_kv_cache_hit_rate c)))
    cache_aware_score (ranked_select cache_aware_score TryNextBest).

(** [DeadlineAwarePolicy] at the clock reading [now]. *)
Definition deadline_aware_score (now : Z) (w : WorkloadSpec) (c : SchedulerCandidate) : f64 :=
  let time_left_secs :=
    if decide (0 < ws_deadline_us w)%Z
    then f64_max (f64_div (f64_of_Z (wrap_i64 (ws_deadline_us w - now))) (f64_of_Z 1000000))
           (f64_of_Z 0)
    else f64_of_Z 3600 in
  let token_time_secs :=
    if f64_ltb (f64_of_Z 0) (sc_estimated_tps c)
    then f64_div (f64_of_Z 1) (sc_estimated_tps c) else f64_INFINITY in
  let ttft_secs := f64_div (f64_of_Z (sc_estimated_ttft_ms c)) (f64_of_Z 1000) in
  let exec_time_secs := f64_add ttft_secs token_time_secs in
  let urgency :=
    f64_div (f64_of_Z 1) (f64_add (f64_add time_left_secs exec_time_secs) (f64_lit 1 1000)) in
  let can_meet := f64_leb ttft_secs time_left_secs in
  f64_mul urgency (if can_meet then f64_of_Z 10 else f64_lit 1 10).
Definition deadline_aware_policy (now : Z) : SchedulerPolicy :=
  mkPolicy "DeadlineAware" filter_fits (deadline_aware_score now)
    (ranked_select (deadline_aware_score now) DegradeModel).

(** [CriticalPathPolicy]: the largest fan-out of the execution graph. *)
Definition downstream_count (g : ExecutionGraph) : nat :=
  max_list
    ((λ e, length (filter (λ e', pe_from_node_id e' = pe_from_node_id e) (eg_edges g)))
       <$> eg_edges g).
Definition critical_path_score (w : WorkloadSpec) (c : SchedulerCandidate) : f64 :=
  let g := ws_execution_graph w in
  let criticality :=
    f64_div (f64_of_Z (Z.of_nat (downstream_count g)))
      (f64_of_Z (Z.max 1 (Z.of_nat (length (eg_nodes g))))) in
  let latency_score := inverse_score (sc_estimated_ttft_ms c) 1000 in
  f64_add (f64_mul criticality (f64_lit 6 10)) (f64_mul latency_score (f64_lit 4 10)).
Definition critical_path_policy : SchedulerPolicy :=
  mkPolicy "CriticalPathAware" filter_fits critical_path_score
    (ranked_select critical_path_score TryNextBest).

(** [ContextualBanditPolicy]: outcome counts and mean rewards behind a lock. *)
Record ContextualBandit : Type := mkBandit {
  cb_alpha : f64;
  cb_epsilon : f64;
  cb_history : Mutex (gmap string (Z * f64))
}.
Definition bandit_new (alpha epsilon : f64) : ContextualBandit :=
  mkBandit alpha epsilon (mutex_new ∅).
Definition bandit_default : ContextualBandit := bandit_new (f64_lit 1 10) (f64_lit 5 100).

Definition candidate_key (c : SchedulerCandidate) : string :=
  sc_node_id c +:+ ":" +:+ sc_engine_id c +:+ ":" +:+ sc_model_revision c.

(** [ContextualBanditPolicy::record_outcome]. *)
Definition record_outcome (c : SchedulerCandidate) (reward : f64) (b : ContextualBandit) :
    ContextualBandit :=
  match lock (cb_history b) with
  | None => b
  | Some hist =>
      let '(count, mean) := default (0%Z, f64_of_Z 0) (hist !! candidate_key c) in
      let mean' := f64_add mean (f64_mul (cb_alpha b) (f64_sub reward mean)) in
      mkBandit (cb_alpha b) (cb_epsilon b)
        (mutex_set (<[candidate_key c := (wrap64 (count + 1), mean')]> hist) (cb_history b))
  end.

Definition bandit_score (b : ContextualBandit) (w : WorkloadSpec) (c : SchedulerCandidate) : f64 :=
  match lock (cb_history b) with
  | None => f64_NEG_INFINITY
  | Some hist =>
      let '(count, mean) := default (0%Z, f64_of_Z 0) (hist !! candidate_key c) in
      let bonus :=
        if decide (0 < count)%Z
        then f64_mul (cb_epsilon b)
               (f64_sqrt (f64_div (f64_mul (f64_of_Z 2) (f64_ln (f64_of_Z count)))
                            (f64_of_Z count)))
        else f64_mul (cb_epsilon b) (f64_of_Z 2) in
      f64_add mean bonus
  end.
Definition bandit_policy (b : ContextualBandit) : SchedulerPolicy :=
  mkPolicy "ContextualBandit" filter_fits (bandit_score b)
    (ranked_select (bandit_score b) TryNextBest).

(** ** The registry *)

Definition PolicyRegistry : Type := gmap string SchedulerPolicy.

(** [PolicyRegistry::register], [get] and [list]. *)
Definition register_policy (p : SchedulerPolicy) (r : PolicyRegistry) : PolicyRegistry :=
  <[sp_name p := p]> r.
Definition get_policy (r : PolicyRegistry) (name : string) : option SchedulerPolicy := r !! name.
Definition list_policies `{HashOrder} (r : PolicyRegistry) : list string := (hash_iter r).*1.

(** The policies [with_all_baselines] registers, in its order. *)
Definition baseline_policies (now : Z) (b : ContextualBandit) : list SchedulerPolicy :=
  [fifo_policy; priority_policy; weighted_sum_policy SchedulingWeights_default;
   multiplicative_policy; cache_aware_policy (f64_of_Z 0); deadline_aware_policy now;
   critical_path_policy; bandit_policy b; pareto_policy].
Definition with_all_baselines (now : Z) : PolicyRegistry :=
  foldl (λ r p, register_policy p r) ∅ (baseline_policies now bandit_default).
End Ranked.

(** ** What a policy promises its caller *)

(** The one law placement relies on: a selection is one of the candidates. *)
Class SelectsCandidate (p : SchedulerPolicy) : Prop :=
  select_member : ∀ w cs c, sd_selected (sp_select p w cs) = Some c → c ∈ cs.

Lemma elem_of_filter_indices p cs i :
  i ∈ filter_indices p cs ↔ ∃ c, cs !! i = Some c ∧ p c = true.
Proof.
  unfold filter_indices. rewrite list_elem_of_fmap. split.
  - intros ([j c] & -> & [Hp Hin]%list_elem_of_filter). exists c. split; [|done].
    apply elem_of_lookup_imap in Hin as (k & y & [= -> ->] & Hk). done.
  - intros (c & Hi & Hp). exists (i, c). split; [done|].
    apply list_elem_of_filter. split; [done|]. apply elem_of_lookup_imap. eauto.
Qed.

#[global] Instance fifo_selects : SelectsCandidate fifo_policy.
Proof. intros w cs c (i & _ & Hc)%bind_Some. by eapply list_elem_of_lookup_2. Qed.

#[global] Instance pareto_selects : SelectsCandidate pareto_policy.
Proof. intros w cs c (i & _ & Hc)%bind_Some. by eapply list_elem_of_lookup_2. Qed.

(** ** The weighted scan *)

Section WeightedScan.
Context (score : SchedulerCandidate → f64).

(** What the scan knows after the candidates [cs]. *)
Definition scan_spec (cs : list SchedulerCandidate) (best : f64) (idx : option nat) : Prop :=
  Forall (λ y, f64_ltb best (score y) = false) cs ∧
  match idx with
  | None => best = f64_NEG_INFINITY
  | Some i => ∃ c, cs !! i = Some c ∧ best = score c ∧ f64_ltb f64_NEG_INFINITY best = true ∧
      Forall (λ y, f64_leb best (score y) = false) (take i cs)
  end.

Lemma scan_spec_snoc cs c best idx b :
  scan_spec cs best idx →
  let '(best', idx', _) := weighted_step score (best, idx, b) (length cs, c) in
  scan_spec (cs ++ [c]) best' idx'.
Proof.
  intros [Hmax Hidx]. unfold weighted_step. simpl.
  destruct (f64_ltb best (score c)) eqn:Hlt; split.
  - apply Forall_app. split; [|apply Forall_singleton].
    + eapply Forall_impl; [exact Hmax|]. intros y Hy. cbv beta in Hy. apply not_true_iff_false. intros Hcy.
      by rewrite (f64_ltb_trans _ _ _ Hlt Hcy) in Hy.
    + apply not_true_iff_false. rewrite f64_ltb_num. unfold lex_le. intros (_ & _ & Hn). lia.
  - exists c. rewrite take_app_length, lookup_app_r, Nat.sub_diag by done. split_and!; try done.
    + destruct idx as [i|]; [|by subst best]. destruct Hidx as (c' & _ & -> & Hinf & _).
      by eapply f64_ltb_trans.
    + eapply Forall_impl; [exact Hmax|]. intros y Hy. cbv beta in Hy. apply not_true_iff_false. intros Hcy.
      by rewrite (f64_ltb_leb_trans _ _ _ Hlt Hcy) in Hy.
  - apply Forall_app. split; [done|]. by apply Forall_singleton.
  - destruct idx as [i|]; [|done]. destruct Hidx as (c' & Hi & ? & ? & Htake). exists c'.
    split_and!; [by apply lookup_app_l_Some|done..|].
    rewrite take_app_le; [done|]. apply lookup_lt_Some in Hi. lia.
Qed.

Lemma weighted_scan_spec cs :
  let '(best, idx, _) := weighted_scan score cs in scan_spec cs best idx.
Proof.
  unfold weighted_scan. induction cs as [|c cs IH] using rev_ind; [by split|].
  rewrite imap_app, foldl_app. simpl. rewrite Nat.add_0_r.
  destruct (foldl _ _ (imap pair cs)) as [[best idx] b]. simpl.
  pose proof (scan_spec_snoc cs c best idx b IH) as Hs.
  unfold weighted_step in *. simpl in *. by destruct (f64_ltb best (score c)).
Qed.
End WeightedScan.

(** The deterministic policy takes the earliest candidate of the highest
    score, and none only when no score is a number above minus infinity. *)
Lemma weighted_select_best p w cs c :
  sd_selected (weighted_select p w cs) = Some c →
  ∃ l1 l2, cs = l1 ++ c :: l2 ∧
    Forall (λ y, f64_ltb (weighted_score p w c) (weighted_score p w y) = false) cs ∧
    Forall (λ y, f64_leb (weighted_score p w c) (weighted_score p w y) = false) l1.
Proof.
  unfold weighted_select. pose proof (weighted_scan_spec (weighted_score p w) cs) as Hs.
  destruct (weighted_scan _ cs) as [[best [i|]] b]; simpl; [|done].
  destruct Hs as [Hmax (c' & Hi & -> & _ & Htake)]. rewrite Hi. intros [= <-].
  exists (take i cs), (drop (S i) cs). by rewrite (take_drop_middle _ _ _ Hi).
Qed.

Lemma weighted_select_none p w cs :
  sd_selected (weighted_select p w cs) = None ↔
  Forall (λ y, f64_ltb f64_NEG_INFINITY (weighted_score p w y) = false) cs.
Proof.
  unfold weighted_select. pose proof (weighted_scan_spec (weighted_score p w) cs) as Hs.
  destruct (weighted_scan _ cs) as [[best [i|]] b]; simpl; destruct Hs as [Hmax Hs].
  - destruct Hs as (c & Hi & -> & Hinf & _). rewrite Hi. split; [done|]. intros Hall.
    rewrite Forall_lookup in Hall. by rewrite (Hall _ _ Hi) in Hinf.
  - by subst best.
Qed.

#[global] Instance weighted_selects p : SelectsCandidate (weighted_sum_policy p).
Proof.
  intros w cs c (l1 & l2 & -> & _)%weighted_select_best. set_solver.
Qed.

(** ** Ranking *)

Section RankedFacts.
Context `{FloatPlatform}.

(** The policies that rank by score. *)
Definition ranked_policies (rate : f64) (now : Z) (b : ContextualBandit) :
    list SchedulerPolicy :=
  [priority_policy; multiplicative_policy; cache_aware_policy rate; deadline_aware_policy now;
   critical_path_policy; bandit_policy b].

Lemma ranked_select_best score fb w cs c :
  sd_selected (ranked_select score fb w cs) = Some c →
  ∃ l1 l2, cs = l1 ++ c :: l2 ∧
    Forall (λ y, f64_total_cmp (score w y) (score w c) ≠ Gt) cs ∧
    Forall (λ y, f64_total_cmp (score w c) (score w y) = Gt) l1.
Proof.
  apply sort_by_head.
  - intros a. apply total_cmp_refl.
  - intros x y z ? ?. by eapply total_cmp_trans.
  - intros x y ?. by apply total_cmp_total.
Qed.

Lemma ranked_policies_select p rate now b :
  p ∈ ranked_policies rate now b → ∃ fb, sp_select p = ranked_select (sp_score p) fb.
Proof.
  unfold ranked_policies. rewrite !elem_of_cons, elem_of_nil.
  intros [->|[->|[->|[->|[->|[->|[]]]]]]]; eexists; reflexivity.
Qed.

Lemma ranked_selects p rate now b : p ∈ ranked_policies rate now b → SelectsCandidate p.
Proof.
  intros (fb & Hp)%ranked_policies_select w cs c. rewrite Hp.
  intros (l1 & l2 & -> & _)%ranked_select_best. set_solver.
Qed.

(** Optimal selection. Every policy that ranks by score (priority,
    multiplicative, cache-aware, deadline-aware, critical-path, bandit) selects a
    candidate whenever there is one, and the one selected has the highest score
    of all in the total order of floats, the earliest such; the remaining
    candidates are reported in some order, none lost. *)
Theorem ranked_policy_optimal p rate now b w cs :
  p ∈ ranked_policies rate now b →
  (sd_selected (sp_select p w cs) = None ↔ cs = []) ∧
  (∀ c, sd_selected (sp_select p w cs) = Some c →
     ∃ l1 l2, cs = l1 ++ c :: l2 ∧
       Forall (λ y, f64_total_cmp (sp_score p w y) (sp_score p w c) ≠ Gt) cs ∧
       Forall (λ y, f64_total_cmp (sp_score p w c) (sp_score p w y) = Gt) l1) ∧
  sd_candidates (sp_select p w cs) ≡ₚ cs.
Proof.
  intros (fb & Hp)%ranked_policies_select. rewrite Hp. split_and!.
  - apply sort_by_nil.
  - intros c. apply ranked_select_best.
  - apply sort_by_perm.
Qed.

(** The deterministic policy's choice: the earliest of the candidates whose
    weighted score is highest; it declines only when no candidate's score is a
    number above minus infinity. *)
Theorem weighted_policy_optimal p w cs :
  (sd_selected (sp_select (weighted_sum_policy p) w cs) = None ↔
     Forall (λ y, f64_ltb f64_NEG_INFINITY (weighted_score p w y) = false) cs) ∧
  (∀ c, sd_selected (sp_select (weighted_sum_policy p) w cs) = Some c →
     ∃ l1 l2, cs = l1 ++ c :: l2 ∧
       Forall (λ y, f64_ltb (weighted_score p w c) (weighted_score p w y) = false) cs ∧
       Forall (λ y, f64_leb (weighted_score p w c) (weighted_score p w y) = false) l1).
Proof.
  split; [apply weighted_select_none|]. intros c. apply weighted_select_best.
Qed.

(** Every baseline is found in the registry under its own name. *)
Lemma baseline_registered now p :
  p ∈ baseline_policies now bandit_default →
  get_policy (with_all_baselines now) (sp_name p) = Some p.
Proof.
  unfold baseline_policies. rewrite !elem_of_cons, elem_of_nil.
  intros [->|[->|[->|[->|[->|[->|[->|[->|[->|[]]]]]]]]]]; reflexivity.
Qed.

#[global] Instance critical_path_selects : SelectsCandidate critical_path_policy.
Proof. apply (ranked_selects _ (f64_of_Z 0) 0 bandit_default). set_solver. Qed.
#[global] Instance bandit_selects b : SelectsCandidate (bandit_policy b).
Proof. apply (ranked_selects _ (f64_of_Z 0) 0 b). set_solver. Qed.
End RankedFacts.

(** ** Concrete selections *)

(** A platform whose NaN is negative, as x86-64 produces it; the logarithm is
    not used by the examples. *)
Definition ex_platform : FloatPlatform := {| nan_negative := true; f64_ln := λ x, x |}.

Definition ex_candidate (node engine : string) (ttft : Z) (hit : f64) : SchedulerCandidate :=
  mkCandidate node "gpu0" engine "v1" rv_zero rv_zero ttft (f64_of_Z 50) 0 (f64_lit 9 10)
    hit (f64_lit 3 10) (f64_lit 5 10).

Lemma ranked_policy_optimal_witness :
  let cs := [ex_candidate "slow" "e" 2000 (f64_of_Z 0); ex_candidate "fast" "e" 200 (f64_of_Z 0)] in
  let p := @critical_path_policy ex_platform in
  sd_selected (sp_select p WorkloadSpec_default cs) = cs !! 1 ∧
  sd_candidates (sp_select p WorkloadSpec_default cs) ≡ₚ cs.
Proof.
  intros cs p. split; [vm_compute; reflexivity|].
  apply (@ranked_policy_optimal ex_platform p (f64_of_Z 0) 0 (@bandit_default)
           WorkloadSpec_default cs).
  unfold ranked_policies. do 4 right. left.
Defined.

(** A cache-aware policy with a minimal hit rate selects a candidate that its
    own filter rejects: [select] does not call [filter]. *)
Example selection_ignores_filter :
  let p := @cache_aware_policy ex_platform (f64_lit 5 10) in
  let cs := [ex_candidate "n" "e" 200 (f64_of_Z 0)] in
  sp_filter p WorkloadSpec_default cs = [] ∧
  sd_selected (sp_select p WorkloadSpec_default cs) = head cs.
Proof. split; vm_compute; reflexivity. Qed.

(** Two engines of one node: the breakdown keeps the score of the one that was
    not selected. *)
Example breakdown_reports_other_engine :
  let p := weighted_sum_policy SchedulingWeights_default in
  let good := ex_candidate "n" "good" 200 (f64_of_Z 0) in
  let bad := ex_candidate "n" "bad" 2000 (f64_of_Z 0) in
  let d := sp_select p WorkloadSpec_default [good; bad] in
  sd_selected d = Some good ∧
  sd_score_breakdown d !! "n" = Some (sp_score p WorkloadSpec_default bad) ∧
  sp_score p WorkloadSpec_default bad ≠ sp_score p WorkloadSpec_default good.
Proof. split_and!; vm_compute; [reflexivity..|discriminate]. Qed.
