(* ===== verification/Placement.v ===== *)
(** * Placement

    [crates/nous-scheduler/src/placement.rs] (where a workload runs),
    [core.rs] (the policy set in force and the trace that explains a decision)
    and [node_transport.rs] (connectivity of the nodes). The rendering of
    floats in the explanation and Unicode case mapping are parameters. *)

From S2P Require Import Prelude Errors Float64 Resource Workload Policy.
Local Open Scope Z_scope.

(** ** Nodes *)

Inductive NodeConnectionState : Type := Connected | NodeDegraded | Offline | Reconnecting.
#[global] Instance NodeConnectionState_eq_dec : EqDecision NodeConnectionState.
Proof. solve_decision. Defined.

(** [NodeConnectionState::schedulable]. *)
Definition schedulable (s : NodeConnectionState) : bool :=
  match s with Connected | NodeDegraded => true | _ => false end.

Record NodeAdvertisement : Type := mkAdvert {
  na_node_id : string;
  na_capabilities : list string;
  na_state : NodeConnectionState;
  na_last_heartbeat_us : Z;
  na_heartbeat_timeout_us : Z
}.

(** [NodeAdvertisement::connect], [heartbeat], [disconnect], [begin_reconnect]. *)
Definition node_connect (node_id : string) (caps : list string) (now timeout : Z) :
    NodeAdvertisement := mkAdvert node_id caps Connected now (Z.max timeout 1).
Definition node_heartbeat (now : Z) (caps : list string) (n : NodeAdvertisement) :
    NodeAdvertisement :=
  mkAdvert (na_node_id n) caps Connected now (na_heartbeat_timeout_us n).
Definition set_node_state (s : NodeConnectionState) (n : NodeAdvertisement) : NodeAdvertisement :=
  mkAdvert (na_node_id n) (na_capabilities n) s (na_last_heartbeat_us n)
    (na_heartbeat_timeout_us n).
Definition node_disconnect (n : NodeAdvertisement) : NodeAdvertisement :=
  set_node_state Offline n.
Definition begin_reconnect (n : NodeAdvertisement) : NodeAdvertisement :=
  set_node_state Reconnecting n.

(** [NodeAdvertisement::evaluate_health]. *)
Definition evaluate_health (now : Z) (n : NodeAdvertisement) : NodeAdvertisement :=
  let silent := sat_i64 (now - na_last_heartbeat_us n) in
  if decide (na_state n = Connected ∧ silent > na_heartbeat_timeout_us n)
  then set_node_state NodeDegraded n
  else if decide (na_state n = NodeDegraded ∧ silent > sat_i64 (na_heartbeat_timeout_us n * 2))
  then set_node_state Offline n
  else n.

Record DevicePlacementInfo : Type := mkDevice {
  dp_device_id : string;
  dp_device_type : string;
  dp_vendor : string;
  dp_total_vram : Z;
  dp_free_vram : Z;
  dp_utilization : f64;
  dp_temperature_celsius : f64;
  dp_has_kv_cache_for_model : bool
}.

Record EnginePlacementInfo : Type := mkEngine {
  ep_engine_id : string;
  ep_engine_type : string;
  ep_loaded_models : list string;
  ep_active_requests : Z;
  ep_max_batch_size : Z;
  ep_supports_streaming : bool;
  ep_capabilities : list string;
  ep_healthy : bool;
  ep_queue_depth : Z;
  ep_model_load_ms : Z;
  ep_state_transfer_ms : Z;
  ep_estimated_execution_ms : Z;
  ep_estimated_tps : f64;
  ep_kv_cache_hit_rate : f64
}.

Record NodeInfo : Type := mkNode {
  ni_node_id : string;
  ni_hostname : string;
  ni_arch : string;
  ni_os : string;
  ni_capacity : ResourceVector;
  ni_allocatable : ResourceVector;
  ni_devices : list DevicePlacementInfo;
  ni_engines : list EnginePlacementInfo;
  ni_network_latency_us : Z;
  ni_is_local : bool;
  ni_connection_state : NodeConnectionState
}.

Record ExpectedCompletionTime : Type := mkExpected {
  ec_queue_delay_ms : Z;
  ec_model_load_ms : Z;
  ec_state_transfer_ms : Z;
  ec_execution_estimate_ms : Z;
  ec_total_ms : Z
}.

Inductive KVCachePlacement : Type := KV_Local | KV_Remote | KV_Shared | KV_None.

Record PlacementDecision : Type := mkPlacement {
  pd_node_id : string;
  pd_device_id : string;
  pd_engine_id : string;
  pd_model_revision : string;
  pd_tensor_parallelism : Z;
  pd_pipeline_parallelism : Z;
  pd_kv_cache_placement : KVCachePlacement;
  pd_resources_reserved : ResourceVector;
  pd_expected_completion_ms : Z;
  pd_expected_completion : ExpectedCompletionTime;
  pd_reasoning : string
}.

(** ** Texts *)

(** [{:?}] of an optional float, [{:.2}], and [str::to_lowercase]. *)
Class TextPlatform : Type := {
  fmt_debug_score : option f64 → string;
  fmt_two_digits : f64 → string;
  to_lowercase : string → string
}.

(** [format!("{:?}", _)] of a device type. *)
Definition device_type_debug (d : DeviceType) : string :=
  match d with
  | Dev_Unspecified => "Unspecified" | Dev_Cpu => "Cpu" | Dev_Cuda => "Cuda"
  | Dev_Rocm => "Rocm" | Dev_Vulkan => "Vulkan" | Dev_OpenVino => "OpenVino"
  | Dev_Metal => "Metal" | Dev_Sycl => "Sycl" | Dev_Cann => "Cann" | Dev_Qnn => "Qnn"
  | Dev_Dsp => "Dsp" | Dev_Fpga => "Fpga" | Dev_Npu => "Npu" | Dev_Remote => "Remote"
  end.
Definition connection_debug (s : NodeConnectionState) : string :=
  match s with
  | Connected => "Connected" | NodeDegraded => "Degraded"
  | Offline => "Offline" | Reconnecting => "Reconnecting"
  end.

(** ** Placement *)

Section Place.
Context `{TextPlatform}.

(** The three tests on a node, and the three on a device and engine. *)
Definition routing_ok (w : WorkloadSpec) (n : NodeInfo) : bool :=
  negb (bool_decide (mr_routing (ws_model_requirements w) = Route_LocalOnly)
        && negb (ni_is_local n)).
Definition minimum_of (w : WorkloadSpec) : ResourceVector :=
  rr_minimum (ws_resource_requirements w).
Definition node_feasible (w : WorkloadSpec) (n : NodeInfo) : bool :=
  schedulable (ni_connection_state n) && routing_ok w n
  && fits_within (minimum_of w) (ni_allocatable n).

Definition has_capability (e : EnginePlacementInfo) (required : string) : bool :=
  existsb (λ item, bool_decide (item = required)) (ep_capabilities e).
Definition required_of (w : WorkloadSpec) : list string :=
  cr_required_capabilities (ws_capability_requirements w).
Definition device_ok (w : WorkloadSpec) (d : DevicePlacementInfo) : bool :=
  match dr_allowed_device_types (ws_device_requirements w) with
  | [] => true
  | ts => existsb (λ dt, bool_decide (to_lowercase (device_type_debug dt)
                                      = to_lowercase (dp_device_type d))) ts
  end.
Definition pair_feasible (w : WorkloadSpec) (d : DevicePlacementInfo) (e : EnginePlacementInfo) :
    bool :=
  ep_healthy e && forallb (has_capability e) (required_of w) && device_ok w d
  && negb (dp_free_vram d <? device_memory_bytes (minimum_of w)).

Definition matching_model (w : WorkloadSpec) (e : EnginePlacementInfo) : option string :=
  snd <$> list_find
    (λ m, existsb (λ f, contains f m) (mr_allowed_model_families (ws_model_requirements w)) = true)
    (ep_loaded_models e).

(** The candidate built for a node, a device and an engine. *)
Definition candidate_of (w : WorkloadSpec) (n : NodeInfo) (d : DevicePlacementInfo)
    (e : EnginePlacementInfo) : SchedulerCandidate :=
  let m := matching_model w e in
  let a := ni_allocatable n in
  mkCandidate (ni_node_id n) (dp_device_id d) (ep_engine_id e) (default "" m)
    (mkRV (cpu_cores_millis a) 0 (ram_bytes a) 0 (dp_free_vram d) (kv_cache_bytes a)
       0 0 0 0 0 0 0)
    (minimum_of w)
    (if decide (dp_device_type d = "cpu") then 2000 else 200)
    (ep_estimated_tps e)
    (if ni_is_local n then 0 else 1000)
    (match m with Some _ => f64_lit 9 10 | None => f64_lit 7 10 end)
    (ep_kv_cache_hit_rate e)
    (f64_div (f64_of_Z (ep_active_requests e)) (f64_of_Z (Z.max (ep_max_batch_size e) 1)))
    (dp_utilization d).

(** The nested loops of [PlacementScheduler::place]. *)
Definition node_candidates (w : WorkloadSpec) (n : NodeInfo) : list SchedulerCandidate :=
  if node_feasible w n then
    d ← ni_devices n; e ← ni_engines n;
    if pair_feasible w d e then [candidate_of w n d e] else []
  else [].
Definition placement_candidates (w : WorkloadSpec) (nodes : list NodeInfo) :
    list SchedulerCandidate := nodes ≫= node_candidates w.

Definition completion_estimate (c : SchedulerCandidate) (e : EnginePlacementInfo) :
    ExpectedCompletionTime :=
  let queue_delay := sat_mul64 (ep_queue_depth e) (ep_estimated_execution_ms e) in
  let model_load :=
    if decide (sc_model_revision c ∈ ep_loaded_models e) then 0 else ep_model_load_ms e in
  mkExpected queue_delay model_load (ep_state_transfer_ms e) (ep_estimated_execution_ms e)
    (sat_add64 (sat_add64 (sat_add64 queue_delay model_load) (ep_state_transfer_ms e))
       (ep_estimated_execution_ms e)).

(** The engine looked up again by the identifiers of the selected candidate. *)
Definition find_engine (nodes : list NodeInfo) (c : SchedulerCandidate) :
    option EnginePlacementInfo :=
  '(_, n) ← list_find (λ n, ni_node_id n = sc_node_id c) nodes;
  snd <$> list_find (λ e, ep_engine_id e = sc_engine_id c) (ni_engines n).

Definition decision_of (nodes : list NodeInfo) (d : ScheduleDecision) (c : SchedulerCandidate) :
    PlacementDecision :=
  let expected := default (mkExpected 0 0 0 0 u64_max)
                    (completion_estimate c <$> find_engine nodes c) in
  mkPlacement (sc_node_id c) (sc_device_id c) (sc_engine_id c) (sc_model_revision c) 1 1
    (if f64_ltb (f64_lit 5 10) (sc_kv_cache_hit_rate c) then KV_Shared else KV_Local)
    (sc_resources_required c) (ec_total_ms expected) expected
    ("Selected " +:+ sc_engine_id c +:+ " on " +:+ sc_device_id c +:+ " (score: "
     +:+ fmt_debug_score (sd_score_breakdown d !! sc_node_id c) +:+ ", kv_hit: "
     +:+ fmt_two_digits (sc_kv_cache_hit_rate c) +:+ ", load: "
     +:+ fmt_two_digits (sc_engine_load c) +:+ ")").

(** [PlacementScheduler::place]. *)
Definition place (policy : SchedulerPolicy) (w : WorkloadSpec) (nodes : list NodeInfo) :
    option PlacementDecision :=
  let d := sp_select policy w (placement_candidates w nodes) in
  decision_of nodes d <$> sd_selected d.
End Place.

(** ** The scheduler core *)

Inductive SchedulerPolicySet : Type := Deterministic | StateAware | Adaptive.
#[global] Instance SchedulerPolicySet_eq_dec : EqDecision SchedulerPolicySet.
Proof. solve_decision. Defined.

Record SchedulerCoreConfig : Type := mkSchedulerConfig {
  policy_set : SchedulerPolicySet;
  learning_authorized : bool
}.
Definition SchedulerCoreConfig_default : SchedulerCoreConfig :=
  mkSchedulerConfig Deterministic false.

(** [SchedulerCore::effective_policy_set]. *)
Definition effective_policy_set (c : SchedulerCoreConfig) : SchedulerPolicySet :=
  if bool_decide (policy_set c = Adaptive) && negb (learning_authorized c)
  then Deterministic else policy_set c.

Definition policy_set_debug (s : SchedulerPolicySet) : string :=
  match s with
  | Deterministic => "Deterministic" | StateAware => "StateAware" | Adaptive => "Adaptive"
  end.

Record CandidateRejection : Type := mkRejection { rej_candidate : string; rej_reason : string }.

Record DecisionTrace : Type := mkTrace {
  dt_policy : string;
  dt_candidates : list string;
  dt_rejections : list CandidateRejection;
  dt_selected : option string;
  dt_selected_provider : option string;
  dt_selected_model : option string;
  dt_fallback_candidate : option string;
  dt_capability_match : string;
  dt_reason : string;
  dt_expected_completion_ms : option Z;
  dt_expected_completion : option ExpectedCompletionTime;
  dt_resource_snapshot : ResourceVector
}.

Section Core.
Context `{TextPlatform} `{FloatPlatform}.

Definition policy_of (s : SchedulerPolicySet) : SchedulerPolicy :=
  match s with
  | Deterministic => weighted_sum_policy SchedulingWeights_default
  | StateAware => critical_path_policy
  | Adaptive => bandit_policy bandit_default
  end.

(** [SchedulerCore::place]. *)
Definition core_place (c : SchedulerCoreConfig) (w : WorkloadSpec) (nodes : list NodeInfo) :
    option PlacementDecision := place (policy_of (effective_policy_set c)) w nodes.

(** The rejection reason [place_with_trace] gives a node, if any. *)
Definition rejection_reason (w : WorkloadSpec) (n : NodeInfo) : option string :=
  if negb (schedulable (ni_connection_state n))
  then Some (to_lowercase ("node is " +:+ connection_debug (ni_connection_state n)))
  else if negb (routing_ok w n) then Some "privacy requires local execution"
  else if decide (ni_devices n = []) then Some "no device is available"
  else if decide (ni_engines n = []) then Some "no provider engine is available"
  else if forallb (λ e, negb (ep_healthy e)) (ni_engines n)
  then Some "all provider engines are unhealthy"
  else if negb (forallb (λ required,
                  existsb (λ e, ep_healthy e && has_capability e required) (ni_engines n))
                (required_of w))
  then Some "required provider capability is unavailable"
  else if negb (fits_within (minimum_of w) (ni_allocatable n))
  then Some "minimum resources exceed allocatable resources"
  else None.

(** [SchedulerCore::place_with_trace]. *)
Definition place_with_trace (c : SchedulerCoreConfig) (w : WorkloadSpec) (nodes : list NodeInfo) :
    option PlacementDecision * DecisionTrace :=
  let decision := core_place c w nodes in
  let candidates := omap (λ n, match rejection_reason w n with
                               | Some _ => None | None => Some (ni_node_id n) end) nodes in
  let rejections := omap (λ n, mkRejection (ni_node_id n) <$> rejection_reason w n) nodes in
  let selected := pd_node_id <$> decision in
  (decision,
   mkTrace (policy_set_debug (effective_policy_set c)) candidates rejections selected
     (pd_engine_id <$> decision) (pd_model_revision <$> decision)
     (snd <$> list_find (λ x, Some x ≠ selected) candidates)
     (match decision with
      | Some _ => "all hard capability constraints satisfied"
      | None => "no candidate satisfied every hard capability constraint"
      end)
     (default "no feasible candidate passed hard constraints" (pd_reasoning <$> decision))
     (pd_expected_completion_ms <$> decision) (pd_expected_completion <$> decision)
     (default rv_zero
        (d ← decision; '(_, n) ← list_find (λ n, ni_node_id n = pd_node_id d) nodes;
         Some (ni_allocatable n)))).
End Core.

(** ** What placement guarantees *)

Section PlaceFacts.
Context `{TextPlatform} `{FloatPlatform}.

(** The hard constraints of a workload on the place it runs. *)
Record hard_constraints (w : WorkloadSpec) (n : NodeInfo) (d : DevicePlacementInfo)
    (e : EnginePlacementInfo) : Prop := {
  hc_reachable : ni_connection_state n = Connected ∨ ni_connection_state n = NodeDegraded;
  hc_local : mr_routing (ws_model_requirements w) = Route_LocalOnly → ni_is_local n = true;
  hc_fits : rv_le (minimum_of w) (ni_allocatable n);
  hc_healthy : ep_healthy e = true;
  hc_capable : ∀ cap, cap ∈ required_of w → cap ∈ ep_capabilities e;
  hc_device : ∀ ts, dr_allowed_device_types (ws_device_requirements w) = ts → ts ≠ [] →
    ∃ t, t ∈ ts ∧ to_lowercase (device_type_debug t) = to_lowercase (dp_device_type d);
  hc_vram : device_memory_bytes (minimum_of w) ≤ dp_free_vram d
}.

Lemma has_capability_spec e cap : has_capability e cap = true ↔ cap ∈ ep_capabilities e.
Proof.
  unfold has_capability. rewrite existsb_elem. setoid_rewrite bool_decide_eq_true.
  split; [by intros (x & ? & ->)|eauto].
Qed.

Lemma schedulable_spec s : schedulable s = true ↔ s = Connected ∨ s = NodeDegraded.
Proof. destruct s; naive_solver. Qed.

Lemma routing_ok_spec w n :
  routing_ok w n = true ↔
  (mr_routing (ws_model_requirements w) = Route_LocalOnly → ni_is_local n = true).
Proof.
  unfold routing_ok. rewrite negb_true_iff, andb_false_iff, bool_decide_eq_false, negb_false_iff.
  destruct (decide (mr_routing (ws_model_requirements w) = Route_LocalOnly)); naive_solver.
Qed.

Lemma device_ok_spec w d :
  device_ok w d = true ↔
  (∀ ts, dr_allowed_device_types (ws_device_requirements w) = ts → ts ≠ [] →
    ∃ t, t ∈ ts ∧ to_lowercase (device_type_debug t) = to_lowercase (dp_device_type d)).
Proof.
  unfold device_ok. destruct (dr_allowed_device_types _) as [|t0 ts] eqn:E; [naive_solver|].
  rewrite existsb_elem. setoid_rewrite bool_decide_eq_true. naive_solver.
Qed.

(** The code's tests decide the constraints. *)
Lemma feasible_spec w n d e :
  node_feasible w n && pair_feasible w d e = true ↔ hard_constraints w n d e.
Proof.
  unfold node_feasible, pair_feasible.
  rewrite !andb_true_iff, schedulable_spec, routing_ok_spec, fits_within_spec, forallb_elem,
    device_ok_spec, negb_true_iff, Z.ltb_ge.
  setoid_rewrite has_capability_spec. split.
  - intros (((? & ?) & ?) & ((? & ?) & ?) & ?). by split.
  - by intros [].
Qed.

Lemma elem_of_placement_candidates w nodes c :
  c ∈ placement_candidates w nodes ↔
  ∃ n d e, n ∈ nodes ∧ d ∈ ni_devices n ∧ e ∈ ni_engines n ∧
    hard_constraints w n d e ∧ c = candidate_of w n d e.
Proof.
  unfold placement_candidates, node_candidates. rewrite list_elem_of_bind.
  setoid_rewrite <-feasible_spec. split.
  - intros (n & Hc & Hn). destruct (node_feasible w n) eqn:Hf; [|set_solver].
    apply list_elem_of_bind in Hc as (d & (e & Hc & He)%list_elem_of_bind & Hd).
    destruct (pair_feasible w d e) eqn:Hp; [|set_solver].
    apply list_elem_of_singleton in Hc. exists n, d, e.
    split_and!; try done. by rewrite Hf, Hp.
  - intros (n & d & e & Hn & Hd & He & [Hf Hp]%andb_true_iff & ->).
    exists n. split; [|done]. rewrite Hf. apply list_elem_of_bind. exists d. split; [|done].
    apply list_elem_of_bind. exists e. split; [|done]. rewrite Hp. set_solver.
Qed.

#[local] Instance policy_of_selects s : SelectsCandidate (policy_of s).
Proof. destruct s; apply _. Qed.

Lemma place_Some p w nodes d `{!SelectsCandidate p} :
  place p w nodes = Some d →
  ∃ n dev e, n ∈ nodes ∧ dev ∈ ni_devices n ∧ e ∈ ni_engines n ∧ hard_constraints w n dev e ∧
    pd_node_id d = ni_node_id n ∧ pd_device_id d = dp_device_id dev ∧
    pd_engine_id d = ep_engine_id e ∧ pd_resources_reserved d = minimum_of w.
Proof.
  unfold place. intros (c & Hs & ->)%fmap_Some. apply select_member in Hs.
  apply elem_of_placement_candidates in Hs as (n & dev & e & ? & ? & ? & ? & ->).
  by exists n, dev, e.
Qed.

Lemma place_None c w nodes :
  core_place c w nodes = None →
  ∀ x, x ∈ placement_candidates w nodes →
    effective_policy_set c = Deterministic ∧
    f64_ltb f64_NEG_INFINITY (weighted_score SchedulingWeights_default w x) = false.
Proof.
  unfold core_place, place. rewrite fmap_None.
  destruct (effective_policy_set c); simpl; intros Hs x Hx.
  - apply weighted_select_none in Hs. rewrite Forall_forall in Hs. auto.
  - apply sort_by_nil in Hs. rewrite Hs in Hx. set_solver.
  - apply sort_by_nil in Hs. rewrite Hs in Hx. set_solver.
Qed.

(** C22: Placement is sound and complete. A workload is only ever placed on a
    reachable node (a local one if it must stay local) whose allocatable
    resources cover its minimum, on a device of an allowed type with enough free
    memory and a healthy engine with every required capability, and exactly its
    minimum is reserved. Placement fails only if no node, device and engine
    satisfy these constraints, or, under the deterministic policy, if every such
    place has a score that is not a number above minus infinity. *)
Theorem placement_sound_complete c w nodes :
  (∀ d, core_place c w nodes = Some d →
     ∃ n dev e, n ∈ nodes ∧ dev ∈ ni_devices n ∧ e ∈ ni_engines n ∧
       hard_constraints w n dev e ∧
       pd_node_id d = ni_node_id n ∧ pd_device_id d = dp_device_id dev ∧
       pd_engine_id d = ep_engine_id e ∧ pd_resources_reserved d = minimum_of w) ∧
  (core_place c w nodes = None →
     ∀ n dev e, n ∈ nodes → dev ∈ ni_devices n → e ∈ ni_engines n →
       hard_constraints w n dev e →
       effective_policy_set c = Deterministic ∧
       f64_ltb f64_NEG_INFINITY
         (weighted_score SchedulingWeights_default w (candidate_of w n dev e)) = false).
Proof.
  split; [intros d; by apply place_Some, _|].
  intros Hn n dev e ? ? ? ?. apply (place_None c w nodes Hn).
  apply elem_of_placement_candidates. by exists n, dev, e.
Qed.

(** ** The trace *)

(** A node the trace rejects offers no place. *)
Lemma rejected_infeasible w n r d e :
  rejection_reason w n = Some r → d ∈ ni_devices n → e ∈ ni_engines n →
  ¬ hard_constraints w n d e.
Proof.
  unfold rejection_reason. intros Hr Hd He [Hs Hl Hf Hh Hc _ _].
  rewrite (proj2 (schedulable_spec _) Hs), (proj2 (routing_ok_spec w n) Hl) in Hr. simpl in Hr.
  destruct (decide (ni_devices n = [])) as [E|]; [rewrite E in Hd; set_solver|].
  destruct (decide (ni_engines n = [])) as [E|]; [rewrite E in He; set_solver|].
  destruct (forallb (λ e, negb (ep_healthy e)) (ni_engines n)) eqn:E1.
  { rewrite forallb_elem in E1. apply E1 in He. by rewrite Hh in He. }
  destruct (forallb _ (required_of w)) eqn:E2; simpl in Hr.
  - by rewrite (proj2 (fits_within_spec _ _) Hf) in Hr.
  - apply not_true_iff_false in E2. apply E2, forallb_elem. intros cap Hcap.
    apply existsb_elem. exists e. split; [done|]. rewrite Hh. by apply has_capability_spec, Hc.
Qed.

(** The decision trace is honest. Every node appears in it exactly once, as a
    candidate or with a reason; a node given a reason offers no place for the
    workload; the node selected is among the candidates; the fallback named is
    another candidate; and without candidates there is no decision. *)
Theorem decision_trace_honest c w nodes d t :
  place_with_trace c w nodes = (d, t) →
  d = core_place c w nodes ∧
  (dt_candidates t ++ (rej_candidate <$> dt_rejections t) ≡ₚ ni_node_id <$> nodes) ∧
  (∀ r, r ∈ dt_rejections t →
     ∃ n, n ∈ nodes ∧ rej_candidate r = ni_node_id n ∧ placement_candidates w [n] = []) ∧
  dt_selected t = pd_node_id <$> d ∧
  (∀ p, d = Some p → pd_node_id p ∈ dt_candidates t) ∧
  (∀ f, dt_fallback_candidate t = Some f → f ∈ dt_candidates t ∧ dt_selected t ≠ Some f) ∧
  (dt_candidates t = [] → d = None).
Proof.
  unfold place_with_trace. intros [= <- <-]. simpl.
  set (cand := omap _ nodes).
  assert (∀ p, core_place c w nodes = Some p → pd_node_id p ∈ cand) as Hsel.
  { intros p (n & dev & e & Hn & Hdev & He & Hh & -> & _)%place_Some; [|apply _].
    apply list_elem_of_omap. exists n. split; [done|].
    destruct (rejection_reason w n) as [r|] eqn:Hr; [|done].
    by destruct (rejected_infeasible w n r dev e). }
  split_and!; [done| | |done|exact Hsel| |].
  - unfold cand. clear. induction nodes as [|n nodes IH]; [done|]. simpl.
    destruct (rejection_reason w n); simpl; rewrite <-IH; [|done].
    by rewrite Permutation_middle.
  - intros r (n & Hn & Hr)%list_elem_of_omap. exists n.
    apply fmap_Some in Hr as (x & Hr & ->). split_and!; [done|done|].
    destruct (placement_candidates w [n]) as [|y l] eqn:E; [done|].
    assert (y ∈ placement_candidates w [n]) as Hy by (rewrite E; set_solver).
    apply elem_of_placement_candidates in Hy as (n' & dev & e & Hn' & ? & ? & Hh & _).
    apply list_elem_of_singleton in Hn' as ->. by destruct (rejected_infeasible w n x dev e).
  - intros f Hf. apply fmap_Some in Hf as ([i f'] & Hf & ->). simpl.
    apply list_find_Some in Hf as (Hi & Hne & _). split; [|congruence].
    by eapply list_elem_of_lookup_2.
  - intros Hnil. destruct (core_place c w nodes) as [p|] eqn:E; [|done].
    specialize (Hsel p eq_refl). rewrite Hnil in Hsel. set_solver.
Qed.

(** Without authorization to learn, the adaptive set places as the
    deterministic one does. *)
Lemma unauthorized_adaptive_deterministic w nodes :
  core_place (mkSchedulerConfig Adaptive false) w nodes =
  core_place SchedulerCoreConfig_default w nodes.
Proof. done. Qed.
End PlaceFacts.

(** ** Connectivity *)

(** What happens to an advertisement between two heartbeats. *)
Inductive SilentEvent : Type := Evaluate (now : Z) | Disconnect | BeginReconnect.

Definition silent_step (n : NodeAdvertisement) (ev : SilentEvent) : NodeAdvertisement :=
  match ev with
  | Evaluate now => evaluate_health now n
  | Disconnect => node_disconnect n
  | BeginReconnect => begin_reconnect n
  end.

Definition node_ok (n : NodeAdvertisement) : Prop :=
  1 ≤ na_heartbeat_timeout_us n ≤ i64_max.

(** An evaluation later than twice the timeout after the last heartbeat. *)
Definition late (n : NodeAdvertisement) (ev : SilentEvent) : Prop :=
  match ev with
  | Evaluate now =>
      sat_i64 (na_heartbeat_timeout_us n * 2) < sat_i64 (now - na_last_heartbeat_us n)
  | _ => False
  end.
#[local] Instance late_dec n ev : Decision (late n ev).
Proof. destruct ev; simpl; apply _. Defined.

(** How far a node is from being taken out of scheduling. *)
Definition remaining (s : NodeConnectionState) : nat :=
  match s with Connected => 2 | NodeDegraded => 1 | Offline | Reconnecting => 0 end.

Lemma silent_step_frame n ev :
  na_heartbeat_timeout_us (silent_step n ev) = na_heartbeat_timeout_us n ∧
  na_last_heartbeat_us (silent_step n ev) = na_last_heartbeat_us n.
Proof. destruct ev; try done. simpl. unfold evaluate_health. by repeat case_decide. Qed.

Lemma silent_step_remaining n ev :
  node_ok n →
  (remaining (na_state (silent_step n ev)) ≤ remaining (na_state n))%nat ∧
  (late n ev → remaining (na_state (silent_step n ev)) ≤ pred (remaining (na_state n)))%nat.
Proof.
  unfold node_ok. intros Hok. destruct ev as [now| |]; simpl; [|lia..].
  unfold evaluate_health.
  assert (na_heartbeat_timeout_us n ≤ sat_i64 (na_heartbeat_timeout_us n * 2)) as Hle.
  { unfold sat_i64, i64_max, i64_min in *. lia. }
  destruct (na_state n) eqn:Hs; repeat case_decide; simpl; rewrite ?Hs; simpl;
    split; try lia; intros; exfalso; naive_solver lia.
Qed.

Lemma silent_steps_remaining es n :
  node_ok n →
  (remaining (na_state (foldl silent_step n es)) + length (filter (late n) es)
     ≤ remaining (na_state n))%nat ∨ remaining (na_state (foldl silent_step n es)) = 0%nat.
Proof.
  revert n. induction es as [|ev es IH]; intros n Hok; [left; simpl; lia|]. simpl.
  destruct (silent_step_frame n ev) as [Ht Hl].
  destruct (silent_step_remaining n ev Hok) as [Hle Hlate].
  assert (filter (late (silent_step n ev)) es = filter (late n) es) as Hf.
  { apply list_filter_iff. intros [now| |]; simpl; [|done..]. by rewrite Ht, Hl. }
  assert (node_ok (silent_step n ev)) as Hok' by (unfold node_ok; by rewrite Ht).
  destruct (IH _ Hok') as [IH'|?]; [|by right]. rewrite Hf in IH'.
  destruct (decide (late n ev)) as [Hl'|Hl'].
  - rewrite filter_cons_True by done. simpl. specialize (Hlate Hl').
    destruct (decide (remaining (na_state n) = 0%nat)); [right; lia|left; lia].
  - rewrite filter_cons_False by done. left. lia.
Qed.

(** A silent node leaves scheduling and stays out. Without a heartbeat, a node
    that is not schedulable never becomes so again, whatever else happens; and
    two evaluations made later than twice the timeout after the last heartbeat
    take any node out of scheduling. *)
Theorem silent_node_leaves_scheduling n es :
  node_ok n →
  (schedulable (na_state n) = false →
     schedulable (na_state (foldl silent_step n es)) = false) ∧
  ((2 ≤ length (filter (late n) es))%nat →
     schedulable (na_state (foldl silent_step n es)) = false).
Proof.
  intros Hok. pose proof (silent_steps_remaining es n Hok) as Hr.
  assert (∀ s, schedulable s = false ↔ remaining s = 0%nat) as Hs by (intros []; done).
  rewrite !Hs. split; [lia|]. intros Hlen.
  assert (remaining (na_state n) ≤ 2)%nat by (destruct (na_state n); simpl; lia). lia.
Qed.

Lemma silent_node_leaves_scheduling_witness :
  let n := node_connect "edge-1" ["vision"] 100 10 in
  schedulable (na_state (foldl silent_step n [Evaluate 150; Evaluate 151])) = false.
Proof.
  intros n. apply (silent_node_leaves_scheduling n [Evaluate 150; Evaluate 151]);
    [by compute|by vm_compute].
Defined.

(** One evaluation, however late, is not enough. *)
Example one_late_evaluation_keeps_node now :
  100 + 10 < now ≤ i64_max →
  schedulable (na_state (evaluate_health now (node_connect "edge-1" [] 100 10))) = true.
Proof.
  intros Hn. unfold evaluate_health. rewrite decide_True; [done|].
  split; [done|]. unfold node_connect, sat_i64, i64_max, i64_min in *. simpl. lia.
Qed.

(** ** A concrete placement *)

Definition ex_text : TextPlatform :=
  {| fmt_debug_score := λ _, ""; fmt_two_digits := λ _, ""; to_lowercase := to_ascii_lowercase |}.

Definition ex_engine (id : string) (caps : list string) : EnginePlacementInfo :=
  mkEngine id "vLLM" ["test-model"] 2 32 true caps true 2 500 20 100 (f64_of_Z 60) (f64_of_Z 0).
Definition ex_device : DevicePlacementInfo :=
  mkDevice "gpu0" "cuda" "NVIDIA" 16000 12000 (f64_lit 3 10) (f64_of_Z 65) false.
Definition ex_node (id : string) (es : list EnginePlacementInfo) : NodeInfo :=
  mkNode id "host" "x86_64" "linux" rv_zero rv_zero [ex_device] es 100 true Connected.
Definition ex_workload (caps : list string) : WorkloadSpec := {|
  ws_workload_id := "w"; ws_idempotency_key := ""; ws_schema_version := 1;
  ws_principal_id := ""; ws_namespace := ""; ws_goal := "";
  ws_workload_type := WT_Chat;
  ws_execution_graph := ExecutionGraph_default;
  ws_model_requirements := ModelRequirements_default;
  ws_capability_requirements := mkCapabilityRequirements caps [] "";
  ws_device_requirements := mkDeviceRequirements [Dev_Cuda] 0 false [];
  ws_quality_requirements := QualityRequirements_default;
  ws_security_requirements := SecurityRequirements_default;
  ws_resource_requirements := ResourceRequirements_default;
  ws_scheduling_class := SC_Interactive;
  ws_latency_slo := mkLatencySLO 0 0 0 0;
  ws_deadline_us := 0;
  ws_energy_budget := mkEnergyBudget 0 false;
  ws_cost_budget := mkCostBudget 0 "" CM_PerToken;
  ws_checkpoint_policy := CheckpointPolicy_default;
  ws_cancellation_policy := CancellationPolicy_default;
  ws_retry_policy := RetryPolicy_default;
  ws_fallback_policy := mkFallbackPolicy false [];
  ws_output_contract := OutputContract_default
|}.

Definition ex_nodes : list NodeInfo :=
  [ex_node "a" [ex_engine "chat" ["chat"]; ex_engine "tools" ["tools"]];
   ex_node "b" [ex_engine "both" ["chat"; "tools"]]; ex_node "c" []].

Lemma decision_trace_honest_witness :
  let '(d, t) := @place_with_trace ex_text ex_platform SchedulerCoreConfig_default
                   (ex_workload ["chat"; "tools"]) ex_nodes in
  dt_selected t = Some "b" ∧ dt_fallback_candidate t = Some "a" ∧
  length (dt_candidates t ++ (rej_candidate <$> dt_rejections t)) = 3%nat ∧
  dt_selected t = pd_node_id <$> d.
Proof.
  destruct (@place_with_trace _ _ _ _ _) as [d t] eqn:E.
  pose proof (@decision_trace_honest ex_text ex_platform _ _ _ d t E) as (_ & Hp & _ & Hs & _).
  split_and!; [| |by rewrite Hp|exact Hs].
  - assert (t = (@place_with_trace ex_text ex_platform SchedulerCoreConfig_default
              (ex_workload ["chat"; "tools"]) ex_nodes).2) as -> by by rewrite E.
    by vm_compute.
  - assert (t = (@place_with_trace ex_text ex_platform SchedulerCoreConfig_default
              (ex_workload ["chat"; "tools"]) ex_nodes).2) as -> by by rewrite E.
    by vm_compute.
Defined.

(** A node whose engines only together have the required capabilities is listed
    as a candidate, and named as the fallback, although nothing can be placed on
    it. *)
Example fallback_without_place :
  let '(d, t) := @place_with_trace ex_text ex_platform SchedulerCoreConfig_default
                   (ex_workload ["chat"; "tools"])
                   [ex_node "a" [ex_engine "chat" ["chat"]; ex_engine "tools" ["tools"]]] in
  d = None ∧ dt_candidates t = ["a"] ∧ dt_rejections t = [] ∧ dt_fallback_candidate t = Some "a".
Proof. by vm_compute. Qed.
