(* ===== verification/Program.v ===== *)
(** * Program scheduling

    [crates/nous-scheduler/src/program.rs]: which process advances next (the five
    policies, the registry, the scheduler with its history and the candidate
    builder); [SchedulerCore::schedule_processes] of [core.rs]; and
    [crates/nous-scheduler/src/phase.rs]: where the phases of an inference run.
    [None] stands for a panic of the sort. *)

From S2P Require Import Prelude Errors Float64 Placement.
From Corelib Require Import SpecFloat.
Local Open Scope Z_scope.

(** ** Sorting by an inconsistent comparison

    [sort_by] is determined when the comparison is a total preorder on the
    slice. Otherwise the library promises only that it panics or leaves the
    elements in some order. *)

Definition consistent {A} (cmp : A → A → comparison) (l : list A) : bool :=
  forallb (λ a, forallb (λ b,
    bool_decide (cmp b a = CompOpp (cmp a b)) &&
    forallb (λ c, bool_decide (cmp a b ≠ Gt → cmp b c ≠ Gt → cmp a c ≠ Gt)) l) l) l.

Class SortPlatform : Type := {
  sort_inconsistent : ∀ {A}, (A → A → comparison) → list A → option (list A);
  sort_inconsistent_perm : ∀ {A} cmp (l l' : list A),
    sort_inconsistent cmp l = Some l' → l' ≡ₚ l
}.

Definition slice_sort_by `{SortPlatform} {A} (cmp : A → A → comparison) (l : list A) :
    option (list A) :=
  if consistent cmp l then Some (sort_by cmp l) else sort_inconsistent cmp l.

(** ** Candidates *)

Inductive ProcessSchedulingStatus : Type :=
| PSS_Runnable | PSS_Blocked | PSS_Suspended | PSS_Running | PSS_Other.
#[global] Instance ProcessSchedulingStatus_eq_dec : EqDecision ProcessSchedulingStatus.
Proof. solve_decision. Defined.

Record ProcessCandidate : Type := mkProcess {
  pr_process_id : string;
  pr_status : ProcessSchedulingStatus;
  pr_critical_path_importance : f64;
  pr_unlocked_work_ratio : f64;
  pr_slo_breach_risk : f64;
  pr_warm_state_benefit : f64;
  pr_estimated_remaining_time_ms : Z;
  pr_resource_cost : f64;
  pr_prediction_uncertainty : f64;
  pr_priority_score : f64;
  pr_is_runnable : bool;
  pr_blocked_reason : option string;
  pr_waiting_children : Z;
  pr_budget_remaining_ratio : f64
}.

Definition with_score (s : f64) (c : ProcessCandidate) : ProcessCandidate :=
  mkProcess (pr_process_id c) (pr_status c) (pr_critical_path_importance c)
    (pr_unlocked_work_ratio c) (pr_slo_breach_risk c) (pr_warm_state_benefit c)
    (pr_estimated_remaining_time_ms c) (pr_resource_cost c) (pr_prediction_uncertainty c) s
    (pr_is_runnable c) (pr_blocked_reason c) (pr_waiting_children c) (pr_budget_remaining_ratio c).

Record ProcessSchedulingInfo : Type := mkProcessInfo {
  pi_process_id : string;
  pi_status : ProcessSchedulingStatus;
  pi_critical_path_importance : f64;
  pi_unlocked_work_ratio : f64;
  pi_slo_breach_risk : f64;
  pi_context_residency_ratio : f64;
  pi_estimated_remaining_time_ms : Z;
  pi_normalized_resource_cost : f64;
  pi_prediction_uncertainty : f64;
  pi_blocked_reason : option string;
  pi_waiting_children : Z;
  pi_budget_remaining_ratio : f64
}.

(** [build_candidates]. *)
Definition build_candidate (i : ProcessSchedulingInfo) : ProcessCandidate :=
  mkProcess (pi_process_id i) (pi_status i) (pi_critical_path_importance i)
    (pi_unlocked_work_ratio i) (pi_slo_breach_risk i) (pi_context_residency_ratio i)
    (pi_estimated_remaining_time_ms i) (pi_normalized_resource_cost i)
    (pi_prediction_uncertainty i) (f64_of_Z 0) (bool_decide (pi_status i = PSS_Runnable))
    (pi_blocked_reason i) (pi_waiting_children i) (pi_budget_remaining_ratio i).
Definition build_candidates (l : list ProcessSchedulingInfo) : list ProcessCandidate :=
  build_candidate <$> l.

Record ProgramScheduleDecision : Type := mkProgramDecision {
  gd_selected : option ProcessCandidate;
  gd_candidates : list ProcessCandidate;
  gd_runnable_count : nat;
  gd_blocked_by_resource : gmap string nat;
  gd_score_breakdown : gmap string f64;
  gd_policy_name : string;
  gd_decided_at : Z
}.

(** [ProgramSchedulingPolicy]; [select] reads the clock. *)
Record ProgramSchedulingPolicy : Type := mkProgramPolicy {
  gp_name : string;
  gp_score : ProcessCandidate → f64;
  gp_select : Z → list ProcessCandidate → option ProgramScheduleDecision
}.

(** ** The policies *)

Definition runnable (cs : list ProcessCandidate) : list ProcessCandidate :=
  List.filter pr_is_runnable cs.

(** The loop that counts the blocked candidates by reason. *)
Definition count_blocked (m : gmap string nat) (c : ProcessCandidate) : gmap string nat :=
  if pr_is_runnable c then m
  else match pr_blocked_reason c with
       | Some r => <[r := S (default 0%nat (m !! r))]> m
       | None => m
       end.
Definition blocked_by_resource (cs : list ProcessCandidate) : gmap string nat :=
  foldl count_blocked ∅ cs.

(** [partial_cmp(..).unwrap_or(Ordering::Equal)], descending. *)
Definition by_score (score : ProcessCandidate → f64) (a b : ProcessCandidate) : comparison :=
  default Eq (f64_partial_cmp (score b) (score a)).

(** [ProgramFifoPolicy]. *)
Definition program_fifo_policy : ProgramSchedulingPolicy :=
  mkProgramPolicy "ProgramFIFO" (λ _, f64_of_Z 0) (λ now cs,
    Some (mkProgramDecision (head (runnable cs)) cs (length (runnable cs))
            (blocked_by_resource cs) ∅ "ProgramFIFO" now)).

(** The [select] the ranking policies share, with the breakdown of the best. *)
Definition ranked_program_select `{SortPlatform} (name : string) (score : ProcessCandidate → f64)
    (breakdown : ProcessCandidate → gmap string f64) (now : Z) (cs : list ProcessCandidate) :
    option ProgramScheduleDecision :=
  sorted ← slice_sort_by (by_score score) (runnable cs);
  Some (mkProgramDecision (head sorted) cs (length sorted) (blocked_by_resource cs)
          (default ∅ (breakdown <$> head sorted)) name now).

(** [ProgramPriorityPolicy]. *)
Definition program_priority_score (c : ProcessCandidate) : f64 :=
  f64_add (f64_mul (pr_slo_breach_risk c) (f64_lit 7 10))
    (f64_mul (f64_sub (f64_of_Z 1) (pr_budget_remaining_ratio c)) (f64_lit 3 10)).
Definition program_priority_policy `{SortPlatform} : ProgramSchedulingPolicy :=
  mkProgramPolicy "ProgramPriority" program_priority_score
    (ranked_program_select "ProgramPriority" program_priority_score (λ _, ∅)).

(** [ProgramSRTFPolicy]. *)
Definition program_srtf_score (c : ProcessCandidate) : f64 :=
  if (pr_estimated_remaining_time_ms c =? 0) then f64_MAX
  else f64_div (f64_of_Z 1)
         (f64_max (f64_of_Z (pr_estimated_remaining_time_ms c)) (f64_of_Z 1)).
Definition program_srtf_policy `{SortPlatform} : ProgramSchedulingPolicy :=
  mkProgramPolicy "ProgramSRTF" program_srtf_score
    (ranked_program_select "ProgramSRTF" program_srtf_score (λ _, ∅)).

(** [ProgramCriticalPathPolicy]. *)
Definition program_critical_score (c : ProcessCandidate) : f64 :=
  f64_add (f64_add (f64_mul (pr_critical_path_importance c) (f64_lit 5 10))
    (f64_mul (pr_unlocked_work_ratio c) (f64_lit 3 10)))
    (f64_mul (pr_slo_breach_risk c) (f64_lit 2 10)).
Definition program_critical_breakdown (c : ProcessCandidate) : gmap string f64 :=
  list_to_map [("critical_path", pr_critical_path_importance c);
               ("unlocked_work", pr_unlocked_work_ratio c);
               ("slo_risk", pr_slo_breach_risk c); ("warm_state", pr_warm_state_benefit c)].
Definition program_critical_policy `{SortPlatform} : ProgramSchedulingPolicy :=
  mkProgramPolicy "ProgramCriticalPath" program_critical_score
    (ranked_program_select "ProgramCriticalPath" program_critical_score
       program_critical_breakdown).

(** [StateAwarePolicy]. *)
Record StateAwareWeights : Type := mkStateAware {
  weight_critical : f64;
  weight_unlocked : f64;
  weight_slo : f64;
  weight_warm : f64
}.
Definition StateAware_default : StateAwareWeights :=
  mkStateAware (f64_of_Z 1) (f64_lit 8 10) (f64_lit 12 10) (f64_lit 6 10).

Definition state_aware_numerator (p : StateAwareWeights) (c : ProcessCandidate) : f64 :=
  let c_ := f64_mul (pr_critical_path_importance c) (weight_critical p) in
  let u := f64_mul (pr_unlocked_work_ratio c) (weight_unlocked p) in
  let s := f64_mul (pr_slo_breach_risk c) (weight_slo p) in
  let w := f64_mul (pr_warm_state_benefit c) (weight_warm p) in
  f64_max (f64_mul (f64_mul (f64_mul c_ u) s) w) (f64_lit 1 1000).
Definition state_aware_denominator (c : ProcessCandidate) : f64 :=
  let t := f64_max (f64_of_Z (pr_estimated_remaining_time_ms c)) (f64_of_Z 1) in
  let r := f64_max (pr_resource_cost c) (f64_lit 1 1000) in
  let d := f64_max (pr_prediction_uncertainty c) (f64_of_Z 1) in
  f64_max (f64_mul (f64_mul t r) d) (f64_lit 1 1000).
Definition state_aware_score (p : StateAwareWeights) (c : ProcessCandidate) : f64 :=
  f64_div (state_aware_numerator p c) (state_aware_denominator c).

Definition state_aware_breakdown (p : StateAwareWeights) (c : ProcessCandidate) :
    gmap string f64 :=
  list_to_map
    [("priority_score", pr_priority_score c);
     ("C_critical_path", f64_mul (pr_critical_path_importance c) (weight_critical p));
     ("U_unlocked", f64_mul (pr_unlocked_work_ratio c) (weight_unlocked p));
     ("S_slo_risk", f64_mul (pr_slo_breach_risk c) (weight_slo p));
     ("W_warm_state", f64_mul (pr_warm_state_benefit c) (weight_warm p));
     ("T_time", f64_of_Z (pr_estimated_remaining_time_ms c));
     ("R_cost", pr_resource_cost c);
     ("D_uncertainty", pr_prediction_uncertainty c)].

(** Its [select] stores the scores in copies of the candidates, then sorts by
    them. *)
Definition state_aware_select `{SortPlatform} (p : StateAwareWeights) (now : Z)
    (cs : list ProcessCandidate) : option ProgramScheduleDecision :=
  let scored := (λ c, with_score (state_aware_score p c) c) <$> runnable cs in
  sorted ← slice_sort_by (by_score pr_priority_score) scored;
  Some (mkProgramDecision (head sorted) cs (length sorted) (blocked_by_resource cs)
          (default ∅ (state_aware_breakdown p <$> head sorted))
          "StateAware (Experimental P_i)" now).
Definition state_aware_policy `{SortPlatform} (p : StateAwareWeights) : ProgramSchedulingPolicy :=
  mkProgramPolicy "StateAware (Experimental P_i)" (state_aware_score p) (state_aware_select p).

(** ** The scheduler *)

Record ProgramScheduler : Type := mkProgramScheduler {
  gs_policy : ProgramSchedulingPolicy;
  gs_history : list ProgramScheduleDecision;
  gs_decisions_made : Z
}.
Definition program_scheduler_new (p : ProgramSchedulingPolicy) : ProgramScheduler :=
  mkProgramScheduler p [] 0.
Definition with_state_aware `{SortPlatform} : ProgramScheduler :=
  program_scheduler_new (state_aware_policy StateAware_default).

(** [ProgramScheduler::schedule]. *)
Definition program_schedule (now : Z) (cs : list ProcessCandidate) (s : ProgramScheduler) :
    option (ProgramScheduleDecision * ProgramScheduler) :=
  d ← gp_select (gs_policy s) now cs;
  Some (d, mkProgramScheduler (gs_policy s) (gs_history s ++ [d])
             (wrap64 (gs_decisions_made s + 1))).

(** ** The registry *)

Definition ProgramPolicyRegistry : Type := gmap string ProgramSchedulingPolicy.
Definition program_register (p : ProgramSchedulingPolicy) (r : ProgramPolicyRegistry) :
    ProgramPolicyRegistry := <[gp_name p := p]> r.
Definition program_get (r : ProgramPolicyRegistry) (name : string) :
    option ProgramSchedulingPolicy := r !! name.
Definition program_list `{HashOrder} (r : ProgramPolicyRegistry) : list string :=
  (hash_iter r).*1.

Definition program_policies `{SortPlatform} : list ProgramSchedulingPolicy :=
  [program_fifo_policy; program_priority_policy; program_srtf_policy; program_critical_policy;
   state_aware_policy StateAware_default].
Definition program_baselines `{SortPlatform} : ProgramPolicyRegistry :=
  foldl (λ r p, program_register p r) ∅ program_policies.

(** [ProgramPolicyRegistry::schedule_with]. *)
Definition schedule_with (r : ProgramPolicyRegistry) (name : string) (now : Z)
    (cs : list ProcessCandidate) : option (result string ProgramScheduleDecision) :=
  match r !! name with
  | None => Some (Err ("Policy '" +:+ name +:+ "' not found"))
  | Some p => Ok <$> gp_select p now cs
  end.

(** [SchedulerCore::schedule_processes]. *)
Definition program_policy_name (c : SchedulerCoreConfig) : string :=
  match effective_policy_set c with
  | Deterministic => "FIFO"
  | StateAware | Adaptive => "StateAware"
  end.
Definition schedule_processes `{SortPlatform} (c : SchedulerCoreConfig) (now : Z)
    (cs : list ProcessCandidate) : option (result NousError ProgramScheduleDecision) :=
  r ← schedule_with program_baselines (program_policy_name c) now cs;
  Some (match r with
        | Ok d => Ok d
        | Err e => Err (nous_error Internal
            ("built-in scheduler policy '" +:+ program_policy_name c +:+ "' is unavailable: " +:+ e))
        end).

(** ** Phases *)

Inductive PhasePlacement : Type :=
| Colocated | PrefillDecodeDisaggregated | FullyDisaggregated | EncoderPrefillColocated
| PhaseAdaptive.

Record PhaseSchedulerConfig : Type := mkPhaseScheduler {
  max_prompt_len_colocated : Z;
  min_output_len_disaggregated : Z;
  kv_size_threshold_bytes : Z;
  min_network_bw_disaggregated : Z;
  adaptive_enabled : bool
}.
Definition PhaseSchedulerConfig_default : PhaseSchedulerConfig :=
  mkPhaseScheduler 4096 512 (1024 * 1024 * 1024) 10000000000 false.

(** [PhaseScheduler::decide]. *)
Definition phase_decide (c : PhaseSchedulerConfig) (prompt_length output_length kv_bytes bandwidth : Z)
    (gpu_load : f64) : PhasePlacement :=
  if (prompt_length <=? max_prompt_len_colocated c)
     && (output_length <=? min_output_len_disaggregated c) then Colocated
  else if (kv_size_threshold_bytes c <=? kv_bytes)
          && (min_network_bw_disaggregated c <=? bandwidth) then PrefillDecodeDisaggregated
  else if adaptive_enabled c && f64_ltb (f64_lit 8 10) gpu_load then PhaseAdaptive
  else Colocated.

Record PhaseLatencyEstimate : Type := mkPhaseLatency {
  ttft_ms : f64;
  tpot_ms : f64;
  transfer_overhead_ms : f64;
  total_ms : f64
}.

(** [PhaseScheduler::estimate_latency]: without and with a transfer. *)
Definition local_latency (prompt_factor : f64) (tpot : Z) (prompt output : Z) :
    PhaseLatencyEstimate :=
  let ttft := f64_mul (f64_of_Z prompt) prompt_factor in
  mkPhaseLatency ttft (f64_of_Z tpot) (f64_of_Z 0)
    (f64_add ttft (f64_mul (f64_of_Z output) (f64_of_Z tpot))).
Definition transfer_latency (prompt_factor : f64) (tpot divisor : Z) (prompt output latency_us : Z) :
    PhaseLatencyEstimate :=
  let ttft := f64_mul (f64_of_Z prompt) prompt_factor in
  let overhead := f64_div (f64_of_Z latency_us) (f64_of_Z divisor) in
  mkPhaseLatency ttft (f64_of_Z tpot) overhead
    (f64_add (f64_add ttft (f64_mul (f64_of_Z output) (f64_of_Z tpot))) overhead).
Definition estimate_latency (p : PhasePlacement) (prompt output latency_us : Z) :
    PhaseLatencyEstimate :=
  match p with
  | Colocated | PhaseAdaptive => local_latency (f64_lit 2 1000) 20 prompt output
  | PrefillDecodeDisaggregated => transfer_latency (f64_lit 15 10000) 25 1000 prompt output latency_us
  | FullyDisaggregated => transfer_latency (f64_lit 1 1000) 30 500 prompt output latency_us
  | EncoderPrefillColocated => transfer_latency (f64_lit 18 10000) 22 2000 prompt output latency_us
  end.

(** ** Sorting scores *)

(** The order of the scores, as numbers. *)
Definition by_num (score : ProcessCandidate → f64) (a b : ProcessCandidate) : comparison :=
  lex_compare (f64_num (score b)) (f64_num (score a)).

Definition numeric (score : ProcessCandidate → f64) (c : ProcessCandidate) : Prop :=
  f64_is_nan (score c) = false.

Lemma by_score_num score a b :
  numeric score a → numeric score b → by_score score a b = by_num score a b.
Proof.
  intros Ha Hb. unfold by_score, by_num.
  destruct (f64_partial_cmp (score b) (score a)) as [r|] eqn:Hc.
  - by apply f64_compare_num in Hc as (_ & _ & ->).
  - assert (f64_partial_cmp (score b) (score a)
      = Some (lex_compare (f64_num (score b)) (f64_num (score a)))) as Hs
      by by apply f64_compare_num. congruence.
Qed.

Lemma lex_compare_opp a b : lex_compare b a = CompOpp (lex_compare a b).
Proof.
  unfold lex_compare. rewrite (Z.compare_antisym a.1.1), (Z.compare_antisym a.1.2),
    (Z.compare_antisym a.2). by destruct (a.1.1 ?= b.1.1), (a.1.2 ?= b.1.2), (a.2 ?= b.2).
Qed.

Lemma sort_by_ext {A} (f g : A → A → comparison) l :
  (∀ a b, a ∈ l → b ∈ l → f a b = g a b) → sort_by f l = sort_by g l.
Proof.
  induction l as [|x l IH]; intros Hfg; [done|]. unfold sort_by. simpl.
  fold (sort_by f l) (sort_by g l). rewrite IH by (intros; apply Hfg; by right).
  assert (∀ y, y ∈ sort_by g l → f x y = g x y) as Hx.
  { intros y Hy. apply Hfg; [by left|right]. by rewrite (sort_by_perm g l) in Hy. }
  clear IH Hfg. revert Hx. induction (sort_by g l) as [|y s IHs]; intros Hx; [done|]. simpl.
  rewrite (Hx y) by by left. destruct (g x y); [done..|]. f_equal. apply IHs.
  intros z Hz. apply Hx. by right.
Qed.

Section Sorted.
Context `{SortPlatform}.

Lemma slice_sort_numeric score l :
  Forall (numeric score) l → slice_sort_by (by_score score) l = Some (sort_by (by_num score) l).
Proof.
  intros Hl. rewrite Forall_forall in Hl. unfold slice_sort_by.
  assert (consistent (by_score score) l = true) as ->.
  { unfold consistent. apply forallb_elem. intros a Ha. apply forallb_elem. intros b Hb.
    apply andb_true_iff. split.
    - apply bool_decide_eq_true. rewrite !by_score_num by auto. apply lex_compare_opp.
    - apply forallb_elem. intros c Hc. apply bool_decide_eq_true.
      rewrite !by_score_num by auto. unfold by_num. rewrite !lex_compare_le. unfold lex_le. lia. }
  f_equal. apply sort_by_ext. intros a b Ha Hb. apply by_score_num; auto.
Qed.

Lemma slice_sort_perm {A} cmp (l l' : list A) : slice_sort_by cmp l = Some l' → l' ≡ₚ l.
Proof.
  unfold slice_sort_by. destruct (consistent cmp l).
  - intros [= <-]. apply sort_by_perm.
  - apply sort_inconsistent_perm.
Qed.

Lemma sort_num_head score l c :
  head (sort_by (by_num score) l) = Some c →
  ∃ l1 l2, l = l1 ++ c :: l2 ∧ Forall (λ y, lex_le (f64_num (score y)) (f64_num (score c))) l ∧
    Forall (λ y, ¬ lex_le (f64_num (score c)) (f64_num (score y))) l1.
Proof.
  intros Hh. destruct (sort_by_head (by_num score) l c) as (l1 & l2 & Hl & Hmin & Hfst).
  - intros a. apply lex_compare_le. unfold lex_le. lia.
  - intros a b d. unfold by_num. rewrite !lex_compare_le. unfold lex_le. lia.
  - intros a b. unfold by_num. rewrite lex_compare_gt, lex_compare_le. unfold lex_le. lia.
  - done.
  - exists l1, l2. split; [done|]. split; (eapply Forall_impl; [eassumption|]); intros y Hy;
      unfold by_num in Hy; simpl in Hy; [by apply lex_compare_le|by apply lex_compare_gt].
Qed.
End Sorted.

(** ** Blocked candidates *)

Lemma blocked_by_resource_count cs reason :
  default 0%nat (blocked_by_resource cs !! reason)
  = length (filter (λ c, pr_is_runnable c = false ∧ pr_blocked_reason c = Some reason) cs).
Proof.
  unfold blocked_by_resource. induction cs as [|c cs IH] using rev_ind; [done|].
  rewrite foldl_snoc, filter_app, length_app. unfold count_blocked at 1.
  rewrite (list.filter_cons _ c []).
  destruct (pr_is_runnable c).
  { rewrite IH, decide_False by naive_solver. simpl. lia. }
  destruct (pr_blocked_reason c) as [r|].
  2:{ rewrite IH, decide_False by naive_solver. simpl. lia. }
  destruct (decide (r = reason)) as [->|Hr].
  - rewrite lookup_insert_eq, decide_True by done. simpl. lia.
  - rewrite lookup_insert_ne, decide_False by naive_solver. simpl. lia.
Qed.

(** ** What every policy promises *)

Section Policies.
Context `{SortPlatform}.

Lemma runnable_split cs l1 c l2 :
  runnable cs = l1 ++ c :: l2 →
  ∃ k1 k2, cs = k1 ++ c :: k2 ∧ pr_is_runnable c = true ∧ runnable k1 = l1.
Proof.
  revert l1. induction cs as [|a cs IH]; intros l1 Hr; [by destruct l1|].
  unfold runnable in *. simpl in Hr. destruct (pr_is_runnable a) eqn:Ha.
  - destruct l1 as [|b l1]; injection Hr as Hb Hr; subst.
    + by exists [], cs.
    + destruct (IH l1 Hr) as (k1 & k2 & -> & Hc & <-). exists (b :: k1), k2.
      split_and!; [done|done|]. simpl. by rewrite Ha.
  - destruct (IH l1 Hr) as (k1 & k2 & -> & Hc & Hl). exists (a :: k1), k2.
    split_and!; [done|done|]. simpl. by rewrite Ha.
Qed.

Lemma runnable_elem cs c : c ∈ runnable cs ↔ c ∈ cs ∧ pr_is_runnable c = true.
Proof.
  unfold runnable. rewrite !list_elem_of_In, List.filter_In. done.
Qed.

(** The decision a policy with scores [score] should take. *)
Definition best_runnable (score : ProcessCandidate → f64) (cs : list ProcessCandidate)
    (sel : option ProcessCandidate) : Prop :=
  match sel with
  | None => runnable cs = []
  | Some x => ∃ l1 c l2 s, cs = l1 ++ c :: l2 ∧ x = with_score s c ∧ pr_is_runnable c = true ∧
      (∀ y, y ∈ cs → pr_is_runnable y = true → f64_leb (score y) (score c) = true) ∧
      (∀ y, y ∈ l1 → pr_is_runnable y = true → f64_ltb (score y) (score c) = true)
  end.

Lemma with_score_id c : with_score (pr_priority_score c) c = c.
Proof. by destruct c. Qed.

(** The first of a sort by score, over copies [f c] of the runnable candidates. *)
Lemma sorted_best score key (f : ProcessCandidate → ProcessCandidate) cs :
  (∀ c, ∃ s, f c = with_score s c) → (∀ c, key (f c) = score c) →
  Forall (numeric score) (runnable cs) →
  best_runnable score cs (head (sort_by (by_num key) (f <$> runnable cs))).
Proof.
  intros Hf Hkey Hnum. rewrite Forall_forall in Hnum.
  destruct (head (sort_by (by_num key) (f <$> runnable cs))) as [x|] eqn:Hh.
  2:{ apply sort_by_nil in Hh. by apply fmap_nil_inv in Hh. }
  apply sort_num_head in Hh as (l1 & l2 & Hl & Hmax & Hfst).
  apply fmap_app_inv in Hl as (k1 & k2' & -> & Hk2 & Hr).
  symmetry in Hk2. apply fmap_cons_inv in Hk2 as (c & k2 & -> & -> & ->).
  destruct (runnable_split _ _ _ _ Hr) as (m1 & m2 & -> & Hc & Hm1).
  destruct (Hf c) as [s Hs]. exists m1, c, m2, s. rewrite Forall_forall in Hmax, Hfst.
  assert (numeric score c) as Hnc by (apply Hnum, runnable_elem; set_solver).
  split_and!; [done|done|done| |].
  - intros y Hy Hry. assert (y ∈ runnable (m1 ++ c :: m2)) as Hin by by apply runnable_elem.
    apply f64_leb_num. split_and!; [by apply Hnum|done|].
    rewrite <-!Hkey. apply Hmax, list_elem_of_fmap. eauto.
  - intros y Hy Hry. assert (y ∈ k1) as Hin by (rewrite <-Hm1; by apply runnable_elem).
    apply f64_ltb_num. split_and!; [|done|].
    + apply Hnum. rewrite Hr. set_solver.
    + rewrite <-!Hkey. apply Hfst, list_elem_of_fmap. eauto.
Qed.

Lemma fifo_best cs : best_runnable (λ _, f64_of_Z 0) cs (head (runnable cs)).
Proof.
  destruct (runnable cs) as [|c l] eqn:Hr; simpl; [done|].
  destruct (runnable_split cs [] c l Hr) as (k1 & k2 & -> & Hc & Hk).
  exists k1, c, k2, (pr_priority_score c). rewrite with_score_id.
  split_and!; [done|done|done|done|]. intros y Hy Hry.
  assert (y ∈ runnable k1) as Hin by by apply runnable_elem. rewrite Hk in Hin. set_solver.
Qed.

(** A decision taken as it should be. *)
Definition decided_well (p : ProgramSchedulingPolicy) (cs : list ProcessCandidate)
    (d : ProgramScheduleDecision) : Prop :=
  best_runnable (gp_score p) cs (gd_selected d) ∧
  gd_candidates d = cs ∧ gd_runnable_count d = length (runnable cs) ∧
  gd_policy_name d = gp_name p ∧
  ∀ reason, default 0%nat (gd_blocked_by_resource d !! reason)
    = length (filter (λ c, pr_is_runnable c = false ∧ pr_blocked_reason c = Some reason) cs).

Lemma ranked_program_exact name score bd now cs :
  Forall (numeric score) (runnable cs) →
  let p := mkProgramPolicy name score (ranked_program_select name score bd) in
  ∃ d, gp_select p now cs = Some d ∧ decided_well p cs d.
Proof.
  intros Hn. simpl. unfold ranked_program_select. rewrite slice_sort_numeric by done.
  eexists. split; [done|]. split; simpl.
  - rewrite <-(list_fmap_id (runnable cs)). apply sorted_best; [|done|done].
    intros c. exists (pr_priority_score c). by rewrite with_score_id.
  - rewrite sort_by_perm. split_and!; try done. apply blocked_by_resource_count.
Qed.

(** Every program policy advances the right process. If no runnable process
    has a NaN score, the policy decides: it selects the earliest runnable process
    of the highest score (the earliest one at all for FIFO), none exactly when
    none is runnable, and counts the runnable ones and, by reason, the blocked
    ones. *)
Theorem program_selection_exact p now cs :
  p ∈ program_policies → Forall (numeric (gp_score p)) (runnable cs) →
  ∃ d, gp_select p now cs = Some d ∧ decided_well p cs d.
Proof.
  intros Hp Hn. repeat (apply elem_of_cons in Hp as [->|Hp]); [..|by apply not_elem_of_nil in Hp].
  2-4: by apply ranked_program_exact.
  - eexists. split; [done|]. split; simpl; [apply fifo_best|]. split_and!; try done.
    apply blocked_by_resource_count.
  - simpl in *. unfold state_aware_select.
    rewrite slice_sort_numeric by (apply Forall_fmap; exact Hn).
    eexists. split; [done|]. split; simpl.
    + apply sorted_best; [eauto|done|done].
    + rewrite sort_by_perm, length_fmap. split_and!; try done. apply blocked_by_resource_count.
Qed.

(** Whatever the scores are, a process that is not runnable is never selected. *)
Lemma program_selects_runnable p now cs d x :
  p ∈ program_policies → gp_select p now cs = Some d → gd_selected d = Some x →
  ∃ c s, c ∈ cs ∧ pr_is_runnable c = true ∧ x = with_score s c.
Proof.
  assert (∀ c, c ∈ runnable cs → ∃ c' s, c' ∈ cs ∧ pr_is_runnable c' = true ∧ c = with_score s c')
    as Hself.
  { intros c [Hc Hr]%runnable_elem. exists c, (pr_priority_score c). by rewrite with_score_id. }
  intros Hp Hd Hx. repeat (apply elem_of_cons in Hp as [->|Hp]); [..|by apply not_elem_of_nil in Hp];
    simpl in Hd.
  2-5: apply bind_Some in Hd as (sorted & Hs & [= <-]); simpl in Hx;
    apply slice_sort_perm in Hs; apply head_Some_elem_of in Hx; rewrite Hs in Hx.
  2-4: by apply Hself.
  - injection Hd as <-. by apply Hself, head_Some_elem_of.
  - apply list_elem_of_fmap in Hx as (c & -> & [Hc Hr]%runnable_elem). eauto.
Qed.
End Policies.

(** ** The state-aware score *)

Lemma state_aware_positive p c :
  f64_positive (state_aware_numerator p c) ∧ f64_positive (state_aware_denominator c).
Proof. split; by apply f64_max_positive. Qed.

(** The state-aware score is a number unless both sides of the fraction are
    infinite, whatever the factors are, NaN included, and it is never negative. *)
Theorem state_aware_score_number p c :
  (f64_is_nan (state_aware_score p c) = true ↔
     state_aware_numerator p c = f64_INFINITY ∧ state_aware_denominator c = f64_INFINITY) ∧
  f64_ltb (state_aware_score p c) (f64_of_Z 0) = false.
Proof.
  destruct (state_aware_positive p c) as [Hn Hd]. by apply f64_div_positive.
Qed.

(** ** The registry and the scheduler core *)

Section Registry.
Context `{SortPlatform}.

(** Every baseline is registered under its own name. *)
Lemma program_baselines_lookup name p :
  program_baselines !! name = Some p ↔ p ∈ program_policies ∧ gp_name p = name.
Proof.
  unfold program_baselines, program_policies, program_register, ProgramPolicyRegistry.
  cbn [foldl]. rewrite !lookup_insert_Some, lookup_empty. set_unfold. split.
  - naive_solver.
  - intros [Hin <-]. destruct_or! Hin; subst; simpl; naive_solver congruence.
Qed.

(** The scheduler core never schedules a process: the names it asks the
    registry for, FIFO and StateAware, belong to no registered policy, so every
    call reports an internal error, whatever the configuration and the processes. *)
Theorem schedule_processes_unavailable c now cs :
  ∃ e, schedule_processes c now cs = Some (Err e) ∧ code e = Internal.
Proof.
  unfold schedule_processes, schedule_with.
  assert (program_baselines !! program_policy_name c = None) as ->; [|simpl; eauto].
  destruct (program_baselines !! program_policy_name c) as [p|] eqn:Hp; [|done].
  apply program_baselines_lookup in Hp as [Hin Hname]. unfold program_policies in Hin.
  set_unfold in Hin. unfold program_policy_name in Hname.
  destruct_or! Hin; subst p; by destruct (effective_policy_set c).
Qed.

(** The history holds every decision, the latest last. *)
Lemma program_schedule_history now cs s d s' :
  program_schedule now cs s = Some (d, s') →
  gs_history s' = gs_history s ++ [d] ∧ gs_policy s' = gs_policy s ∧
  gp_select (gs_policy s) now cs = Some d.
Proof. intros (d' & Hd & [= <- <-])%bind_Some. done. Qed.
End Registry.

(** Only the statuses mapped to [Runnable] make a candidate. *)
Lemma build_candidates_runnable l :
  pr_process_id <$> runnable (build_candidates l)
  = pi_process_id <$> filter (λ i, pi_status i = PSS_Runnable) l.
Proof.
  induction l as [|i l IH]; [done|]. unfold runnable, build_candidates in *. simpl.
  rewrite filter_cons. case_decide as Hs.
  - rewrite bool_decide_true by done. rewrite !fmap_cons. f_equal. exact IH.
  - rewrite bool_decide_false by done. exact IH.
Qed.

(** ** Phases *)

(** A placement across machines is chosen only over a network that is fast
    enough and for a cache that is large enough, an adaptive one only when it is
    enabled; two of the placements are never chosen. *)
Lemma phase_decide_sound c prompt output kv bw load :
  match phase_decide c prompt output kv bw load with
  | Colocated => True
  | PrefillDecodeDisaggregated =>
      kv_size_threshold_bytes c ≤ kv ∧ min_network_bw_disaggregated c ≤ bw
  | PhaseAdaptive => adaptive_enabled c = true ∧ f64_ltb (f64_lit 8 10) load = true
  | FullyDisaggregated | EncoderPrefillColocated => False
  end.
Proof.
  unfold phase_decide. destruct ((prompt <=? _) && _); [done|].
  destruct ((_ <=? kv) && _) eqn:Hnet; [by apply andb_true_iff in Hnet as [?%Z.leb_le ?%Z.leb_le]|].
  destruct (adaptive_enabled c && _) eqn:Hload; [by apply andb_true_iff|done].
Qed.

(** ** Concrete processes *)

#[local] Instance ex_sort : SortPlatform := {|
  sort_inconsistent := λ A _ l, None;
  sort_inconsistent_perm := λ A cmp l l' E, match E with end
|}.

Definition ex_process (id : string) (runnable : bool) (critical : f64) (left : Z)
    (reason : option string) : ProcessCandidate :=
  mkProcess id PSS_Runnable critical (f64_lit 1 2) (f64_of_Z 1) (f64_lit 1 2) left (f64_lit 1 2)
    (f64_of_Z 1) (f64_of_Z 0) runnable reason 0 (f64_of_Z 1).
Definition ex_processes : list ProcessCandidate :=
  [ex_process "blocked" false (f64_of_Z 1) 1 (Some "gpu"); ex_process "slow" true (f64_lit 1 4) 900 None;
   ex_process "critical" true (f64_lit 3 4) 100 None].

Lemma program_selection_exact_witness :
  ∃ d, gp_select (state_aware_policy StateAware_default) 7 ex_processes = Some d ∧
    decided_well (state_aware_policy StateAware_default) ex_processes d.
Proof.
  apply (program_selection_exact (state_aware_policy StateAware_default) 7 ex_processes).
  - do 4 right. left.
  - repeat constructor; vm_compute; reflexivity.
Defined.

Example ex_state_aware_choice :
  (pr_process_id <$> (gp_select (state_aware_policy StateAware_default) 7 ex_processes
                      ≫= gd_selected)) = Some "critical".
Proof. vm_compute. reflexivity. Qed.

(** A cold process loses every other factor: its numerator is the constant of
    [max]. *)
Example cold_process_is_flat :
  let c x := mkProcess "p" PSS_Runnable x (f64_of_Z 1) (f64_of_Z 5) (f64_of_Z 0) 1 (f64_of_Z 1)
               (f64_of_Z 1) (f64_of_Z 0) true None 0 (f64_of_Z 1) in
  state_aware_score StateAware_default (c (f64_of_Z 1))
  = state_aware_score StateAware_default (c (f64_of_Z 0)).
Proof. vm_compute. reflexivity. Qed.
