(* ===== verification/Journal.v ===== *)
(** * The append-only journal

    [crates/nous-state/src/journal.rs]: the SQLite-backed journal that is the
    single durable authority of the kernel. The table is a list of rows in
    insertion order with the uniqueness constraints of its schema; the storage
    engine's failures, the clock and SHA-256 are parameters. *)

From S2P Require Import Prelude Errors.
Local Open Scope Z_scope.

(** ** Entries *)

Inductive EntryType : Type := Intent | Transition | Observation | Commit | Abort | Compensate.
#[global] Instance EntryType_eq_dec : EqDecision EntryType.
Proof. solve_decision. Defined.

(** [EntryType::as_str] and [EntryType::parse]. *)
Definition as_str (t : EntryType) : string :=
  match t with
  | Intent => "INTENT"
  | Transition => "TRANSITION"
  | Observation => "OBSERVATION"
  | Commit => "COMMIT"
  | Abort => "ABORT"
  | Compensate => "COMPENSATE"
  end.

Definition entry_type_parse (s : string) : option EntryType :=
  if decide (s = "INTENT") then Some Intent
  else if decide (s = "TRANSITION") then Some Transition
  else if decide (s = "OBSERVATION") then Some Observation
  else if decide (s = "COMMIT") then Some Commit
  else if decide (s = "ABORT") then Some Abort
  else if decide (s = "COMPENSATE") then Some Compensate
  else None.

Lemma entry_type_parse_as_str t : entry_type_parse (as_str t) = Some t.
Proof. by destruct t. Qed.

(** The columns of an entry. A [JournalEntry] carries the typed entry kind, a
    table row the text stored for it. *)
Record EntryOf (T : Type) : Type := mkEntry {
  je_sequence : Z;
  je_workload_id : string;
  je_entry_type : T;
  je_object_type : string;
  je_object_id : string;
  je_previous_phase : option string;
  je_new_phase : string;
  je_generation : Z;
  je_payload : bytes;
  je_fencing_token : string;
  je_actor : string;
  je_idempotency_key : option string;
  je_timestamp_us : Z;
  je_checksum : bytes
}.
Arguments mkEntry {T} _ _ _ _ _ _ _ _ _ _ _ _ _ _.
Arguments je_sequence {T} _.
Arguments je_workload_id {T} _.
Arguments je_entry_type {T} _.
Arguments je_object_type {T} _.
Arguments je_object_id {T} _.
Arguments je_previous_phase {T} _.
Arguments je_new_phase {T} _.
Arguments je_generation {T} _.
Arguments je_payload {T} _.
Arguments je_fencing_token {T} _.
Arguments je_actor {T} _.
Arguments je_idempotency_key {T} _.
Arguments je_timestamp_us {T} _.
Arguments je_checksum {T} _.

Abbreviation JournalEntry := (EntryOf EntryType).
Abbreviation Row := (EntryOf string).

#[global] Instance EntryOf_eq_dec `{EqDecision T} : EqDecision (EntryOf T).
Proof. solve_decision. Defined.

Definition set_entry_type {T U} (t : U) (e : EntryOf T) : EntryOf U :=
  mkEntry (je_sequence e) (je_workload_id e) t (je_object_type e) (je_object_id e)
    (je_previous_phase e) (je_new_phase e) (je_generation e) (je_payload e)
    (je_fencing_token e) (je_actor e) (je_idempotency_key e) (je_timestamp_us e)
    (je_checksum e).
Definition set_header {T} (seq ts : Z) (e : EntryOf T) : EntryOf T :=
  mkEntry seq (je_workload_id e) (je_entry_type e) (je_object_type e) (je_object_id e)
    (je_previous_phase e) (je_new_phase e) (je_generation e) (je_payload e)
    (je_fencing_token e) (je_actor e) (je_idempotency_key e) ts (je_checksum e).
Definition set_checksum {T} (c : bytes) (e : EntryOf T) : EntryOf T :=
  mkEntry (je_sequence e) (je_workload_id e) (je_entry_type e) (je_object_type e)
    (je_object_id e) (je_previous_phase e) (je_new_phase e) (je_generation e) (je_payload e)
    (je_fencing_token e) (je_actor e) (je_idempotency_key e) (je_timestamp_us e) c.

(** ** Storage *)

Inductive SqlError : Type :=
| UniqueConstraint (column : string)
| SqlConversion (column : string)
| SqlFailure (text : string).

(** What the journal relies on outside the source: the digest function and
    the text of a storage error. *)
Class JournalEnv : Type := {
  sha256 : bytes → bytes;
  sql_text : SqlError → string
}.

(** SQLite reports a violated unique index by naming its column. *)
Class JournalEnvLaws `{JournalEnv} : Prop := {
  unique_text_idempotency :
    contains "UNIQUE" (sql_text (UniqueConstraint "idempotency_key")) = true ∧
    contains "idempotency" (sql_text (UniqueConstraint "idempotency_key")) = true
}.

Record Db : Type := mkDb { db_rows : list Row; db_metadata : gmap string string }.

Record Journal : Type := mkJournal { conn : Mutex Db; next_sequence : Mutex Z }.

(** What the environment does during one journal call: the clock, and the
    failures the storage engine reports for a query, when it is prepared or when it
    is run, and for an insert. *)
Inductive QueryFault : Type := Unprepared (text : string) | Unrun (text : string).
Definition fault_text (f : QueryFault) : string :=
  match f with Unprepared text | Unrun text => text end.
Record Io : Type := mkIo {
  io_now : Z;
  io_query : option QueryFault;
  io_insert : option string
}.

Definition io_calm (now : Z) : Io := mkIo now None None.

Definition set_db (db : Db) (j : Journal) : Journal :=
  mkJournal (mutex_set db (conn j)) (next_sequence j).
Definition set_next (n : Z) (j : Journal) : Journal :=
  mkJournal (conn j) (mutex_set n (next_sequence j)).

Definition rows (j : Journal) : list Row := db_rows (inner (conn j)).
Definition next_seq (j : Journal) : Z := inner (next_sequence j).

Definition conn_poisoned : NousError := nous_error Internal "Journal connection lock is poisoned".
Definition seq_poisoned : NousError := nous_error Internal "Journal sequence lock is poisoned".

(** ** Checksums *)

(** [to_be_bytes] of an eight-byte integer, in two's complement. *)
Definition be_bytes (z : Z) : bytes :=
  (λ i, (z / 256 ^ (7 - Z.of_nat i)) mod 256) <$> seq 0 8.

Definition opt_bytes (o : option string) : bytes :=
  match o with Some s => string_bytes s | None => [] end.

(** The bytes fed to the hasher by [compute_checksum], in order. *)
Definition checksum_preimage (e : JournalEntry) : bytes :=
  be_bytes (je_sequence e)
  ++ string_bytes (je_workload_id e)
  ++ string_bytes (as_str (je_entry_type e))
  ++ string_bytes (je_object_type e)
  ++ string_bytes (je_object_id e)
  ++ opt_bytes (je_previous_phase e)
  ++ string_bytes (je_new_phase e)
  ++ be_bytes (je_generation e)
  ++ je_payload e
  ++ string_bytes (je_fencing_token e)
  ++ string_bytes (je_actor e)
  ++ opt_bytes (je_idempotency_key e)
  ++ be_bytes (je_timestamp_us e).

Section Ops.
Context `{JournalEnv}.

(** [Journal::compute_checksum]. *)
Definition compute_checksum (e : JournalEntry) : bytes := sha256 (checksum_preimage e).

(** ** Reading rows *)

(** An [INTEGER] column read as a [u64] must not be negative. *)
Definition get_u64 (column : string) (z : Z) : result SqlError Z :=
  if decide (0 ≤ z) then Ok z else Err (SqlConversion column).

(** [decode_entry]. *)
Definition decode_entry (r : Row) : result SqlError JournalEntry :=
  t ← ok_or (entry_type_parse (je_entry_type r)) (SqlConversion "entry_type");
  _ ← get_u64 "sequence" (je_sequence r);
  _ ← get_u64 "generation" (je_generation r);
  Ok (set_entry_type t r).

Fixpoint decode_all (rs : list Row) : result SqlError (list JournalEntry) :=
  match rs with
  | [] => Ok []
  | r :: rs' => e ← decode_entry r; es ← decode_all rs'; Ok (e :: es)
  end.

(** [ORDER BY sequence ASC]. *)
Definition seq_le (a b : Row) : Prop := je_sequence a ≤ je_sequence b.
#[global] Instance seq_le_dec : RelDecision seq_le.
Proof. intros a b. unfold seq_le. apply _. Defined.
Definition order_by_sequence (rs : list Row) : list Row := merge_sort seq_le rs.

(** A [u64] parameter is bound as a signed 64-bit integer. *)
Definition bind_u64 (z : Z) : bool := bool_decide (z ≤ i64_max).

Definition failed (what : string) (e : SqlError) : NousError :=
  nous_error Internal (what +:+ sql_text e).

(** [Journal::find_by_idempotency_key]. *)
Definition find_by_idempotency_key (io : Io) (j : Journal) (key : string) :
    result NousError (option Z) :=
  match lock (conn j) with
  | None => Err conn_poisoned
  | Some db =>
      match io_query io with
      | Some f => Err (failed "Failed to query idempotency: " (SqlFailure (fault_text f)))
      | None =>
          match list_find (λ r, je_idempotency_key r = Some key) (db_rows db) with
          | None => Ok None
          | Some (_, r) =>
              map_err (failed "Failed to query idempotency: ")
                (Some <$> get_u64 "sequence" (je_sequence r))
          end
      end
  end.

(** A [SELECT] over the table: fails with the storage engine, otherwise yields
    the matching rows in sequence order. *)
Definition select (io : Io) (j : Journal) (p : Row → Prop) `{∀ r, Decision (p r)} :
    result NousError (list JournalEntry) :=
  match lock (conn j) with
  | None => Err conn_poisoned
  | Some db =>
      match io_query io with
      | Some (Unprepared text) => Err (failed "Failed to prepare query: " (SqlFailure text))
      | Some (Unrun text) => Err (failed "Failed to query entries: " (SqlFailure text))
      | None =>
          map_err (failed "Failed to collect entries: ")
            (decode_all (order_by_sequence (filter p (db_rows db))))
      end
  end.

(** [Journal::read_workload]. *)
Definition read_workload (io : Io) (j : Journal) (workload_id : string) :
    result NousError (list JournalEntry) :=
  select io j (λ r, je_workload_id r = workload_id).

(** [Journal::read_from]. *)
Definition read_from (io : Io) (j : Journal) (from_sequence : Z) :
    result NousError (list JournalEntry) :=
  if bind_u64 from_sequence then select io j (λ r, from_sequence ≤ je_sequence r)
  else match lock (conn j) with
       | None => Err conn_poisoned
       | Some _ =>
           match io_query io with
           | Some (Unprepared text) => Err (failed "Failed to prepare query: " (SqlFailure text))
           | _ => Err (failed "Failed to query entries: " (SqlConversion "?1"))
           end
       end.

(** [Journal::current_sequence]. *)
Definition current_sequence (j : Journal) : result NousError Z :=
  n ← ok_or (lock (next_sequence j)) seq_poisoned; Ok (wrap64 (n - 1)).

(** [Journal::count_object_type]. *)
Definition count_object_type (io : Io) (j : Journal) (object_type : string) :
    result NousError Z :=
  match lock (conn j) with
  | None => Err conn_poisoned
  | Some db =>
      match io_query io with
      | Some f => Err (failed "Failed to count journal object type: " (SqlFailure (fault_text f)))
      | None => Ok (Z.of_nat (length (filter (λ r, je_object_type r = object_type) (db_rows db))))
      end
  end.

(** The rows whose stored checksum differs from the recomputed one. *)
Fixpoint corrupted_rows (rs : list Row) : result SqlError (list Z) :=
  match rs with
  | [] => Ok []
  | r :: rs' =>
      e ← decode_entry r;
      cs ← corrupted_rows rs';
      Ok (if decide (compute_checksum e = je_checksum e) then cs else je_sequence e :: cs)
  end.

(** [Journal::verify_integrity]; [status] is the answer of
    [PRAGMA quick_check]. *)
Definition verify_integrity (io : Io) (status : result string string) (j : Journal) :
    result NousError (list Z) :=
  match lock (conn j) with
  | None => Err conn_poisoned
  | Some db =>
      match status with
      | Err text => Err (nous_error DataLoss ("Journal storage check failed: " +:+ text))
      | Ok s =>
          if decide (s = "ok") then
            match io_query io with
            | Some (Unprepared text) => Err (failed "Failed to prepare: " (SqlFailure text))
            | Some (Unrun text) => Err (failed "Failed to query: " (SqlFailure text))
            | None => map_err (failed "Failed to read row: ")
                        (corrupted_rows (order_by_sequence (db_rows db)))
            end
          else Err (nous_error DataLoss ("Journal storage is corrupt: " +:+ s))
      end
  end.

(** ** Appending *)

(** The immutable record [append] builds: sequence, timestamp and checksum
    filled in. *)
Definition finalize (seq now : Z) (e : JournalEntry) : JournalEntry :=
  let e1 := set_header seq (if decide (je_timestamp_us e = 0) then now else je_timestamp_us e) e in
  set_checksum (compute_checksum e1) e1.

Definition row_of (e : JournalEntry) : Row := set_entry_type (as_str (je_entry_type e)) e.

(** [INSERT INTO journal_entries]: parameter binding, the engine, and the two
    unique constraints of the schema. *)
Definition insert_row (io : Io) (r : Row) (db : Db) : result SqlError Db :=
  if negb (bind_u64 (je_sequence r)) then Err (SqlConversion "sequence")
  else if negb (bind_u64 (je_generation r)) then Err (SqlConversion "generation")
  else match io_insert io with
  | Some text => Err (SqlFailure text)
  | None =>
      if decide (Exists (λ r', je_sequence r' = je_sequence r) (db_rows db))
      then Err (UniqueConstraint "sequence")
      else if decide (is_Some (je_idempotency_key r) ∧
                      Exists (λ r', je_idempotency_key r' = je_idempotency_key r) (db_rows db))
      then Err (UniqueConstraint "idempotency_key")
      else Ok (mkDb (db_rows db ++ [r]) (db_metadata db))
  end.

Definition insert_error (e : SqlError) : NousError :=
  if contains "UNIQUE" (sql_text e) && contains "idempotency" (sql_text e)
  then nous_error AlreadyExists "Idempotency key already used"
  else failed "Failed to append journal entry: " e.

(** The second half of [append], entered when the idempotency check found
    nothing: it runs under the sequence lock, so another thread's append may
    have committed in between. *)
Definition append_commit (io : Io) (e : JournalEntry) : M Journal NousError Z := λ j,
  match lock (next_sequence j) with
  | None => (Err seq_poisoned, j)
  | Some seq =>
      match lock (conn j) with
      | None => (Err conn_poisoned, j)
      | Some db =>
          match insert_row io (row_of (finalize seq (io_now io) e)) db with
          | Err err => (Err (insert_error err), j)
          | Ok db' => (Ok seq, set_next (wrap64 (seq + 1)) (set_db db' j))
          end
      end
  end.

(** [Journal::append]. *)
Definition append (io : Io) (e : JournalEntry) : M Journal NousError Z := λ j,
  match je_idempotency_key e with
  | Some key =>
      match find_by_idempotency_key io j key with
      | Err err => (Err err, j)
      | Ok (Some seq) => (Ok seq, j)
      | Ok None => append_commit io e j
      end
  | None => append_commit io e j
  end.

(** ** Opening *)

Definition JOURNAL_FORMAT_VERSION : Z := 2.

(** The statements of [open] that the engine may fail. *)
Record OpenFaults : Type := mkOpenFaults {
  of_connect : option string;
  of_pragmas : option string;
  of_schema : option string;
  of_max_seq : option string;
  of_version : option string;
  of_init_version : option string
}.
Definition no_open_faults : OpenFaults := mkOpenFaults None None None None None None.

Definition fault_check (what : string) (f : option string) : result NousError unit :=
  match f with Some text => Err (failed what (SqlFailure text)) | None => Ok tt end.

(** [SELECT COALESCE(MAX(sequence), 0)]. *)
Definition max_sequence (rs : list Row) : Z :=
  match rs with
  | [] => 0
  | r :: rs' => foldl (λ m r, Z.max m (je_sequence r)) (je_sequence r) rs'
  end.

(** [Journal::open] on the tables found at the path. *)
Definition open (f : OpenFaults) (db : Db) : result NousError Journal :=
  _ ← fault_check "Failed to open journal: " (of_connect f);
  _ ← fault_check "Failed to set pragmas: " (of_pragmas f);
  _ ← fault_check "Failed to create schema: " (of_schema f);
  _ ← fault_check "Failed to recover journal sequence: " (of_max_seq f);
  max_seq ← map_err (failed "Failed to recover journal sequence: ")
              (get_u64 "max" (max_sequence (db_rows db)));
  _ ← fault_check "Failed to read journal format version: " (of_version f);
  let opened db' := mkJournal (mutex_new db') (mutex_new (max_seq + 1)) in
  match db_metadata db !! "format_version" with
  | Some version =>
      if decide (version = show_u JOURNAL_FORMAT_VERSION) then Ok (opened db)
      else Err (nous_error FailedPrecondition
        ("Journal format " +:+ version +:+ " is incompatible with format "
         +:+ show_u JOURNAL_FORMAT_VERSION))
  | None =>
      if decide (max_seq = 0) then
        _ ← fault_check "Failed to initialize journal format version: " (of_init_version f);
        Ok (opened (mkDb (db_rows db)
          (<["format_version" := show_u JOURNAL_FORMAT_VERSION]> (db_metadata db))))
      else Err (nous_error FailedPrecondition
        "Unversioned non-empty journal requires an explicit migration")
  end.

(** [Journal::open_in_memory]. *)
Definition open_in_memory : Journal := mkJournal (mutex_new (mkDb [] ∅)) (mutex_new 1).

(** The journal [open] makes of an empty database file. *)
Definition fresh_journal : Journal :=
  mkJournal (mutex_new (mkDb [] {["format_version" := "2"]})) (mutex_new 1).

(** ** Invariant *)

(** A row the journal itself wrote. *)
Definition row_ok (r : Row) : Prop :=
  ∃ e : JournalEntry, r = row_of e ∧ 0 ≤ je_generation e ∧
    je_checksum e = compute_checksum e.

(** Sequence numbers are exactly [1..n], the counter is one past the last, no
    idempotency key occurs twice, and every record carries its checksum. *)
Record journal_ok (j : Journal) : Prop := {
  ok_seq : je_sequence <$> rows j = seqZ 1 (Z.of_nat (length (rows j)));
  ok_next : next_seq j = Z.of_nat (length (rows j)) + 1;
  ok_keys : NoDup (omap je_idempotency_key (rows j));
  ok_rows : Forall row_ok (rows j)
}.

(** The entries a journal holds, in order. *)
Definition typed (r : Row) : JournalEntry :=
  set_entry_type (default Intent (entry_type_parse (je_entry_type r))) r.
Definition entries (j : Journal) : list JournalEntry := typed <$> rows j.

Lemma typed_row_of e : typed (row_of e) = e.
Proof. unfold typed. simpl. rewrite entry_type_parse_as_str. by destruct e. Qed.

Lemma row_ok_decode r : row_ok r → 0 ≤ je_sequence r → decode_entry r = Ok (typed r).
Proof.
  intros (e & -> & Hg & _) Hs. rewrite typed_row_of.
  unfold decode_entry, row_of. simpl in *. rewrite entry_type_parse_as_str. simpl.
  unfold get_u64. rewrite !decide_True by done. simpl. by destruct e.
Qed.

(** Decoding only changes the representation of the entry kind. *)
Lemma decode_entry_inv r e : decode_entry r = Ok e → e = set_entry_type (je_entry_type e) r.
Proof.
  unfold decode_entry, get_u64. destruct (entry_type_parse _); simpl; [|done].
  repeat case_decide; simpl; naive_solver.
Qed.

Lemma row_ok_typed_checksum r :
  row_ok r → compute_checksum (typed r) = je_checksum (typed r).
Proof. intros (e & -> & _ & Hc). by rewrite typed_row_of. Qed.

Lemma journal_ok_seq_at j i r :
  journal_ok j → rows j !! i = Some r → je_sequence r = Z.of_nat i + 1.
Proof.
  intros [Hs _ _ _] Hr.
  assert ((je_sequence <$> rows j) !! i = Some (je_sequence r)) as Hi
    by (rewrite list_lookup_fmap, Hr; done).
  rewrite Hs in Hi. apply lookup_seqZ in Hi. lia.
Qed.

Lemma journal_ok_seq_bound j r :
  journal_ok j → r ∈ rows j → 1 ≤ je_sequence r < next_seq j.
Proof.
  intros Hok [i Hi]%list_elem_of_lookup. rewrite (ok_next _ Hok).
  pose proof (journal_ok_seq_at _ _ _ Hok Hi). apply lookup_lt_Some in Hi. lia.
Qed.

(** Rows already in sequence order are unchanged by [ORDER BY]. *)
Lemma order_by_sequence_sorted rs :
  StronglySorted Z.lt (je_sequence <$> rs) → order_by_sequence rs = rs.
Proof.
  intros Hs. unfold order_by_sequence.
  assert (StronglySorted seq_le rs) as Hrs.
  { induction rs as [|r rs IH]; [constructor|].
    rewrite fmap_cons in Hs. apply StronglySorted_inv in Hs as [Hs Hr].
    constructor; [by apply IH|].
    rewrite Forall_fmap in Hr. eapply Forall_impl; [exact Hr|]. unfold seq_le. simpl. lia. }
  assert (Hinj : ∀ x1 x2, x1 ∈ rs → x2 ∈ rs → je_sequence x1 = je_sequence x2 → x1 = x2).
  { intros x1 x2 [i Hi]%list_elem_of_lookup [k Hk]%list_elem_of_lookup He.
    assert (NoDup (je_sequence <$> rs)) as Hnd.
    { clear -Hs. induction Hs as [|x l _ IH Hx]; constructor; [|done].
      intros Hin. rewrite Forall_forall in Hx. specialize (Hx _ Hin). lia. }
    assert (i = k) as ->; [|congruence].
    eapply NoDup_lookup; [exact Hnd|..]; rewrite list_lookup_fmap;
      [by rewrite Hi|rewrite Hk; simpl; by rewrite He]. }
  apply (StronglySorted_unique_strong seq_le).
  - intros x1 x2 H1 H2 Hle1 Hle2. apply Hinj; [|done|unfold seq_le in *; lia].
    by rewrite merge_sort_Permutation in H1.
  - apply StronglySorted_merge_sort; [|intros x y; unfold seq_le; lia].
    intros x y z; unfold seq_le; lia.
  - done.
  - apply merge_sort_Permutation.
Qed.

Lemma seqZ_StronglySorted m n : StronglySorted Z.lt (seqZ m n).
Proof.
  destruct (decide (n ≤ 0)); [rewrite seqZ_nil by done; constructor|].
  revert m. assert (∃ k, n = Z.of_nat k) as [k ->] by (exists (Z.to_nat n); lia).
  clear. induction k as [|k IH]; intros m; [constructor|].
  rewrite seqZ_cons by lia. replace (Z.pred _) with (Z.of_nat k) by lia.
  constructor; [apply IH|]. apply Forall_forall. intros x. rewrite elem_of_seqZ. lia.
Qed.

Lemma StronglySorted_filter_seq (P : Row → Prop) `{∀ r, Decision (P r)} rs :
  StronglySorted Z.lt (je_sequence <$> rs) →
  StronglySorted Z.lt (je_sequence <$> filter P rs).
Proof.
  induction rs as [|r rs IH]; [done|].
  rewrite fmap_cons. intros [Hs Hr]%StronglySorted_inv. rewrite filter_cons.
  case_decide; [|by apply IH]. simpl. constructor; [by apply IH|].
  rewrite Forall_fmap in *. by apply Forall_filter_1.
Qed.

Lemma journal_ok_sorted j :
  journal_ok j → StronglySorted Z.lt (je_sequence <$> rows j).
Proof. intros [-> _ _ _]. apply seqZ_StronglySorted. Qed.

Lemma decode_all_ok rs :
  Forall row_ok rs → Forall (λ r, 0 ≤ je_sequence r) rs → decode_all rs = Ok (typed <$> rs).
Proof.
  induction 1 as [|r rs Hr _ IH]; [done|]. intros [? ?]%Forall_cons. simpl.
  rewrite row_ok_decode by done. simpl. by rewrite IH.
Qed.

Lemma journal_ok_nonneg j : journal_ok j → Forall (λ r, 0 ≤ je_sequence r) (rows j).
Proof.
  intros Hok. apply Forall_forall. intros r Hr.
  pose proof (journal_ok_seq_bound _ _ Hok Hr). lia.
Qed.

Definition available_db (io : Io) (j : Journal) : Prop :=
  poisoned (conn j) = false ∧ io_query io = None.

(** A query on a well-formed journal returns the matching entries in order. *)
Lemma select_ok io j (P : Row → Prop) `{∀ r, Decision (P r)} :
  journal_ok j → available_db io j → select io j P = Ok (typed <$> filter P (rows j)).
Proof.
  intros Hok [Hp Hio]. unfold select, lock. rewrite Hp, Hio. fold (rows j).
  rewrite order_by_sequence_sorted
    by (apply StronglySorted_filter_seq, journal_ok_sorted; done).
  rewrite decode_all_ok; [done|..]; apply Forall_filter_1; [apply Hok|by apply journal_ok_nonneg].
Qed.

Lemma read_from_0 io j :
  journal_ok j → available_db io j → read_from io j 0 = Ok (entries j).
Proof.
  intros Hok Hav. unfold read_from. simpl. rewrite select_ok by done.
  rewrite list_filter_all; [done|]. by apply journal_ok_nonneg.
Qed.

Lemma read_workload_ok io j w :
  journal_ok j → available_db io j →
  read_workload io j w = Ok (filter (λ e, je_workload_id e = w) (entries j)).
Proof.
  intros Hok Hav. unfold read_workload. rewrite select_ok by done. f_equal.
  unfold entries. symmetry. by apply list_filter_fmap.
Qed.

Lemma read_workload_inv io j w es :
  journal_ok j → read_workload io j w = Ok es →
  es = filter (λ e, je_workload_id e = w) (entries j).
Proof.
  intros Hok Hr. assert (available_db io j) as Hav.
  { unfold read_workload, select, lock in Hr. unfold available_db.
    destruct (poisoned (conn j)); [done|]. by destruct (io_query io) as [[]|]. }
  rewrite (read_workload_ok io j w Hok Hav) in Hr. by injection Hr.
Qed.

(** ** What [append] does *)

(** Every [u64] field of an entry is in range; the rest is unconstrained. *)
Definition entry_wf (e : JournalEntry) : Prop := u64_ok (je_generation e).

(** The journal after a committed append. *)
Definition push (io : Io) (e : JournalEntry) (j : Journal) : Journal :=
  set_next (wrap64 (next_seq j + 1))
    (set_db (mkDb (rows j ++ [row_of (finalize (next_seq j) (io_now io) e)])
                  (db_metadata (inner (conn j)))) j).

Definition key_used (j : Journal) (k : string) : Prop :=
  Exists (λ r, je_idempotency_key r = Some k) (rows j).

Lemma finalize_key seq now e : je_idempotency_key (finalize seq now e) = je_idempotency_key e.
Proof. done. Qed.

Lemma finalize_checksum seq now e :
  je_checksum (finalize seq now e) = compute_checksum (finalize seq now e).
Proof. done. Qed.

Lemma rows_push io e j :
  rows (push io e j) = rows j ++ [row_of (finalize (next_seq j) (io_now io) e)].
Proof. done. Qed.

Lemma entries_push io e j :
  entries (push io e j) = entries j ++ [finalize (next_seq j) (io_now io) e].
Proof. unfold entries. rewrite rows_push, fmap_app. simpl. by rewrite typed_row_of. Qed.

Lemma append_commit_cases io e j r j' :
  append_commit io e j = (r, j') →
  (∃ err, r = Err err ∧ j' = j) ∨
  (r = Ok (next_seq j) ∧ j' = push io e j ∧ next_seq j ≤ i64_max ∧
   (∀ k, je_idempotency_key e = Some k → ¬ key_used j k)).
Proof.
  unfold append_commit. destruct (lock (next_sequence j)) as [seq|] eqn:Hs; [|naive_solver].
  destruct (lock (conn j)) as [db|] eqn:Hc; [|naive_solver].
  apply lock_Some in Hs as [_ <-], Hc as [_ <-]. fold (next_seq j).
  destruct (insert_row _ _ _) as [db'|err] eqn:Hi; [|naive_solver].
  intros [= <- <-]. right. unfold insert_row, bind_u64 in Hi.
  repeat case_match; simplify_eq. split_and!; [done|done| |].
  - match goal with H : negb (bool_decide (je_sequence _ ≤ _)) = false |- _ =>
      apply negb_false_iff, bool_decide_eq_true in H; exact H end.
  - intros k Hk Hu. match goal with H : ¬ (is_Some _ ∧ _) |- _ => apply H end.
    simpl. rewrite Hk. split; [done|exact Hu].
Qed.

Lemma append_cases io e j r j' :
  append io e j = (r, j') →
  (∃ err, r = Err err ∧ j' = j) ∨
  (∃ k row, je_idempotency_key e = Some k ∧ row ∈ rows j ∧ je_idempotency_key row = Some k ∧
     r = Ok (je_sequence row) ∧ j' = j) ∨
  (r = Ok (next_seq j) ∧ j' = push io e j ∧ next_seq j ≤ i64_max ∧
   (∀ k, je_idempotency_key e = Some k → ¬ key_used j k)).
Proof.
  unfold append. destruct (je_idempotency_key e) as [k|] eqn:Hk;
    [|intros Ha; apply append_commit_cases in Ha; rewrite Hk in Ha; naive_solver].
  unfold find_by_idempotency_key. destruct (lock (conn j)) as [db|] eqn:Hc; [|naive_solver].
  apply lock_Some in Hc as [_ <-].
  destruct (io_query io); [naive_solver|].
  destruct (list_find _ _) as [[i row]|] eqn:Hf.
  - apply list_find_Some in Hf as (Hi & Hrow & _).
    unfold get_u64. case_decide; simpl; [|naive_solver].
    intros [= <- <-]. right. left. exists k, row.
    split_and!; [done|by eapply list_elem_of_lookup_2|done..].
  - intros Ha. apply append_commit_cases in Ha. rewrite Hk in Ha. naive_solver.
Qed.

(** An append leaves what its last critical section leaves, if it gets there; and
    that section leaves what an append would that finds no fault on its way. *)
Lemma append_or_commit io e j :
  (append io e j).2 = j ∨ (append io e j).2 = (append_commit io e j).2.
Proof.
  unfold append. destruct (je_idempotency_key e); [|by right].
  destruct (find_by_idempotency_key _ _ _) as [[]|]; [by left|by right|by left].
Qed.
Lemma commit_or_append io e j :
  (append_commit io e j).2 = j ∨ ∃ io', (append_commit io e j).2 = (append io' e j).2.
Proof.
  destruct (append_commit io e j) as [r j'] eqn:Ha. pose proof Ha as Hc.
  apply append_commit_cases in Hc as [(err & _ & ->)|(Hr & _ & _ & Hk)]; [by left|]. right.
  exists (mkIo (io_now io) None (io_insert io)). unfold append.
  assert (append_commit (mkIo (io_now io) None (io_insert io)) e j = (r, j')) as -> by done.
  destruct (je_idempotency_key e) as [k|]; [|done]. unfold find_by_idempotency_key. simpl.
  assert (∃ db, lock (conn j) = Some db) as [db Hl].
  { unfold append_commit in Ha. destruct (lock (next_sequence j)); [|congruence].
    destruct (lock (conn j)); [eauto|congruence]. }
  rewrite Hl. apply lock_Some in Hl as [_ <-].
  destruct (list_find _ _) as [[i row]|] eqn:Hf; [|done]. exfalso.
  apply list_find_Some in Hf as (Hi & Hrow & _). apply (Hk k); [done|].
  apply Exists_exists. exists row. split; [by eapply list_elem_of_lookup_2|done].
Qed.

Lemma push_ok io e j :
  journal_ok j → entry_wf e → next_seq j ≤ i64_max →
  (∀ k, je_idempotency_key e = Some k → ¬ key_used j k) →
  journal_ok (push io e j).
Proof.
  intros [Hs Hn Hk Hr] Hwf Hmax Hkey.
  assert (next_seq (push io e j) = next_seq j + 1) as Hnext.
  { apply wrap64_succ. rewrite Hn in *. unfold i64_max, u64_max in *. lia. }
  split; rewrite ?rows_push.
  - rewrite fmap_app, Hs, length_app. simpl. rewrite Nat.add_1_r, seqZ_S. f_equal. simpl.
    rewrite Hn. f_equal. lia.
  - rewrite Hnext, length_app, Hn. simpl. lia.
  - rewrite omap_app. simpl.
    destruct (je_idempotency_key e) as [k|] eqn:Ek; [|by rewrite app_nil_r].
    apply NoDup_app. split_and!; [done| |by apply NoDup_singleton].
    intros k' Hin ->%list_elem_of_singleton.
    apply (Hkey k); [done|]. apply Exists_exists.
    apply list_elem_of_omap in Hin as (row & ? & ?). eauto.
  - apply Forall_app. split; [done|]. apply Forall_singleton.
    eexists. split_and!; [done| |done]. destruct Hwf. simpl. lia.
Qed.

Lemma append_ok io e j r j' :
  journal_ok j → entry_wf e → append io e j = (r, j') →
  journal_ok j' ∧ rows j `prefix_of` rows j'.
Proof.
  intros Hok Hwf Ha. apply append_cases in Ha
    as [(? & -> & ->)|[(k & row & ? & ? & ? & -> & ->)|(-> & -> & ? & ?)]]; [done..|].
  split; [by apply push_ok|]. rewrite rows_push. by apply prefix_app_r.
Qed.

(** Any number of appends, with any faults, failing ones included. *)
Definition append_all (calls : list (Io * JournalEntry)) (j : Journal) : Journal :=
  foldl (λ j c, (append c.1 c.2 j).2) j calls.

(** C19: Journal integrity. Whatever appends are attempted and however the
    storage engine fails them, the journal stays well formed (sequence numbers
    contiguous from one, counter one past the last, no idempotency key twice,
    every record carrying the checksum of its fields) and the records written
    before are a prefix of the records after: nothing is ever modified or
    removed. *)
Theorem journal_append_only calls j :
  journal_ok j → Forall (λ c, entry_wf c.2) calls →
  journal_ok (append_all calls j) ∧ rows j `prefix_of` rows (append_all calls j).
Proof.
  intros Hok Hc. revert j Hok.
  induction Hc as [|[io e] calls Hwf _ IH]; intros j Hok; [done|]. simpl.
  destruct (append io e j) as [r j'] eqn:Ha.
  destruct (append_ok _ _ _ _ _ Hok Hwf Ha) as [Hok' Hpre].
  destruct (IH _ Hok') as [? ?]. split; [done|]. by etrans.
Qed.

Lemma key_used_push io e j k : je_idempotency_key e = Some k → key_used (push io e j) k.
Proof.
  intros Hk. unfold key_used. rewrite rows_push. apply Exists_app. right.
  by apply Exists_cons_hd.
Qed.

Lemma journal_ok_key_unique j r1 r2 k :
  journal_ok j → r1 ∈ rows j → r2 ∈ rows j →
  je_idempotency_key r1 = Some k → je_idempotency_key r2 = Some k → r1 = r2.
Proof.
  intros [_ _ Hk _] H1 H2 E1 E2.
  induction (rows j) as [|r rs IH]; [by apply not_elem_of_nil in H1|].
  simpl in Hk. apply elem_of_cons in H1, H2.
  assert (∀ r', r' ∈ rs → je_idempotency_key r' = Some k → k ∈ omap je_idempotency_key rs)
    by (intros; apply list_elem_of_omap; eauto).
  destruct H1 as [->|H1], H2 as [->|H2]; [done|..].
  - rewrite E1 in Hk. apply NoDup_cons in Hk as [Hk _]. naive_solver.
  - rewrite E2 in Hk. apply NoDup_cons in Hk as [Hk _]. naive_solver.
  - destruct (je_idempotency_key r); [apply NoDup_cons in Hk as [_ Hk]|]; auto.
Qed.

(** A key already in the journal is answered with its sequence number, and the
    journal is left alone. *)
Lemma append_replay io e j k row :
  journal_ok j → available_db io j →
  je_idempotency_key e = Some k → row ∈ rows j → je_idempotency_key row = Some k →
  append io e j = (Ok (je_sequence row), j).
Proof.
  intros Hok [Hp Hio] Hk Hrow Hkr. unfold append. rewrite Hk.
  unfold find_by_idempotency_key, lock. rewrite Hp, Hio. fold (rows j).
  destruct (list_find_elem_of (λ r, je_idempotency_key r = Some k) (rows j) row)
    as [[i r] Hf]; [done..|]. rewrite Hf.
  apply list_find_Some in Hf as (Hi & Hr & _).
  assert (r = row) as -> by (eapply journal_ok_key_unique; eauto using list_elem_of_lookup_2).
  unfold get_u64. rewrite decide_True; [done|].
  pose proof (journal_ok_seq_bound _ _ Hok Hrow). lia.
Qed.

(** Idempotent append. Once an append with an idempotency key has
    returned a sequence number, every later append with that key, whatever its
    other fields, returns the same number and leaves the journal unchanged. *)
Theorem append_idempotent io io' e e' j k seq j' :
  journal_ok j → entry_wf e →
  je_idempotency_key e = Some k → je_idempotency_key e' = Some k →
  append io e j = (Ok seq, j') → available_db io' j' →
  append io' e' j' = (Ok seq, j').
Proof.
  intros Hok Hwf Hk Hk' Ha Hav.
  destruct (append_ok _ _ _ _ _ Hok Hwf Ha) as [Hok' _].
  apply append_cases in Ha
    as [(? & ? & ->)|[(k2 & row & ? & ? & ? & ? & ->)|(? & -> & ? & ?)]]; simplify_eq.
  - by eapply append_replay.
  - set (row := row_of (finalize (next_seq j) (io_now io) e)).
    change (next_seq j) with (je_sequence row). eapply append_replay; [done..| |by simpl].
    rewrite rows_push. set_solver.
Qed.

(** The engine and both locks are usable for one append. *)
Definition io_usable (io : Io) (j : Journal) : Prop :=
  available_db io j ∧ io_insert io = None ∧ poisoned (next_sequence j) = false.

Lemma insert_row_fresh io e j :
  journal_ok j → io_insert io = None → je_generation e ≤ i64_max → next_seq j ≤ i64_max →
  (∀ k, je_idempotency_key e = Some k → ¬ key_used j k) →
  insert_row io (row_of (finalize (next_seq j) (io_now io) e)) (inner (conn j)) =
  Ok (mkDb (rows j ++ [row_of (finalize (next_seq j) (io_now io) e)])
           (db_metadata (inner (conn j)))).
Proof.
  intros Hok Hio Hg Hn Hk. unfold insert_row, bind_u64.
  rewrite (bool_decide_true (je_sequence _ ≤ _)) by exact Hn.
  rewrite (bool_decide_true (je_generation _ ≤ _)) by exact Hg. simpl. rewrite Hio.
  rewrite decide_False.
  2:{ intros (r & Hr & Hseq)%Exists_exists. fold (rows j) in Hr.
      pose proof (journal_ok_seq_bound _ _ Hok Hr). simpl in Hseq. lia. }
  rewrite decide_False; [done|].
  intros [[k Hk'] He]. apply (Hk k); [exact Hk'|]. unfold key_used.
  eapply Exists_impl; [exact He|]. simpl. intros r ->. exact Hk'.
Qed.

(** An append whose key is new commits, under the next sequence number. *)
Lemma append_commits io e j :
  journal_ok j → io_usable io j → je_generation e ≤ i64_max → next_seq j ≤ i64_max →
  (∀ k, je_idempotency_key e = Some k → ¬ key_used j k) →
  append io e j = (Ok (next_seq j), push io e j).
Proof.
  intros Hok ([Hc Hq] & Hi & Hs) Hg Hn Hk.
  assert (append_commit io e j = (Ok (next_seq j), push io e j)) as Hcommit.
  { unfold append_commit, lock. rewrite Hs, Hc. fold (next_seq j).
    by rewrite insert_row_fresh. }
  unfold append. destruct (je_idempotency_key e) as [k|] eqn:Ek; [|done].
  unfold find_by_idempotency_key, lock. rewrite Hc, Hq. fold (rows j).
  destruct (list_find _ _) as [[i r]|] eqn:Hf; [|done]. exfalso.
  apply list_find_Some in Hf as (Hr & Hkr & _). apply (Hk k); [done|].
  apply Exists_exists. eauto using list_elem_of_lookup_2.
Qed.

(** Durable writes are readable. An append that was answered with a fresh
    sequence number is the last record any later read returns, with its
    sequence, timestamp and checksum filled in; reads before it are a prefix of
    reads after it. *)
Theorem append_then_read io io' e j :
  journal_ok j → io_usable io j → entry_wf e → je_generation e ≤ i64_max →
  next_seq j ≤ i64_max → (∀ k, je_idempotency_key e = Some k → ¬ key_used j k) →
  io_query io' = None →
  ∃ j', append io e j = (Ok (next_seq j), j') ∧
    read_from io' j' 0 = Ok (entries j ++ [finalize (next_seq j) (io_now io) e]) ∧
    read_workload io' j' (je_workload_id e) =
      Ok (filter (λ x, je_workload_id x = je_workload_id e) (entries j)
          ++ [finalize (next_seq j) (io_now io) e]).
Proof.
  intros Hok Hus Hwf Hg Hn Hk Hq. exists (push io e j).
  assert (journal_ok (push io e j)) by by apply push_ok.
  assert (available_db io' (push io e j)) by (split; [apply Hus|done]).
  split_and!; [by apply append_commits|by rewrite read_from_0, entries_push|].
  rewrite read_workload_ok, entries_push by done. f_equal.
  rewrite filter_app. f_equal. by rewrite filter_cons_True.
Qed.

(** Racing appends. If another thread committed the same idempotency key
    between this call's lookup and its insert, the unique index refuses the
    insert: the call fails with [AlreadyExists] (not with the existing sequence
    number) and the journal keeps exactly one record for the key. *)
Theorem append_race_rejected `{!JournalEnvLaws} io e j k :
  journal_ok j → io_usable io j → je_generation e ≤ i64_max → next_seq j ≤ i64_max →
  je_idempotency_key e = Some k → key_used j k →
  append_commit io e j = (Err (nous_error AlreadyExists "Idempotency key already used"), j).
Proof.
  intros Hok ([Hc Hq] & Hi & Hs) Hg Hn Hk Hu.
  unfold append_commit, lock. rewrite Hs, Hc. fold (next_seq j).
  unfold insert_row, bind_u64.
  rewrite (bool_decide_true (je_sequence _ ≤ _)) by exact Hn.
  rewrite (bool_decide_true (je_generation _ ≤ _)) by exact Hg. simpl. rewrite Hi.
  rewrite decide_False.
  2:{ intros (r & Hr & Hseq)%Exists_exists. fold (rows j) in Hr.
      pose proof (journal_ok_seq_bound _ _ Hok Hr). simpl in Hseq. lia. }
  rewrite decide_True by (rewrite Hk; split; [done|exact Hu]).
  unfold insert_error. destruct unique_text_idempotency as [-> ->]. done.
Qed.

(** ** Integrity *)

Lemma corrupted_rows_ok rs :
  Forall row_ok rs → Forall (λ r, 0 ≤ je_sequence r) rs → corrupted_rows rs = Ok [].
Proof.
  induction 1 as [|r rs Hr _ IH]; [done|]. intros [? ?]%Forall_cons. simpl.
  rewrite row_ok_decode by done. simpl. rewrite IH by done. simpl.
  rewrite decide_True; [done|]. by apply row_ok_typed_checksum.
Qed.

Lemma corrupted_rows_app rs1 rs2 c1 c2 :
  corrupted_rows rs1 = Ok c1 → corrupted_rows rs2 = Ok c2 →
  corrupted_rows (rs1 ++ rs2) = Ok (c1 ++ c2).
Proof.
  revert c1. induction rs1 as [|r rs1 IH]; intros c1; [naive_solver|]. simpl.
  destruct (decode_entry r) as [e|]; simpl; [|done].
  destruct (corrupted_rows rs1) as [cs|]; simpl; [|done].
  intros [= <-] H2. rewrite (IH _ eq_refl H2). simpl. by case_decide.
Qed.

(** A journal the kernel wrote verifies. *)
Lemma verify_clean io j :
  journal_ok j → available_db io j → verify_integrity io (Ok "ok") j = Ok [].
Proof.
  intros Hok [Hp Hio]. unfold verify_integrity, lock. rewrite Hp, Hio. fold (rows j). simpl.
  rewrite order_by_sequence_sorted by (by apply journal_ok_sorted).
  by rewrite corrupted_rows_ok; [|apply Hok|apply journal_ok_nonneg].
Qed.

(** A journal in which record [i] was overwritten on disk by [r']. *)
Definition tamper (i : nat) (r' : Row) (j : Journal) : Journal :=
  set_db (mkDb (<[i := r']> (rows j)) (db_metadata (inner (conn j)))) j.

(** What [verify_integrity] reports after record [i] was overwritten: nothing
    or that record, by its checksum alone. *)
Lemma verify_tampered io j i r r' e' :
  journal_ok j → available_db io j → rows j !! i = Some r →
  je_sequence r' = je_sequence r → decode_entry r' = Ok e' →
  verify_integrity io (Ok "ok") (tamper i r' j) =
  Ok (if decide (compute_checksum e' = je_checksum e') then [] else [je_sequence r]).
Proof.
  intros Hok [Hp Hio] Hr Hseq Hdec. unfold verify_integrity, lock. simpl. rewrite Hp, Hio. simpl.
  assert (je_sequence <$> <[i := r']> (rows j) = je_sequence <$> rows j) as Hsame.
  { rewrite list_fmap_insert. apply list_insert_id.
    by rewrite list_lookup_fmap, Hr, Hseq. }
  rewrite order_by_sequence_sorted by (rewrite Hsame; by apply journal_ok_sorted).
  rewrite insert_take_drop by (by eapply lookup_lt_Some).
  assert (∀ rs, rs ⊆ rows j → corrupted_rows rs = Ok []) as Hclean.
  { intros rs Hsub. apply corrupted_rows_ok; apply Forall_forall; intros x Hx%Hsub.
    - by eapply Forall_forall; [apply Hok|].
    - pose proof (journal_ok_nonneg _ Hok) as Hnn. rewrite Forall_forall in Hnn. by apply Hnn. }
  erewrite (corrupted_rows_app _ (r' :: _)).
  2:{ apply Hclean, subseteq_take. }
  2:{ simpl. rewrite Hdec. simpl. rewrite Hclean by apply subseteq_drop. simpl. done. }
  assert (je_sequence e' = je_sequence r) as He'.
  { rewrite <- Hseq. by rewrite (decode_entry_inv _ _ Hdec). }
  simpl. rewrite He'. by case_decide.
Qed.

(** C37: Tamper evidence. On a journal written by the kernel the check reports
    nothing. If any one record is overwritten on disk by one that can still be
    decoded and has the same sequence number, and the engine's own check passes, then
    the check reports that record and no other if the stored checksum is not the
    digest of the new contents, as when the contents get another digest and the
    checksum is kept, and reports nothing if the checksum was recomputed. *)
Theorem tampering_detected io j i r r' e' :
  journal_ok j → available_db io j → rows j !! i = Some r →
  je_sequence r' = je_sequence r → decode_entry r' = Ok e' →
  verify_integrity io (Ok "ok") j = Ok [] ∧
  (je_checksum r' ≠ compute_checksum e' →
     verify_integrity io (Ok "ok") (tamper i r' j) = Ok [je_sequence r]) ∧
  (je_checksum r' = je_checksum r → compute_checksum e' ≠ compute_checksum (typed r) →
     verify_integrity io (Ok "ok") (tamper i r' j) = Ok [je_sequence r]) ∧
  (je_checksum r' = compute_checksum e' →
     verify_integrity io (Ok "ok") (tamper i r' j) = Ok []).
Proof.
  intros Hok Hav Hr Hseq Hdec.
  assert (row_ok r) as Hrow.
  { eapply Forall_forall; [apply Hok|]. by eapply list_elem_of_lookup_2. }
  assert (je_checksum e' = je_checksum r') as Hck by (by rewrite (decode_entry_inv _ _ Hdec)).
  rewrite (verify_tampered io j i r r' e') by done. rewrite Hck.
  split_and!; [by apply verify_clean|intros; by rewrite decide_False| |intros; by rewrite decide_True].
  intros Hkept Hne. rewrite decide_False; [done|].
  intros Heq. apply Hne. by rewrite Heq, row_ok_typed_checksum, Hkept.
Qed.

(** The same record with its previous and new phase replaced. *)
Definition set_phases {T} (prev : option string) (new : string) (e : EntryOf T) : EntryOf T :=
  mkEntry (je_sequence e) (je_workload_id e) (je_entry_type e) (je_object_type e)
    (je_object_id e) prev new (je_generation e) (je_payload e) (je_fencing_token e)
    (je_actor e) (je_idempotency_key e) (je_timestamp_us e) (je_checksum e).

Lemma checksum_phase_shift (e : JournalEntry) a b c :
  compute_checksum (set_phases (Some (a +:+ b)) c e) =
  compute_checksum (set_phases (Some a) (b +:+ c) e).
Proof.
  unfold compute_checksum, checksum_preimage. simpl. rewrite !string_bytes_app.
  by rewrite <- !app_assoc.
Qed.

(** The checksum does not delimit its fields, so some alterations are
    invisible whatever the digest function: moving text from the end of
    [previous_phase] to the front of [new_phase] of a stored record (turning
    for instance [Some "UNCOMMITTED"], ["X"] into [Some "UN"], ["COMMITTEDX"])
    leaves the integrity check silent. *)
Theorem phase_shift_undetected io j i r a b c :
  journal_ok j → available_db io j → rows j !! i = Some r →
  je_previous_phase r = Some (a +:+ b) → je_new_phase r = c →
  verify_integrity io (Ok "ok") (tamper i (set_phases (Some a) (b +:+ c) r) j) = Ok [].
Proof.
  intros Hok Hav Hr Hprev Hnew.
  assert (row_ok r) as (e & -> & Hg & Hc).
  { eapply Forall_forall; [apply Hok|]. by eapply list_elem_of_lookup_2. }
  rewrite verify_tampered with (r := row_of e) (e' := set_phases (Some a) (b +:+ c) e);
    [|done..|].
  - rewrite decide_True; [done|]. rewrite <- checksum_phase_shift.
    simpl in *. rewrite Hc. f_equal. rewrite <- Hprev, <- Hnew. by destruct e.
  - pose proof (journal_ok_seq_at _ _ _ Hok Hr) as Hs.
    unfold decode_entry, get_u64. simpl in *. rewrite entry_type_parse_as_str. simpl.
    rewrite !decide_True by lia. by destruct e.
Qed.

(** ** Restart *)

Lemma max_sequence_alt rs :
  max_sequence rs =
  match je_sequence <$> rs with [] => 0 | z :: zs => foldl Z.max z zs end.
Proof.
  destruct rs as [|r rs]; [done|]. simpl. generalize (je_sequence r) as z.
  induction rs as [|r' rs IH]; intros z; simpl; [done|]. apply IH.
Qed.

Lemma max_sequence_ok j : journal_ok j → max_sequence (rows j) = next_seq j - 1.
Proof.
  intros Hok. rewrite (ok_next _ Hok).
  assert (∀ (rs : list Row) m n, je_sequence <$> rs = seqZ m n → 0 < n →
    ∀ x, x ≤ m → foldl (λ m r, Z.max m (je_sequence r)) x rs = m + n - 1) as Hfold.
  { induction rs as [|r rs IH]; intros m n Hs Hn x Hx.
    - by rewrite seqZ_cons in Hs.
    - rewrite seqZ_cons in Hs by done. injection Hs as Hr Hs. simpl. rewrite Hr.
      destruct (decide (n = 1)) as [->|].
      + rewrite seqZ_nil in Hs by lia. apply fmap_nil_inv in Hs as ->. simpl. lia.
      + rewrite (IH _ _ Hs) by lia. lia. }
  pose proof (ok_seq _ Hok) as Hs. destruct (rows j) as [|r rs]; [simpl; lia|].
  change (max_sequence (r :: rs)) with
    (foldl (λ m r, Z.max m (je_sequence r)) (je_sequence r) rs).
  assert (je_sequence r = 1) as Hr1.
  { rewrite seqZ_cons in Hs by (simpl; lia). by injection Hs. }
  transitivity (foldl (λ m r, Z.max m (je_sequence r)) 1 (r :: rs)).
  - simpl. by rewrite Hr1.
  - erewrite Hfold; [|exact Hs|simpl; lia..]. simpl. lia.
Qed.

(** [open] on the tables of a well-formed journal. *)
Lemma open_ok j :
  journal_ok j →
  open no_open_faults (inner (conn j)) =
  match db_metadata (inner (conn j)) !! "format_version" with
  | Some v =>
      if decide (v = "2") then Ok (mkJournal (mutex_new (inner (conn j))) (mutex_new (next_seq j)))
      else Err (nous_error FailedPrecondition
        ("Journal format " +:+ v +:+ " is incompatible with format 2"))
  | None =>
      if decide (rows j = []) then
        Ok (mkJournal (mutex_new (mkDb [] (<["format_version" := "2"]>
              (db_metadata (inner (conn j)))))) (mutex_new 1))
      else Err (nous_error FailedPrecondition
        "Unversioned non-empty journal requires an explicit migration")
  end.
Proof.
  intros Hok. unfold open. simpl. fold (rows j). rewrite max_sequence_ok by done.
  pose proof (ok_next _ Hok) as Hn.
  unfold get_u64. rewrite decide_True by lia. simpl.
  replace (next_seq j - 1 + 1) with (next_seq j) by lia.
  change (show_u JOURNAL_FORMAT_VERSION) with "2".
  destruct (_ !! "format_version") as [v|]; [done|].
  destruct (rows j) as [|r rs] eqn:Hrows.
  - rewrite decide_True, decide_True by (simpl in *; lia || done). simpl in Hn.
    by rewrite Hn.
  - rewrite decide_False, decide_False by (simpl in *; lia || done). done.
Qed.

Lemma reopen_ok j j' :
  journal_ok j → open no_open_faults (inner (conn j)) = Ok j' →
  journal_ok j' ∧ entries j' = entries j.
Proof.
  intros Hok Ho. rewrite open_ok in Ho by done.
  destruct (_ !! "format_version") as [v|]; case_decide as Hd; simplify_eq.
  - split; [|done]. by destruct Hok; split.
  - unfold entries. rewrite Hd. split; [|done]. split; simpl; constructor.
Qed.

Lemma reopen_versioned j :
  journal_ok j → db_metadata (inner (conn j)) !! "format_version" = Some "2" →
  open no_open_faults (inner (conn j)) =
    Ok (mkJournal (mutex_new (inner (conn j))) (mutex_new (next_seq j))).
Proof. intros Hok Hv. by rewrite open_ok, Hv. Qed.

(** Reopening after a record was altered in place yields the altered records. *)
Lemma open_tampered j i r r' :
  journal_ok j → db_metadata (inner (conn j)) !! "format_version" = Some "2" →
  rows j !! i = Some r → je_sequence r' = je_sequence r →
  open no_open_faults (inner (conn (tamper i r' j))) =
    Ok (tamper i r' (mkJournal (mutex_new (inner (conn j))) (mutex_new (next_seq j)))).
Proof.
  intros Hok Hv Hi Hseq.
  assert (max_sequence (<[i:=r']> (rows j)) = max_sequence (rows j)) as Hmax.
  { rewrite !max_sequence_alt, list_fmap_insert, list_insert_id; [done|].
    by rewrite list_lookup_fmap, Hi, Hseq. }
  pose proof (ok_next _ Hok) as Hn. unfold open. simpl. rewrite Hmax, (max_sequence_ok j Hok).
  unfold get_u64. rewrite decide_True by lia. simpl. rewrite Hv. rewrite decide_True by done.
  replace (next_seq j - 1 + 1) with (next_seq j) by lia. done.
Qed.

(** C38: Restart. Opening the database a kernel left behind, at any moment,
    yields the journal as it was: same records, same next sequence number, same
    invariant; only the locks are new. A database written under another format
    version, or one without a version that holds records, is refused. *)
Theorem reopen_recovers j :
  journal_ok j →
  match db_metadata (inner (conn j)) !! "format_version" with
  | Some v =>
      if decide (v = "2") then
        ∃ j', open no_open_faults (inner (conn j)) = Ok j' ∧ rows j' = rows j ∧
          next_seq j' = next_seq j ∧ journal_ok j' ∧
          poisoned (conn j') = false ∧ poisoned (next_sequence j') = false
      else open no_open_faults (inner (conn j)) = Err (nous_error FailedPrecondition
        ("Journal format " +:+ v +:+ " is incompatible with format 2"))
  | None =>
      if decide (rows j = []) then
        ∃ j', open no_open_faults (inner (conn j)) = Ok j' ∧ rows j' = [] ∧ next_seq j' = 1 ∧
          db_metadata (inner (conn j')) !! "format_version" = Some "2"
      else open no_open_faults (inner (conn j)) = Err (nous_error FailedPrecondition
        "Unversioned non-empty journal requires an explicit migration")
  end.
Proof.
  intros Hok. rewrite open_ok by done.
  destruct (_ !! "format_version") as [v|]; case_decide; [|done| |done].
  - eexists. split; [done|]. split_and!; try done. by destruct Hok; split.
  - eexists. split; [done|]. split_and!; try done. apply lookup_insert_eq.
Qed.
End Ops.

(** ** Concrete journals *)

(** A digest that is the identity and the engine's texts, to evaluate
    examples. *)
Definition ex_env : JournalEnv := {|
  sha256 := λ b, b;
  sql_text := λ e, match e with
    | UniqueConstraint c => "UNIQUE constraint failed: journal_entries." +:+ c
    | SqlConversion c => "conversion failed: " +:+ c
    | SqlFailure t => t
    end
|}.

Lemma ex_env_laws : @JournalEnvLaws ex_env.
Proof. by split. Qed.

Lemma open_in_memory_ok `{JournalEnv} : journal_ok open_in_memory.
Proof. split; simpl; constructor. Qed.

Lemma fresh_journal_ok `{JournalEnv} : journal_ok fresh_journal.
Proof. split; simpl; constructor. Qed.

Lemma open_empty `{JournalEnv} : open no_open_faults (mkDb [] ∅) = Ok fresh_journal.
Proof. reflexivity. Qed.

Definition ex_entry (prev new : string) (key : option string) : JournalEntry :=
  mkEntry 0 "w-1" Transition "Workload" "w-1" (Some prev) new 1 [123; 125] "token-1" "test"
    key 0 [].

Definition ex_io : Io := io_calm 1700000000000000.
Definition ex_j1 : Journal :=
  (@append ex_env ex_io (ex_entry "CREATED" "VALIDATING" (Some "key-1")) open_in_memory).2.
Definition ex_r1 : Row :=
  row_of (@finalize ex_env 1 1700000000000000 (ex_entry "CREATED" "VALIDATING" (Some "key-1"))).

Lemma ex_j1_ok : @journal_ok ex_env ex_j1.
Proof.
  unfold ex_j1. destruct (append _ _ _) as [r j'] eqn:E. simpl.
  eapply append_ok; [apply open_in_memory_ok| |exact E]. by apply (bool_decide_unpack _).
Qed.

Lemma journal_append_only_witness :
  @journal_ok ex_env (@append_all ex_env
    [(ex_io, ex_entry "CREATED" "VALIDATING" (Some "a"));
     (mkIo 7 None (Some "disk full"), ex_entry "VALIDATING" "VALIDATED" None);
     (ex_io, ex_entry "VALIDATING" "VALIDATED" (Some "a"))] open_in_memory).
Proof.
  apply (@journal_append_only ex_env
    [(ex_io, ex_entry "CREATED" "VALIDATING" (Some "a"));
     (mkIo 7 None (Some "disk full"), ex_entry "VALIDATING" "VALIDATED" None);
     (ex_io, ex_entry "VALIDATING" "VALIDATED" (Some "a"))] open_in_memory).
  - apply open_in_memory_ok.
  - by apply (bool_decide_unpack _).
Defined.

Lemma append_idempotent_witness :
  @append ex_env (io_calm 9) (ex_entry "X" "Y" (Some "key-1")) ex_j1 = (Ok 1, ex_j1).
Proof.
  apply (@append_idempotent ex_env ex_io (io_calm 9)
    (ex_entry "CREATED" "VALIDATING" (Some "key-1")) (ex_entry "X" "Y" (Some "key-1"))
    open_in_memory "key-1" 1 ex_j1).
  - apply open_in_memory_ok.
  - by apply (bool_decide_unpack _).
  - reflexivity.
  - reflexivity.
  - vm_compute. reflexivity.
  - split; reflexivity.
Defined.

Lemma append_then_read_witness :
  ∃ j', @append ex_env ex_io (ex_entry "VALIDATING" "VALIDATED" None) ex_j1
          = (Ok (next_seq ex_j1), j') ∧
    @read_from ex_env ex_io j' 0 = Ok (entries ex_j1
      ++ [@finalize ex_env (next_seq ex_j1) (io_now ex_io) (ex_entry "VALIDATING" "VALIDATED" None)]) ∧
    @read_workload ex_env ex_io j' "w-1" =
      Ok (filter (λ x, je_workload_id x = "w-1") (entries ex_j1)
      ++ [@finalize ex_env (next_seq ex_j1) (io_now ex_io) (ex_entry "VALIDATING" "VALIDATED" None)]).
Proof.
  apply (@append_then_read ex_env ex_io ex_io (ex_entry "VALIDATING" "VALIDATED" None) ex_j1).
  - apply ex_j1_ok.
  - repeat split.
  - by apply (bool_decide_unpack _).
  - vm_compute. congruence.
  - vm_compute. congruence.
  - intros k Hk. discriminate Hk.
  - reflexivity.
Defined.

Lemma append_race_rejected_witness :
  @append_commit ex_env ex_io (ex_entry "A" "B" (Some "key-1")) ex_j1 =
  (Err (nous_error AlreadyExists "Idempotency key already used"), ex_j1).
Proof.
  apply (@append_race_rejected ex_env ex_env_laws ex_io (ex_entry "A" "B" (Some "key-1"))
    ex_j1 "key-1").
  - apply ex_j1_ok.
  - repeat split.
  - vm_compute. congruence.
  - vm_compute. congruence.
  - reflexivity.
  - by apply (bool_decide_unpack _).
Defined.

Lemma tampering_detected_witness :
  @verify_integrity ex_env ex_io (Ok "ok") ex_j1 = Ok [] ∧
  @verify_integrity ex_env ex_io (Ok "ok")
    (tamper 0 (set_phases (Some "CREATED") "COMMITTED" ex_r1) ex_j1) = Ok [1].
Proof.
  destruct (@tampering_detected ex_env ex_io ex_j1 0 ex_r1
    (set_phases (Some "CREATED") "COMMITTED" ex_r1)
    (set_phases (Some "CREATED") "COMMITTED" (typed ex_r1))) as (Hclean & _ & Hkept & _).
  - apply ex_j1_ok.
  - repeat split.
  - reflexivity.
  - reflexivity.
  - reflexivity.
  - split; [exact Hclean|]. apply Hkept; [reflexivity|]. vm_compute. congruence.
Defined.

Lemma phase_shift_undetected_witness :
  @verify_integrity ex_env ex_io (Ok "ok")
    (tamper 0 (set_phases (Some "CREA") ("TED" +:+ "VALIDATING") ex_r1) ex_j1) = Ok [].
Proof.
  apply (@phase_shift_undetected ex_env ex_io ex_j1 0 ex_r1 "CREA" "TED" "VALIDATING").
  - apply ex_j1_ok.
  - repeat split.
  - reflexivity.
  - reflexivity.
  - reflexivity.
Defined.

Definition ex_j2 : Journal :=
  (@append ex_env ex_io (ex_entry "CREATED" "VALIDATING" (Some "key-1")) fresh_journal).2.

Lemma ex_j2_ok : @journal_ok ex_env ex_j2.
Proof.
  unfold ex_j2. destruct (append _ _ _) as [r j'] eqn:E. simpl.
  eapply append_ok; [apply fresh_journal_ok| |exact E]. by apply (bool_decide_unpack _).
Qed.

Lemma reopen_recovers_witness :
  open (H := ex_env) no_open_faults (inner (conn ex_j1)) =
  Err (nous_error FailedPrecondition
        "Unversioned non-empty journal requires an explicit migration") ∧
  ∃ j', open (H := ex_env) no_open_faults (inner (conn ex_j2)) = Ok j' ∧ rows j' = rows ex_j2 ∧
    next_seq j' = next_seq ex_j2 ∧ @journal_ok ex_env j' ∧
    poisoned (conn j') = false ∧ poisoned (next_sequence j') = false.
Proof.
  split.
  - apply (@reopen_recovers ex_env ex_j1). apply ex_j1_ok.
  - apply (@reopen_recovers ex_env ex_j2). apply ex_j2_ok.
Defined.
