(* ===== verification/StateMachine.v ===== *)
(** * The generic state machine

    [crates/nous-state/src/state_machine.rs]: compare-and-swap transitions over
    a table of allowed moves, with hooks, history, a fencing token per
    transition, and the variant that journals each transition. *)

From S2P Require Import Prelude Errors Journal.
Local Open Scope Z_scope.

(** [std::fmt::Display]. *)
Class Display (S : Type) : Type := display : S → string.

Section StateMachine.
Context {S : Type} `{Countable S} `{Display S}.

Definition TransitionHook : Type := S → S → result NousError unit.

Record TransitionRecord : Type := mkTransitionRecord {
  tr_from : S;
  tr_to : S;
  tr_generation : Z;
  tr_fencing_token : string;
  tr_timestamp : Z
}.

Record StateMachine : Type := mkStateMachine {
  sm_current : S;
  sm_transitions : gset (S * S);
  sm_history : list TransitionRecord;
  sm_generation : Z;
  sm_fencing_token : string;
  sm_before_hooks : list TransitionHook;
  sm_after_hooks : list TransitionHook
}.

Record TransitionResult : Type := mkTransitionResult {
  res_from : S;
  res_to : S;
  res_previous_generation : Z;
  res_new_generation : Z;
  res_previous_fencing_token : string;
  res_new_fencing_token : string;
  res_record : TransitionRecord
}.

(** [StateMachine::new]; [uuid] is the token drawn. *)
Definition sm_new (initial_state : S) (uuid : string) : StateMachine :=
  mkStateMachine initial_state ∅ [] 1 uuid [] [].

(** [allow_transition], [allow_transitions_from]. *)
Definition allow_transition (from to : S) (m : StateMachine) : StateMachine :=
  mkStateMachine (sm_current m) ({[(from, to)]} ∪ sm_transitions m) (sm_history m)
    (sm_generation m) (sm_fencing_token m) (sm_before_hooks m) (sm_after_hooks m).

Definition allow_transitions_from (from : S) (to_states : list S) (m : StateMachine) :
    StateMachine :=
  foldl (λ m to, allow_transition from to m) m to_states.

(** [before_transition], [after_transition]. *)
Definition before_transition (hook : TransitionHook) (m : StateMachine) : StateMachine :=
  mkStateMachine (sm_current m) (sm_transitions m) (sm_history m) (sm_generation m)
    (sm_fencing_token m) (sm_before_hooks m ++ [hook]) (sm_after_hooks m).

Definition after_transition (hook : TransitionHook) (m : StateMachine) : StateMachine :=
  mkStateMachine (sm_current m) (sm_transitions m) (sm_history m) (sm_generation m)
    (sm_fencing_token m) (sm_before_hooks m) (sm_after_hooks m ++ [hook]).

Definition set_position (current : S) (generation : Z) (token : string)
    (history : list TransitionRecord) (m : StateMachine) : StateMachine :=
  mkStateMachine current (sm_transitions m) history generation token
    (sm_before_hooks m) (sm_after_hooks m).

(** [Vec::pop]. *)
Definition pop {A} (l : list A) : list A := take (pred (length l)) l.

(** The loop over the hooks: the first error is the outcome. *)
Fixpoint run_hooks (hooks : list TransitionHook) (from to : S) : result NousError unit :=
  match hooks with
  | [] => Ok tt
  | hook :: hooks' => _ ← hook from to; run_hooks hooks' from to
  end.

Definition generation_conflict (expected current : Z) : NousError :=
  nous_error WorkloadConflict
    ("Generation conflict: expected " +:+ show_u expected +:+ ", current " +:+ show_u current).

Definition invalid_transition (from to : S) : NousError :=
  nous_error FailedPrecondition
    ("Invalid transition: '" +:+ display from +:+ "' -> '" +:+ display to
     +:+ "' is not allowed").

(** [StateMachine::transition]; [uuid] and [now] are the token and time drawn. *)
Definition transition (to : S) (expected_generation : Z) (uuid : string) (now : Z) :
    M StateMachine NousError TransitionResult := λ m,
  let from := sm_current m in
  if decide (expected_generation ≠ sm_generation m) then
    (Err (generation_conflict expected_generation (sm_generation m)), m)
  else if decide (from ≠ to ∧ (from, to) ∉ sm_transitions m) then
    (Err (invalid_transition from to), m)
  else match run_hooks (sm_before_hooks m) from to with
  | Err error => (Err error, m)
  | Ok _ =>
      let prev_generation := sm_generation m in
      let prev_token := sm_fencing_token m in
      let new_generation := wrap64 (sm_generation m + 1) in
      let record := mkTransitionRecord from to new_generation uuid now in
      let moved := set_position to new_generation uuid (sm_history m ++ [record]) m in
      match run_hooks (sm_after_hooks moved) from to with
      | Err error =>
          (Err error,
           set_position from prev_generation prev_token (pop (sm_history moved)) moved)
      | Ok _ =>
          (Ok (mkTransitionResult from to prev_generation (sm_generation moved) prev_token
                 (sm_fencing_token moved) record), moved)
      end
  end.

(** The entry [transition_with_journal] appends. *)
Definition transition_entry (object_type object_id workload_id actor : string)
    (idempotency_key : option string) (payload : bytes) (r : TransitionResult) : JournalEntry :=
  mkEntry 0 workload_id Transition object_type object_id (Some (display (res_from r)))
    (display (res_to r)) (res_new_generation r) payload (res_new_fencing_token r) actor
    idempotency_key 0 [].

(** [StateMachine::transition_with_journal]. *)
Definition transition_with_journal `{JournalEnv} `{Serde T} (io : Io)
    (to : S) (expected_generation : Z) (uuid : string) (now : Z)
    (object_type object_id workload_id actor : string) (idempotency_key : option string)
    (payload : T) : M (StateMachine * Journal) NousError TransitionResult := λ '(m, j),
  match transition to expected_generation uuid now m with
  | (Err error, m1) => (Err error, (m1, j))
  | (Ok r, m1) =>
      match to_vec payload with
      | None =>
          (Err (nous_error Internal
                  ("Failed to serialize payload: " +:+ to_vec_text payload)), (m1, j))
      | Some payload_bytes =>
          let entry := transition_entry object_type object_id workload_id actor
                         idempotency_key payload_bytes r in
          match append io entry j with
          | (Err error, j1) =>
              (Err error, (set_position (res_from r) (res_previous_generation r)
                 (res_previous_fencing_token r) (pop (sm_history m1)) m1, j1))
          | (Ok _, j1) => (Ok r, (m1, j1))
          end
      end
  end.

(** ** One transition *)

Lemma pop_app {A} (l : list A) x : pop (l ++ [x]) = l.
Proof.
  unfold pop. rewrite length_app. simpl. rewrite Nat.add_1_r. simpl. apply take_app_length.
Qed.

(** A move the table permits: staying in place always is. *)
Definition permitted (m : StateMachine) (to : S) : Prop :=
  sm_current m = to ∨ (sm_current m, to) ∈ sm_transitions m.

(** The machine after a successful transition. *)
Definition advance (to : S) (uuid : string) (now : Z) (m : StateMachine) : StateMachine :=
  let g := wrap64 (sm_generation m + 1) in
  set_position to g uuid (sm_history m ++ [mkTransitionRecord (sm_current m) to g uuid now]) m.

Definition advanced (to : S) (uuid : string) (now : Z) (m : StateMachine) : TransitionResult :=
  let g := wrap64 (sm_generation m + 1) in
  mkTransitionResult (sm_current m) to (sm_generation m) g (sm_fencing_token m) uuid
    (mkTransitionRecord (sm_current m) to g uuid now).

Lemma set_position_self m : set_position (sm_current m) (sm_generation m) (sm_fencing_token m)
  (sm_history m) m = m.
Proof. by destruct m. Qed.

(** Undoing an advance restores the machine. *)
Lemma undo_advance to uuid now m :
  set_position (sm_current m) (sm_generation m) (sm_fencing_token m)
    (pop (sm_history (advance to uuid now m))) (advance to uuid now m) = m.
Proof. simpl. rewrite pop_app. by destruct m. Qed.

(** Every transition either fails and leaves the machine as it was, or passed
    the generation check, the table and all hooks, and advances it. *)
Lemma transition_cases to g uuid now m r m' :
  transition to g uuid now m = (r, m') →
  (∃ e, r = Err e ∧ m' = m) ∨
  (r = Ok (advanced to uuid now m) ∧ m' = advance to uuid now m ∧
   g = sm_generation m ∧ permitted m to ∧
   run_hooks (sm_before_hooks m) (sm_current m) to = Ok tt ∧
   run_hooks (sm_after_hooks m) (sm_current m) to = Ok tt).
Proof.
  unfold transition. case_decide as Hg; [naive_solver|].
  assert (g = sm_generation m) as -> by (destruct (decide (g = sm_generation m)); naive_solver).
  case_decide as Hp; [naive_solver|].
  destruct (run_hooks (sm_before_hooks m) _ _) as [[]|e] eqn:Hb; [|naive_solver].
  destruct (run_hooks (sm_after_hooks _) _ _) as [[]|e] eqn:Ha.
  - intros [= <- <-]. right. split_and!; [done..| |done|done].
    unfold permitted. destruct (decide (sm_current m = to)); [by left|].
    right. apply dec_stable. naive_solver.
  - intros [= <- <-]. left. exists e. split; [done|]. exact (undo_advance to uuid now m).
Qed.

(** A permitted move at the current generation that the hooks accept happens. *)
Lemma transition_advances to uuid now m :
  permitted m to →
  run_hooks (sm_before_hooks m) (sm_current m) to = Ok tt →
  run_hooks (sm_after_hooks m) (sm_current m) to = Ok tt →
  transition to (sm_generation m) uuid now m =
    (Ok (advanced to uuid now m), advance to uuid now m).
Proof.
  intros Hp Hb Ha. unfold transition. rewrite decide_False by naive_solver.
  rewrite decide_False by (unfold permitted in Hp; naive_solver).
  rewrite Hb. simpl. by rewrite Ha.
Qed.

Lemma wrap64_succ_ne z : wrap64 (z + 1) ≠ z.
Proof.
  intros E. pose proof (wrap64_ok (z + 1)) as [? ?]. rewrite E in *.
  unfold wrap64, u64_max in *. destruct (decide (z = 2 ^ 64 - 1)) as [->|].
  - by vm_compute in E.
  - rewrite Z.mod_small in E by lia. lia.
Qed.

(** Compare and swap: of two writers that read the same generation, at most
    one succeeds. Once a transition at generation [g] went through, any other
    transition that still expects [g] is refused with [WorkloadConflict] and
    leaves the machine unchanged. *)
Theorem cas_single_winner g to1 to2 u1 u2 t1 t2 m r m1 :
  transition to1 g u1 t1 m = (Ok r, m1) →
  transition to2 g u2 t2 m1 = (Err (generation_conflict g (sm_generation m1)), m1) ∧
  sm_generation m1 = wrap64 (g + 1).
Proof.
  intros Ht. apply transition_cases in Ht as [(? & ? & _)|(_ & -> & -> & _)]; [done|].
  split; [|done]. unfold transition. rewrite decide_True; [done|].
  intros E. by apply (wrap64_succ_ne (sm_generation m)).
Qed.

(** ** Any sequence of operations *)

Inductive sm_op : Type :=
| OpAllow (from to : S)
| OpAllowFrom (from : S) (tos : list S)
| OpBefore (hook : TransitionHook)
| OpAfter (hook : TransitionHook)
| OpTransition (to : S) (expected : Z) (uuid : string) (now : Z).

Definition sm_step (m : StateMachine) (o : sm_op) : StateMachine :=
  match o with
  | OpAllow from to => allow_transition from to m
  | OpAllowFrom from tos => allow_transitions_from from tos m
  | OpBefore h => before_transition h m
  | OpAfter h => after_transition h m
  | OpTransition to g uuid now => (transition to g uuid now m).2
  end.

Definition sm_run (ops : list sm_op) (m : StateMachine) : StateMachine := foldl sm_step m ops.

(** The history is a path of permitted moves from [s], at generation [g] and
    with token [tok], to the current state, each record carrying the next
    generation. *)
Fixpoint path (T : gset (S * S)) (s : S) (g : Z) (tok : string) (h : list TransitionRecord)
    (s' : S) (g' : Z) (tok' : string) : Prop :=
  match h with
  | [] => s = s' ∧ g = g' ∧ tok = tok'
  | r :: h' =>
      tr_from r = s ∧ (s = tr_to r ∨ (s, tr_to r) ∈ T) ∧ tr_generation r = wrap64 (g + 1) ∧
      path T (tr_to r) (tr_generation r) (tr_fencing_token r) h' s' g' tok'
  end.

Lemma path_mono T T' s g tok h s' g' tok' :
  T ⊆ T' → path T s g tok h s' g' tok' → path T' s g tok h s' g' tok'.
Proof. intros HT. revert s g tok. induction h; simpl; [done|]. set_solver. Qed.

Lemma path_snoc T s g tok h s1 g1 tok1 r :
  path T s g tok h s1 g1 tok1 → tr_from r = s1 → (s1 = tr_to r ∨ (s1, tr_to r) ∈ T) →
  tr_generation r = wrap64 (g1 + 1) →
  path T s g tok (h ++ [r]) (tr_to r) (tr_generation r) (tr_fencing_token r).
Proof. revert s g tok. induction h; simpl; naive_solver. Qed.

Definition sm_path (s : S) (tok : string) (m : StateMachine) : Prop :=
  path (sm_transitions m) s 1 tok (sm_history m) (sm_current m) (sm_generation m)
    (sm_fencing_token m).

Lemma sm_step_path s tok o m : sm_path s tok m → sm_path s tok (sm_step m o).
Proof.
  intros Hp. destruct o as [from to|from tos|h|h|to g u t]; simpl; try done.
  - eapply path_mono; [|exact Hp]. set_solver.
  - revert m Hp. induction tos as [|to tos IH]; intros m Hp; simpl; [done|]. apply IH.
    eapply path_mono; [|exact Hp]. set_solver.
  - destruct (transition _ _ _ _ _) as [r m'] eqn:Ht. simpl.
    apply transition_cases in Ht as [(? & _ & ->)|(_ & -> & _ & Hperm & _)]; [done|].
    unfold sm_path, advance. simpl.
    by apply (path_snoc _ _ _ _ _ _ _ _ (mkTransitionRecord _ _ _ _ _) Hp).
Qed.

Lemma path_generation T s g tok h s' g' tok' :
  path T s g tok h s' g' tok' → u64_ok g → g' = wrap64 (g + Z.of_nat (length h)).
Proof.
  revert s g tok. induction h as [|r h IH]; simpl; intros s g tok.
  - intros (_ & <- & _) Hg. rewrite Z.add_0_r. by rewrite wrap64_id.
  - intros (_ & _ & Hr & Hp) _. rewrite (IH _ _ _ Hp) by (rewrite Hr; apply wrap64_ok).
    rewrite Hr. unfold wrap64. rewrite Zplus_mod_idemp_l. f_equal. lia.
Qed.

(** Every move was allowed. However a machine is configured and driven, with
    whatever hooks accept or refuse, its history is a path of moves its table
    permits from the initial state to the current one (oldest record first),
    each record carrying the next generation; the current generation is one plus
    the number of moves, and the current fencing token is the last move's. *)
Theorem history_is_permitted_path s tok ops :
  let m := sm_run ops (sm_new s tok) in
  path (sm_transitions m) s 1 tok (sm_history m) (sm_current m) (sm_generation m)
    (sm_fencing_token m) ∧
  sm_generation m = wrap64 (1 + Z.of_nat (length (sm_history m))).
Proof.
  assert (sm_path s tok (sm_run ops (sm_new s tok))) as Hp.
  { assert (sm_path s tok (sm_new s tok)) as Hnew by done. revert Hnew.
    generalize (sm_new s tok). induction ops as [|o ops IH]; intros m Hm; [done|].
    simpl. by apply IH, sm_step_path. }
  split; [exact Hp|]. by eapply path_generation.
Qed.

(** ** Journaled transitions *)

Section Journaled.
Context `{JournalEnv} `{Serde T}.


(** A payload that cannot be serialized is the one error that is not undone:
    the call reports [Internal], the journal holds nothing of the transition,
    and yet the machine stays in the new state with the new generation. *)
Theorem unserializable_payload_not_rolled_back io to uuid now ot oid wid actor key
    (payload : T) m j :
  to_vec payload = None → permitted m to →
  run_hooks (sm_before_hooks m) (sm_current m) to = Ok tt →
  run_hooks (sm_after_hooks m) (sm_current m) to = Ok tt →
  transition_with_journal io to (sm_generation m) uuid now ot oid wid actor key payload (m, j) =
  (Err (nous_error Internal ("Failed to serialize payload: " +:+ to_vec_text payload)),
   (advance to uuid now m, j)).
Proof.
  intros Hb Hp Hbe Haf. unfold transition_with_journal.
  by rewrite transition_advances, Hb.
Qed.
End Journaled.
End StateMachine.

Arguments StateMachine S {_ _}.
Arguments TransitionHook S : clear implicits.
Arguments TransitionResult S : clear implicits.

(** ** Concrete machines *)

Inductive TestState : Type := TCreated | TRunning | TDone.
#[global] Instance TestState_eq_dec : EqDecision TestState.
Proof. solve_decision. Defined.
#[global] Instance TestState_countable : Countable TestState.
Proof.
  refine (inj_countable'
    (λ s, match s with TCreated => 0%nat | TRunning => 1%nat | TDone => 2%nat end)
    (λ n, match n with 0%nat => TCreated | 1%nat => TRunning | _ => TDone end) _).
  by intros [].
Defined.
Definition test_display : Display TestState := λ s,
  match s with TCreated => "Created" | TRunning => "Running" | TDone => "Done" end.

Definition ex_machine : StateMachine TestState :=
  allow_transition TRunning TDone (allow_transition TCreated TRunning (sm_new TCreated "u0")).

(** A codec that refuses every value, as one for maps without string keys does. *)
Definition refusing_serde : Serde unit :=
  {| to_vec _ := None; from_slice _ := None;
     to_vec_text _ := "key must be a string"; from_slice_text _ := "" |}.

Lemma cas_single_winner_witness :
  @transition _ _ _ test_display TDone 1 "u2" 8
    (@transition _ _ _ test_display TRunning 1 "u1" 7 ex_machine).2 =
  (Err (generation_conflict 1 2),
   (@transition _ _ _ test_display TRunning 1 "u1" 7 ex_machine).2).
Proof.
  eapply (@cas_single_winner _ _ _ test_display 1 TRunning TDone "u1" "u2" 7 8 ex_machine).
  reflexivity.
Defined.


Lemma unserializable_payload_not_rolled_back_witness :
  @transition_with_journal _ _ _ test_display ex_env _ refusing_serde ex_io
    TRunning 1 "u1" 7 "Workload" "w-1" "w-1" "kernel" (Some "k") tt
    (ex_machine, open_in_memory) =
  (Err (nous_error Internal "Failed to serialize payload: key must be a string"),
   (advance TRunning "u1" 7 ex_machine, open_in_memory)).
Proof.
  apply (@unserializable_payload_not_rolled_back _ _ _ test_display ex_env _ refusing_serde ex_io
    TRunning "u1" 7 "Workload" "w-1" "w-1" "kernel" (Some "k") tt ex_machine open_in_memory).
  - reflexivity.
  - right. simpl. set_solver.
  - reflexivity.
  - reflexivity.
Defined.
