(* ===== verification/Recovery.v ===== *)
(** * Crash recovery

    [crates/nous-state/src/recovery.rs]: the state rebuilt by replaying the
    journal, and the action chosen for every workload the crash interrupted. *)

From S2P Require Import Prelude Errors Journal.
Local Open Scope Z_scope.

Record RecoveryState : Type := mkRecoveryState {
  workload_phases : gmap string string;
  workload_generations : gmap string Z;
  active_workloads : list string;
  interrupted_workloads : list string;
  leased_workloads : list string;
  entries_replayed : Z;
  rs_max_sequence : Z
}.

(** [RecoveryState::default]. *)
Definition recovery_default : RecoveryState := mkRecoveryState ∅ ∅ [] [] [] 0 0.

(** The two [matches!] of the replay loop. *)
Definition is_terminal (phase : string) : bool :=
  bool_decide (phase ∈ ["REJECTED"; "SUCCEEDED"; "FAILED"; "CANCELLED"; "LOST"; "QUARANTINED"]).
Definition is_active_phase (phase : string) : bool :=
  bool_decide (phase ∈ ["ADMITTED"; "PLACED"; "PREPARING"; "RUNNING"; "QUIESCING";
                        "CHECKPOINTING"; "RECOVERING"]).

(** [Vec::retain(|id| id != x)], and a push guarded by [!contains]. *)
Definition remove_id (x : string) (l : list string) : list string := filter (λ id, id ≠ x) l.
Definition push_new (x : string) (l : list string) : list string :=
  if decide (x ∈ l) then l else l ++ [x].

(** One iteration of the loop of [replay_journal]. *)
Definition replay_entry (st : RecoveryState) (e : JournalEntry) : RecoveryState :=
  let n := wrap64 (entries_replayed st + 1) in
  if decide (je_object_type e = "Workload") then
    let id := je_object_id e in
    let term := is_terminal (je_new_phase e) in
    let active := if term then remove_id id (active_workloads st)
                  else push_new id (active_workloads st) in
    let interrupted := if term then remove_id id (interrupted_workloads st)
                       else interrupted_workloads st in
    let leased := if term then remove_id id (leased_workloads st) else leased_workloads st in
    mkRecoveryState
      (<[id := je_new_phase e]> (workload_phases st))
      (<[id := je_generation e]> (workload_generations st))
      active
      (if is_active_phase (je_new_phase e) then push_new id interrupted else interrupted)
      (if decide (je_entry_type e = Commit) then push_new id leased else leased)
      n (je_sequence e)
  else mkRecoveryState (workload_phases st) (workload_generations st) (active_workloads st)
         (interrupted_workloads st) (leased_workloads st) n (je_sequence e).

Definition replay (es : list JournalEntry) : RecoveryState := foldl replay_entry recovery_default es.

Inductive RecoveryAction : Type :=
| Resume (workload_id last_phase : string)
| Restart_ (workload_id : string)
| MarkLost (workload_id : string)
| MarkFailed (workload_id reason : string).

(** The body of the loop of [compute_recovery_actions]. *)
Definition recovery_action (st : RecoveryState) (workload_id : string) : RecoveryAction :=
  let current_phase := default "UNKNOWN" (workload_phases st !! workload_id) in
  let resumable_pre_execution :=
    bool_decide (current_phase ∈ ["ADMITTED"; "PLACED"; "PREPARING"]) in
  if bool_decide (workload_id ∈ leased_workloads st) || resumable_pre_execution
  then Resume workload_id current_phase
  else MarkLost workload_id.

(** [compute_recovery_actions]. *)
Definition compute_recovery_actions (st : RecoveryState) : list RecoveryAction :=
  recovery_action st <$> interrupted_workloads st.

Section Recover.
Context `{JournalEnv}.

(** [replay_journal] and [recover]. *)
Definition replay_journal (io : Io) (j : Journal) : result NousError RecoveryState :=
  es ← read_from io j 0; Ok (replay es).

Definition recover (io : Io) (j : Journal) :
    result NousError (RecoveryState * list RecoveryAction) :=
  st ← replay_journal io j; Ok (st, compute_recovery_actions st).
End Recover.

(** ** What replay computes *)

(** The records of one workload, in journal order. *)
Definition track (id : string) (es : list JournalEntry) : list JournalEntry :=
  filter (λ e, je_object_type e = "Workload" ∧ je_object_id e = id) es.

(** The records since the last terminal one, without it and with it. *)
Definition since (acc : list JournalEntry) (e : JournalEntry) : list JournalEntry :=
  if is_terminal (je_new_phase e) then [] else acc ++ [e].
Definition since_incl (acc : list JournalEntry) (e : JournalEntry) : list JournalEntry :=
  if is_terminal (je_new_phase e) then [e] else acc ++ [e].
Definition life (l : list JournalEntry) : list JournalEntry := foldl since [] l.
Definition life_incl (l : list JournalEntry) : list JournalEntry := foldl since_incl [] l.

Lemma elem_of_remove_id x y l : y ∈ remove_id x l ↔ y ≠ x ∧ y ∈ l.
Proof. unfold remove_id. by rewrite list_elem_of_filter. Qed.

Lemma elem_of_push_new x y l : y ∈ push_new x l ↔ y = x ∨ y ∈ l.
Proof. unfold push_new. case_decide; set_solver. Qed.

Lemma NoDup_remove_id x l : NoDup l → NoDup (remove_id x l).
Proof. apply NoDup_filter. Qed.

Lemma NoDup_push_new x l : NoDup l → NoDup (push_new x l).
Proof.
  intros Hl. unfold push_new. case_decide; [done|]. apply NoDup_app.
  split_and!; [done|set_solver|by apply NoDup_singleton].
Qed.

#[export] Hint Resolve NoDup_remove_id NoDup_push_new : apeir.

Lemma track_snoc id es e :
  track id (es ++ [e]) = track id es ++
    (if decide (je_object_type e = "Workload" ∧ je_object_id e = id) then [e] else []).
Proof.
  unfold track. by rewrite filter_app.
Qed.

Lemma terminal_not_active p : is_terminal p = true → is_active_phase p = false.
Proof.
  unfold is_terminal, is_active_phase. rewrite bool_decide_eq_true, bool_decide_eq_false.
  intros Hp Ha. set_unfold. intuition congruence.
Qed.

(** What the replayed state says of each workload, in terms of its records. *)
Record replay_spec (es : list JournalEntry) (st : RecoveryState) : Prop := {
  rp_phase : ∀ id, workload_phases st !! id = je_new_phase <$> last (track id es);
  rp_generation : ∀ id, workload_generations st !! id = je_generation <$> last (track id es);
  rp_active : ∀ id, id ∈ active_workloads st ↔ life (track id es) ≠ [];
  rp_interrupted : ∀ id, id ∈ interrupted_workloads st ↔
    Exists (λ e, is_active_phase (je_new_phase e) = true) (life (track id es));
  rp_leased : ∀ id, id ∈ leased_workloads st ↔
    Exists (λ e, je_entry_type e = Commit) (life_incl (track id es));
  rp_nodup : NoDup (active_workloads st) ∧ NoDup (interrupted_workloads st) ∧
    NoDup (leased_workloads st);
  rp_count : entries_replayed st = wrap64 (Z.of_nat (length es));
  rp_max : rs_max_sequence st = default 0 (je_sequence <$> last es)
}.

Lemma replay_spec_nil : replay_spec [] recovery_default.
Proof.
  split; simpl; intros; rewrite ?Exists_nil; try done; [set_solver..|].
  by split_and!; constructor.
Qed.

Lemma life_snoc l e : life (l ++ [e]) = since (life l) e.
Proof. unfold life. by rewrite foldl_app. Qed.
Lemma life_incl_snoc l e : life_incl (l ++ [e]) = since_incl (life_incl l) e.
Proof. unfold life_incl. by rewrite foldl_app. Qed.

Lemma count_succ n : wrap64 (wrap64 n + 1) = wrap64 (n + 1).
Proof. unfold wrap64. by rewrite Zplus_mod_idemp_l. Qed.

(** A record is about workload [id]. *)
Definition about (id : string) (e : JournalEntry) : Prop :=
  je_object_type e = "Workload" ∧ je_object_id e = id.
#[global] Instance about_dec id e : Decision (about id e).
Proof. unfold about. apply _. Defined.

Lemma track_other es e id : ¬ about id e → track id (es ++ [e]) = track id es.
Proof. intros Hn. rewrite track_snoc, decide_False by done. apply app_nil_r. Qed.

Lemma track_same es e id : about id e → track id (es ++ [e]) = track id es ++ [e].
Proof. intros Hn. by rewrite track_snoc, decide_True. Qed.

Ltac replay_cases :=
  repeat case_match; try case_decide;
  rewrite ?elem_of_push_new, ?elem_of_remove_id; naive_solver.

(** A record leaves alone what is known of the workloads it is not about. *)
Lemma replay_entry_other st e id :
  ¬ about id e →
  workload_phases (replay_entry st e) !! id = workload_phases st !! id ∧
  workload_generations (replay_entry st e) !! id = workload_generations st !! id ∧
  (id ∈ active_workloads (replay_entry st e) ↔ id ∈ active_workloads st) ∧
  (id ∈ interrupted_workloads (replay_entry st e) ↔ id ∈ interrupted_workloads st) ∧
  (id ∈ leased_workloads (replay_entry st e) ↔ id ∈ leased_workloads st).
Proof.
  intros Hn. unfold replay_entry. destruct (decide (je_object_type e = "Workload")); [|done].
  assert (id ≠ je_object_id e) by (unfold about in Hn; naive_solver). simpl.
  rewrite !lookup_insert_ne by done. split_and!; [done..| | |]; replay_cases.
Qed.

(** What a record says of the workload it is about. *)
Lemma replay_entry_same st e id :
  about id e →
  workload_phases (replay_entry st e) !! id = Some (je_new_phase e) ∧
  workload_generations (replay_entry st e) !! id = Some (je_generation e) ∧
  (id ∈ active_workloads (replay_entry st e) ↔ is_terminal (je_new_phase e) = false) ∧
  (id ∈ interrupted_workloads (replay_entry st e) ↔
     is_terminal (je_new_phase e) = false ∧
     (is_active_phase (je_new_phase e) = true ∨ id ∈ interrupted_workloads st)) ∧
  (id ∈ leased_workloads (replay_entry st e) ↔
     je_entry_type e = Commit ∨
     is_terminal (je_new_phase e) = false ∧ id ∈ leased_workloads st).
Proof.
  intros [Hw <-]. unfold replay_entry. rewrite decide_True by done. simpl.
  rewrite !lookup_insert_eq. split_and!; [done..| | |].
  - destruct (is_terminal _); rewrite ?elem_of_push_new, ?elem_of_remove_id; naive_solver.
  - destruct (is_terminal _) eqn:Ht; [rewrite (terminal_not_active _ Ht)|
      destruct (is_active_phase _)]; rewrite ?elem_of_push_new, ?elem_of_remove_id; naive_solver.
  - destruct (is_terminal _); case_decide;
      rewrite ?elem_of_push_new, ?elem_of_remove_id; naive_solver.
Qed.

Lemma replay_entry_nodup st e :
  NoDup (active_workloads st) ∧ NoDup (interrupted_workloads st) ∧ NoDup (leased_workloads st) →
  NoDup (active_workloads (replay_entry st e)) ∧
  NoDup (interrupted_workloads (replay_entry st e)) ∧ NoDup (leased_workloads (replay_entry st e)).
Proof.
  intros (? & ? & ?). unfold replay_entry. case_decide; [|done]. simpl.
  destruct (is_terminal _), (is_active_phase _); case_decide; auto 10 with apeir.
Qed.

Lemma replay_entry_counts st e :
  entries_replayed (replay_entry st e) = wrap64 (entries_replayed st + 1) ∧
  rs_max_sequence (replay_entry st e) = je_sequence e.
Proof. unfold replay_entry. by case_decide. Qed.

Lemma replay_spec_snoc es st e :
  replay_spec es st → replay_spec (es ++ [e]) (replay_entry st e).
Proof.
  intros [Hph Hgen Hact Hint Hlea Hnd Hcnt Hmax].
  split; try (intros id; destruct (decide (about id e)) as [Ha|Ha];
    [pose proof (replay_entry_same st e id Ha) as (E1 & E2 & E3 & E4 & E5);
     rewrite track_same, ?last_snoc, ?life_snoc, ?life_incl_snoc by done
    |pose proof (replay_entry_other st e id Ha) as (E1 & E2 & E3 & E4 & E5);
     rewrite track_other by done; rewrite ?E1, ?E2, ?E3, ?E4, ?E5; done || apply Hph]).
  - by rewrite E1.
  - by rewrite E2.
  - rewrite E3. unfold since. destruct (is_terminal _); [done|].
    split; [by destruct (life _)|done].
  - rewrite E4. unfold since. destruct (is_terminal _); [by rewrite Exists_nil; naive_solver|].
    rewrite Exists_app, Exists_cons, Exists_nil, <- Hint. naive_solver.
  - rewrite E5. unfold since_incl. destruct (is_terminal _);
      rewrite ?Exists_app, Exists_cons, Exists_nil, ?Hlea; naive_solver.
  - by apply replay_entry_nodup.
  - destruct (replay_entry_counts st e) as [-> _]. rewrite Hcnt, count_succ, length_app.
    f_equal. simpl. lia.
  - destruct (replay_entry_counts st e) as [_ ->]. by rewrite last_snoc.
Qed.

Lemma replay_ok es : replay_spec es (replay es).
Proof.
  induction es as [|e es IH] using rev_ind; [apply replay_spec_nil|].
  unfold replay. rewrite foldl_app. by apply replay_spec_snoc.
Qed.

(** ** Recovery as a whole *)

Definition action_id (a : RecoveryAction) : string :=
  match a with
  | Resume id _ | Restart_ id | MarkLost id | MarkFailed id _ => id
  end.

Lemma action_ids st : action_id <$> compute_recovery_actions st = interrupted_workloads st.
Proof.
  unfold compute_recovery_actions. rewrite <- list_fmap_compose.
  etrans; [|apply list_fmap_id]. apply list_fmap_ext. intros _ id _. simpl.
  unfold recovery_action. by case_match.
Qed.

(** The action the journal's records of a workload call for: none unless it
    reached a phase that holds resources since its last terminal record; then
    resumption from the last recorded phase if a commit was recorded or
    execution had not begun, and loss otherwise. *)
Definition action_for (id : string) (l : list JournalEntry) : option RecoveryAction :=
  if decide (Exists (λ e, is_active_phase (je_new_phase e) = true) (life l)) then
    let phase := default "UNKNOWN" (je_new_phase <$> last l) in
    Some (if decide (Exists (λ e, je_entry_type e = Commit) (life_incl l) ∨
                     phase ∈ ["ADMITTED"; "PLACED"; "PREPARING"])
          then Resume id phase else MarkLost id)
  else None.

Lemma recovery_action_spec es id st :
  replay_spec es st →
  (∃ a, a ∈ compute_recovery_actions st ∧ action_id a = id ∧ Some a = action_for id (track id es))
  ∨ (action_for id (track id es) = None ∧ id ∉ interrupted_workloads st).
Proof.
  intros Hs. unfold action_for. case_decide as Hi.
  - left. exists (recovery_action st id). apply (rp_interrupted _ _ Hs) in Hi. split_and!.
    + unfold compute_recovery_actions. by apply list_elem_of_fmap_2.
    + unfold recovery_action. by case_match.
    + unfold recovery_action. rewrite (rp_phase _ _ Hs).
      set (ph := default _ _). f_equal.
      rewrite (bool_decide_ext _ _ (rp_leased _ _ Hs id)), <- bool_decide_or.
      by case_bool_decide; case_decide.
  - right. split; [done|]. by rewrite (rp_interrupted _ _ Hs).
Qed.

(** The two phases in which the source's comment calls a workload interrupted. *)
Lemma elem_of_running p :
  Some p ∈ [Some "RUNNING"; Some "PREPARING"] → is_active_phase p = true ∧ is_terminal p = false.
Proof.
  intros [[= ->]|[[= ->]|?%not_elem_of_nil]%elem_of_cons]%elem_of_cons; by vm_compute.
Qed.

Section RecoverTheorems.
Context `{JournalEnv}.

Lemma recover_ok io j :
  journal_ok j → available_db io j →
  recover io j = Ok (replay (entries j), compute_recovery_actions (replay (entries j))).
Proof. intros Hok Hav. unfold recover, replay_journal. by rewrite read_from_0. Qed.

(** C28: What replay computes. On any well-formed journal replay succeeds, and the
    state it rebuilds is this function of every workload's records: phase and
    generation of the last record; active when its last record is not terminal;
    in [interrupted_workloads] when one of seven phases (ADMITTED, PLACED, PREPARING,
    RUNNING, QUIESCING, CHECKPOINTING, RECOVERING) was recorded since its last
    terminal record; in [leased_workloads] when a record of type Commit was written
    since, or as, its last terminal record; no list has duplicates. The workloads
    the source's comment calls interrupted, those last seen RUNNING or PREPARING, are
    among the interrupted ones, but not the only ones ([admitted_counts_as_interrupted]),
    and the leased ones are not those with a lease ([finished_counts_as_leased]). *)
Theorem replay_refines_records io j :
  journal_ok j → available_db io j →
  ∃ st, replay_journal io j = Ok st ∧ replay_spec (entries j) st ∧
    ∀ id, je_new_phase <$> last (track id (entries j)) ∈ [Some "RUNNING"; Some "PREPARING"] →
      id ∈ interrupted_workloads st.
Proof.
  intros Hok Hav. exists (replay (entries j)). pose proof (replay_ok (entries j)) as Hs.
  split_and!; [unfold replay_journal; by rewrite read_from_0|done|].
  intros id Hid. apply (rp_interrupted _ _ Hs).
  destruct (last (track id (entries j))) as [e|] eqn:Hl; [|set_solver].
  apply last_Some in Hl as [l ->]. rewrite life_snoc. apply elem_of_running in Hid as [Hact Hterm].
  unfold since. rewrite Hterm, Exists_app, Exists_cons. auto.
Qed.

(** One action per interrupted workload. Recovery yields at most one action
    for each workload, and for every workload exactly the one its records call
    for: none if it never reached a resource-holding phase since its last
    terminal record, else [Resume] from its last recorded phase when a commit
    was recorded or execution had not begun, else [MarkLost]. *)
Theorem recovery_actions_complete io j :
  journal_ok j → available_db io j →
  ∃ st acts, recover io j = Ok (st, acts) ∧ NoDup (action_id <$> acts) ∧
    ∀ id a, action_for id (track id (entries j)) = Some a ↔ a ∈ acts ∧ action_id a = id.
Proof.
  intros Hok Hav. pose proof (replay_ok (entries j)) as Hs.
  eexists _, _. split; [by apply recover_ok|].
  assert (NoDup (action_id <$> compute_recovery_actions (replay (entries j)))) as Hnd.
  { rewrite action_ids. apply Hs. }
  split; [done|]. intros id a.
  destruct (recovery_action_spec _ id _ Hs) as [(b & Hb & Hid & <-)|[Hn Hi]].
  - split; [naive_solver|]. intros [Ha Hida]. f_equal.
    apply list_elem_of_lookup in Ha as [i Hia], Hb as [k Hkb].
    assert (k = i) as ->; [|congruence].
    eapply NoDup_lookup; [exact Hnd|..]; rewrite list_lookup_fmap;
      [by rewrite Hkb; simpl; rewrite Hid|by rewrite Hia; simpl; rewrite Hida].
  - rewrite Hn. split; [done|]. intros [Ha Hida]. destruct Hi. rewrite <- action_ids, <- Hida.
    by apply list_elem_of_fmap_2.
Qed.

(** Recovery after a restart. If the kernel stops at any moment and the
    journal is reopened, recovery computes what it would have computed on the
    journal left behind. *)
Theorem recovery_survives_restart io j :
  journal_ok j → available_db io j →
  db_metadata (inner (conn j)) !! "format_version" = Some "2" →
  ∃ j', open no_open_faults (inner (conn j)) = Ok j' ∧ recover io j' = recover io j ∧
    journal_ok j' ∧ entries j' = entries j.
Proof.
  intros Hok Hav Hv. eexists. split; [by apply reopen_versioned|].
  assert (journal_ok (mkJournal (mutex_new (inner (conn j))) (mutex_new (next_seq j)))) as Hok'
    by (by destruct Hok; split).
  split_and!; [|done|done]. rewrite !recover_ok by (done || by split; [|apply Hav]). done.
Qed.
End RecoverTheorems.

(** ** Concrete journals *)

Definition ex_running : Journal :=
  (@append ex_env ex_io (mkEntry 0 "w-1" Transition "Workload" "w-1" (Some "VALIDATING") "RUNNING"
     2 [] "token-2" "test" None 0 []) ex_j2).2.

Lemma ex_running_ok : @journal_ok ex_env ex_running.
Proof.
  unfold ex_running. destruct (append _ _ _) as [r j'] eqn:E. simpl.
  eapply append_ok; [apply ex_j2_ok| |exact E]. by apply (bool_decide_unpack _).
Qed.

Lemma replay_refines_records_witness :
  ∃ st, @replay_journal ex_env ex_io ex_running = Ok st ∧ replay_spec (entries ex_running) st ∧
    ∀ id, je_new_phase <$> last (track id (entries ex_running))
            ∈ [Some "RUNNING"; Some "PREPARING"] → id ∈ interrupted_workloads st.
Proof.
  apply (@replay_refines_records ex_env ex_io ex_running).
  - apply ex_running_ok.
  - split; reflexivity.
Defined.

Lemma recovery_actions_complete_witness :
  ∃ st acts, @recover ex_env ex_io ex_running = Ok (st, acts) ∧ NoDup (action_id <$> acts) ∧
    ∀ id a, action_for id (track id (entries ex_running)) = Some a ↔
            a ∈ acts ∧ action_id a = id.
Proof.
  apply (@recovery_actions_complete ex_env ex_io ex_running).
  - apply ex_running_ok.
  - split; reflexivity.
Defined.

Example ex_running_lost :
  result_ok (snd <$> @recover ex_env ex_io ex_running) = Some [MarkLost "w-1"].
Proof. vm_compute. reflexivity. Qed.

Lemma recovery_survives_restart_witness :
  ∃ j', open (H := ex_env) no_open_faults (inner (conn ex_running)) = Ok j' ∧
    @recover ex_env ex_io j' = @recover ex_env ex_io ex_running ∧
    @journal_ok ex_env j' ∧ entries j' = entries ex_running.
Proof.
  apply (@recovery_survives_restart ex_env ex_io ex_running).
  - apply ex_running_ok.
  - split; reflexivity.
  - reflexivity.
Defined.

(** A workload that was only admitted, and one that finished with a commit. *)
Definition ex_record (t : EntryType) (phase : string) : JournalEntry :=
  mkEntry 1 "w-1" t "Workload" "w-1" None phase 1 [] "" "test" None 0 [].

Example admitted_counts_as_interrupted :
  interrupted_workloads (replay [ex_record Transition "ADMITTED"]) = ["w-1"].
Proof. reflexivity. Qed.

Example finished_counts_as_leased :
  leased_workloads (replay [ex_record Transition "RUNNING"; ex_record Commit "SUCCEEDED"]) = ["w-1"] ∧
  active_workloads (replay [ex_record Transition "RUNNING"; ex_record Commit "SUCCEEDED"]) = [].
Proof. split; reflexivity. Qed.
