(* ===== verification/Semantic.v ===== *)
(** * Journal-backed views

    [crates/nous-state/src/semantic.rs] and [execution_profile.rs]: semantic
    state held in memory with compare-and-swap writes that are journaled
    before they become visible, and execution profiles recorded as journal
    observations. *)

From S2P Require Import Prelude Errors Float64 Journal.
Local Open Scope Z_scope.

Inductive StateRepresentation : Type := Raw | Structured | Summary | Artifact.
#[global] Instance StateRepresentation_eq_dec : EqDecision StateRepresentation.
Proof. solve_decision. Defined.

(** [SemanticStateRecord]; [V] is [serde_json::Value]. *)
Record SemanticStateRecord (V : Type) : Type := mkSemantic {
  ss_state_id : string;
  ss_namespace : string;
  ss_semantic_type : string;
  ss_representation : StateRepresentation;
  ss_owner : string;
  ss_source_model_revision : string;
  ss_generation : Z;
  ss_value : V;
  ss_evidence_refs : list string;
  ss_updated_at_us : Z
}.
Arguments mkSemantic {V} _ _ _ _ _ _ _ _ _ _.
Arguments ss_state_id {V} _.
Arguments ss_namespace {V} _.
Arguments ss_semantic_type {V} _.
Arguments ss_representation {V} _.
Arguments ss_owner {V} _.
Arguments ss_source_model_revision {V} _.
Arguments ss_generation {V} _.
Arguments ss_value {V} _.
Arguments ss_evidence_refs {V} _.
Arguments ss_updated_at_us {V} _.

Definition SemanticStateFabric (V : Type) : Type := Mutex (gmap string (SemanticStateRecord V)).

Section Fabric.
Context {V : Type} `{JournalEnv} `{Serde (SemanticStateRecord V)}.
Abbreviation Rec := (SemanticStateRecord V).
Abbreviation Fabric := (SemanticStateFabric V).

Definition fabric_poisoned : NousError := nous_error Internal "semantic state lock is poisoned".

(** [SemanticStateFabric::new] and [get]. *)
Definition fabric_new : Fabric := mutex_new ∅.
Definition fabric_get (f : Fabric) (state_id : string) : option Rec :=
  m ← lock f; m !! state_id.

Definition stamp (generation now : Z) (r : Rec) : Rec :=
  mkSemantic (ss_state_id r) (ss_namespace r) (ss_semantic_type r) (ss_representation r)
    (ss_owner r) (ss_source_model_revision r) generation (ss_value r) (ss_evidence_refs r) now.

Definition generation_in (m : gmap string Rec) (state_id : string) : Z :=
  default 0 (ss_generation <$> m !! state_id).

Definition semantic_entry (current_generation : Z) (r : Rec) (payload : bytes)
    (actor idempotency_key : string) : JournalEntry :=
  mkEntry 0 (ss_state_id r) Commit "SemanticState" (ss_state_id r)
    (Some (if decide (current_generation = 0) then "ABSENT" else "ACTIVE")) "ACTIVE"
    (ss_generation r) payload
    ("semantic:" +:+ ss_state_id r +:+ ":" +:+ show_u (ss_generation r)) actor
    (Some idempotency_key) (ss_updated_at_us r) [].

Definition semantic_conflict (expected current : Z) : NousError :=
  nous_error WorkloadConflict ("Semantic state generation conflict: expected "
    +:+ show_u expected +:+ ", current " +:+ show_u current).

(** [SemanticStateFabric::put]; [now] is the time read. *)
Definition put (io : Io) (now : Z) (record : Rec) (expected_generation : Z)
    (actor idempotency_key : string) : M (Fabric * Journal) NousError Z := λ '(f, j),
  match lock f with
  | None => (Err fabric_poisoned, (f, j))
  | Some records =>
      let current_generation := generation_in records (ss_state_id record) in
      if decide (current_generation ≠ expected_generation) then
        (Err (semantic_conflict expected_generation current_generation), (f, j))
      else
        let record' := stamp (wrap64 (current_generation + 1)) now record in
        match to_vec record' with
        | None => (Err (nous_error Internal
                     ("Cannot encode semantic state: " +:+ to_vec_text record')), (f, j))
        | Some payload =>
            match append io (semantic_entry current_generation record' payload actor
                               idempotency_key) j with
            | (Err e, j') => (Err e, (f, j'))
            | (Ok sequence, j') =>
                (Ok sequence, (mutex_set (<[ss_state_id record := record']> records) f, j'))
            end
        end
  end.

#[local] Arguments put : simpl never.

(** One iteration of the loop of [SemanticStateFabric::replay]. *)
Definition replay_semantic_entry (f : Fabric) (e : JournalEntry) : result NousError Fabric :=
  if decide (je_object_type e = "SemanticState" ∧ je_entry_type e = Commit) then
    match from_slice (je_payload e) with
    | None => Err (nous_error DataLoss ("Invalid semantic state journal entry: "
                +:+ @from_slice_text Rec _ (je_payload e)))
    | Some record =>
        match lock f with
        | None => Err fabric_poisoned
        | Some m => Ok (mutex_set (<[ss_state_id record := record]> m) f)
        end
    end
  else Ok f.

Fixpoint replay_semantic_entries (f : Fabric) (es : list JournalEntry) : result NousError Fabric :=
  match es with
  | [] => Ok f
  | e :: es' => f' ← replay_semantic_entry f e; replay_semantic_entries f' es'
  end.

(** [SemanticStateFabric::replay]. *)
Definition replay_semantic (io : Io) (j : Journal) : result NousError Fabric :=
  es ← read_from io j 0; replay_semantic_entries fabric_new es.

(** ** One write *)

Lemma replay_semantic_snoc f es e f' :
  replay_semantic_entries f es = Ok f' →
  replay_semantic_entries f (es ++ [e]) = replay_semantic_entry f' e.
Proof.
  revert f. induction es as [|e' es IH]; intros f; simpl.
  - intros [= ->]. by destruct (replay_semantic_entry f' e).
  - destruct (replay_semantic_entry f e') as [f1|]; [|done]. simpl. apply IH.
Qed.

(** A write fails without effect, or passed the generation check and installs
    the next generation of its record; its journal record is appended, unless
    the idempotency key was used before. *)
Lemma put_cases io now r g actor key f j res f' j' :
  put io now r g actor key (f, j) = (res, (f', j')) →
  (∃ e, res = Err e ∧ f' = f ∧ j' = j) ∨
  (∃ m payload seq, let r' := stamp (wrap64 (g + 1)) now r in
     lock f = Some m ∧ generation_in m (ss_state_id r) = g ∧ to_vec r' = Some payload ∧
     res = Ok seq ∧ f' = mutex_set (<[ss_state_id r := r']> m) f ∧
     ((key_used j key ∧ j' = j) ∨
      (¬ key_used j key ∧ j' = push io (semantic_entry g r' payload actor key) j ∧
       next_seq j ≤ i64_max ∧ seq = next_seq j))).
Proof.
  unfold put. destruct (lock f) as [m|] eqn:Hl; [|naive_solver].
  case_decide as Hg; [naive_solver|].
  destruct (decide (generation_in m (ss_state_id r) = g)) as [<-|?]; [|done].
  destruct (to_vec _) as [payload|] eqn:Hp; [|naive_solver].
  destruct (append _ _ _) as [ra ja] eqn:Ha.
  apply append_cases in Ha
    as [(e & -> & ->)|[(k & row & Hk & Hrow & Hkr & -> & ->)|(-> & -> & Hn & Hk)]];
    intros [= <- <- <-]; [naive_solver| |]; right; eexists m, payload, _;
    (split_and!; [done..|]).
  - left. split; [|done]. injection Hk as <-. apply Exists_exists. eauto.
  - right. split_and!; [by apply Hk|done..].
Qed.

(** Compare and swap on semantic state: a write that succeeds was made against
    the current generation, is visible at once under the next generation, and
    touches no other state; a write that fails changes neither the view nor the
    journal. *)
Theorem semantic_put_cas io now r g actor key f j res f' j' :
  put io now r g actor key (f, j) = (res, (f', j')) →
  match res with
  | Err _ => f' = f ∧ j' = j
  | Ok _ =>
      default 0 (ss_generation <$> fabric_get f (ss_state_id r)) = g ∧
      fabric_get f' (ss_state_id r) = Some (stamp (wrap64 (g + 1)) now r) ∧
      ∀ id, id ≠ ss_state_id r → fabric_get f' id = fabric_get f id
  end.
Proof.
  intros Hp. apply put_cases in Hp
    as [(e & -> & -> & ->)|(m & payload & seq & Hl & Hg & _ & -> & -> & _)]; [done|].
  apply lock_Some in Hl as [Hp <-]. unfold fabric_get.
  rewrite lock_set by done. unfold lock. rewrite Hp. simpl. split_and!.
  - exact Hg.
  - apply lookup_insert_eq.
  - intros id Hid. by rewrite lookup_insert_ne.
Qed.

(** ** The view is what the journal says *)

(** The in-memory view is the one a restart would rebuild. *)
Definition view_of (f : Fabric) (j : Journal) : Prop :=
  poisoned f = false ∧ replay_semantic_entries fabric_new (entries j) = Ok f.

(** Steps of a kernel that uses each idempotency key for one write: semantic
    writes, of records whose encoding can be read back, under keys the journal has
    not seen, and appends of other components, each with whatever failures the
    storage engine has. *)
Inductive sem_step : Fabric * Journal → Fabric * Journal → Prop :=
| SemPut io now r g actor key f j :
    ¬ key_used j key → legible (stamp (wrap64 (g + 1)) now r) →
    sem_step (f, j) (put io now r g actor key (f, j)).2
| SemOther io e f j :
    je_object_type e ≠ "SemanticState" → entry_wf e →
    sem_step (f, j) (f, (append io e j).2).

Lemma view_of_push_other io e f j :
  je_object_type e ≠ "SemanticState" → view_of f j → view_of f (push io e j).
Proof.
  intros Hne [Hp Hv]. split; [done|]. rewrite entries_push.
  rewrite (replay_semantic_snoc _ _ _ _ Hv). unfold replay_semantic_entry.
  by rewrite decide_False by (simpl; naive_solver).
Qed.

Lemma view_of_put io now r g actor key f j :
  ¬ key_used j key → legible (stamp (wrap64 (g + 1)) now r) → view_of f j →
  view_of (put io now r g actor key (f, j)).2.1 (put io now r g actor key (f, j)).2.2.
Proof.
  intros Hk Hleg [Hp Hv]. destruct (put _ _ _ _ _ _ _) as [res [f' j']] eqn:E. simpl.
  apply put_cases in E
    as [(e & -> & -> & ->)|(m & payload & seq & Hl & Hg & Hpay & -> & -> & [[? ?]|(_ & -> & _)])];
    [done|done|].
  apply lock_Some in Hl as [_ <-]. split; [done|].
  rewrite entries_push, (replay_semantic_snoc _ _ _ _ Hv). unfold replay_semantic_entry.
  rewrite decide_True by done. simpl. rewrite (Hleg _ Hpay).
  unfold lock. by rewrite Hp.
Qed.

Lemma sem_step_ok s s' :
  sem_step s s' → journal_ok s.2 → view_of s.1 s.2 → journal_ok s'.2 ∧ view_of s'.1 s'.2.
Proof.
  intros [io now r g actor key f j Hk Hleg|io e f j Hne Hwf] Hok Hv; simpl in *.
  - split; [|by apply view_of_put].
    destruct (put _ _ _ _ _ _ _) as [res [f' j']] eqn:E. simpl. apply put_cases in E
      as [(e & -> & -> & ->)|(m & payload & seq & _ & _ & _ & -> & -> & [[_ ->]|(? & -> & ? & _)])];
      [done..|].
    apply push_ok; [done| |done|naive_solver]. apply wrap64_ok.
  - destruct (append io e j) as [res j'] eqn:E. simpl.
    split; [by eapply append_ok|]. apply append_cases in E
      as [(? & -> & ->)|[(? & ? & _ & _ & _ & -> & ->)|(-> & -> & _)]]; [done..|].
    by apply view_of_push_other.
Qed.

Lemma sem_reachable_ok s :
  rtc sem_step (fabric_new, open_in_memory) s → journal_ok s.2 ∧ view_of s.1 s.2.
Proof.
  revert s. apply (rtc_ind_r (R := sem_step) (λ s, journal_ok s.2 ∧ view_of s.1 s.2)).
  - split; [apply open_in_memory_ok|done].
  - intros s1 s2 _ Hstep [? ?]. by apply (sem_step_ok s1).
Qed.

(** C29: The materialized view equals the journal's replay. From an empty kernel,
    through any sequence of semantic writes and other components' appends, with any
    storage failures, rebuilding the view from the journal succeeds and gives exactly
    the view in memory: no acknowledged write is lost by a restart, and none appears
    that was not acknowledged. Each write is assumed to use its own idempotency key
    and a record that reads back from its encoding ([legible]), which one with a
    floating-point number or of a depth over 128 need not do. *)
Theorem semantic_view_is_replay f j io :
  rtc sem_step (fabric_new, open_in_memory) (f, j) → available_db io j →
  replay_semantic io j = Ok f.
Proof.
  intros [Hok [_ Hv]]%sem_reachable_ok Hav.
  unfold replay_semantic. by rewrite read_from_0.
Qed.

(** A record that does not read back, such as one whose value nests deeper than the
    decoder goes, is acknowledged and visible in memory like any other; from then on
    no restart can rebuild the view. *)
Theorem semantic_illegible_blocks_replay io now r m actor key f j payload :
  journal_ok j → io_usable io j → next_seq j ≤ i64_max → ¬ key_used j key → view_of f j →
  lock f = Some m → generation_in m (ss_state_id r) < i64_max →
  0 ≤ generation_in m (ss_state_id r) →
  let g := generation_in m (ss_state_id r) in
  to_vec (stamp (wrap64 (g + 1)) now r) = Some payload → @from_slice Rec _ payload = None →
  ∃ seq f' j' e, put io now r g actor key (f, j) = (Ok seq, (f', j')) ∧
    fabric_get f' (ss_state_id r) = Some (stamp (wrap64 (g + 1)) now r) ∧
    replay_semantic io j' = Err e.
Proof.
  intros Hok Hus Hn Hk [Hp Hv] Hl Hmax Hpos g Hpay Hnone. unfold put. rewrite Hl.
  rewrite decide_False by (intros Hne; by apply Hne). fold g. rewrite Hpay.
  set (e := semantic_entry g (stamp (wrap64 (g + 1)) now r) payload actor key).
  assert (wrap64 (g + 1) = g + 1) as Hw.
  { unfold wrap64. rewrite Z.mod_small; [done|]. unfold i64_max in Hmax. fold g in Hmax, Hpos. lia. }
  rewrite (append_commits io e j);
    [|done|done|simpl; rewrite Hw; fold g in Hmax; lia|done|by intros k [= <-]].
  assert (journal_ok (push io e j)) as Hok'.
  { apply push_ok; [done|apply wrap64_ok|done|]. intros k [= <-]. done. }
  do 4 eexists. split_and!; [done| |].
  - unfold fabric_get. rewrite lock_set by done. simpl. apply lookup_insert_eq.
  - unfold replay_semantic. rewrite read_from_0 by (done || split; apply Hus). simpl.
    rewrite entries_push, (replay_semantic_snoc _ _ _ _ Hv). unfold replay_semantic_entry.
    rewrite decide_True by done. simpl. rewrite Hnone. reflexivity.
Qed.

(** Reusing an idempotency key breaks that agreement: the write is
    acknowledged with the old record's sequence number and becomes visible in
    memory, but the journal is unchanged, so a restart rebuilds the view
    without it. *)
Theorem semantic_reused_key_lost io now r m actor key f j payload :
  journal_ok j → available_db io j → key_used j key → view_of f j → lock f = Some m →
  let g := generation_in m (ss_state_id r) in
  to_vec (stamp (wrap64 (g + 1)) now r) = Some payload →
  ∃ seq f', put io now r g actor key (f, j) = (Ok seq, (f', j)) ∧
    fabric_get f' (ss_state_id r) = Some (stamp (wrap64 (g + 1)) now r) ∧
    replay_semantic io j = Ok f.
Proof.
  intros Hok Hav Hk [Hp Hv] Hl g Hpay. unfold put. rewrite Hl.
  rewrite decide_False by (intros Hne; by apply Hne). fold g. rewrite Hpay.
  apply Exists_exists in Hk as (row & Hrow & Hkr).
  rewrite (append_replay _ _ _ key row) by done.
  eexists _, _. split_and!; [done| |].
  - unfold fabric_get. rewrite lock_set by done. simpl. apply lookup_insert_eq.
  - unfold replay_semantic. by rewrite read_from_0.
Qed.
End Fabric.

(** ** Execution profiles *)

Record ExecutionProfile : Type := mkProfile {
  ep_operation_id : string;
  ep_workload_id : string;
  ep_task_type : string;
  ep_task_class : string;
  ep_model : string;
  ep_provider : string;
  ep_execution_domain : string;
  ep_device : string;
  ep_latency_ms : Z;
  ep_queue_latency_ms : Z;
  ep_state_transfer_ms : option Z;
  ep_recovery_latency_ms : option Z;
  ep_cost_microcents : option Z;
  ep_failure_code : option string;
  ep_retry_count : Z;
  ep_recovered : bool;
  ep_quality_signal : option f64;
  ep_recorded_at_us : Z
}.

(** [ExecutionProfile::default]. *)
Definition ExecutionProfile_default : ExecutionProfile :=
  mkProfile "" "" "" "" "" "" "unknown" "" 0 0 None None None None 0 false None 0.

Definition set_recorded (now : Z) (p : ExecutionProfile) : ExecutionProfile :=
  mkProfile (ep_operation_id p) (ep_workload_id p) (ep_task_type p) (ep_task_class p)
    (ep_model p) (ep_provider p) (ep_execution_domain p) (ep_device p) (ep_latency_ms p)
    (ep_queue_latency_ms p) (ep_state_transfer_ms p) (ep_recovery_latency_ms p)
    (ep_cost_microcents p) (ep_failure_code p) (ep_retry_count p) (ep_recovered p)
    (ep_quality_signal p) now.

Definition profile_outcome (p : ExecutionProfile) : string :=
  match ep_failure_code p with Some _ => "FAILED" | None => "COMPLETED" end.

Definition profile_key (p : ExecutionProfile) : string :=
  "operation:" +:+ ep_operation_id p +:+ ":profile:" +:+ ep_provider p +:+ ":"
  +:+ profile_outcome p.

Definition profile_entry (p : ExecutionProfile) (payload : bytes) : JournalEntry :=
  mkEntry 0 (ep_workload_id p) Observation "ExecutionProfile"
    (ep_operation_id p +:+ ":" +:+ ep_provider p +:+ ":" +:+ profile_outcome p)
    None (profile_outcome p) 1 payload "" "kernel-runtime" (Some (profile_key p))
    (ep_recorded_at_us p) [].

Section Profiles.
Context `{JournalEnv} `{Serde ExecutionProfile}.

(** [ExecutionProfileStore::record]. *)
Definition record_profile (io : Io) (now : Z) (profile : ExecutionProfile) :
    M Journal NousError Z := λ j,
  let p := set_recorded now profile in
  match to_vec p with
  | None => (Err (nous_error Internal ("Cannot encode execution profile: " +:+ to_vec_text p)), j)
  | Some payload => append io (profile_entry p payload) j
  end.

(** The [map] and [collect] of [list]: the first undecodable record is the
    outcome. *)
Fixpoint decode_profiles (es : list JournalEntry) : result NousError (list ExecutionProfile) :=
  match es with
  | [] => Ok []
  | e :: es' =>
      p ← ok_or (from_slice (je_payload e))
            (nous_error DataLoss ("Invalid execution profile: "
               +:+ @from_slice_text ExecutionProfile _ (je_payload e)));
      ps ← decode_profiles es';
      Ok (p :: ps)
  end.

(** [ExecutionProfileStore::list]. *)
Definition list_profiles (io : Io) (j : Journal) : result NousError (list ExecutionProfile) :=
  es ← read_from io j 0;
  decode_profiles (filter (λ e, je_object_type e = "ExecutionProfile") es).

Lemma decode_profiles_snoc es e p ps :
  decode_profiles es = Ok ps → from_slice (je_payload e) = Some p →
  decode_profiles (es ++ [e]) = Ok (ps ++ [p]).
Proof.
  intros Hes He. revert ps Hes. induction es as [|e' es IH]; intros ps; simpl.
  - intros [= <-]. by rewrite He.
  - destruct (from_slice (je_payload e')); simpl; [|done].
    destruct (decode_profiles es); simpl; [|done]. intros [= <-]. by rewrite (IH _ eq_refl).
Qed.

Lemma list_profiles_ok io j :
  journal_ok j → available_db io j →
  list_profiles io j =
    decode_profiles (filter (λ e, je_object_type e = "ExecutionProfile") (entries j)).
Proof. intros Hok Hav. unfold list_profiles. by rewrite read_from_0. Qed.

(** Profiles are evidence: recording the first profile of an operation on a
    provider with an outcome adds it at the end of the listing and changes none
    of the earlier ones; recording another with the same operation, provider and
    outcome is acknowledged with the first one's sequence number and leaves the
    listing as it was. The first one must read back from its encoding, as every
    profile without a quality signal does. *)
Theorem profile_recorded_once io io' now now' p p' j b ps :
  journal_ok j → io_usable io j → io_query io' = None → next_seq j ≤ i64_max →
  ¬ key_used j (profile_key p) → profile_key p' = profile_key p →
  to_vec (set_recorded now p) = Some b → legible (set_recorded now p) → is_Some (to_vec (set_recorded now' p')) →
  list_profiles io j = Ok ps →
  ∃ j', record_profile io now p j = (Ok (next_seq j), j') ∧
    list_profiles io' j' = Ok (ps ++ [set_recorded now p]) ∧
    record_profile io' now' p' j' = (Ok (next_seq j), j').
Proof.
  intros Hok Hus Hq Hn Hk Heq Hb Hleg [b' Hb'] Hps.
  set (e := profile_entry (set_recorded now p) b). exists (push io e j).
  assert (journal_ok (push io e j)) as Hok'.
  { apply push_ok; [done|by apply (bool_decide_unpack _)|done|].
    intros k [= <-]. done. }
  assert (available_db io' (push io e j)) as Hav by (split; [apply Hus|done]).
  split_and!.
  - unfold record_profile. rewrite Hb. apply append_commits; try done.
    intros k [= <-]. done.
  - rewrite list_profiles_ok in Hps by (done || apply Hus).
    rewrite list_profiles_ok by done. rewrite entries_push, filter_app.
    rewrite (filter_cons_True (λ e, je_object_type e = "ExecutionProfile") (finalize _ _ e))
      by done.
    apply decode_profiles_snoc; [done|]. by apply Hleg.
  - unfold record_profile. rewrite Hb'.
    change (next_seq j) with (je_sequence (row_of (finalize (next_seq j) (io_now io) e))).
    apply (append_replay _ _ _ (profile_key p)); try done.
    + simpl. f_equal. exact Heq.
    + rewrite rows_push. set_solver.
Qed.
End Profiles.

(** ** Concrete states *)

#[global] Instance StateRepresentation_countable : Countable StateRepresentation.
Proof.
  refine (inj_countable'
    (λ s, match s with Raw => 0 | Structured => 1 | Summary => 2 | Artifact => 3 end)%nat
    (λ n, match n with 0 => Raw | 1 => Structured | 2 => Summary | _ => Artifact end)%nat _).
  by intros [].
Defined.

#[global] Instance SemanticStateRecord_eq_dec `{EqDecision V} :
  EqDecision (SemanticStateRecord V).
Proof. solve_decision. Defined.

#[global] Instance SemanticStateRecord_countable `{Countable V} :
  Countable (SemanticStateRecord V).
Proof.
  refine (inj_countable'
    (λ r, (ss_state_id r, ss_namespace r, ss_semantic_type r, ss_representation r, ss_owner r,
           ss_source_model_revision r, ss_generation r, ss_value r, ss_evidence_refs r,
           ss_updated_at_us r))
    (λ '(a, b, c, d, e, f, g, h, i, k), mkSemantic a b c d e f g h i k) _).
  by intros [].
Defined.

#[global] Instance ExecutionProfile_eq_dec : EqDecision ExecutionProfile.
Proof. solve_decision. Defined.

#[global] Instance ExecutionProfile_countable : Countable ExecutionProfile.
Proof.
  refine (inj_countable'
    (λ p, (ep_operation_id p, ep_workload_id p, ep_task_type p, ep_task_class p, ep_model p,
           ep_provider p, ep_execution_domain p, ep_device p, ep_latency_ms p,
           (ep_queue_latency_ms p, ep_state_transfer_ms p, ep_recovery_latency_ms p,
            ep_cost_microcents p, ep_failure_code p, ep_retry_count p, ep_recovered p,
            ep_quality_signal p, ep_recorded_at_us p)))
    (λ '(a, b, c, d, e, f, g, h, i, (k, l, m, n, o, q, r, s, t)),
       mkProfile a b c d e f g h i k l m n o q r s t) _).
  by intros [].
Defined.

Definition ex_record : SemanticStateRecord Z :=
  mkSemantic "machine:1" "factory" "MachineState" Structured "controller" "model-a" 0 42
    ["evidence:1"] 0.

Lemma semantic_put_cas_witness :
  default 0 (ss_generation <$> fabric_get (V := Z) fabric_new "machine:1") = 0 ∧
  fabric_get (@put Z ex_env (countable_serde _) ex_io 9 ex_record 0 "test" "semantic-1"
    (fabric_new, open_in_memory)).2.1 "machine:1" = Some (stamp 1 9 ex_record).
Proof.
  pose proof (@semantic_put_cas Z ex_env (countable_serde _) ex_io 9 ex_record 0 "test"
    "semantic-1" fabric_new open_in_memory _ _ _ eq_refl) as (H1 & H2 & _).
  split; [exact H1|exact H2].
Defined.

(** Documents as trees of texts, nested as arrays and objects are, and a codec that
    writes any and reads those up to depth 128. *)
Local Notation Tree := (gen_tree string).
Fixpoint tree_depth (v : Tree) : nat :=
  match v with
  | GenLeaf _ => 0
  | GenNode _ l => S (foldr (λ v n, Nat.max (tree_depth v) n) 0%nat l)
  end.
Definition shallow_serde : Serde (SemanticStateRecord Tree) := {|
  to_vec := @to_vec _ (countable_serde _);
  from_slice b := r ← @from_slice _ (countable_serde (SemanticStateRecord Tree)) b;
                  if decide (tree_depth (ss_value r) ≤ 128)%nat then Some r else None;
  to_vec_text _ := "";
  from_slice_text _ := "recursion limit exceeded"
|}.
Definition tree_record (v : Tree) : SemanticStateRecord Tree :=
  mkSemantic "machine:1" "factory" "MachineState" Structured "controller" "model-a" 0 v
    ["evidence:1"] 0.
Definition ex_tree : Tree := GenNode 1 [GenLeaf "speed"; GenNode 0 [GenLeaf "42"; GenLeaf "43"]].

Lemma shallow_read r b :
  @to_vec _ shallow_serde r = Some b →
  @from_slice _ shallow_serde b = if decide (tree_depth (ss_value r) ≤ 128)%nat then Some r else None.
Proof. intros Hb%countable_serde_laws. unfold from_slice. simpl in *. by rewrite Hb. Qed.
Lemma shallow_legible r :
  (tree_depth (ss_value r) ≤ 128)%nat → @legible _ shallow_serde r.
Proof. intros Hr b Hb. by rewrite (shallow_read _ _ Hb), decide_True. Qed.

Lemma semantic_view_is_replay_witness :
  let s := (@put Tree ex_env shallow_serde ex_io 9 (tree_record ex_tree) 0 "test" "semantic-1"
    (fabric_new, open_in_memory)).2 in
  @replay_semantic Tree ex_env shallow_serde ex_io s.2 = Ok s.1.
Proof.
  apply (@semantic_view_is_replay Tree ex_env shallow_serde).
  - apply rtc_once.
    apply (@SemPut Tree ex_env shallow_serde ex_io 9 (tree_record ex_tree) 0 "test" "semantic-1"
      fabric_new open_in_memory); [by apply (bool_decide_unpack _)|].
    apply shallow_legible, (bool_decide_unpack _). by vm_compute.
  - split; reflexivity.
Defined.

Definition deep_record : SemanticStateRecord Tree :=
  tree_record (Nat.iter 129 (λ v, GenNode 0 [v]) (GenLeaf "x")).
Lemma deep_record_illegible g now b :
  @to_vec _ shallow_serde (stamp g now deep_record) = Some b → @from_slice _ shallow_serde b = None.
Proof.
  intros Hb. rewrite (shallow_read _ _ Hb), decide_False; [done|].
  apply (bool_decide_unpack _). by vm_compute.
Qed.

Lemma semantic_illegible_blocks_replay_witness :
  ∃ seq f' j' e, @put Tree ex_env shallow_serde ex_io 9 deep_record 0 "test" "semantic-1"
      (fabric_new, open_in_memory) = (Ok seq, (f', j')) ∧
    fabric_get f' "machine:1" = Some (stamp 1 9 deep_record) ∧
    @replay_semantic Tree ex_env shallow_serde ex_io j' = Err e.
Proof.
  assert (generation_in (V := Tree) ∅ (ss_state_id deep_record) = 0) as Hg by reflexivity.
  assert (wrap64 (0 + 1) = 1) as Hw by reflexivity.
  pose proof (@semantic_illegible_blocks_replay Tree ex_env shallow_serde ex_io 9 deep_record ∅ "test"
    "semantic-1" fabric_new open_in_memory) as Hblocks.
  cbv zeta in Hblocks. rewrite Hg, Hw in Hblocks. eapply Hblocks.
  - apply open_in_memory_ok.
  - repeat split.
  - vm_compute. congruence.
  - by apply (bool_decide_unpack _).
  - split; reflexivity.
  - reflexivity.
  - vm_compute. congruence.
  - vm_compute. congruence.
  - reflexivity.
  - by eapply deep_record_illegible.
Defined.

Lemma semantic_reused_key_lost_witness :
  ∃ seq f', @put Z ex_env (countable_serde _) ex_io 9 ex_record 0 "test" "key-1"
      (fabric_new, ex_j1) = (Ok seq, (f', ex_j1)) ∧
    fabric_get f' "machine:1" = Some (stamp 1 9 ex_record) ∧
    @replay_semantic Z ex_env (countable_serde _) ex_io ex_j1 = Ok fabric_new.
Proof.
  assert (∀ P Q, P = Q → P → Q) as by_eq by (by intros ? ? ->).
  eapply by_eq; [|eapply (@semantic_reused_key_lost Z ex_env (countable_serde _) ex_io 9 ex_record ∅ "test"
    "key-1" fabric_new ex_j1)].
  - reflexivity.
  - apply ex_j1_ok.
  - split; reflexivity.
  - by apply (bool_decide_unpack _).
  - split; reflexivity.
  - reflexivity.
  - reflexivity.
Defined.

Lemma profile_recorded_once_witness :
  ∃ j', @record_profile ex_env (countable_serde _) ex_io 5 ExecutionProfile_default
      open_in_memory = (Ok 1, j') ∧
    @list_profiles ex_env (countable_serde _) ex_io j' =
      Ok [set_recorded 5 ExecutionProfile_default] ∧
    @record_profile ex_env (countable_serde _) ex_io 6 ExecutionProfile_default j' = (Ok 1, j').
Proof.
  eapply (@profile_recorded_once ex_env (countable_serde _) ex_io ex_io
    5 6 ExecutionProfile_default ExecutionProfile_default open_in_memory _ []).
  - apply open_in_memory_ok.
  - repeat split.
  - reflexivity.
  - vm_compute. congruence.
  - by apply (bool_decide_unpack _).
  - reflexivity.
  - reflexivity.
  - intros b. apply countable_serde_laws.
  - eexists. reflexivity.
  - reflexivity.
Defined.
