(* ===== verification/Lease.v ===== *)
(** * Resource leases

    [crates/nous-resource/src/lease.rs] and [ResourceLease] of
    [crates/nous-types/src/resource.rs]: leases granted per workload, fenced per
    resource, renewed, released and expired. Times are the clock readings of
    the calls; a scan of the table reads the clock once. The table's iteration
    order is a parameter. *)

From S2P Require Import Prelude Errors Resource Fencing.
Local Open Scope Z_scope.

Record ResourceLease : Type := mkLease {
  rl_lease_id : string;
  rl_workload_id : string;
  rl_principal_id : string;
  rl_reserved : ResourceVector;
  rl_node_id : string;
  rl_device_id : string;
  rl_granted_at : Z;
  rl_expires_at : Z;
  rl_generation : Z;
  rl_renewable : bool
}.

(** [ResourceLease::is_valid], [is_expired], [remaining]. *)
Definition lease_is_valid (now : Z) (l : ResourceLease) : bool :=
  bool_decide (now < rl_expires_at l).
Definition lease_is_expired (now : Z) (l : ResourceLease) : bool := negb (lease_is_valid now l).
Definition lease_remaining (now : Z) (l : ResourceLease) : Z :=
  if decide (now < rl_expires_at l) then rl_expires_at l - now else 0.

Record FencedLease : Type := mkFenced {
  fl_lease : ResourceLease;
  fl_fencing_token : string;
  fl_resource_key : string
}.

Record LeaseManager : Type := mkLeaseManager {
  lm_leases : Mutex (gmap string ResourceLease);
  lm_lease_tokens : Mutex (gmap string string);
  lm_resource_tokens : Mutex (gmap string string);
  lm_fencing : FencingToken;
  lm_default_duration : Z
}.

Definition leases (m : LeaseManager) : gmap string ResourceLease := inner (lm_leases m).
Definition lease_tokens (m : LeaseManager) : gmap string string := inner (lm_lease_tokens m).
Definition resource_tokens (m : LeaseManager) : gmap string string := inner (lm_resource_tokens m).

Definition set_leases (ls : gmap string ResourceLease) (m : LeaseManager) : LeaseManager :=
  mkLeaseManager (mutex_set ls (lm_leases m)) (lm_lease_tokens m) (lm_resource_tokens m)
    (lm_fencing m) (lm_default_duration m).
Definition set_lease_tokens (ts : gmap string string) (m : LeaseManager) : LeaseManager :=
  mkLeaseManager (lm_leases m) (mutex_set ts (lm_lease_tokens m)) (lm_resource_tokens m)
    (lm_fencing m) (lm_default_duration m).
Definition set_resource_tokens (ts : gmap string string) (m : LeaseManager) : LeaseManager :=
  mkLeaseManager (lm_leases m) (lm_lease_tokens m) (mutex_set ts (lm_resource_tokens m))
    (lm_fencing m) (lm_default_duration m).
Definition set_fencing (f : FencingToken) (m : LeaseManager) : LeaseManager :=
  mkLeaseManager (lm_leases m) (lm_lease_tokens m) (lm_resource_tokens m) f
    (lm_default_duration m).

(** [LeaseManager::new_with_duration]; [uuid] names the fencing domain. *)
Definition lease_manager_new (uuid : string) (duration : Z) : LeaseManager :=
  mkLeaseManager (mutex_new ∅) (mutex_new ∅) (mutex_new ∅) (fencing_new ("lease-" +:+ uuid))
    duration.

(** [lock_or_error]. *)
Definition lock_or_error {A} (mu : Mutex A) (name : string) : result NousError A :=
  ok_or (lock mu) (nous_error Internal (name +:+ " lock is poisoned")).

(** [LeaseManager::resource_key]. *)
Definition resource_key (node_id device_id : string) : string := node_id +:+ ":" +:+ device_id.

Definition lease_key (l : ResourceLease) : string := resource_key (rl_node_id l) (rl_device_id l).

(** The arguments of a grant. *)
Record LeaseRequest : Type := mkLeaseRequest {
  lq_workload_id : string;
  lq_principal_id : string;
  lq_resources : ResourceVector;
  lq_node_id : string;
  lq_device_id : string;
  lq_renewable : bool
}.

(** What a grant reads of its environment: the clock at its two scans and when
    it dates the lease, and the identifier it draws. *)
Record GrantIo : Type := mkGrantIo {
  gi_scan1 : Z;
  gi_now : Z;
  gi_scan2 : Z;
  gi_uuid : string
}.

(** [leases.values().any(..)]. *)
Definition has_active_lease (now : Z) (ls : gmap string ResourceLease) (workload_id : string) :
    bool :=
  existsb (λ '(_, l), bool_decide (rl_workload_id l = workload_id) && lease_is_valid now l)
    (map_to_list ls).

Definition already_leased (workload_id : string) : NousError :=
  nous_error AlreadyExists ("Workload '" +:+ workload_id +:+ "' already has an active lease").

(** The first block of [grant_internal], under its own lock. *)
Definition grant_check (now : Z) (q : LeaseRequest) : M LeaseManager NousError unit := λ m,
  match lock_or_error (lm_leases m) "lease" with
  | Err e => (Err e, m)
  | Ok ls =>
      if has_active_lease now ls (lq_workload_id q)
      then (Err (already_leased (lq_workload_id q)), m) else (Ok tt, m)
  end.

(** The lease a grant dates and numbers. *)
Definition new_lease (uuid : string) (now duration : Z) (q : LeaseRequest) : ResourceLease :=
  mkLease uuid (lq_workload_id q) (lq_principal_id q) (lq_resources q) (lq_node_id q)
    (lq_device_id q) now (now + duration) 1 (lq_renewable q).

(** The rest of [grant_internal]: the scan repeated and the insertion, under one
    lock. *)
Definition grant_insert (g : GrantIo) (q : LeaseRequest) : M LeaseManager NousError ResourceLease :=
  λ m,
  let lease := new_lease (gi_uuid g) (gi_now g) (lm_default_duration m) q in
  match lock_or_error (lm_leases m) "lease" with
  | Err e => (Err e, m)
  | Ok ls =>
      if has_active_lease (gi_scan2 g) ls (lq_workload_id q)
      then (Err (already_leased (lq_workload_id q)), m)
      else (Ok lease, set_leases (<[gi_uuid g := lease]> ls) m)
  end.

(** [LeaseManager::grant_internal]. *)
Definition grant_internal (g : GrantIo) (q : LeaseRequest) :
    M LeaseManager NousError ResourceLease :=
  _ ← grant_check (gi_scan1 g) q; grant_insert g q.

(** The three critical sections that follow in [grant_fenced]. *)
Definition draw_token : M LeaseManager NousError string := λ m,
  let '(t, f) := next (lm_fencing m) in (Ok t, set_fencing f m).

Definition store_lease_token (lease_id token : string) : M LeaseManager NousError unit := λ m,
  match lock_or_error (lm_lease_tokens m) "lease token" with
  | Err e => (Err e, m)
  | Ok ts => (Ok tt, set_lease_tokens (<[lease_id := token]> ts) m)
  end.

Definition store_resource_token (key token : string) : M LeaseManager NousError unit := λ m,
  match lock_or_error (lm_resource_tokens m) "resource token" with
  | Err e => (Err e, m)
  | Ok ts => (Ok tt, set_resource_tokens (<[key := token]> ts) m)
  end.

(** [LeaseManager::grant_fenced]. *)
Definition grant_fenced (g : GrantIo) (q : LeaseRequest) : M LeaseManager NousError FencedLease :=
  lease ← grant_internal g q;
  let key := resource_key (lq_node_id q) (lq_device_id q) in
  fencing_token ← draw_token;
  _ ← store_lease_token (rl_lease_id lease) fencing_token;
  _ ← store_resource_token key fencing_token;
  mret (mkFenced lease fencing_token key).

(** [LeaseManager::renew]; [valid_at] and [now] are its two clock readings. *)
Definition renew (valid_at now : Z) (lease_id : string) (expected_generation : Z) :
    M LeaseManager NousError ResourceLease := λ m,
  match lock_or_error (lm_leases m) "lease" with
  | Err e => (Err e, m)
  | Ok ls =>
      match ls !! lease_id with
      | None => (Err (nous_error NotFound ("Lease not found: " +:+ lease_id)), m)
      | Some l =>
          if decide (rl_generation l ≠ expected_generation) then
            (Err (nous_error LeaseConflict ("Lease generation conflict: expected "
               +:+ show_u expected_generation +:+ ", current " +:+ show_u (rl_generation l))), m)
          else if negb (lease_is_valid valid_at l) then
            (Err (nous_error LeaseExpired "Cannot renew expired lease"), m)
          else if negb (rl_renewable l) then
            (Err (nous_error FailedPrecondition "Lease is not renewable"), m)
          else
            let l' := mkLease (rl_lease_id l) (rl_workload_id l) (rl_principal_id l)
                        (rl_reserved l) (rl_node_id l) (rl_device_id l) (rl_granted_at l)
                        (now + lm_default_duration m) (wrap64 (rl_generation l + 1))
                        (rl_renewable l) in
            (Ok l', set_leases (<[lease_id := l']> ls) m)
      end
  end.

(** [LeaseManager::release] and [revoke]. *)
Definition release (lease_id : string) : M LeaseManager NousError unit := λ m,
  match lock_or_error (lm_leases m) "lease" with
  | Err e => (Err e, m)
  | Ok ls =>
      match ls !! lease_id with
      | None => (Err (nous_error NotFound ("Lease not found: " +:+ lease_id)), m)
      | Some _ =>
          let m1 := set_leases (delete lease_id ls) m in
          match lock_or_error (lm_lease_tokens m1) "lease token" with
          | Err e => (Err e, m1)
          | Ok ts => (Ok tt, set_lease_tokens (delete lease_id ts) m1)
          end
      end
  end.

Definition revoke (lease_id : string) : M LeaseManager NousError unit := release lease_id.

(** [LeaseManager::authorize]. *)
Definition authorize (now : Z) (m : LeaseManager) (lease_id provided_token : string) : bool :=
  match lock (lm_leases m) with
  | None => false
  | Some ls =>
      match ls !! lease_id with
      | None => false
      | Some lease =>
          if negb (lease_is_valid now lease) then false
          else match lock (lm_lease_tokens m) with
          | None => false
          | Some lts =>
              match lts !! lease_id with
              | None => false
              | Some assigned_token =>
                  match lock (lm_resource_tokens m) with
                  | None => false
                  | Some rts =>
                      match rts !! lease_key lease with
                      | None => false
                      | Some current =>
                          bool_decide (assigned_token = provided_token)
                          && is_token_valid current provided_token
                      end
                  end
              end
          end
      end
  end.

(** [LeaseManager::get]. *)
Definition lease_get (m : LeaseManager) (lease_id : string) : option ResourceLease :=
  ls ← lock (lm_leases m); ls !! lease_id.

(** [LeaseManager::try_active_count]. *)
Definition try_active_count (now : Z) (m : LeaseManager) : result NousError Z :=
  ls ← lock_or_error (lm_leases m) "lease";
  Ok (Z.of_nat (length (filter (λ '(_, l), lease_is_valid now l = true) (map_to_list ls)))).
Definition active_count (now : Z) (m : LeaseManager) : Z := unwrap_or (try_active_count now m) 0.

Section Iteration.
Context `{HashOrder}.

(** [LeaseManager::get_for_workload], [has_valid_lease]. *)
Definition get_for_workload (m : LeaseManager) (workload_id : string) : option ResourceLease :=
  ls ← lock (lm_leases m);
  snd ∘ snd <$> list_find (λ '(_, l), rl_workload_id l = workload_id) (hash_iter ls).

Definition has_valid_lease (now : Z) (m : LeaseManager) (workload_id : string) : bool :=
  match get_for_workload m workload_id with
  | Some l => lease_is_valid now l
  | None => false
  end.

(** [LeaseManager::try_expire_stale]: the workloads whose leases were dropped,
    in iteration order. The lock of the leases is given back before the tokens are
    removed. *)
Definition expire_leases (now : Z) : M LeaseManager NousError (list (string * ResourceLease)) := λ m,
  match lock_or_error (lm_leases m) "lease" with
  | Err e => (Err e, m)
  | Ok ls =>
      (Ok (filter (λ '(_, l), lease_is_expired now l = true) (hash_iter ls)),
       set_leases (filter (λ '(_, l), lease_is_expired now l = false) ls) m)
  end.
Definition drop_tokens (expired : list (string * ResourceLease)) :
    M LeaseManager NousError (list string) := λ m,
  match lock_or_error (lm_lease_tokens m) "lease token" with
  | Err e => (Err e, m)
  | Ok ts =>
      (Ok ((λ '(_, l), rl_workload_id l) <$> expired),
       set_lease_tokens (foldl (λ ts '(id, _), delete id ts) ts expired) m)
  end.
Definition try_expire_stale (now : Z) : M LeaseManager NousError (list string) :=
  expired ← expire_leases now; drop_tokens expired.

Definition expire_stale (now : Z) (m : LeaseManager) : list string * LeaseManager :=
  let '(r, m') := try_expire_stale now m in (unwrap_or r [], m').
End Iteration.

(** ** Interleaved clients

    Each critical section of a call is one atomic step; a grant in flight, or a
    sweep, remembers how far it got. The clock never runs backwards. *)

Inductive stage : Type :=
| Granted (l : ResourceLease)
| Drawn (l : ResourceLease) (token : string)
| Stored (l : ResourceLease) (token : string)
| Swept (expired : list (string * ResourceLease)).

Record lstate : Type := mkLs {
  ls_mgr : LeaseManager;
  ls_clock : Z;
  ls_flight : list stage
}.

Inductive lstep `{HashOrder} : lstate → lstate → Prop :=
| LTick m c c' fl : c ≤ c' → lstep (mkLs m c fl) (mkLs m c' fl)
| LInsert g q l m m' c fl :
    c ≤ gi_scan2 g → grant_insert g q m = (Ok l, m') →
    lstep (mkLs m c fl) (mkLs m' (gi_scan2 g) (fl ++ [Granted l]))
| LDraw l t m m' c fl1 fl2 :
    fence_value (lm_fencing m) < u64_max → draw_token m = (Ok t, m') →
    lstep (mkLs m c (fl1 ++ Granted l :: fl2)) (mkLs m' c (fl1 ++ Drawn l t :: fl2))
| LStoreLease l t m m' c fl1 fl2 :
    store_lease_token (rl_lease_id l) t m = (Ok tt, m') →
    lstep (mkLs m c (fl1 ++ Drawn l t :: fl2)) (mkLs m' c (fl1 ++ Stored l t :: fl2))
| LStoreResource l t m m' c fl1 fl2 :
    store_resource_token (lease_key l) t m = (Ok tt, m') →
    lstep (mkLs m c (fl1 ++ Stored l t :: fl2)) (mkLs m' c (fl1 ++ fl2))
| LAbandon x m c fl1 fl2 : lstep (mkLs m c (fl1 ++ x :: fl2)) (mkLs m c (fl1 ++ fl2))
| LRenew v n id gen r m m' c fl :
    c ≤ v → v ≤ n → renew v n id gen m = (r, m') → lstep (mkLs m c fl) (mkLs m' v fl)
| LRelease id r m m' c fl :
    release id m = (r, m') → lstep (mkLs m c fl) (mkLs m' c fl)
| LExpire now expired m m' c fl :
    c ≤ now → expire_leases now m = (Ok expired, m') →
    lstep (mkLs m c fl) (mkLs m' now (fl ++ [Swept expired]))
| LDropTokens expired r m m' c fl1 fl2 :
    drop_tokens expired m = (r, m') →
    lstep (mkLs m c (fl1 ++ Swept expired :: fl2)) (mkLs m' c (fl1 ++ fl2)).

Definition linit (uuid : string) (duration clock : Z) : lstate :=
  mkLs (lease_manager_new uuid duration) clock [].

(** *** What the operations change *)

Lemma lock_or_error_Ok {A} (mu : Mutex A) name a :
  lock_or_error mu name = Ok a → poisoned mu = false ∧ inner mu = a.
Proof. unfold lock_or_error, lock. destruct (poisoned mu); simpl; naive_solver. Qed.

Lemma has_active_lease_false now ls w :
  has_active_lease now ls w = false ↔
  ∀ id l, ls !! id = Some l → rl_workload_id l = w → rl_expires_at l ≤ now.
Proof.
  unfold has_active_lease. split.
  - intros He id l Hl Hw. destruct (decide (now < rl_expires_at l)) as [Hv|]; [|lia].
    assert (existsb (λ '(_, l), bool_decide (rl_workload_id l = w) && lease_is_valid now l)
      (map_to_list ls) = true); [|congruence].
    apply existsb_exists. exists (id, l). split.
    + by apply list_elem_of_In, elem_of_map_to_list.
    + unfold lease_is_valid. by rewrite !bool_decide_true.
  - intros Hall. apply not_true_is_false. intros ([id l] & Hin & Hb)%existsb_exists.
    apply list_elem_of_In, elem_of_map_to_list in Hin.
    apply andb_true_iff in Hb as [Hw Hv]. unfold lease_is_valid in Hv.
    apply bool_decide_eq_true in Hw, Hv. specialize (Hall _ _ Hin Hw). lia.
Qed.

Lemma grant_insert_Ok g q m l m' :
  grant_insert g q m = (Ok l, m') →
  l = new_lease (gi_uuid g) (gi_now g) (lm_default_duration m) q ∧
  m' = set_leases (<[gi_uuid g := l]> (leases m)) m ∧
  (∀ id l', leases m !! id = Some l' → rl_workload_id l' = lq_workload_id q →
            rl_expires_at l' ≤ gi_scan2 g).
Proof.
  unfold grant_insert. destruct (lock_or_error _ _) as [ls|] eqn:Hl; [|done].
  apply lock_or_error_Ok in Hl as [_ <-]. fold (leases m).
  destruct (has_active_lease _ _ _) eqn:Ha; [done|]. intros [= <- <-].
  split_and!; [done..|]. by apply has_active_lease_false.
Qed.

(** What a renewal may change of the lease table: one valid lease's expiry and
    generation. *)
Lemma renew_leases v n id gen m r m' :
  renew v n id gen m = (r, m') →
  lm_lease_tokens m' = lm_lease_tokens m ∧ lm_resource_tokens m' = lm_resource_tokens m ∧
  lm_fencing m' = lm_fencing m ∧
  (leases m' = leases m ∨
   ∃ l l', leases m !! id = Some l ∧ v < rl_expires_at l ∧ leases m' = <[id := l']> (leases m) ∧
     rl_workload_id l' = rl_workload_id l ∧ lease_key l' = lease_key l).
Proof.
  unfold renew. destruct (lock_or_error _ _) as [ls|] eqn:Hl; [|naive_solver].
  apply lock_or_error_Ok in Hl as [_ <-]. fold (leases m).
  destruct (leases m !! id) as [l|] eqn:El; [|naive_solver].
  case_decide; [naive_solver|].
  destruct (lease_is_valid v l) eqn:Ev; simpl; [|naive_solver].
  destruct (rl_renewable l); simpl; [|naive_solver].
  intros [= <- <-]. split_and!; [done..|]. right. eexists l, _.
  split_and!; [done|by apply bool_decide_eq_true in Ev|done..].
Qed.

Lemma release_changes id m r m' :
  release id m = (r, m') →
  leases m' ⊆ leases m ∧ lease_tokens m' ⊆ lease_tokens m ∧
  lm_resource_tokens m' = lm_resource_tokens m ∧ lm_fencing m' = lm_fencing m.
Proof.
  unfold release. destruct (lock_or_error _ _) as [ls|] eqn:Hl; [|naive_solver].
  apply lock_or_error_Ok in Hl as [_ <-].
  destruct (inner _ !! id); [|naive_solver].
  destruct (lock_or_error (lm_lease_tokens _) _) as [ts|] eqn:Ht; intros [= <- <-].
  - apply lock_or_error_Ok in Ht as [_ <-]. split_and!; [apply delete_subseteq..|done|done].
  - split_and!; [apply delete_subseteq|done..].
Qed.

Lemma foldl_delete_lookup {A} (ds : list (string * A)) (ts : gmap string string) id :
  foldl (λ ts '(d, _), delete d ts) ts ds !! id = if decide (id ∈ ds.*1) then None else ts !! id.
Proof.
  revert ts. induction ds as [|[d a] ds IH]; intros ts; [done|]. simpl. rewrite IH.
  destruct (decide (id = d)) as [->|].
  - rewrite lookup_delete_eq. rewrite (decide_True _ _ (P := d ∈ d :: _)) by set_solver.
    by case_decide.
  - rewrite lookup_delete_ne by done.
    destruct (decide (id ∈ ds.*1)); [rewrite decide_True|rewrite decide_False]; set_solver.
Qed.

Lemma expire_leases_changes `{HashOrder} now m r m' :
  expire_leases now m = (r, m') →
  leases m' ⊆ leases m ∧ lm_lease_tokens m' = lm_lease_tokens m ∧ lm_fencing m' = lm_fencing m.
Proof.
  unfold expire_leases. destruct (lock_or_error _ _) as [ls|] eqn:Hl; [|naive_solver].
  apply lock_or_error_Ok in Hl as [_ <-]. intros [= <- <-].
  split_and!; [apply map_filter_subseteq|done..].
Qed.
Lemma drop_tokens_changes expired m r m' :
  drop_tokens expired m = (r, m') →
  lm_leases m' = lm_leases m ∧ lease_tokens m' ⊆ lease_tokens m ∧ lm_fencing m' = lm_fencing m.
Proof.
  unfold drop_tokens. destruct (lock_or_error _ _) as [ts|] eqn:Ht; [|naive_solver].
  apply lock_or_error_Ok in Ht as [_ <-]. intros [= <- <-]. split_and!; [done| |done].
  apply map_subseteq_spec. intros i t. unfold lease_tokens. simpl.
  rewrite foldl_delete_lookup. by case_decide.
Qed.

(** *** At most one valid lease per workload *)

Definition exclusive (c : Z) (ls : gmap string ResourceLease) : Prop :=
  ∀ i k li lk, ls !! i = Some li → ls !! k = Some lk → rl_workload_id li = rl_workload_id lk →
    c < rl_expires_at li → c < rl_expires_at lk → i = k.

Lemma exclusive_later c c' ls : c ≤ c' → exclusive c ls → exclusive c' ls.
Proof. intros Hc He i k li lk Hi Hk Hw ? ?. eapply He; eauto; lia. Qed.

Lemma exclusive_subseteq c ls ls' : ls' ⊆ ls → exclusive c ls → exclusive c ls'.
Proof. rewrite map_subseteq_spec. intros Hs He i k li lk Hi Hk. eapply He; auto. Qed.

(** One entry may take any expiry as long as every other lease of its workload
    has run out. *)
Lemma exclusive_insert c ls id l :
  exclusive c ls →
  (∀ i li, i ≠ id → ls !! i = Some li → rl_workload_id li = rl_workload_id l →
           rl_expires_at li ≤ c) →
  exclusive c (<[id := l]> ls).
Proof.
  intros He Hrun i k li lk Hi Hk Hw Hvi Hvk.
  destruct (decide (i = id)) as [->|Hni], (decide (k = id)) as [->|Hnk]; [done|..].
  - rewrite lookup_insert_eq in Hi. rewrite lookup_insert_ne in Hk by done. simplify_eq.
    specialize (Hrun k lk Hnk Hk (eq_sym Hw)). lia.
  - rewrite lookup_insert_eq in Hk. rewrite lookup_insert_ne in Hi by done. simplify_eq.
    specialize (Hrun i li Hni Hi Hw). lia.
  - rewrite lookup_insert_ne in Hi, Hk by done. by eapply He.
Qed.

#[export] Hint Resolve exclusive_later exclusive_subseteq : apeir.

Lemma lstep_exclusive `{HashOrder} s s' :
  lstep s s' → exclusive (ls_clock s) (leases (ls_mgr s)) →
  exclusive (ls_clock s') (leases (ls_mgr s')).
Proof.
  destruct 1 as [m c c' fl Hc|g q l m m' c fl Hc Hg|l t m m' c fl1 fl2 _ Hd|
    l t m m' c fl1 fl2 Hs|l t m m' c fl1 fl2 Hs| |v n id gen r m m' c fl Hc Hn Hr|
    id r m m' c fl Hr|now ex m m' c fl Hc Hr|ex r m m' c fl1 fl2 Hr]; simpl; intros He; eauto with apeir.
  - apply grant_insert_Ok in Hg as (-> & -> & Hrun). simpl.
    apply exclusive_insert; [eauto with apeir|]. simpl. intros i li _. apply Hrun.
  - unfold draw_token, next in Hd. by simplify_eq.
  - unfold store_lease_token in Hs. destruct (lock_or_error _ _); by simplify_eq.
  - unfold store_resource_token in Hs. destruct (lock_or_error _ _); by simplify_eq.
  - apply renew_leases in Hr as (_ & _ & _ & [->|(l & l' & Hl & Hv & -> & Hw & _)]);
      [eauto with apeir|].
    apply exclusive_insert; [eauto with apeir|]. intros i li Hi Hli Hwi.
    destruct (decide (v < rl_expires_at li)); [|lia]. destruct Hi.
    apply (He i id li l); [done|done|congruence|lia|lia].
  - apply release_changes in Hr as (? & _). eauto with apeir.
  - apply expire_leases_changes in Hr as (? & _). eauto with apeir.
  - apply drop_tokens_changes in Hr as (Hl & _). unfold leases. by rewrite Hl.
Qed.

(** *** Tokens are held by one lease each *)

(** A token is held by a lease that stored it, or by a grant in flight. *)
Definition flight_holds (fl : list stage) (id t : string) : Prop :=
  Exists (λ x, match x with
               | Granted _ | Swept _ => False
               | Drawn l t' | Stored l t' => rl_lease_id l = id ∧ t' = t
               end) fl.

Definition holds (m : LeaseManager) (fl : list stage) (id t : string) : Prop :=
  lease_tokens m !! id = Some t ∨ flight_holds fl id t.

Record tokens_ok (m : LeaseManager) (fl : list stage) : Prop := {
  to_node : string_mem ":" (fence_node_id (lm_fencing m)) = false;
  to_fence : u64_ok (fence_value (lm_fencing m));
  to_issued : ∀ id t, holds m fl id t →
    ∃ v, t = render_token (fence_node_id (lm_fencing m)) v ∧
      0 ≤ v ≤ fence_value (lm_fencing m);
  to_unique : ∀ i k t, holds m fl i t → holds m fl k t → i = k
}.

Lemma flight_holds_app fl1 fl2 id t :
  flight_holds (fl1 ++ fl2) id t ↔ flight_holds fl1 id t ∨ flight_holds fl2 id t.
Proof. apply Exists_app. Qed.

Lemma flight_holds_mid fl1 x fl2 id t :
  flight_holds (fl1 ++ x :: fl2) id t ↔
  flight_holds fl1 id t ∨ flight_holds [x] id t ∨ flight_holds fl2 id t.
Proof. unfold flight_holds. rewrite Exists_app, !Exists_cons, Exists_nil. tauto. Qed.

Lemma flight_holds_nil id t : flight_holds [] id t ↔ False.
Proof. apply Exists_nil. Qed.
Lemma flight_holds_granted l id t : flight_holds [Granted l] id t ↔ False.
Proof. unfold flight_holds. rewrite Exists_cons, Exists_nil. tauto. Qed.
Lemma flight_holds_drawn l t' id t :
  flight_holds [Drawn l t'] id t ↔ rl_lease_id l = id ∧ t' = t.
Proof. unfold flight_holds. rewrite Exists_cons, Exists_nil. tauto. Qed.
Lemma flight_holds_stored l t' id t :
  flight_holds [Stored l t'] id t ↔ rl_lease_id l = id ∧ t' = t.
Proof. unfold flight_holds. rewrite Exists_cons, Exists_nil. tauto. Qed.

Lemma flight_holds_swept expired id t : flight_holds [Swept expired] id t ↔ False.
Proof. unfold flight_holds. rewrite Exists_cons, Exists_nil. tauto. Qed.

Ltac flight_simpl :=
  rewrite ?flight_holds_mid, ?flight_holds_app, ?flight_holds_nil, ?flight_holds_granted,
    ?flight_holds_drawn, ?flight_holds_stored, ?flight_holds_swept.

(** Anything that draws no token and lets no lease hold a new one keeps the
    invariant. *)
Lemma tokens_ok_mono m fl m' fl' :
  lm_fencing m' = lm_fencing m → (∀ id t, holds m' fl' id t → holds m fl id t) →
  tokens_ok m fl → tokens_ok m' fl'.
Proof. intros Hf Hh [? ? ? ?]. split; rewrite ?Hf; eauto. Qed.

Lemma tokens_ok_draw m m' l t fl1 fl2 :
  fence_value (lm_fencing m) < u64_max → draw_token m = (Ok t, m') →
  tokens_ok m (fl1 ++ Granted l :: fl2) → tokens_ok m' (fl1 ++ Drawn l t :: fl2).
Proof.
  intros Hlt Hd [Hn [Hf0 Hf1] Hi Hu]. unfold draw_token, next in Hd. simplify_eq.
  rewrite wrap64_succ by lia. set (v := fence_value (lm_fencing m)) in *.
  set (node := fence_node_id (lm_fencing m)) in *.
  assert (∀ id t, holds (set_fencing (mkFencing (v + 1) node) m)
      (fl1 ++ Drawn l (render_token node (v + 1)) :: fl2) id t →
    holds m (fl1 ++ Granted l :: fl2) id t ∨
    (rl_lease_id l = id ∧ t = render_token node (v + 1))) as Hnew.
  { intros id t. unfold holds. flight_simpl.
    change (lease_tokens (set_fencing _ m)) with (lease_tokens m). intuition auto. }
  assert (∀ id t, holds m (fl1 ++ Granted l :: fl2) id t → t ≠ render_token node (v + 1)) as Hold.
  { intros id t (w & -> & ? & ?)%Hi Heq. apply render_token_inj in Heq; [lia|done|..];
      unfold u64_ok; lia. }
  split; simpl; [done|unfold u64_ok; lia|..].
  - intros id t [(w & -> & ?)%Hi|[_ ->]]%Hnew; eexists; split; [done|lia|done|lia].
  - intros i k t [Hi1|[<- Hi1]]%Hnew [Hk1|[<- Hk1]]%Hnew; [by eapply Hu| | |done].
    + by destruct (Hold _ _ Hi1).
    + by destruct (Hold _ _ Hk1).
Qed.

Lemma tokens_ok_store m m' l t fl1 fl2 :
  store_lease_token (rl_lease_id l) t m = (Ok tt, m') →
  tokens_ok m (fl1 ++ Drawn l t :: fl2) → tokens_ok m' (fl1 ++ Stored l t :: fl2).
Proof.
  intros Hs. unfold store_lease_token in Hs.
  destruct (lock_or_error _ _) as [ts|] eqn:Hl; simplify_eq.
  apply lock_or_error_Ok in Hl as [_ <-]. apply tokens_ok_mono; [done|].
  intros id t'. unfold holds. flight_simpl. unfold lease_tokens. simpl.
  intros [[[<- <-]|[_ ?]]%lookup_insert_Some|?]; unfold holds; tauto.
Qed.

Lemma lstep_tokens_ok `{HashOrder} s s' :
  lstep s s' → tokens_ok (ls_mgr s) (ls_flight s) → tokens_ok (ls_mgr s') (ls_flight s').
Proof.
  destruct 1 as [m c c' fl Hc|g q l m m' c fl Hc Hg|l t m m' c fl1 fl2 Hlt Hd|
    l t m m' c fl1 fl2 Hs|l t m m' c fl1 fl2 Hs|x m c fl1 fl2|v n id gen r m m' c fl Hc Hn Hr|
    id r m m' c fl Hr|now ex m m' c fl Hc Hr|ex r m m' c fl1 fl2 Hr]; simpl.
  - done.
  - apply grant_insert_Ok in Hg as (-> & -> & _). apply tokens_ok_mono; [done|].
    intros id t. unfold holds. flight_simpl. tauto.
  - by apply tokens_ok_draw.
  - by apply tokens_ok_store.
  - unfold store_resource_token in Hs. destruct (lock_or_error _ _); simplify_eq.
    apply tokens_ok_mono; [done|]. intros id t'. unfold holds. flight_simpl. tauto.
  - apply tokens_ok_mono; [done|]. intros id t'. unfold holds. flight_simpl. tauto.
  - apply renew_leases in Hr as (Ht & _ & Hf & _). apply tokens_ok_mono; [done|].
    intros i t. unfold holds, lease_tokens. by rewrite Ht.
  - apply release_changes in Hr as (_ & Ht & _ & Hf). apply tokens_ok_mono; [done|].
    rewrite map_subseteq_spec in Ht. intros i t [?|?]; [left|right]; auto.
  - apply expire_leases_changes in Hr as (_ & Ht & Hf). apply tokens_ok_mono; [done|].
    intros i t. unfold holds, lease_tokens. rewrite Ht. flight_simpl. tauto.
  - apply drop_tokens_changes in Hr as (_ & Ht & Hf). apply tokens_ok_mono; [done|].
    rewrite map_subseteq_spec in Ht. intros i t. unfold holds. flight_simpl.
    intros [?|?]; [left; auto|tauto].
Qed.

Definition lease_inv (s : lstate) : Prop :=
  exclusive (ls_clock s) (leases (ls_mgr s)) ∧ tokens_ok (ls_mgr s) (ls_flight s).

Lemma linit_inv uuid d c : string_mem ":" uuid = false → lease_inv (linit uuid d c).
Proof.
  intros Hu. split; [by intros ? ? ? ? Hi|]. split; simpl.
  - exact Hu.
  - by apply (bool_decide_unpack _).
  - intros id t [Hh|Hh]; [done|by apply Exists_nil in Hh].
  - intros i k t [Hh|Hh]; [done|by apply Exists_nil in Hh].
Qed.

Lemma lease_reachable_inv `{HashOrder} s s' : lease_inv s → rtc lstep s s' → lease_inv s'.
Proof.
  induction 2 as [|s1 s2 s3 H12 _ IH]; [done|]. apply IH.
  match goal with Hi : lease_inv s1 |- _ => destruct Hi end.
  split; [by eapply lstep_exclusive|by eapply lstep_tokens_ok].
Qed.

(** *** Authority *)

Lemma authorize_spec now m id p :
  authorize now m id p = true ↔
  ∃ l cur, lock (lm_leases m) = Some (leases m) ∧ leases m !! id = Some l ∧
    now < rl_expires_at l ∧ lock (lm_lease_tokens m) = Some (lease_tokens m) ∧
    lease_tokens m !! id = Some p ∧ lock (lm_resource_tokens m) = Some (resource_tokens m) ∧
    resource_tokens m !! lease_key l = Some cur ∧ is_token_valid cur p = true.
Proof.
  unfold authorize. split.
  - intros Ha. repeat case_match; simplify_eq.
    repeat match goal with H : lock _ = Some _ |- _ => apply lock_Some in H as [? <-] end.
    apply andb_true_iff in Ha as [Hp Hv]. apply bool_decide_eq_true in Hp as ->.
    match goal with H : negb _ = false |- _ =>
      apply negb_false_iff, bool_decide_eq_true in H end.
    eexists _, _. split_and!; try done; unfold lock;
      match goal with H : poisoned _ = false |- _ => by rewrite H end.
  - intros (l & cur & -> & -> & Hv & -> & -> & -> & -> & Ht).
    unfold lease_is_valid. rewrite !bool_decide_true by done. simpl. exact Ht.
Qed.

(** Two leases whose tokens a resource accepts are the same lease. *)
Lemma authorize_exclusive m fl now1 now2 i k p q a b :
  tokens_ok m fl → leases m !! i = Some a → leases m !! k = Some b → lease_key a = lease_key b →
  authorize now1 m i p = true → authorize now2 m k q = true → i = k ∧ p = q.
Proof.
  intros [Hn [? ?] Hi Hu] Ha Hb Hkey
    (l & cur & _ & Hl & _ & _ & Hp & _ & Hcur & Hvp)%authorize_spec
    (l' & cur' & _ & Hl' & _ & _ & Hq & _ & Hcur' & Hvq)%authorize_spec.
  simplify_eq. rewrite Hkey in Hcur. simplify_eq.
  destruct (Hi i p) as (v & -> & ?); [by left|]. destruct (Hi k q) as (w & -> & ?); [by left|].
  assert (v = w) as ->.
  { apply is_token_valid_parse in Hvp as (? & ? & E1 & E2).
    apply is_token_valid_parse in Hvq as (? & ? & E3 & E4).
    rewrite !parse_render in * by (done || unfold u64_ok; lia). congruence. }
  split; [|done]. by eapply Hu; left.
Qed.

(** Workload exclusivity. However clients interleave their grants, renewals,
    releases and expiry sweeps, and as long as the clock does not run
    backwards, no workload ever has two leases that are valid at the same time. *)
Theorem one_valid_lease_per_workload `{HashOrder} uuid d c s now i k li lk :
  string_mem ":" uuid = false → rtc lstep (linit uuid d c) s → ls_clock s ≤ now →
  leases (ls_mgr s) !! i = Some li → leases (ls_mgr s) !! k = Some lk →
  rl_workload_id li = rl_workload_id lk →
  lease_is_valid now li = true → lease_is_valid now lk = true →
  i = k.
Proof.
  intros Hu Hr Hc Hi Hk Hw Hvi%bool_decide_eq_true Hvk%bool_decide_eq_true.
  destruct (lease_reachable_inv _ _ (linit_inv uuid d c Hu) Hr) as [He _].
  apply (He i k li lk Hi Hk Hw); lia.
Qed.

(** C3: Resource exclusivity. In every interleaving, at most one lease and one
    token are authorized for a resource: if two (lease, token) pairs on the same
    resource key are both accepted, even at different times in the same state,
    they are the same pair. *)
Theorem one_authorized_holder_per_resource `{HashOrder} uuid d c s now1 now2 i k p q li lk :
  string_mem ":" uuid = false → rtc lstep (linit uuid d c) s →
  leases (ls_mgr s) !! i = Some li → leases (ls_mgr s) !! k = Some lk →
  lease_key li = lease_key lk →
  authorize now1 (ls_mgr s) i p = true → authorize now2 (ls_mgr s) k q = true →
  i = k ∧ p = q.
Proof.
  intros Hu Hr Hi Hk Hkey.
  destruct (lease_reachable_inv _ _ (linit_inv uuid d c Hu) Hr) as [_ Ht].
  by eapply authorize_exclusive.
Qed.

(** What a successful fenced grant leaves behind. *)
Lemma grant_fenced_Ok g q m fl m' :
  grant_fenced g q m = (Ok fl, m') →
  let l := new_lease (gi_uuid g) (gi_now g) (lm_default_duration m) q in
  let t := render_token (fence_node_id (lm_fencing m)) (wrap64 (fence_value (lm_fencing m) + 1)) in
  fl = mkFenced l t (lease_key l) ∧
  ∃ m1, grant_insert g q m = (Ok l, m1) ∧
    m' = set_resource_tokens (<[lease_key l := t]> (resource_tokens m))
      (set_lease_tokens (<[gi_uuid g := t]> (lease_tokens m))
        (set_fencing (mkFencing (wrap64 (fence_value (lm_fencing m) + 1))
                                (fence_node_id (lm_fencing m))) m1)) ∧
    poisoned (lm_leases m) = false ∧ poisoned (lm_lease_tokens m) = false ∧
    poisoned (lm_resource_tokens m) = false.
Proof.
  intros (l & m1 & Hg & Hrest)%M_bind_inv_ok.
  apply M_bind_inv_ok in Hg as ([] & m0 & Hc & Hi).
  assert (m0 = m ∧ poisoned (lm_leases m) = false) as [-> Hp].
  { unfold grant_check in Hc. destruct (lock_or_error _ _) as [ls|] eqn:E; [|done].
    apply lock_or_error_Ok in E as [? _]. by destruct (has_active_lease _ _ _); simplify_eq. }
  pose proof Hi as (-> & -> & _)%grant_insert_Ok.
  apply M_bind_inv_ok in Hrest as (t & m2 & Ht & Hrest).
  unfold draw_token, next in Ht. simplify_eq.
  apply M_bind_inv_ok in Hrest as ([] & m3 & Hs1 & Hrest).
  unfold store_lease_token in Hs1. destruct (lock_or_error _ _) as [ts|] eqn:E1; simplify_eq.
  apply lock_or_error_Ok in E1 as [? <-].
  apply M_bind_inv_ok in Hrest as ([] & m4 & Hs2 & Hret).
  unfold store_resource_token in Hs2. destruct (lock_or_error _ _) as [ts|] eqn:E2; simplify_eq.
  apply lock_or_error_Ok in E2 as [? <-]. injection Hret as <- <-.
  split; [done|]. eexists. split; [exact Hi|]. done.
Qed.

Lemma tokens_ok_grant g q m fl m' flight :
  tokens_ok m flight → fence_value (lm_fencing m) < u64_max →
  grant_fenced g q m = (Ok fl, m') → tokens_ok m' flight.
Proof.
  intros Ht Hlt (-> & m1 & (_ & -> & _)%grant_insert_Ok & -> & _)%grant_fenced_Ok.
  set (l := new_lease _ _ _ _). set (m1 := set_leases _ m).
  assert (tokens_ok m1 (flight ++ [Granted l])) as Ht1.
  { eapply tokens_ok_mono; [| |exact Ht]; [done|]. intros id t. unfold holds. flight_simpl. tauto. }
  eapply tokens_ok_draw in Ht1; [|exact Hlt|reflexivity].
  eapply tokens_ok_mono; [| |exact Ht1]; [done|].
  intros id t. unfold holds. flight_simpl. unfold lease_tokens. simpl.
  intros [[[<- <-]|[_ ?]]%lookup_insert_Some|?]; tauto.
Qed.

(** Fencing. A successful grant makes its own token authorized for exactly
    the lifetime of the new lease, and from then on no other lease on the same
    resource is authorized with any token, even one that has not expired. *)
Theorem grant_fences_previous_holder `{HashOrder} uuid d c s g q fl m' :
  string_mem ":" uuid = false → rtc lstep (linit uuid d c) s →
  fence_value (lm_fencing (ls_mgr s)) < u64_max →
  grant_fenced g q (ls_mgr s) = (Ok fl, m') →
  (∀ now, authorize now m' (rl_lease_id (fl_lease fl)) (fl_fencing_token fl) =
          lease_is_valid now (fl_lease fl)) ∧
  (∀ now id l p, id ≠ rl_lease_id (fl_lease fl) → leases m' !! id = Some l →
     lease_key l = fl_resource_key fl → authorize now m' id p = false).
Proof.
  intros Hu Hr Hlt Hg.
  destruct (lease_reachable_inv _ _ (linit_inv uuid d c Hu) Hr) as [_ Ht].
  pose proof (tokens_ok_grant _ _ _ _ _ _ Ht Hlt Hg) as Ht'.
  apply grant_fenced_Ok in Hg as (-> & m1 & (_ & -> & _)%grant_insert_Ok & -> & H1 & H2 & H3).
  set (l := new_lease _ _ _ _) in *. set (t := render_token _ _) in *.
  match type of Ht' with tokens_ok ?m _ => set (m' := m) in * end.
  assert (∀ now, authorize now m' (gi_uuid g) t = lease_is_valid now l) as Hself.
  { intros now. unfold authorize, m', lock. simpl. rewrite H1, H2, H3. simpl.
    rewrite !lookup_insert_eq. destruct (lease_is_valid now l); simpl; [|done].
    rewrite bool_decide_true by done. unfold t.
    rewrite is_token_valid_render; [by rewrite bool_decide_true|apply Ht|apply wrap64_ok..]. }
  split; [exact Hself|]. simpl. intros now id l' p Hid Hl' Hkey.
  apply not_true_is_false. intros Ha. apply Hid.
  eapply (authorize_exclusive m' _ now (rl_expires_at l - 1) id (gi_uuid g) p t); try done.
  - unfold m'. simpl. apply lookup_insert_eq.
  - rewrite Hself. apply bool_decide_eq_true. lia.
Qed.

(** Authority ends. After a successful release or revocation of a lease no
    token is accepted for it, the other leases and their tokens are untouched,
    and releasing it again reports [NotFound]. *)
Theorem release_ends_authority id m m' :
  release id m = (Ok tt, m') →
  (∀ now p, authorize now m' id p = false) ∧
  (∀ now i p, i ≠ id → authorize now m' i p = authorize now m i p) ∧
  revoke id m' = (Err (nous_error NotFound ("Lease not found: " +:+ id)), m').
Proof.
  unfold release. destruct (lock_or_error _ _) as [ls|] eqn:Hl; [|done].
  destruct (ls !! id) eqn:Hid; [|done].
  destruct (lock_or_error (lm_lease_tokens _) _) as [ts|] eqn:Ht; [|done]. intros [= <-].
  apply lock_or_error_Ok in Hl as [Hp <-], Ht as [Hp' <-]. simpl in Hp'. split_and!.
  - intros now p. unfold authorize, lock. simpl. rewrite Hp. by rewrite lookup_delete_eq.
  - intros now i p Hi. unfold authorize, lock. simpl. rewrite Hp, Hp'.
    by rewrite !lookup_delete_ne.
  - unfold revoke, release, lock_or_error, lock. simpl. rewrite Hp. simpl.
    by rewrite lookup_delete_eq.
Qed.

(** ** Expiry sweeps and lookups by workload *)

Section Sweep.
Context `{HashOrder}.

Lemma elem_of_expired now ls id :
  id ∈ (filter (λ '(_, l), lease_is_expired now l = true) (hash_iter ls)).*1 ↔
  ∃ l, ls !! id = Some l ∧ rl_expires_at l ≤ now.
Proof.
  rewrite list_elem_of_fmap. split.
  - intros ([i l] & -> & [He Hin]%list_elem_of_filter). apply elem_of_hash_iter in Hin.
    apply negb_true_iff, bool_decide_eq_false in He. exists l. split; [done|lia].
  - intros (l & Hl & He). exists (id, l). split; [done|]. apply list_elem_of_filter.
    split; [|by apply elem_of_hash_iter]. apply negb_true_iff, bool_decide_eq_false. lia.
Qed.

(** A workload's lease found by [get_for_workload] is one of its leases, and
    one is found when there is any. *)
Lemma get_for_workload_spec m w :
  poisoned (lm_leases m) = false →
  match get_for_workload m w with
  | Some l => ∃ id, leases m !! id = Some l ∧ rl_workload_id l = w
  | None => ∀ id l, leases m !! id = Some l → rl_workload_id l ≠ w
  end.
Proof.
  intros Hp. unfold get_for_workload, lock. rewrite Hp. simpl. fold (leases m).
  destruct (list_find _ _) as [[n [id l]]|] eqn:Hf; simpl.
  - apply list_find_Some in Hf as (Hin & Hw & _). exists id. split; [|done].
    by apply elem_of_hash_iter, (list_elem_of_lookup_2 _ n).
  - intros id l Hl Hw. eapply list_find_None in Hf. rewrite Forall_forall in Hf.
    by apply (Hf (id, l)); [apply elem_of_hash_iter|].
Qed.

(** The sweep. [try_expire_stale] drops exactly the leases whose time has run
    out, together with their tokens, and reports the workload of each; after it,
    and until more leases run out, [has_valid_lease] answers exactly whether the
    workload has a valid lease, whatever the table's iteration order. *)
Theorem sweep_removes_exactly_expired now m ws m' :
  try_expire_stale now m = (Ok ws, m') →
  (∀ id l, leases m' !! id = Some l ↔ leases m !! id = Some l ∧ lease_is_valid now l = true) ∧
  (∀ id, lease_tokens m' !! id =
     if default true (lease_is_valid now <$> leases m !! id) then lease_tokens m !! id
     else None) ∧
  ws ≡ₚ (λ '(_, l), rl_workload_id l) <$>
          filter (λ '(_, l), lease_is_valid now l = false) (map_to_list (leases m)) ∧
  (∀ w, has_valid_lease now m' w = true ↔
     ∃ id l, leases m' !! id = Some l ∧ rl_workload_id l = w ∧ lease_is_valid now l = true).
Proof.
  unfold try_expire_stale, mbind, M_bind, expire_leases.
  destruct (lock_or_error (lm_leases m) _) as [ls|] eqn:Hl; [|done].
  apply lock_or_error_Ok in Hl as [Hp <-]. fold (leases m). unfold drop_tokens.
  destruct (lock_or_error (lm_lease_tokens _) _) as [ts|] eqn:Ht; [|done].
  apply lock_or_error_Ok in Ht as [_ <-]. intros [= <- <-].
  assert (∀ id l, filter (λ '(_, l), lease_is_expired now l = false) (leases m) !! id = Some l ↔
    leases m !! id = Some l ∧ lease_is_valid now l = true) as Hkeep.
  { intros id l. rewrite map_lookup_filter_Some. unfold lease_is_expired.
    by rewrite negb_false_iff. }
  split_and!.
  - exact Hkeep.
  - intros id. unfold lease_tokens. simpl. rewrite foldl_delete_lookup.
    pose proof (elem_of_expired now (leases m) id) as He.
    destruct (decide (id ∈ _)) as [Hin|Hin]; rewrite He in Hin.
    + destruct Hin as (l & -> & Hex). simpl. unfold lease_is_valid.
      by rewrite bool_decide_false by lia.
    + destruct (leases m !! id) as [l|]; [|done]. simpl. unfold lease_is_valid.
      rewrite bool_decide_true; [done|]. destruct (decide (now < rl_expires_at l)); [done|].
      destruct Hin. exists l. split; [done|lia].
  - apply Permutation_map'. rewrite hash_iter_perm.
    erewrite list_filter_iff; [reflexivity|]. intros [id l]. unfold lease_is_expired.
    by rewrite negb_true_iff.
  - intros w. set (m' := set_lease_tokens _ _). unfold has_valid_lease.
    pose proof (get_for_workload_spec m' w Hp) as Hw.
    destruct (get_for_workload m' w) as [l|].
    + destruct Hw as (id & Hid & Hw). pose proof Hid as [_ Hv]%Hkeep. naive_solver.
    + split; [done|]. intros (id & l & Hid & Hwl & _). by destruct (Hw _ _ Hid).
Qed.
End Sweep.

(** An iteration order that yields a chosen key first. *)
Definition first_order_iter (k : string) {V} (m : gmap string V) : list (string * V) :=
  match m !! k with
  | Some v => (k, v) :: map_to_list (delete k m)
  | None => map_to_list m
  end.

Lemma first_order_perm k {V} (m : gmap string V) : first_order_iter k m ≡ₚ map_to_list m.
Proof.
  unfold first_order_iter. destruct (m !! k) as [v|] eqn:E; [|done].
  by rewrite <- (map_to_list_delete m k v).
Qed.

Definition first_order (k : string) : HashOrder := {|
  hash_iter := @first_order_iter k;
  hash_iter_perm := @first_order_perm k
|}.

(** Before a sweep the answer depends on the table's iteration order: when a
    workload has both an expired lease and a valid one, some order makes
    [has_valid_lease] deny the valid lease, and some order finds it. *)
Theorem expired_lease_can_shadow_valid now m w ie iv le lv :
  poisoned (lm_leases m) = false →
  leases m !! ie = Some le → leases m !! iv = Some lv →
  rl_workload_id le = w → rl_workload_id lv = w →
  lease_is_valid now le = false → lease_is_valid now lv = true →
  @has_valid_lease (first_order ie) now m w = false ∧
  @has_valid_lease (first_order iv) now m w = true.
Proof.
  intros Hp He Hv Hwe Hwv Hve Hvv.
  assert (∀ k l, leases m !! k = Some l → rl_workload_id l = w →
    @has_valid_lease (first_order k) now m w = lease_is_valid now l) as Hfirst.
  { intros k l Hk Hw. unfold has_valid_lease, get_for_workload, lock. rewrite Hp. simpl.
    unfold first_order_iter. fold (leases m). rewrite Hk. simpl.
    by rewrite decide_True. }
  by rewrite (Hfirst _ _ He Hwe), (Hfirst _ _ Hv Hwv).
Qed.

(** ** Concrete managers *)

Definition ex_request (w node device : string) : LeaseRequest :=
  mkLeaseRequest w "principal" rv_zero node device true.
Definition ex_grant_io (t : Z) (uuid : string) : GrantIo := mkGrantIo t t t uuid.
Definition ex_mgr : LeaseManager :=
  (grant_fenced (ex_grant_io 5 "l1") (ex_request "w1" "n" "gpu0") (lease_manager_new "u" 60)).2.
Definition ex_lease : ResourceLease := new_lease "l1" 5 60 (ex_request "w1" "n" "gpu0").

Lemma ex_mgr_reachable : rtc (@lstep key_order) (linit "u" 60 0) (mkLs ex_mgr 5 []).
Proof.
  eapply rtc_l; [eapply (LInsert (ex_grant_io 5 "l1") (ex_request "w1" "n" "gpu0")); [done|reflexivity]|].
  eapply rtc_l; [eapply (LDraw _ _ _ _ _ [] []); [done|reflexivity]|].
  eapply rtc_l; [eapply (LStoreLease _ _ _ _ _ [] []); reflexivity|].
  eapply rtc_l; [eapply (LStoreResource _ _ _ _ _ [] []); reflexivity|].
  apply rtc_refl.
Qed.

Lemma one_valid_lease_per_workload_witness : "l1" = "l1".
Proof.
  apply (@one_valid_lease_per_workload key_order "u" 60 0 (mkLs ex_mgr 5 []) 7 "l1" "l1"
    ex_lease ex_lease).
  - reflexivity.
  - apply ex_mgr_reachable.
  - simpl. lia.
  - reflexivity.
  - reflexivity.
  - reflexivity.
  - reflexivity.
  - reflexivity.
Defined.

Lemma one_authorized_holder_per_resource_witness : "l1" = "l1" ∧ "lease-u:1" = "lease-u:1".
Proof.
  apply (@one_authorized_holder_per_resource key_order "u" 60 0 (mkLs ex_mgr 5 []) 7 8 "l1" "l1"
    "lease-u:1" "lease-u:1" ex_lease ex_lease).
  - reflexivity.
  - apply ex_mgr_reachable.
  - reflexivity.
  - reflexivity.
  - reflexivity.
  - reflexivity.
  - reflexivity.
Defined.

Definition ex_mgr2 : LeaseManager :=
  (grant_fenced (ex_grant_io 6 "l2") (ex_request "w2" "n" "gpu0") ex_mgr).2.

Lemma grant_fences_previous_holder_witness :
  authorize 7 ex_mgr "l1" "lease-u:1" = true ∧
  authorize 7 ex_mgr2 "l2" "lease-u:2" = true ∧ authorize 7 ex_mgr2 "l1" "lease-u:1" = false.
Proof.
  split; [reflexivity|].
  destruct (@grant_fences_previous_holder key_order "u" 60 0 (mkLs ex_mgr 5 [])
    (ex_grant_io 6 "l2") (ex_request "w2" "n" "gpu0")
    (mkFenced (new_lease "l2" 6 60 (ex_request "w2" "n" "gpu0")) "lease-u:2" "n:gpu0") ex_mgr2)
    as [H1 H2].
  - reflexivity.
  - apply ex_mgr_reachable.
  - reflexivity.
  - vm_compute. reflexivity.
  - split; [exact (H1 7)|].
    apply (H2 7 "l1" ex_lease); [discriminate|reflexivity|reflexivity].
Defined.

Lemma release_ends_authority_witness :
  authorize 7 ex_mgr "l1" "lease-u:1" = true ∧
  ∃ m', release "l1" ex_mgr = (Ok tt, m') ∧ authorize 7 m' "l1" "lease-u:1" = false.
Proof.
  split; [reflexivity|]. eexists. split; [reflexivity|].
  eapply (release_ends_authority "l1" ex_mgr). reflexivity.
Defined.

Lemma sweep_removes_exactly_expired_witness :
  ∃ ws m', @try_expire_stale key_order 65 ex_mgr = (Ok ws, m') ∧
    ∀ w, @has_valid_lease key_order 65 m' w = true ↔
      ∃ id l, leases m' !! id = Some l ∧ rl_workload_id l = w ∧ lease_is_valid 65 l = true.
Proof.
  eexists _, _. split; [reflexivity|].
  apply (@sweep_removes_exactly_expired key_order 65 ex_mgr _ _ eq_refl).
Defined.

Definition ex_two_leases : LeaseManager :=
  (grant_fenced (ex_grant_io 70 "l2") (ex_request "w1" "n" "gpu0") ex_mgr).2.

Lemma expired_lease_can_shadow_valid_witness :
  @has_valid_lease (first_order "l1") 71 ex_two_leases "w1" = false ∧
  @has_valid_lease (first_order "l2") 71 ex_two_leases "w1" = true.
Proof.
  apply (expired_lease_can_shadow_valid 71 ex_two_leases "w1" "l1" "l2" ex_lease
    (new_lease "l2" 70 60 (ex_request "w1" "n" "gpu0"))); reflexivity.
Defined.

(** A resource key does not delimit node from device: a grant on device
    [b:c] of node [a] fences the holder of device [c] of node [a:b]. *)
Example colliding_resource_keys :
  resource_key "a:b" "c" = resource_key "a" "b:c" ∧
  let m1 := (grant_fenced (ex_grant_io 5 "l1") (ex_request "w1" "a:b" "c")
               (lease_manager_new "u" 60)).2 in
  let m2 := (grant_fenced (ex_grant_io 6 "l2") (ex_request "w2" "a" "b:c") m1).2 in
  authorize 7 m1 "l1" "lease-u:1" = true ∧ authorize 7 m2 "l1" "lease-u:1" = false.
Proof. by vm_compute. Qed.
