(* ===== verification/Inventory.v ===== *)
(** * The objects the kernel keeps

    [crates/nous-types/src]: [node.rs], [device.rs], [engine.rs], [model.rs], the
    object around a workload ([workload.rs]), the records of checkpoints, events and
    audits, and the two tables of the foundation ([contracts.rs], [profile.rs]).
    Times are microseconds; floating-point fields are [f64]. *)

From S2P Require Import Prelude Float64 Resource Objects Workload Lease.
Local Open Scope Z_scope.

(** ** Kernel objects *)

(** Metadata, specification and status: the shape of every object. *)
Record KObject (Spec Status : Type) : Type := mkObject {
  ob_meta : ObjectMeta;
  ob_spec : Spec;
  ob_status : Status
}.
Arguments mkObject {_ _} _ _ _.
Arguments ob_meta {_ _} _.
Arguments ob_spec {_ _} _.
Arguments ob_status {_ _} _.

#[global] Instance kobject_kernel Spec Status : KernelObject (KObject Spec Status) Spec Status := {|
  ko_meta := ob_meta;
  ko_set_meta m o := mkObject m (ob_spec o) (ob_status o);
  ko_spec := ob_spec;
  ko_status := ob_status;
  ko_set_status st o := mkObject (ob_meta o) (ob_spec o) st
|}.
#[global] Instance kobject_laws Spec Status : KernelObjectLaws (KObject Spec Status) Spec Status.
Proof. by split. Qed.

(** *** Nodes *)

Inductive NodePhase : Type :=
| NP_Unknown | NP_Starting | NP_Ready | NP_Busy | NP_Draining | NP_Disconnected | NP_Failed.
Record NodeSpec : Type := mkNodeSpec {
  ns_hostname : string;
  ns_arch : string;
  ns_os : string;
  ns_capacity : ResourceVector;
  ns_roles : list string
}.
Record NodeStatus : Type := mkNodeStatus {
  nst_phase : NodePhase;
  nst_allocatable : ResourceVector;
  nst_devices : list string;
  nst_engines : list string;
  nst_active_workloads : list string;
  nst_last_heartbeat : option Z;
  nst_kernel_version : string;
  nst_conditions : list Condition
}.
Definition Node : Type := KObject NodeSpec NodeStatus.

(** *** Devices *)

Inductive DevicePhase : Type :=
| DP_Unknown | DP_Discovered | DP_Probed | DP_Bound | DP_Initialized | DP_Ready | DP_Allocating
| DP_Busy | DP_Draining | DP_Suspended | DP_Resetting | DP_Failed | DP_Unbound.
Record TopologyLink : Type := mkTopologyLink {
  tl_from_device_id : string;
  tl_to_device_id : string;
  tl_link_type : string;
  tl_bandwidth_bps : Z;
  tl_latency_ns : Z
}.
Record DeviceSpec : Type := mkDeviceSpec {
  ds_device_type : DeviceType;
  ds_vendor : string;
  ds_model : string;
  ds_driver_version : string;
  ds_total_resources : ResourceVector;
  ds_capabilities : list string
}.
Record DeviceStatus : Type := mkDeviceStatus {
  dst_phase : DevicePhase;
  dst_available : ResourceVector;
  dst_temperature_celsius : f64;
  dst_power_milliwatts : Z;
  dst_utilization_percent : f64;
  dst_active_engines : list string;
  dst_topology : option TopologyLink;
  dst_last_health_check : option Z;
  dst_conditions : list Condition
}.
Definition Device : Type := KObject DeviceSpec DeviceStatus.

(** *** Engines *)

Record PerformanceMetrics : Type := mkMetrics {
  pf_queue_time_us : Z;
  pf_admission_time_us : Z;
  pf_ttft_us : Z;
  pf_tpot_us : Z;
  pf_total_time_us : Z;
  pf_tokens_per_second : f64;
  pf_prefill_tokens : Z;
  pf_decode_tokens : Z;
  pf_total_tokens : Z;
  pf_peak_ram_bytes : Z;
  pf_peak_vram_bytes : Z;
  pf_kv_cache_used_bytes : Z;
  pf_vram_fragmentation : f64;
  pf_kv_hit_rate : f64;
  pf_prefix_hit_rate : f64;
  pf_cache_transfer_bytes : Z;
  pf_quality_score : f64;
  pf_fallback_rate : f64;
  pf_verification_attempts : Z;
  pf_energy_joules : f64;
  pf_thermal_throttled : bool;
  pf_retry_count : Z;
  pf_tool_failures : Z;
  pf_failure_reason : string
}.
Inductive EnginePhase : Type :=
| EP_Unknown | EP_Starting | EP_Ready | EP_LoadingModel | EP_Running | EP_Draining | EP_Stopping
| EP_Stopped | EP_Unhealthy.
Record EngineSpec : Type := mkEngineSpec {
  es_engine_type : string;
  es_version : string;
  es_capabilities : list string;
  es_supported_architectures : list string;
  es_supported_quantizations : list string;
  es_supports_streaming : bool;
  es_supports_batching : bool;
  es_supports_pause : bool;
  es_supports_snapshot : bool;
  es_device_requirements : option DeviceRequirements
}.
Record EngineStatus : Type := mkEngineStatus {
  est_phase : EnginePhase;
  est_process_id : string;
  est_loaded_models : list string;
  est_allocated : ResourceVector;
  est_metrics : option PerformanceMetrics;
  est_last_health_check : option Z;
  est_conditions : list Condition
}.
Definition Engine : Type := KObject EngineSpec EngineStatus.

(** *** Model packages *)

Inductive ModelLifecyclePhase : Type :=
| ML_Unknown | ML_Importing | ML_Imported | ML_Validating | ML_Validated | ML_Loading | ML_Loaded
| ML_Active | ML_Unloading | ML_Unloaded | ML_Removing | ML_Removed | ML_Failed | ML_Quarantined.
Record BenchmarkProfile : Type := mkBenchmark {
  bp_benchmark_name : string;
  bp_hardware_config : string;
  bp_engine : string;
  bp_tokens_per_second : f64;
  bp_ttft_ms : Z;
  bp_tpot_ms : Z;
  bp_memory_bytes : Z;
  bp_quality_score : f64;
  bp_run_at : option Z
}.
Record LoadOptions : Type := mkLoadOptions {
  lo_quantization_override : option string;
  lo_max_context_override : option Z;
  lo_kv_cache_bytes_override : option Z;
  lo_force_reload : bool
}.
Record ModelPackageSpec : Type := mkPackageSpec {
  mps_family : string;
  mps_architecture : string;
  mps_total_parameters : Z;
  mps_activated_parameters : Z;
  mps_layer_count : Z;
  mps_hidden_size : Z;
  mps_attention_type : string;
  mps_attention_heads : Z;
  mps_kv_heads : Z;
  mps_head_dimension : Z;
  mps_expert_count : Z;
  mps_active_experts : Z;
  mps_shared_experts : Z;
  mps_context_length : Z;
  mps_rope_parameters : string;
  mps_tokenizer : string;
  mps_modalities : list string;
  mps_vision_encoder : string;
  mps_audio_encoder : string;
  mps_weight_format : string;
  mps_weight_precision : string;
  mps_activation_precision : string;
  mps_quantization : string;
  mps_tensor_shapes : list string;
  mps_kv_bytes_per_token : Z;
  mps_supported_engines : list string;
  mps_supported_devices : list string;
  mps_required_operators : list string;
  mps_parallelism_support : list string;
  mps_memory_requirements : ResourceVector;
  mps_license : string;
  mps_source : string;
  mps_sha256 : bytes;
  mps_signature : bytes;
  mps_sbom : string;
  mps_security_status : string;
  mps_benchmark_profiles : list BenchmarkProfile
}.
Record ModelPackageStatus : Type := mkPackageStatus {
  mst_phase : ModelLifecyclePhase;
  mst_loaded_on_engines : list string;
  mst_loaded_on_devices : list string;
  mst_validated_at : option Z;
  mst_last_used_at : option Z;
  mst_conditions : list Condition
}.
Definition ModelPackage : Type := KObject ModelPackageSpec ModelPackageStatus.

(** *** Workloads *)

Record Checkpoint : Type := mkCheckpoint {
  ck_checkpoint_id : string;
  ck_workload_id : string;
  ck_sequence : Z;
  ck_state_snapshot : bytes;
  ck_node_id : string;
  ck_created_at : Z;
  ck_sha256 : bytes
}.
Record CheckpointRef : Type := mkCheckpointRef {
  kr_checkpoint_id : string;
  kr_sequence : Z;
  kr_created_at : option Z
}.
Record ErrorInfo : Type := mkErrorInfo {
  ei_error_code : string;
  ei_message : string;
  ei_failed_phase : string;
  ei_cause : string;
  ei_stack : list string;
  ei_retryable : bool
}.
Inductive RunPhase : Type :=
| RP_Created | RP_Preparing | RP_Executing | RP_Verifying | RP_Finalizing | RP_Completed | RP_Failed
| RP_Cancelled.
Inductive RunOutcome : Type :=
| RO_Unknown | RO_Success | RO_PartialSuccess | RO_Failure | RO_Cancelled | RO_TimedOut.
Inductive PhaseExecutionStatus : Type :=
| PX_Pending | PX_Running | PX_Completed | PX_Failed | PX_Skipped | PX_TimedOut.
Record PhaseExecution : Type := mkPhaseExecution {
  px_phase_node_id : string;
  px_phase_type : PhaseType;
  px_started_at : option Z;
  px_ended_at : option Z;
  px_status : PhaseExecutionStatus;
  px_engine_id : string;
  px_device_id : string;
  px_metrics : option PerformanceMetrics;
  px_error : option ErrorInfo;
  px_output_artifact_ref : option bytes
}.
Record Run : Type := mkRun {
  rn_run_id : string;
  rn_workload_id : string;
  rn_run_number : Z;
  rn_phase : RunPhase;
  rn_phases : list PhaseExecution;
  rn_consumed : ResourceVector;
  rn_started_at : option Z;
  rn_ended_at : option Z;
  rn_outcome : RunOutcome
}.
Record WorkloadStatus : Type := mkWorkloadStatus {
  wst_phase : WorkloadPhase;
  wst_current_phase_index : Z;
  wst_node_id : string;
  wst_engine_id : string;
  wst_model_revision : string;
  wst_lease : option ResourceLease;
  wst_runs : list Run;
  wst_latest_checkpoint : option CheckpointRef;
  wst_conditions : list Condition;
  wst_started_at : option Z;
  wst_completed_at : option Z;
  wst_metrics : option PerformanceMetrics;
  wst_error : option ErrorInfo
}.
Definition Workload : Type := KObject WorkloadSpec WorkloadStatus.

(** [WorkloadSpec::new_chat] and [new_agent]. *)
Definition spec_with (goal : string) (type : WorkloadType) (graph : ExecutionGraph) : WorkloadSpec :=
  let d := WorkloadSpec_default in
  mkWorkloadSpec (ws_workload_id d) (ws_idempotency_key d) (ws_schema_version d) (ws_principal_id d)
    (ws_namespace d) goal type graph (ws_model_requirements d) (ws_capability_requirements d)
    (ws_device_requirements d) (ws_quality_requirements d) (ws_security_requirements d)
    (ws_resource_requirements d) (ws_scheduling_class d) (ws_latency_slo d) (ws_deadline_us d)
    (ws_energy_budget d) (ws_cost_budget d) (ws_checkpoint_policy d) (ws_cancellation_policy d)
    (ws_retry_policy d) (ws_fallback_policy d) (ws_output_contract d).
Definition new_chat (goal : string) : WorkloadSpec :=
  spec_with goal WT_Chat (ws_execution_graph WorkloadSpec_default).
Definition new_agent (goal : string) (graph : ExecutionGraph) : WorkloadSpec :=
  spec_with goal WT_AgentProgram graph.

(** [Display for WorkloadType]. *)
Definition workload_type_text (t : WorkloadType) : string :=
  match t with
  | WT_Unspecified => "Unspecified" | WT_Chat => "Chat" | WT_Completion => "Completion"
  | WT_StructuredOutput => "StructuredOutput" | WT_Embedding => "Embedding" | WT_Rerank => "Rerank"
  | WT_Vision => "Vision" | WT_Speech => "Speech" | WT_ModelInference => "ModelInference"
  | WT_AgentProgram => "AgentProgram" | WT_Workflow => "Workflow"
  | WT_ToolExecution => "ToolExecution" | WT_Retrieval => "Retrieval"
  | WT_Evaluation => "Evaluation" | WT_Batch => "Batch" | WT_DeviceOperation => "DeviceOperation"
  | WT_ModelImport => "ModelImport" | WT_ModelCompile => "ModelCompile"
  | WT_Benchmark => "Benchmark" | WT_KernelCommand => "KernelCommand"
  end.

(** ** Records *)

Record Event : Type := mkEvent {
  ev_event_id : string;
  ev_workload_id : string;
  ev_sequence : Z;
  ev_event_type : string;
  ev_timestamp : Z;
  ev_actor : string;
  ev_payload : bytes;
  ev_phase : string;
  ev_trace_id : string
}.
Record AuditRecord : Type := mkAuditRecord {
  au_audit_id : string;
  au_workload_id : string;
  au_principal_id : string;
  au_action : string;
  au_decision : string;
  au_reason : string;
  au_context : bytes;
  au_timestamp : Z
}.

(** [crates/nous-security/src/lib.rs]: how a process is to be isolated. *)
Record LinuxIsolation : Type := mkLinuxIsolation {
  li_cgroup_profile : string;
  li_namespaces : list string;
  li_seccomp_profile : string;
  li_readonly_rootfs : bool;
  li_min_uid : Z;
  li_network_egress_filter : list string
}.
Record WindowsIsolation : Type := mkWindowsIsolation {
  wi_job_object_name : string;
  wi_app_container_sid : string;
  wi_restricted_token : bool;
  wi_named_pipe_acl : list string;
  wi_filesystem_acl : list string;
  wi_firewall_rules : list string
}.
Record IsolationProfile : Type := mkIsolation {
  ip_name : string;
  ip_linux_config : option LinuxIsolation;
  ip_windows_config : option WindowsIsolation
}.

(** ** The foundation *)

Inductive ContractId : Type := NEC | NSO | NTE | NRP | NPA | NKI | NMP | NCT | NLC | NSE.
#[global] Instance ContractId_eq_dec : EqDecision ContractId.
Proof. solve_decision. Defined.
Record ContractDescriptor : Type := mkDescriptor {
  cd_id : ContractId;
  cd_name : string;
  cd_version : Z;
  cd_authority : string
}.
Definition FOUNDATION_CONTRACTS : list ContractDescriptor :=
  [mkDescriptor NEC "Nous Execution Contract" 1 "nousd";
   mkDescriptor NSO "Nous State Ownership" 1 "nous-state journal";
   mkDescriptor NTE "Nous Transactional Effects" 1 "effect engine";
   mkDescriptor NRP "Nous Resource Protocol" 1 "resource and scheduler core";
   mkDescriptor NPA "Nous Provider ABI" 1 "provider host";
   mkDescriptor NKI "Nous Kernel Interface" 1 "nousd NKI server";
   mkDescriptor NMP "Nous Micro Protocol" 1 "Nous Micro runtime";
   mkDescriptor NCT "Nous Credential Contract" 1 "credential broker";
   mkDescriptor NLC "Nous Learning Contract" 1 "learning governance";
   mkDescriptor NSE "Nous Safety Envelope" 1 "safety gate"].

Inductive RuntimeProfile : Type := ProfileCore | ProfileEdge | ProfileMicro.
Record RuntimeProfileCapabilities : Type := mkCapabilities {
  rc_durable_journal : bool;
  rc_distributed_scheduling : bool;
  rc_transactional_effects : bool;
  rc_governed_learning : bool;
  rc_dynamic_allocation : bool
}.
Definition profile_capabilities (p : RuntimeProfile) : RuntimeProfileCapabilities :=
  match p with
  | ProfileCore => mkCapabilities true true true true true
  | ProfileEdge => mkCapabilities true false true false true
  | ProfileMicro => mkCapabilities false false true false false
  end.

(** ** Properties *)

(** Every status update in a row, each at its time. *)
Definition update_all `{KernelObject T Spec Status} (o : T) (us : list (Z * Status)) : T :=
  foldl (λ o u, update_status u.1 u.2 o) o us.

(** Whatever the kernel observes of an object, what was asked for stays: after any
    number of status updates of a node, device, engine, model package or workload
    its specification and identity are unchanged, its status is the last one
    written, and its generation counts the updates. *)
Theorem specification_never_changes `{KernelObjectLaws T Spec Status} (o : T) us :
  u64_ok (generation o) →
  ko_spec (update_all o us) = ko_spec o ∧ uid (update_all o us) = uid o ∧
  ko_status (update_all o us) = default (ko_status o) (last us.*2) ∧
  generation (update_all o us) = wrap64 (generation o + Z.of_nat (length us)).
Proof.
  intros Hg. induction us as [|[now st] us IH] using rev_ind.
  { split_and!; [done..|]. simpl. rewrite Z.add_0_r. by rewrite wrap64_id. }
  unfold update_all in *. rewrite foldl_snoc. simpl. unfold uid, generation in *.
  destruct (update_status_spec now st (foldl (λ o u, update_status u.1 u.2 o) o us)) as (-> & -> & ->).
  destruct IH as (-> & Hu & _ & Hn). split_and!; [done|done| |].
  - rewrite fmap_app. simpl. by rewrite last_snoc.
  - simpl. rewrite Hn, length_app. unfold wrap64. rewrite Zplus_mod_idemp_l. f_equal. simpl. lia.
Qed.

Definition ex_node : Node :=
  mkObject (meta_new "u" 1 "node" "ns" "owner") (mkNodeSpec "h" "x86_64" "linux" rv_zero ["worker"])
    (mkNodeStatus NP_Unknown rv_zero [] [] [] None "1" []).
Definition node_phase (p : NodePhase) : NodeStatus := mkNodeStatus p rv_zero [] [] [] None "1" [].
Lemma specification_never_changes_witness :
  let n := update_all ex_node [(5, node_phase NP_Starting); (9, node_phase NP_Ready)] in
  ko_spec n = ko_spec ex_node ∧ nst_phase (ko_status n) = NP_Ready ∧ generation n = 3.
Proof.
  intros n.
  destruct (specification_never_changes ex_node [(5, node_phase NP_Starting); (9, node_phase NP_Ready)])
    as (Hs & _ & Hst & Hg); [by vm_compute|].
  split_and!; [exact Hs|by unfold n; rewrite Hst|unfold n; rewrite Hg; reflexivity].
Defined.

(** The names of workload types tell them apart, and the foundation contracts have
    distinct identifiers, all at version 1. *)
Lemma workload_type_text_inj : Inj (=) (=) workload_type_text.
Proof. by intros [] []. Qed.
Lemma foundation_contracts_distinct :
  NoDup (cd_id <$> FOUNDATION_CONTRACTS) ∧ Forall (λ c, cd_version c = 1) FOUNDATION_CONTRACTS ∧
  ∀ i, i ∈ cd_id <$> FOUNDATION_CONTRACTS.
Proof.
  split_and!; [by apply (bool_decide_unpack _); vm_compute|by repeat constructor|].
  intros []; by apply (bool_decide_unpack _); vm_compute.
Qed.

(** Each profile includes what the smaller ones offer; effects are transactional in
    all of them. *)
Definition included (a b : RuntimeProfileCapabilities) : bool :=
  implb (rc_durable_journal a) (rc_durable_journal b)
  && implb (rc_distributed_scheduling a) (rc_distributed_scheduling b)
  && implb (rc_transactional_effects a) (rc_transactional_effects b)
  && implb (rc_governed_learning a) (rc_governed_learning b)
  && implb (rc_dynamic_allocation a) (rc_dynamic_allocation b).
Lemma profiles_nested :
  included (profile_capabilities ProfileMicro) (profile_capabilities ProfileEdge) = true ∧
  included (profile_capabilities ProfileEdge) (profile_capabilities ProfileCore) = true ∧
  ∀ p, rc_transactional_effects (profile_capabilities p) = true.
Proof. split_and!; [done..|by intros []]. Qed.

(** ** The C interface *)

(** [sdk/c/src/nous_kernel.c] and [sdk/c/include/nous_kernel.h]: the two tables for C
    programs. The numbers are those of the C enumerations; a flag is one byte. *)
Record profile_capabilities_v1 : Type := mkCaps {
  pc_struct_size : Z;
  pc_abi_version : Z;
  pc_durable_journal : Z;
  pc_distributed_scheduling : Z;
  pc_transactional_effects : Z;
  pc_governed_learning : Z;
  pc_dynamic_allocation : Z;
  pc_reserved : list Z
}.
Definition profile_capabilities_size : Z := 4 + 4 + 5 + 7.
Definition contract_version_v1 (contract : Z) : Z := if contract <=? 9 then 1 else 0.
Definition get_profile_capabilities_v1 (profile : Z) (output : option profile_capabilities_v1) :
    Z * option profile_capabilities_v1 :=
  match output with
  | None => (-1, output)
  | Some o =>
      if 2 <? profile then (-1, output)
      else if (pc_struct_size o <? profile_capabilities_size) || negb (pc_abi_version o =? 1)
      then (-2, output)
      else (0, Some (mkCaps (pc_struct_size o) (pc_abi_version o)
                       (Z.b2z (negb (profile =? 2))) (Z.b2z (profile =? 0)) 1
                       (Z.b2z (profile =? 0)) (Z.b2z (negb (profile =? 2))) (replicate 7 0)))
  end.

Definition contract_number (c : ContractId) : Z :=
  match c with
  | NEC => 0 | NSO => 1 | NTE => 2 | NRP => 3 | NPA => 4 | NKI => 5 | NMP => 6 | NCT => 7 | NLC => 8
  | NSE => 9
  end.
Definition profile_number (p : RuntimeProfile) : Z :=
  match p with ProfileCore => 0 | ProfileEdge => 1 | ProfileMicro => 2 end.

(** The C tables are the Rust tables: the version of every contract, the capabilities
    of every profile, and an error with the output untouched for everything else. *)
Theorem c_tables_agree :
  (∀ c, c ∈ FOUNDATION_CONTRACTS → contract_version_v1 (contract_number (cd_id c)) = cd_version c) ∧
  (∀ p o, profile_capabilities_size ≤ pc_struct_size o → pc_abi_version o = 1 →
     let caps := profile_capabilities p in
     get_profile_capabilities_v1 (profile_number p) (Some o) =
       (0, Some (mkCaps (pc_struct_size o) 1 (Z.b2z (rc_durable_journal caps))
                   (Z.b2z (rc_distributed_scheduling caps)) (Z.b2z (rc_transactional_effects caps))
                   (Z.b2z (rc_governed_learning caps)) (Z.b2z (rc_dynamic_allocation caps))
                   (replicate 7 0)))) ∧
  ∀ n o, (get_profile_capabilities_v1 n o).1 ≠ 0 → (get_profile_capabilities_v1 n o).2 = o.
Proof.
  split_and!.
  - assert (Forall (λ c, contract_version_v1 (contract_number (cd_id c)) = cd_version c)
              FOUNDATION_CONTRACTS) as Hall by by repeat constructor.
    by apply Forall_forall.
  - intros p o Hs Hv. unfold get_profile_capabilities_v1. rewrite Hv.
    rewrite (proj2 (Z.ltb_ge _ _)) by (by destruct p).
    rewrite (proj2 (Z.ltb_ge _ _)) by done. by destruct p.
  - intros n [o|]; [|done]. simpl. destruct (2 <? n); [done|]. by destruct (_ || _).
Qed.
