(* ===== verification/Admission.v ===== *)
(** * Admission control

    [crates/nous-resource/src/admission.rs]: the decision whether a workload is
    accepted, made in the order deadline, feasibility, availability, security. *)

From S2P Require Import Prelude Errors Resource Workload.
Local Open Scope Z_scope.

Inductive AdmissionDecision : Type :=
| DecisionAdmitted
| DecisionRejected (reason : string) (missing_requirements : list string)
| DecisionInfeasible (reason : string) (required capacity : ResourceVector).

Record AdmissionController : Type := mkAdmission { system_domain : ResourceDomain }.

(** [AdmissionController::validate_security]. *)
Definition validate_security (sec : SecurityRequirements) : result (list string) unit :=
  let issues :=
    (if sr_allow_network_access sec && bool_decide (sr_allowed_hosts sec = [])
     then ["Network access allowed but no allowed_hosts specified"] else [])
    ++ (if sr_allow_file_access sec && bool_decide (sr_allowed_paths sec = [])
        then ["File access allowed but no allowed_paths specified"] else []) in
  if decide (issues = []) then Ok tt else Err issues.

Definition shortage (name : string) (need have : Z) : list string :=
  if decide (have < need)
  then [name +:+ ": need " +:+ show_u need +:+ " bytes, have " +:+ show_u have +:+ " bytes"]
  else [].

(** [AdmissionController::admit] at time [now_us]. *)
Definition admit_workload (c : AdmissionController) (now_us : Z) (spec : WorkloadSpec) :
    AdmissionDecision :=
  let required := rr_minimum (ws_resource_requirements spec) in
  if decide (0 < ws_deadline_us spec ∧ ws_deadline_us spec < now_us) then
    DecisionRejected
      ("Deadline expired: deadline=" +:+ show_i (ws_deadline_us spec) +:+ "us, now="
       +:+ show_i now_us +:+ "us (" +:+ show_i (now_us - ws_deadline_us spec) +:+ "us past)")
      ["valid_deadline"]
  else if negb (fits_within required (capacity (system_domain c))) then
    DecisionInfeasible "Required resources exceed system capacity" required
      (capacity (system_domain c))
  else if negb (can_fit (system_domain c) required) then
    let avail := available (system_domain c) in
    DecisionRejected "Insufficient resources"
      (shortage "RAM" (ram_bytes required) (ram_bytes avail)
       ++ shortage "VRAM" (device_memory_bytes required) (device_memory_bytes avail)
       ++ shortage "KV Cache" (kv_cache_bytes required) (kv_cache_bytes avail))
  else match validate_security (ws_security_requirements spec) with
  | Err missing => DecisionRejected "Security requirements not met" missing
  | Ok _ => DecisionAdmitted
  end.

(** ** What each decision means *)

Definition deadline_open (now_us : Z) (spec : WorkloadSpec) : Prop :=
  ws_deadline_us spec ≤ 0 ∨ now_us ≤ ws_deadline_us spec.

Definition scoped_access (sec : SecurityRequirements) : Prop :=
  (sr_allow_network_access sec = true → sr_allowed_hosts sec ≠ []) ∧
  (sr_allow_file_access sec = true → sr_allowed_paths sec ≠ []).

Lemma validate_security_Ok sec : validate_security sec = Ok tt ↔ scoped_access sec.
Proof.
  unfold validate_security, scoped_access.
  destruct (sr_allow_network_access sec), (sr_allow_file_access sec),
    (sr_allowed_hosts sec), (sr_allowed_paths sec); simpl; naive_solver.
Qed.

Lemma deadline_open_dec now spec :
  deadline_open now spec ↔ ¬ (0 < ws_deadline_us spec ∧ ws_deadline_us spec < now).
Proof. unfold deadline_open. lia. Qed.

(** Admission is exact. A workload is admitted if and only if its deadline has
    not passed, its minimum needs fit the system's capacity and what is free of
    it, and every access it asks for is scoped to hosts or paths; it is
    infeasible if and only if its deadline is open and it could never fit, and
    rejected in every other case. *)
Theorem admission_exact c now spec :
  let required := rr_minimum (ws_resource_requirements spec) in
  (admit_workload c now spec = DecisionAdmitted ↔
     deadline_open now spec ∧ rv_le required (capacity (system_domain c)) ∧
     rv_le required (available (system_domain c)) ∧
     scoped_access (ws_security_requirements spec)) ∧
  ((∃ r a b, admit_workload c now spec = DecisionInfeasible r a b) ↔
     deadline_open now spec ∧ ¬ rv_le required (capacity (system_domain c))).
Proof.
  simpl. unfold admit_workload. set (required := rr_minimum _).
  rewrite <- !fits_within_spec, <- validate_security_Ok, deadline_open_dec.
  change (fits_within required (available (system_domain c)))
    with (can_fit (system_domain c) required).
  case_decide; [naive_solver|].
  destruct (fits_within required (capacity _)); simpl; [|naive_solver].
  destruct (can_fit _ _); simpl; [|naive_solver].
  destruct (validate_security _) as [[]|]; naive_solver.
Qed.

(** An admitted workload's minimum can be allocated at once in the domain the
    controller consulted, and the domain stays within its capacity. *)
Theorem admitted_allocates h id c now spec :
  poisoned h = false → inner h !! id = Some (system_domain c) → domain_ok (system_domain c) →
  rv_ok (rr_minimum (ws_resource_requirements spec)) →
  admit_workload c now spec = DecisionAdmitted →
  ∃ h' d', DomainHierarchy.allocate id (rr_minimum (ws_resource_requirements spec)) h = (Ok tt, h') ∧
    inner h' !! id = Some d' ∧ domain_ok d' ∧
    allocated d' = rv_add (allocated (system_domain c))
                     (rr_minimum (ws_resource_requirements spec)).
Proof.
  intros Hp Hd Hok Hr Ha.
  assert (can_fit (system_domain c) (rr_minimum (ws_resource_requirements spec)) = true) as Hfit.
  { unfold admit_workload in Ha. repeat case_match; try done; by apply negb_false_iff. }
  unfold DomainHierarchy.allocate, DomainHierarchy.with_domains, lock.
  rewrite Hp, Hd, Hfit. eexists _, _. split_and!; [done|apply lookup_insert_eq|..|done].
  by apply set_allocated_add_ok.
Qed.

(** The explanation of a shortage names only memory: a request refused for
    want of anything else (here: with RAM, device memory and KV cache all
    sufficient) is rejected with an empty list of missing requirements. *)
Theorem shortage_unexplained c now spec :
  let required := rr_minimum (ws_resource_requirements spec) in
  let avail := available (system_domain c) in
  deadline_open now spec → rv_le required (capacity (system_domain c)) → ¬ rv_le required avail →
  ram_bytes required ≤ ram_bytes avail →
  device_memory_bytes required ≤ device_memory_bytes avail →
  kv_cache_bytes required ≤ kv_cache_bytes avail →
  admit_workload c now spec = DecisionRejected "Insufficient resources" [].
Proof.
  simpl. intros Hd Hc Ha H1 H2 H3. unfold admit_workload, shortage.
  rewrite decide_False by (by apply deadline_open_dec).
  rewrite (proj2 (fits_within_spec _ _) Hc). simpl.
  rewrite <- fits_within_spec in Ha. apply not_true_is_false in Ha.
  change (can_fit (system_domain c) ?r) with (fits_within r (available (system_domain c))).
  rewrite Ha. simpl. by rewrite !decide_False by lia.
Qed.

(** ** Concrete controllers *)

Definition ex_domain : ResourceDomain :=
  mkDomain "system" None (mkRV 4000 0 100 0 0 0 0 0 0 0 0 0 0) (mkRV 3000 0 0 0 0 0 0 0 0 0 0 0 0)
    rv_zero limits_default limits_default.

Definition with_minimum (v : ResourceVector) (spec : WorkloadSpec) : WorkloadSpec :=
  mkWorkloadSpec (ws_workload_id spec) (ws_idempotency_key spec) (ws_schema_version spec)
    (ws_principal_id spec) (ws_namespace spec) (ws_goal spec) (ws_workload_type spec)
    (ws_execution_graph spec) (ws_model_requirements spec) (ws_capability_requirements spec)
    (ws_device_requirements spec) (ws_quality_requirements spec) (ws_security_requirements spec)
    (mkResourceRequirements v (rr_maximum (ws_resource_requirements spec))
       (rr_preferred (ws_resource_requirements spec)) (rr_priority (ws_resource_requirements spec))
       (rr_preemption (ws_resource_requirements spec)))
    (ws_scheduling_class spec) (ws_latency_slo spec) (ws_deadline_us spec)
    (ws_energy_budget spec) (ws_cost_budget spec) (ws_checkpoint_policy spec)
    (ws_cancellation_policy spec) (ws_retry_policy spec) (ws_fallback_policy spec)
    (ws_output_contract spec).

Definition ex_cpu (n : Z) : WorkloadSpec :=
  with_minimum (mkRV n 0 50 0 0 0 0 0 0 0 0 0 0) WorkloadSpec_default.

Lemma admitted_allocates_witness :
  ∃ h' d', DomainHierarchy.allocate "system" (mkRV 500 0 50 0 0 0 0 0 0 0 0 0 0)
      (DomainHierarchy.new ex_domain) = (Ok tt, h') ∧
    inner h' !! "system" = Some d' ∧ domain_ok d' ∧
    allocated d' = rv_add (allocated ex_domain) (mkRV 500 0 50 0 0 0 0 0 0 0 0 0 0).
Proof.
  apply (admitted_allocates (DomainHierarchy.new ex_domain) "system" (mkAdmission ex_domain) 0
    (ex_cpu 500)).
  - reflexivity.
  - reflexivity.
  - by apply (bool_decide_unpack _).
  - by apply (bool_decide_unpack _).
  - reflexivity.
Defined.

Lemma shortage_unexplained_witness :
  admit_workload (mkAdmission ex_domain) 0 (ex_cpu 2000) = DecisionRejected "Insufficient resources" [].
Proof.
  apply (shortage_unexplained (mkAdmission ex_domain) 0 (ex_cpu 2000)).
  - left. simpl. lia.
  - by apply (bool_decide_unpack _).
  - by apply (bool_decide_unpack _).
  - simpl. vm_compute. congruence.
  - simpl. vm_compute. congruence.
  - simpl. vm_compute. congruence.
Defined.
