(* ===== verification/Effects.v ===== *)
(** * Transactional effects and execution proofs

    [crates/nous-execution-proof/src/transaction.rs]: side effects planned under
    an idempotency key, authorized, executed once and committed; and
    [crates/nous-execution-proof/src/lib.rs]: canonical actions, their
    verification, and workload certificates. *)

From S2P Require Import Prelude Errors Journal.
Local Open Scope Z_scope.

Record EffectIntent : Type := mkIntent {
  in_description : string;
  in_expected_target : string;
  in_expected_outcome : string;
  in_max_retries : Z;
  in_timeout_ms : Z
}.

Record EffectReceipt : Type := mkReceipt {
  er_receipt_id : string;
  er_actual_target : string;
  er_actual_outcome : string;
  er_execution_time_us : Z;
  er_retry_count : Z;
  er_success : bool;
  er_error : option string;
  er_output_hash : bytes;
  er_executed_at : Z;
  er_executed_by : string
}.

(** ** The transaction engine *)

Inductive EffectTransactionPhase : Type :=
| EPlanned | EAuthorized | EPrepared | EVerified | ECommitted | ECompensated | EFailed.
#[global] Instance EffectTransactionPhase_eq_dec : EqDecision EffectTransactionPhase.
Proof. solve_decision. Defined.

Record EffectTransaction : Type := mkTx {
  tx_transaction_id : string;
  tx_idempotency_key : string;
  tx_principal_id : string;
  tx_capability : string;
  tx_intent : EffectIntent;
  tx_phase : EffectTransactionPhase;
  tx_receipt : option EffectReceipt;
  tx_authorization_ref : option string
}.

Record EffectState : Type := mkEffectState {
  transactions : gmap string EffectTransaction;
  idempotency_index : gmap string string
}.

(** [TransactionalEffectEngine]. *)
Definition Engine : Type := Mutex EffectState.
Definition engine_default : Engine := mutex_new (mkEffectState ∅ ∅).

Definition state_error : NousError :=
  nous_error Internal "Effect transaction state lock is poisoned".
Definition tx_not_found : NousError := nous_error NotFound "Effect transaction not found".

Definition set_tx (t : EffectTransaction) (id : string) (s : Engine) : Engine :=
  mutex_set (mkEffectState (<[id := t]> (transactions (inner s)))
                           (idempotency_index (inner s))) s.

Definition with_phase_ (p : EffectTransactionPhase) (r : option EffectReceipt)
    (a : option string) (t : EffectTransaction) : EffectTransaction :=
  mkTx (tx_transaction_id t) (tx_idempotency_key t) (tx_principal_id t) (tx_capability t)
    (tx_intent t) p r a.

(** [plan]; [uuid] is the identifier drawn. *)
Definition plan (uuid principal_id capability idempotency_key : string) (intent : EffectIntent) :
    M Engine NousError EffectTransaction := λ s,
  match lock s with
  | None => (Err state_error, s)
  | Some st =>
      match idempotency_index st !! idempotency_key with
      | Some existing_id =>
          (ok_or (transactions st !! existing_id)
             (nous_error DataLoss "Effect idempotency index is inconsistent"), s)
      | None =>
          let t := mkTx uuid idempotency_key principal_id capability intent EPlanned None None in
          (Ok t, mutex_set (mkEffectState (<[uuid := t]> (transactions st))
                              (<[idempotency_key := uuid]> (idempotency_index st))) s)
      end
  end.

(** [authorize]. *)
Definition authorize_effect (transaction_id authorization_ref : string) :
    M Engine NousError unit := λ s,
  match lock s with
  | None => (Err state_error, s)
  | Some st =>
      match transactions st !! transaction_id with
      | None => (Err tx_not_found, s)
      | Some t =>
          if decide (tx_phase t ≠ EPlanned) then
            (Err (nous_error FailedPrecondition "Effect is not awaiting authorization"), s)
          else (Ok tt, set_tx (with_phase_ EAuthorized (tx_receipt t) (Some authorization_ref) t)
                         transaction_id s)
      end
  end.

(** [execute] up to the call of the effector: a receipt to return at once, or
    the intent to run. *)
Definition execute_begin (transaction_id : string) :
    M Engine NousError (EffectReceipt + EffectIntent) := λ s,
  match lock s with
  | None => (Err state_error, s)
  | Some st =>
      match transactions st !! transaction_id with
      | None => (Err tx_not_found, s)
      | Some t =>
          if decide (tx_phase t = EVerified ∨ tx_phase t = ECommitted) then
            (inl <$> ok_or (tx_receipt t)
               (nous_error DataLoss "Verified effect has no receipt"), s)
          else if decide (tx_phase t ≠ EAuthorized) then
            (Err (nous_error PermissionDenied "Effect has not been authorized"), s)
          else (Ok (inr (tx_intent t)),
                set_tx (with_phase_ EPrepared (tx_receipt t) (tx_authorization_ref t) t)
                  transaction_id s)
      end
  end.

(** The rest of [execute], given what the effector returned. *)
Definition execute_finish (transaction_id : string) (intent : EffectIntent)
    (outcome : result NousError EffectReceipt) : M Engine NousError EffectReceipt := λ s,
  match lock s with
  | None => (Err state_error, s)
  | Some st =>
      match outcome with
      | Err error =>
          (Err error,
           match transactions st !! transaction_id with
           | Some t => set_tx (with_phase_ EFailed (tx_receipt t) (tx_authorization_ref t) t)
                         transaction_id s
           | None => s
           end)
      | Ok receipt =>
          if negb (er_success receipt)
             || negb (bool_decide (er_actual_target receipt = in_expected_target intent)) then
            (Err (nous_error SecurityPolicy
                    "Effect receipt does not match the authorized intent"),
             match transactions st !! transaction_id with
             | Some t => set_tx (with_phase_ EFailed (Some receipt) (tx_authorization_ref t) t)
                           transaction_id s
             | None => s
             end)
          else match transactions st !! transaction_id with
          | None =>
              (Err (nous_error DataLoss "Effect transaction disappeared while executing"), s)
          | Some t =>
              (Ok receipt, set_tx (with_phase_ EVerified (Some receipt)
                                     (tx_authorization_ref t) t) transaction_id s)
          end
      end
  end.

(** [execute]; [effector] is the closure the caller passes. *)
Definition execute (transaction_id : string)
    (effector : EffectIntent → result NousError EffectReceipt) :
    M Engine NousError EffectReceipt :=
  b ← execute_begin transaction_id;
  match b with
  | inl receipt => mret receipt
  | inr intent => execute_finish transaction_id intent (effector intent)
  end.

(** [commit]. *)
Definition commit_effect (transaction_id : string) : M Engine NousError unit := λ s,
  match lock s with
  | None => (Err state_error, s)
  | Some st =>
      match transactions st !! transaction_id with
      | None => (Err tx_not_found, s)
      | Some t =>
          if decide (tx_phase t ≠ EVerified) then
            (Err (nous_error FailedPrecondition "Only a verified effect can commit"), s)
          else (Ok tt, set_tx (with_phase_ ECommitted (tx_receipt t) (tx_authorization_ref t) t)
                         transaction_id s)
      end
  end.

(** [get]. *)
Definition get_effect (s : Engine) (transaction_id : string) : option EffectTransaction :=
  st ← lock s; transactions st !! transaction_id.

(** ** Interleaved clients

    Each critical section is one step; an effector runs between the two
    critical sections of its [execute], without the lock. [xs_log] records
    every effector invocation. *)

Record xstate : Type := mkXs {
  xs_engine : Engine;
  xs_running : list (string * EffectIntent);
  xs_log : list string
}.

Inductive xstep : xstate → xstate → Prop :=
| XPlan uuid p c k i s run log :
    transactions (inner s) !! uuid = None →
    xstep (mkXs s run log) (mkXs (plan uuid p c k i s).2 run log)
| XAuthorize id a s run log :
    xstep (mkXs s run log) (mkXs (authorize_effect id a s).2 run log)
| XBeginRun id intent s s' run log :
    execute_begin id s = (Ok (inr intent), s') →
    xstep (mkXs s run log) (mkXs s' ((id, intent) :: run) (id :: log))
| XBeginReturn id r s s' run log :
    execute_begin id s = (r, s') → (∀ intent, r ≠ Ok (inr intent)) →
    xstep (mkXs s run log) (mkXs s' run log)
| XFinish id intent outcome s run1 run2 log :
    xstep (mkXs s (run1 ++ (id, intent) :: run2) log)
          (mkXs (execute_finish id intent outcome s).2 (run1 ++ run2) log)
| XCrash id intent s run1 run2 log :
    xstep (mkXs s (run1 ++ (id, intent) :: run2) log) (mkXs s (run1 ++ run2) log)
| XCommit id s run log :
    xstep (mkXs s run log) (mkXs (commit_effect id s).2 run log).

Definition xinit : xstate := mkXs engine_default [] [].

(** What is true of one transaction in each phase. *)
Definition tx_ok (t : EffectTransaction) : Prop :=
  match tx_phase t with
  | EPlanned => tx_receipt t = None ∧ tx_authorization_ref t = None
  | EAuthorized | EPrepared => tx_receipt t = None ∧ is_Some (tx_authorization_ref t)
  | EVerified | ECommitted =>
      is_Some (tx_authorization_ref t) ∧
      ∃ r, tx_receipt t = Some r ∧ er_success r = true ∧
           er_actual_target r = in_expected_target (tx_intent t)
  | ECompensated => False
  | EFailed => is_Some (tx_authorization_ref t)
  end.

(** The effector of this transaction has been started. *)
Definition started (t : EffectTransaction) : bool :=
  match tx_phase t with EPlanned | EAuthorized => false | _ => true end.

Record effects_inv (x : xstate) : Prop := {
  xi_txs : map_Forall (λ _ t, tx_ok t) (transactions (inner (xs_engine x)));
  xi_ids : map_Forall (λ id t, tx_transaction_id t = id) (transactions (inner (xs_engine x)));
  xi_index : ∀ k id, idempotency_index (inner (xs_engine x)) !! k = Some id ↔
    ∃ t, transactions (inner (xs_engine x)) !! id = Some t ∧ tx_idempotency_key t = k;
  xi_run_nodup : NoDup (xs_running x).*1;
  xi_run : ∀ id i, (id, i) ∈ xs_running x →
    ∃ t, transactions (inner (xs_engine x)) !! id = Some t ∧ tx_phase t = EPrepared ∧
         tx_intent t = i;
  xi_log_nodup : NoDup (xs_log x);
  xi_log : ∀ id, id ∈ xs_log x ↔
    ∃ t, transactions (inner (xs_engine x)) !! id = Some t ∧ started t = true
}.

(** Replacing one transaction keeps the invariant when the new version, the
    running list and the log agree about it. *)
Lemma effects_update s run log id t t' run' log' :
  effects_inv (mkXs s run log) → transactions (inner s) !! id = Some t → tx_ok t' →
  tx_transaction_id t' = tx_transaction_id t → tx_idempotency_key t' = tx_idempotency_key t →
  NoDup run'.*1 → (∀ i k, (i, k) ∈ run' → i ≠ id → (i, k) ∈ run) →
  (∀ k, (id, k) ∈ run' → tx_phase t' = EPrepared ∧ tx_intent t' = k) →
  NoDup log' → (∀ i, i ≠ id → (i ∈ log' ↔ i ∈ log)) → (id ∈ log' ↔ started t' = true) →
  effects_inv (mkXs (set_tx t' id s) run' log').
Proof.
  intros [Htx Hid Hix Hrn Hr Hln Hl] Ht Hok Hti Htk Hrn' Hr' Hrid Hln' Hl' Hlid.
  simpl in *. split; simpl; try done.
  - by apply map_Forall_insert_2.
  - apply map_Forall_insert_2; [|done]. rewrite Hti. by apply (Hid _ _ Ht).
  - intros k i. rewrite Hix. destruct (decide (i = id)) as [->|Hne].
    + rewrite Ht, lookup_insert_eq.
      split; intros (t0 & [= <-] & ?); eexists; (split; [done|congruence]).
    + by rewrite lookup_insert_ne.
  - intros i k Hin. destruct (decide (i = id)) as [->|Hne].
    + rewrite lookup_insert_eq. eauto.
    + rewrite lookup_insert_ne by done. by apply Hr, Hr'.
  - intros i. destruct (decide (i = id)) as [->|Hne].
    + rewrite lookup_insert_eq. naive_solver.
    + rewrite lookup_insert_ne by done. by rewrite Hl'.
Qed.

(** The common case: the running list and the log stay as they are. *)
Lemma effects_update_in_place s run log id t t' :
  effects_inv (mkXs s run log) → transactions (inner s) !! id = Some t → tx_ok t' →
  tx_transaction_id t' = tx_transaction_id t → tx_idempotency_key t' = tx_idempotency_key t →
  tx_phase t ≠ EPrepared → started t' = started t →
  effects_inv (mkXs (set_tx t' id s) run log).
Proof.
  intros Hinv Ht Hok Hti Htk Hph Hst.
  eapply (effects_update _ run log); try done; try apply Hinv.
  - intros k Hin. destruct (xi_run _ Hinv id k Hin) as (t0 & ? & ? & _). simpl in *. congruence.
  - rewrite Hst, (xi_log _ Hinv). simpl. rewrite Ht.
    split; [by intros (t0 & [= <-] & ?)|eauto].
Qed.

Lemma xstep_plan uuid p c k i s run log :
  transactions (inner s) !! uuid = None → effects_inv (mkXs s run log) →
  effects_inv (mkXs (plan uuid p c k i s).2 run log).
Proof.
  intros Hf Hinv. unfold plan. destruct (lock s) as [st|] eqn:Hl; [|done].
  apply lock_Some in Hl as [_ <-].
  destruct (idempotency_index (inner s) !! k) as [e|] eqn:Hk; [done|].
  destruct Hinv as [Htx Hid Hix Hrn Hr Hln Hlog]. simpl in *. split; simpl; try done.
  - by apply map_Forall_insert_2.
  - by apply map_Forall_insert_2.
  - intros k' id. destruct (decide (k' = k)) as [->|Hne].
    + rewrite lookup_insert_eq. split.
      * intros [= <-]. eexists. by rewrite lookup_insert_eq.
      * destruct (decide (id = uuid)) as [->|?]; [done|]. rewrite lookup_insert_ne by done.
        intros Hex%Hix. congruence.
    + rewrite lookup_insert_ne by done. rewrite Hix.
      destruct (decide (id = uuid)) as [->|?].
      * rewrite Hf, lookup_insert_eq. naive_solver.
      * by rewrite lookup_insert_ne.
  - intros id i' Hin. destruct (Hr id i' Hin) as (t & Ht & ?).
    exists t. rewrite lookup_insert_ne by congruence. done.
  - intros id. rewrite Hlog. destruct (decide (id = uuid)) as [->|?].
    + rewrite Hf, lookup_insert_eq. naive_solver.
    + by rewrite lookup_insert_ne.
Qed.

(** Begin: the log gains the transaction, which was not yet started. *)
Lemma xstep_begin id intent s s' run log :
  execute_begin id s = (Ok (inr intent), s') → effects_inv (mkXs s run log) →
  effects_inv (mkXs s' ((id, intent) :: run) (id :: log)).
Proof.
  intros Hb Hinv. unfold execute_begin in Hb.
  destruct (lock s) as [st|] eqn:Hl; [|done]. apply lock_Some in Hl as [_ <-].
  destruct (transactions (inner s) !! id) as [t|] eqn:Ht; [|done].
  case_decide; [by destruct (tx_receipt t)|].
  destruct (decide (tx_phase t ≠ EAuthorized)) as [|Hph]; [done|]. injection Hb as <- <-.
  assert (tx_phase t = EAuthorized) as Hau by (destruct (tx_phase t); naive_solver).
  pose proof (xi_txs _ Hinv id t Ht) as Hok. unfold tx_ok in Hok. rewrite Hau in Hok.
  assert (id ∉ log) as Hnl.
  { intros Hin. apply (xi_log _ Hinv) in Hin as (t0 & ? & Hs). simpl in *. simplify_eq.
    unfold started in Hs. by rewrite Hau in Hs. }
  assert (id ∉ run.*1) as Hnr.
  { intros ([i k] & -> & Hin)%list_elem_of_fmap.
    destruct (xi_run _ Hinv i k Hin) as (t0 & ? & ? & _). simpl in *. congruence. }
  eapply effects_update; [exact Hinv|exact Ht| |done|done|..].
  - unfold tx_ok. simpl. naive_solver.
  - constructor; [done|apply Hinv].
  - set_solver.
  - intros k Hin. split; [done|]. simpl. apply elem_of_cons in Hin as [[= ->]|Hin]; [done|].
    destruct Hnr. by apply (list_elem_of_fmap_2 fst) in Hin.
  - constructor; [done|apply Hinv].
  - set_solver.
  - split; [done|]. intros _. left.
Qed.

Lemma running_split (run1 run2 : list (string * EffectIntent)) id i :
  NoDup (fst <$> run1 ++ (id, i) :: run2) →
  NoDup (fst <$> run1 ++ run2) ∧ id ∉ (fst <$> run1 ++ run2).
Proof.
  rewrite !fmap_app, fmap_cons. simpl. intros Hnd.
  assert (run1.*1 ++ id :: run2.*1 ≡ₚ id :: run1.*1 ++ run2.*1) as Hp
    by (by rewrite Permutation_middle).
  rewrite Hp in Hnd. by apply NoDup_cons in Hnd as [? ?].
Qed.

(** Finish: the transaction leaves the running list for a final phase. *)
Lemma xstep_finish_to s run1 run2 log id i t t' :
  effects_inv (mkXs s (run1 ++ (id, i) :: run2) log) →
  transactions (inner s) !! id = Some t → tx_ok t' →
  tx_transaction_id t' = tx_transaction_id t → tx_idempotency_key t' = tx_idempotency_key t →
  started t' = true → effects_inv (mkXs (set_tx t' id s) (run1 ++ run2) log).
Proof.
  intros Hinv Ht Hok Hti Htk Hst.
  destruct (running_split _ _ _ _ (xi_run_nodup _ Hinv)) as [Hnd Hni].
  destruct (xi_run _ Hinv id i) as (t0 & Ht0 & Hph & _); [simpl; set_solver|].
  simpl in *. simplify_eq.
  eapply effects_update; [exact Hinv|exact Ht|done|done|done|done| | |apply Hinv|done|].
  - set_solver.
  - intros k Hin. destruct Hni. by apply (list_elem_of_fmap_2 fst) in Hin.
  - rewrite (xi_log _ Hinv). simpl. rewrite Ht.
    split; [done|]. intros _. eexists. split; [done|]. unfold started. by rewrite Hph.
Qed.

Lemma xstep_drop s run1 run2 log id i :
  effects_inv (mkXs s (run1 ++ (id, i) :: run2) log) →
  effects_inv (mkXs s (run1 ++ run2) log).
Proof.
  intros Hinv. destruct (running_split _ _ _ _ (xi_run_nodup _ Hinv)) as [Hnd _].
  destruct Hinv as [Htx Hid Hix Hrn Hr Hln Hlog]. split; try done.
  intros id' i' Hin. apply Hr. simpl in *. set_solver.
Qed.

Lemma xstep_finish id i o s run1 run2 log :
  effects_inv (mkXs s (run1 ++ (id, i) :: run2) log) →
  effects_inv (mkXs (execute_finish id i o s).2 (run1 ++ run2) log).
Proof.
  intros Hinv. unfold execute_finish.
  destruct (lock s) as [st|] eqn:Hl; [|by eapply xstep_drop].
  apply lock_Some in Hl as [_ <-].
  destruct (xi_run _ Hinv id i) as (t & Ht & Hph & Hi); [simpl; set_solver|]. simpl in Ht.
  pose proof (xi_txs _ Hinv id t Ht) as Hok. unfold tx_ok in Hok. rewrite Hph in Hok.
  rewrite Ht. destruct o as [r|e].
  - destruct (er_success r) eqn:Hs, (bool_decide _) eqn:Hb; simpl;
      (eapply xstep_finish_to; [exact Hinv|exact Ht|unfold tx_ok; simpl|done..]);
      try naive_solver.
    apply bool_decide_eq_true in Hb. rewrite Hi. naive_solver.
  - simpl. eapply xstep_finish_to; [exact Hinv|exact Ht|unfold tx_ok; simpl|done..]. naive_solver.
Qed.

Lemma xstep_inv x x' : xstep x x' → effects_inv x → effects_inv x'.
Proof.
  destruct 1 as [uuid p c k i s run log Hf|id a s run log|id intent s s' run log Hb|
    id r s s' run log Hb Hr|id intent o s run1 run2 log|id intent s run1 run2 log|id s run log];
    intros Hinv.
  - by apply xstep_plan.
  - unfold authorize_effect. destruct (lock s) as [st|] eqn:Hl; [|done].
    apply lock_Some in Hl as [_ <-].
    destruct (transactions (inner s) !! id) as [t|] eqn:Ht; [|done].
    destruct (decide (tx_phase t ≠ EPlanned)) as [|Hph]; [done|].
    assert (tx_phase t = EPlanned) as Hp by (destruct (tx_phase t); naive_solver).
    pose proof (xi_txs _ Hinv id t Ht) as Hok. unfold tx_ok in Hok. rewrite Hp in Hok.
    eapply effects_update_in_place; [exact Hinv|exact Ht|unfold tx_ok; simpl; naive_solver|
      done|done|congruence|]. unfold started. by rewrite Hp.
  - by eapply xstep_begin.
  - unfold execute_begin in Hb. destruct (lock s) as [st|]; [|by simplify_eq].
    destruct (transactions st !! id); [|by simplify_eq].
    case_decide; [by simplify_eq|]. case_decide; [by simplify_eq|]. naive_solver.
  - by apply xstep_finish.
  - by eapply xstep_drop.
  - unfold commit_effect. destruct (lock s) as [st|] eqn:Hl; [|done].
    apply lock_Some in Hl as [_ <-].
    destruct (transactions (inner s) !! id) as [t|] eqn:Ht; [|done].
    destruct (decide (tx_phase t ≠ EVerified)) as [|Hph]; [done|].
    assert (tx_phase t = EVerified) as Hp by (destruct (tx_phase t); naive_solver).
    pose proof (xi_txs _ Hinv id t Ht) as Hok. unfold tx_ok in Hok. rewrite Hp in Hok.
    eapply effects_update_in_place; [exact Hinv|exact Ht|unfold tx_ok; simpl; naive_solver|
      done|done|congruence|]. unfold started. by rewrite Hp.
Qed.

Lemma xinit_inv : effects_inv xinit.
Proof.
  split; simpl; try apply map_Forall_empty; try constructor; try (intros; set_solver).
Qed.

Lemma effects_reachable_inv x : rtc xstep xinit x → effects_inv x.
Proof.
  revert x. apply (rtc_ind_r (R := xstep)); [apply xinit_inv|].
  intros x y _ Hs Hi. by eapply xstep_inv.
Qed.

(** C2: At most once. However clients interleave planning, authorization,
    execution (with effectors that succeed, fail, misreport or never return) and
    commits, no transaction's effector is ever invoked twice. *)
Theorem effector_runs_at_most_once x : rtc xstep xinit x → NoDup (xs_log x).
Proof. intros Hr. apply (effects_reachable_inv x Hr). Qed.

(** C18: Nothing unauthorized commits. In every reachable state a committed (or
    verified) transaction was authorized, its effector ran, and its receipt
    reports success on exactly the target of its intent; a transaction still
    planned or authorized has had no effect; and no transaction is ever in the
    [Compensated] phase. *)
Theorem committed_effects_were_verified x id t :
  rtc xstep xinit x → transactions (inner (xs_engine x)) !! id = Some t →
  match tx_phase t with
  | EVerified | ECommitted =>
      is_Some (tx_authorization_ref t) ∧ id ∈ xs_log x ∧
      ∃ r, tx_receipt t = Some r ∧ er_success r = true ∧
           er_actual_target r = in_expected_target (tx_intent t)
  | EPlanned | EAuthorized => (id ∉ xs_log x) ∧ tx_receipt t = None
  | EPrepared | EFailed => is_Some (tx_authorization_ref t) ∧ id ∈ xs_log x
  | ECompensated => False
  end.
Proof.
  intros Hr Ht. destruct (effects_reachable_inv x Hr) as [Htx _ _ _ _ _ Hlog].
  specialize (Htx id t Ht). simpl in Htx. unfold tx_ok in Htx.
  assert (id ∈ xs_log x ↔ started t = true) as Hl.
  { rewrite Hlog, Ht. split; [by intros (t0 & [= <-] & ?)|eauto]. }
  unfold started in Hl. destruct (tx_phase t); naive_solver.
Qed.

(** Planning is idempotent. In every reachable state, planning under a key
    already used returns the transaction first planned under it, whatever the
    other arguments, and changes nothing; under a new key it creates a planned
    transaction that later plans under the key return. The engine never reports
    an inconsistent index. *)
Theorem plan_idempotent x uuid p c k i t :
  rtc xstep xinit x → poisoned (xs_engine x) = false →
  transactions (inner (xs_engine x)) !! uuid = None →
  plan uuid p c k i (xs_engine x) = (Ok t, (plan uuid p c k i (xs_engine x)).2) →
  (∀ t0 id0, transactions (inner (xs_engine x)) !! id0 = Some t0 → tx_idempotency_key t0 = k →
     t = t0 ∧ (plan uuid p c k i (xs_engine x)).2 = xs_engine x) ∧
  (∀ uuid' p' c' i',
     plan uuid' p' c' k i' (plan uuid p c k i (xs_engine x)).2 =
     (Ok t, (plan uuid p c k i (xs_engine x)).2)).
Proof.
  intros Hr Hp Hf Hplan. destruct (effects_reachable_inv x Hr) as [_ Hid Hix _ _ _ _].
  unfold plan, lock in *. rewrite Hp in *. simpl in *.
  destruct (idempotency_index (inner (xs_engine x)) !! k) as [e|] eqn:Hk; simpl in *.
  - pose proof Hk as (t1 & Ht1 & Hk1)%Hix. rewrite Ht1 in Hplan. simpl in Hplan.
    injection Hplan as <-. split.
    + intros t0 id0 Ht0 Hk0. assert (idempotency_index (inner (xs_engine x)) !! k = Some id0)
        as Hk2 by (apply Hix; eauto). naive_solver.
    + intros. by rewrite Hp, Hk, Ht1.
  - injection Hplan as <-. split.
    + intros t0 id0 Ht0 Hk0. assert (idempotency_index (inner (xs_engine x)) !! k = Some id0)
        as Hk2 by (apply Hix; eauto). congruence.
    + intros. simpl. rewrite Hp. simpl. rewrite lookup_insert_eq. simpl.
      by rewrite lookup_insert_eq.
Qed.

(** Replaying an execution. Once an [execute] has returned a receipt, every
    later [execute] of the transaction returns that receipt and leaves the
    engine unchanged whatever effector it is given: the effector is not run. *)
Theorem execute_replays_receipt id f s r s' :
  execute id f s = (Ok r, s') →
  (∃ t, transactions (inner s') !! id = Some t ∧ tx_receipt t = Some r ∧
        (tx_phase t = EVerified ∨ tx_phase t = ECommitted)) ∧
  ∀ g, execute id g s' = (Ok r, s').
Proof.
  intros (b & s1 & Hb & Hf)%M_bind_inv_ok.
  assert (poisoned s1 = false ∧ ∃ t, transactions (inner s') !! id = Some t ∧
    tx_receipt t = Some r ∧ (tx_phase t = EVerified ∨ tx_phase t = ECommitted) ∧
    poisoned s' = false) as [_ (t & Ht & Hrc & Hph & Hp)].
  { unfold execute_begin in Hb. destruct (lock s) as [st|] eqn:Hl; [|done].
    apply lock_Some in Hl as [Hp <-].
    destruct (transactions (inner s) !! id) as [t|] eqn:Ht; [|done].
    case_decide as Hph.
    - destruct (tx_receipt t) as [r0|] eqn:Hrc; [|done]. injection Hb as <- <-.
      injection Hf as <- <-. eauto 10.
    - case_decide; [done|]. injection Hb as <- <-. split; [done|].
      unfold execute_finish, lock in Hf. simpl in Hf. rewrite Hp in Hf.
      destruct (f (tx_intent t)) as [r0|]; [|done]. destruct (_ || _); [done|].
      simpl in Hf. rewrite lookup_insert_eq in Hf.
      injection Hf as <- <-. simpl. eexists. rewrite lookup_insert_eq. eauto 10. }
  split; [eauto|]. intros g. unfold execute, mbind, M_bind, execute_begin, lock.
  rewrite Hp, Ht, decide_True, Hrc by done. done.
Qed.

(** ** Canonical actions *)

Inductive RiskLevel : Type := RiskLow | RiskMedium | RiskHigh | RiskCritical.
Inductive Decision_ : Type := Approved | Denied | ApprovedWithConditions | Escalated.
#[global] Instance Decision__eq_dec : EqDecision Decision_.
Proof. solve_decision. Defined.
Inductive ApproverType : Type := Human | AutomatedPolicy | MultiPartyConsensus.

Record ActionSpec : Type := mkActionSpec {
  as_action_type : string;
  as_target : string;
  as_parameters : string;
  as_output_schema : option string;
  as_is_idempotent : bool;
  as_is_reversible : bool;
  as_compensation_action_id : option string;
  as_risk_level : RiskLevel
}.

Record PolicyDecision : Type := mkPolicyDecision {
  pd_decision_id : string;
  pd_decided_by : string;
  pd_decision : Decision_;
  pd_reason : string;
  pd_decided_at : Z;
  pd_expires_at : option Z
}.

Record ApprovalReceipt : Type := mkApproval {
  ar_receipt_id : string;
  ar_approver_id : string;
  ar_approver_type : ApproverType;
  ar_approved_at : Z;
  ar_justification : option string;
  ar_signature : option bytes
}.

Record EnvironmentFingerprint : Type := mkFingerprint {
  ef_node_id : string;
  ef_device_id : string;
  ef_engine_id : string;
  ef_model_revision : string;
  ef_kernel_version : string;
  ef_nki_version : Z;
  ef_sandbox_profile : string;
  ef_runtime_hash : option bytes
}.

Record ReplayDescriptor : Type := mkReplay {
  rd_nonce : Z;
  rd_idempotency_key : string;
  rd_process_id : string;
  rd_sequence_number : Z
}.

Record CanonicalAction : Type := mkAction {
  ca_action_id : string;
  ca_canonical_spec : ActionSpec;
  ca_principal_id : string;
  ca_process_id : string;
  ca_capability : string;
  ca_policy_decision : PolicyDecision;
  ca_approval_receipt : option ApprovalReceipt;
  ca_input_digest : bytes;
  ca_execution_environment : EnvironmentFingerprint;
  ca_effect_intent : EffectIntent;
  ca_effect_receipt : option EffectReceipt;
  ca_output_digest : option bytes;
  ca_causal_parent : option string;
  ca_replay_descriptor : ReplayDescriptor
}.

Record VerificationCheck : Type := mkCheck {
  vc_check_name : string;
  vc_passed : bool;
  vc_detail : string
}.

Record VerificationResult : Type := mkVerification {
  vr_action_id : string;
  vr_verified : bool;
  vr_checks : list VerificationCheck
}.

(** [Debug] of a decision. *)
Definition decision_name (d : Decision_) : string :=
  match d with
  | Approved => "Approved"
  | Denied => "Denied"
  | ApprovedWithConditions => "ApprovedWithConditions"
  | Escalated => "Escalated"
  end.

(** [is_data_exit_action]. *)
Definition is_data_exit_action (spec : ActionSpec) : bool :=
  bool_decide (as_action_type spec ∈
    ["email_send"; "file_upload"; "api_call_external"; "content_publish"; "data_export"]).

Record DataExitRecord : Type := mkDataExit {
  de_data_description : string;
  de_destination : string;
  de_approved : bool;
  de_action_id : string
}.
Record VerificationSummary : Type := mkSummary {
  vs_action_id : string;
  vs_verified : bool;
  vs_verifier : string
}.
Record RecoveryRecord : Type := mkRecoveryRecord {
  rc_failure_action_id : string;
  rc_recovery_action_id : string;
  rc_recovery_success : bool
}.

Record WorkloadCertificate : Type := mkCertificate {
  wc_certificate_id : string;
  wc_process_id : string;
  wc_program_name : string;
  wc_actions : list CanonicalAction;
  wc_models_used : list string;
  wc_tools_used : list string;
  wc_approvals_granted : list ApprovalReceipt;
  wc_data_exfiltrated : list DataExitRecord;
  wc_results_verified : list VerificationSummary;
  wc_failures_recovered : list RecoveryRecord;
  wc_final_side_effects : list EffectReceipt;
  wc_generated_at : Z;
  wc_generated_by : string;
  wc_attestation : option bytes
}.

Record CertificateVerificationResult : Type := mkCertificateResult {
  cv_certificate_id : string;
  cv_verified : bool;
  cv_total_actions : nat;
  cv_verified_actions : nat;
  cv_failed_actions : nat;
  cv_failure_details : list string
}.

Section Proofs.
Context `{JournalEnv}.

(** [compute_input_digest]. *)
Definition compute_input_digest (spec : ActionSpec) : bytes :=
  sha256 (string_bytes (as_action_type spec) ++ string_bytes (as_target spec)
          ++ string_bytes (as_parameters spec)).

(** The checks of [verify_action], in order. *)
Definition action_checks (action : CanonicalAction) : list VerificationCheck :=
  let input_match :=
    bool_decide (compute_input_digest (ca_canonical_spec action) = ca_input_digest action) in
  let approved :=
    bool_decide (pd_decision (ca_policy_decision action) = Approved)
    || bool_decide (pd_decision (ca_policy_decision action) = ApprovedWithConditions) in
  [mkCheck "input_digest_match" input_match
     (if input_match then "Input digest matches canonical spec"
      else "Input digest mismatch - spec may have been modified after approval")]
  ++ match ca_effect_receipt action with
     | None => []
     | Some receipt =>
         let expected := in_expected_target (ca_effect_intent action) in
         let target_match := bool_decide (er_actual_target receipt = expected) in
         [mkCheck "effect_receipt_present" true
            ("Effect receipt '" +:+ er_receipt_id receipt +:+ "' present");
          mkCheck "target_matches_intent" target_match
            (if target_match then "Actual target matches intended target"
             else "Target mismatch: expected '" +:+ expected +:+ "', got '"
                  +:+ er_actual_target receipt +:+ "'")]
     end
  ++ [mkCheck "replay_descriptor_present" true
        ("Replay descriptor: nonce=" +:+ show_u (rd_nonce (ca_replay_descriptor action))
         +:+ ", key=" +:+ rd_idempotency_key (ca_replay_descriptor action));
      mkCheck "policy_approved" approved
        ("Policy decision: " +:+ decision_name (pd_decision (ca_policy_decision action)))].

(** [verify_action]. *)
Definition verify_action (action : CanonicalAction) : VerificationResult :=
  let checks := action_checks action in
  mkVerification (ca_action_id action) (forallb vc_passed checks) checks.

(** [models.contains] guarding the push. *)
Definition collect_models (actions : list CanonicalAction) : list string :=
  foldl (λ ms a, let m := ef_model_revision (ca_execution_environment a) in
                 if decide (m ∈ ms) then ms else ms ++ [m]) [] actions.

(** [WorkloadCertificate::generate]; [uuid] and [now] are the identifier and
    time drawn. *)
Definition generate (uuid : string) (now : Z) (process_id program_name : string)
    (actions : list CanonicalAction) (generated_by : string) : WorkloadCertificate :=
  mkCertificate ("cert-" +:+ uuid) process_id program_name actions
    (collect_models actions) []
    (omap ca_approval_receipt actions)
    ((λ a, mkDataExit (as_parameters (ca_canonical_spec a)) (as_target (ca_canonical_spec a))
             (bool_decide (pd_decision (ca_policy_decision a) = Approved)) (ca_action_id a))
       <$> filter (λ a, is_data_exit_action (ca_canonical_spec a) = true) actions)
    ((λ a, mkSummary (ca_action_id a) (vr_verified (verify_action a)) "kernel") <$> actions)
    []
    (filter (λ r, er_success r = true) (omap ca_effect_receipt actions))
    now generated_by None.

(** [WorkloadCertificate::verify]. *)
Definition verify_certificate (c : WorkloadCertificate) : CertificateVerificationResult :=
  let action_results := verify_action <$> wc_actions c in
  let failed_actions := filter (λ r, vr_verified r = false) action_results in
  mkCertificateResult (wc_certificate_id c) (forallb vr_verified action_results)
    (length (wc_actions c))
    (length (filter (λ r, vr_verified r = true) action_results))
    (length failed_actions)
    ((λ r, join "; " (vc_detail <$> filter (λ c, vc_passed c = false) (vr_checks r)))
       <$> failed_actions).

(** ** What verification establishes *)

(** An action verifies if and only if its specification hashes to the digest
    taken at approval, a recorded effect hit the intended target, and the policy
    decision approved it. *)
Definition action_sound (a : CanonicalAction) : Prop :=
  compute_input_digest (ca_canonical_spec a) = ca_input_digest a ∧
  (∀ r, ca_effect_receipt a = Some r →
        er_actual_target r = in_expected_target (ca_effect_intent a)) ∧
  (pd_decision (ca_policy_decision a) = Approved ∨
   pd_decision (ca_policy_decision a) = ApprovedWithConditions).

Lemma verify_action_sound a : vr_verified (verify_action a) = true ↔ action_sound a.
Proof.
  unfold verify_action, action_checks, action_sound. simpl.
  rewrite !forallb_app. simpl.
  rewrite !andb_true_r, !andb_true_iff, orb_true_iff, !bool_decide_eq_true.
  destruct (ca_effect_receipt a) as [r|]; simpl.
  - rewrite andb_true_r, bool_decide_eq_true. naive_solver.
  - naive_solver.
Qed.



Definition set_spec (s : ActionSpec) (a : CanonicalAction) : CanonicalAction :=
  mkAction (ca_action_id a) s (ca_principal_id a) (ca_process_id a) (ca_capability a)
    (ca_policy_decision a) (ca_approval_receipt a) (ca_input_digest a)
    (ca_execution_environment a) (ca_effect_intent a) (ca_effect_receipt a)
    (ca_output_digest a) (ca_causal_parent a) (ca_replay_descriptor a).

(** What the digest does not bind. Replacing an approved specification by any
    other whose action type, target and parameters concatenate to the same
    bytes (whatever its risk level, reversibility, idempotence or output schema,
    and wherever the boundaries between the three fields fall) leaves the
    verdict unchanged. *)
Theorem digest_blind_spots a s :
  as_action_type s +:+ as_target s +:+ as_parameters s =
    as_action_type (ca_canonical_spec a) +:+ as_target (ca_canonical_spec a)
      +:+ as_parameters (ca_canonical_spec a) →
  vr_verified (verify_action (set_spec s a)) = vr_verified (verify_action a).
Proof.
  intros Hs.
  assert (compute_input_digest s = compute_input_digest (ca_canonical_spec a)) as Hd.
  { unfold compute_input_digest. f_equal. rewrite <- !string_bytes_app. by rewrite Hs. }
  apply eq_true_iff_eq. rewrite !verify_action_sound. unfold action_sound. simpl.
  by rewrite Hd.
Qed.
End Proofs.

(** ** Concrete effects *)

Definition ex_intent : EffectIntent := mkIntent "write" "device:1" "ok" 0 100.
Definition ex_receipt : EffectReceipt :=
  mkReceipt "r1" "device:1" "ok" 1 0 true None [] 0 "worker".

Definition ex_engine1 : Engine := (plan "t1" "p" "c" "k" ex_intent engine_default).2.
Definition ex_engine2 : Engine := (authorize_effect "t1" "auth" ex_engine1).2.
Definition ex_engine3 : Engine := (execute_begin "t1" ex_engine2).2.
Definition ex_engine4 : Engine := (execute_finish "t1" ex_intent (Ok ex_receipt) ex_engine3).2.
Definition ex_engine5 : Engine := (commit_effect "t1" ex_engine4).2.

Lemma ex_effects_reachable : rtc xstep xinit (mkXs ex_engine5 [] ["t1"]).
Proof.
  eapply rtc_l; [apply (XPlan "t1" "p" "c" "k" ex_intent); reflexivity|].
  eapply rtc_l; [apply (XAuthorize "t1" "auth")|].
  eapply rtc_l; [eapply (XBeginRun "t1" ex_intent); reflexivity|].
  eapply rtc_l; [apply (XFinish "t1" ex_intent (Ok ex_receipt) _ [] [])|].
  eapply rtc_l; [apply (XCommit "t1")|]. apply rtc_refl.
Qed.

Lemma effector_runs_at_most_once_witness : NoDup (xs_log (mkXs ex_engine5 [] ["t1"])).
Proof. apply effector_runs_at_most_once. apply ex_effects_reachable. Defined.

Lemma committed_effects_were_verified_witness :
  ∃ t, transactions (inner ex_engine5) !! "t1" = Some t ∧ tx_phase t = ECommitted ∧
    ∃ r, tx_receipt t = Some r ∧ er_success r = true ∧ er_actual_target r = "device:1".
Proof.
  eexists. split; [reflexivity|]. split; [reflexivity|].
  apply (committed_effects_were_verified (mkXs ex_engine5 [] ["t1"]) "t1" _
    ex_effects_reachable eq_refl).
Defined.

Lemma plan_idempotent_witness :
  ∃ t, ∀ uuid' p' c' i', plan uuid' p' c' "k" i' ex_engine5 = (Ok t, ex_engine5).
Proof.
  eexists.
  eapply (plan_idempotent (mkXs ex_engine5 [] ["t1"]) "t2" "q" "d" "k" ex_intent).
  - apply ex_effects_reachable.
  - reflexivity.
  - reflexivity.
  - reflexivity.
Defined.

Lemma execute_replays_receipt_witness :
  execute "t1" (λ _, Err state_error) ex_engine4 = (Ok ex_receipt, ex_engine4).
Proof.
  apply (execute_replays_receipt "t1" (λ _, Ok ex_receipt) ex_engine2 ex_receipt ex_engine4).
  vm_compute. reflexivity.
Defined.

Definition ex_action : CanonicalAction :=
  mkAction "a1" (mkActionSpec "file_write" "/tmp" "{}" None true true None RiskLow) "p" "proc" "cap"
    (mkPolicyDecision "d" "gate" ApprovedWithConditions "" 0 None) None
    (@compute_input_digest ex_env
       (mkActionSpec "file_write" "/tmp" "{}" None true true None RiskLow))
    (mkFingerprint "n" "d" "e" "m" "k" 1 "s" None) ex_intent (Some ex_receipt) None None
    (mkReplay 0 "k" "proc" 0).

Lemma digest_blind_spots_witness :
  vr_verified (@verify_action ex_env (set_spec
    (mkActionSpec "file_" "write/tmp" "{}" None false false None RiskCritical) ex_action)) = true.
Proof.
  assert (vr_verified (@verify_action ex_env ex_action) = true) as <- by reflexivity.
  apply (@digest_blind_spots ex_env ex_action
    (mkActionSpec "file_" "write/tmp" "{}" None false false None RiskCritical)).
  reflexivity.
Defined.

(** An action approved with conditions verifies, and yet a data exit it makes
    is certified as not approved. *)
Example conditional_exit_reported_unapproved :
  let a := set_spec (mkActionSpec "email_send" "bob" "x" None true true None RiskLow)
    (mkAction "a1" (ca_canonical_spec ex_action) "p" "proc" "cap" (ca_policy_decision ex_action)
       None (@compute_input_digest ex_env
               (mkActionSpec "email_send" "bob" "x" None true true None RiskLow))
       (ca_execution_environment ex_action) ex_intent None None None
       (ca_replay_descriptor ex_action)) in
  let c := @generate ex_env "u" 0 "p" "n" [a] "kernel" in
  cv_verified (@verify_certificate ex_env c) = true ∧
  de_approved <$> wc_data_exfiltrated c = [false].
Proof. vm_compute. done. Qed.

(** An effect that reports failure on the right target does not keep its action
    from verifying. *)
Example failed_effect_verifies :
  let r := mkReceipt "r1" "device:1" "io error" 1 0 false (Some "io error") [] 0 "worker" in
  vr_verified (@verify_action ex_env
    (mkAction "a1" (ca_canonical_spec ex_action) "p" "proc" "cap" (ca_policy_decision ex_action)
       None (ca_input_digest ex_action) (ca_execution_environment ex_action) ex_intent (Some r)
       None None (ca_replay_descriptor ex_action))) = true.
Proof. vm_compute. done. Qed.
