(* ===== verification/Contracts.v ===== *)
(** * Open runtime contracts

    [crates/nous-types/src/open_runtime.rs]: the declarative contracts at the
    boundary of the runtime with their [validate], the extension requests and
    decisions, and the capability and resource graphs. JSON values are modelled
    as a tree; a BTreeMap keyed by strings is a finite map. Paths are
    slash-separated. *)

From S2P Require Import Prelude Errors Float64 Resource Provider.
Local Open Scope Z_scope.

(** ** JSON *)

(** [serde_json::Value]; an object lists its members in key order. *)
Inductive Number : Type := PosInt (n : Z) | NegInt (n : Z) | Float (x : f64).
Inductive Value : Type :=
| VNull
| VBool (b : bool)
| VNumber (n : Number)
| VString (s : string)
| VArray (l : list Value)
| VObject (l : list (string * Value)).

(** [Value::get] with a key, [as_str], [as_bool], [as_u64] and [is_null]. *)
Definition value_get (v : Value) (key : string) : option Value :=
  match v with
  | VObject l => (λ q, q.2.2) <$> list_find (λ p, p.1 = key) l
  | _ => None
  end.
Definition value_as_str (v : Value) : option string :=
  match v with VString s => Some s | _ => None end.
Definition value_as_bool (v : Value) : option bool :=
  match v with VBool b => Some b | _ => None end.
Definition value_as_u64 (v : Value) : option Z :=
  match v with VNumber (PosInt n) => Some n | _ => None end.
Definition value_is_null (v : Value) : bool := match v with VNull => true | _ => false end.

(** ** Checks *)

Definition OPEN_RUNTIME_SCHEMA_VERSION : Z := 1.

Record RuntimeContractError : Type := mkContractError {
  rce_contract : string;
  rce_field : string;
  rce_message : string
}.
Definition contract_error_text (e : RuntimeContractError) : string :=
  "invalid " +:+ rce_contract e +:+ " field '" +:+ rce_field e +:+ "': " +:+ rce_message e.

Abbreviation ContractResult := (result RuntimeContractError unit).

(** An early return of an error. *)
Definition refuse_if (b : bool) (contract field message : string) : ContractResult :=
  if b then Err (mkContractError contract field message) else Ok tt.

Definition required (contract field value : string) : ContractResult :=
  refuse_if (blank value) contract field "must not be empty".
Definition schema (contract : string) (version : Z) : ContractResult :=
  refuse_if (negb (version =? OPEN_RUNTIME_SCHEMA_VERSION)) contract "schema_version"
    ("expected " +:+ show_u OPEN_RUNTIME_SCHEMA_VERSION +:+ ", found " +:+ show_u version).

(** [char::is_ascii_lowercase], [is_ascii_digit] and [is_ascii_uppercase]. *)
Definition is_ascii_lowercase (c : ascii) : bool :=
  let n := N_of_ascii c in ((97 <=? n) && (n <=? 122))%N.
Definition is_ascii_digit (c : ascii) : bool :=
  let n := N_of_ascii c in ((48 <=? n) && (n <=? 57))%N.
Definition is_ascii_uppercase (c : ascii) : bool :=
  let n := N_of_ascii c in ((65 <=? n) && (n <=? 90))%N.
(** A lower-case hexadecimal digit. *)
Definition is_lower_hex (c : ascii) : bool :=
  let n := N_of_ascii c in ((48 <=? n) && (n <=? 57) || (97 <=? n) && (n <=? 102))%N.

Definition capability_segment (s : string) : bool :=
  negb (bool_decide (s = "")) &&
  string_all (λ c, is_ascii_lowercase c || is_ascii_digit c
                   || bool_decide (c = "_"%char) || bool_decide (c = "-"%char)) s.
Definition capability_name (value : string) : bool :=
  forallb capability_segment (split_on "." value) && string_mem "." value.

Definition environment_name (s : string) : bool :=
  match s with
  | EmptyString => false
  | String c _ =>
      (bool_decide (c = "_"%char) || is_ascii_uppercase c) &&
      string_all (λ d, bool_decide (d = "_"%char) || is_ascii_uppercase d || is_ascii_digit d) s
  end.

(** The test for a lower-case SHA-256 digest written out at each use. *)
Definition valid_digest (s : string) : bool :=
  bool_decide (String.length s = 71%nat) && starts_with "sha256:" s
  && string_all is_lower_hex (string_drop 7 s).

(** [portable_reference]. *)
Definition path_unportable (value : string) : bool :=
  starts_with "/" value || bool_decide (".." ∈ split_on "/" value).
Definition portable_reference (contract field value : string) : ContractResult :=
  refuse_if (path_unportable value) contract field
    "must be a portable relative path without parent traversal".

(** A loop of checks that stops at the first error. *)
Fixpoint check_each {A E} (check : A → result E unit) (l : list A) : result E unit :=
  match l with
  | [] => Ok tt
  | x :: l' => _ ← check x; check_each check l'
  end.

(** ** The simple contracts

    The structs of [simple_contract!]: common fields around [ct_fields]. *)

Record Contract (X : Type) : Type := mkContract {
  ct_schema_version : Z;
  ct_id : string;
  ct_version : string;
  ct_fields : X;
  ct_metadata : gmap string string
}.
Arguments mkContract {X} _ _ _ _ _.
Arguments ct_schema_version {X} _.
Arguments ct_id {X} _.
Arguments ct_version {X} _.
Arguments ct_fields {X} _.
Arguments ct_metadata {X} _.

Definition validate_contract {X} (label : string) (c : Contract X) : ContractResult :=
  _ ← schema label (ct_schema_version c);
  _ ← required label "id" (ct_id c);
  required label "version" (ct_version c).

Record TaskFields : Type := mkTaskFields {
  task_capability : string;
  task_input : Value;
  task_context_id : string;
  task_policy_ids : list string
}.
Record ProviderFields : Type := mkProviderFields {
  provider_manifest : string;
  provider_capabilities : list string;
  provider_lifecycle : list string
}.
Record ResourceFields : Type := mkResourceFields {
  resource_requirements_ : ResourceVector;
  resource_labels : gmap string string
}.
Record ContextFields : Type := mkContextFields {
  context_workspace : string;
  context_trace_id : string;
  context_values : gmap string Value
}.
Record ArtifactFields : Type := mkArtifactFields {
  artifact_media_type : string;
  artifact_location : string;
  artifact_sha256 : string;
  artifact_creator : string
}.
Record PolicyFields : Type := mkPolicyFields {
  policy_rules : list Value;
  policy_enforcement : string
}.
Record IdentityFields : Type := mkIdentityFields {
  identity_principal : string;
  identity_roles : list string
}.
Record NodeFields : Type := mkNodeFields {
  node_capabilities : list string;
  node_resources : ResourceVector;
  node_endpoint : string
}.
Record WorkflowFields : Type := mkWorkflowFields {
  workflow_steps : list string;
  workflow_edges : list (string * string)
}.

Definition validate_task : Contract TaskFields → ContractResult :=
  validate_contract "TaskContract".
Definition validate_provider : Contract ProviderFields → ContractResult :=
  validate_contract "ProviderContract".
Definition validate_resource : Contract ResourceFields → ContractResult :=
  validate_contract "ResourceContract".
Definition validate_context : Contract ContextFields → ContractResult :=
  validate_contract "ContextContract".
Definition validate_artifact : Contract ArtifactFields → ContractResult :=
  validate_contract "ArtifactContract".
Definition validate_policy : Contract PolicyFields → ContractResult :=
  validate_contract "PolicyContract".
Definition validate_identity : Contract IdentityFields → ContractResult :=
  validate_contract "IdentityContract".
Definition validate_node : Contract NodeFields → ContractResult :=
  validate_contract "NodeContract".
Definition validate_workflow : Contract WorkflowFields → ContractResult :=
  validate_contract "WorkflowContract".

(** ** Capabilities and events *)

Record CapabilityContract : Type := mkCapability {
  cc_schema_version : Z;
  cc_id : string;
  cc_version : string;
  cc_input_schema : Value;
  cc_output_schema : Value;
  cc_constraints : gmap string Value;
  cc_requirements : gmap string Value;
  cc_metadata : gmap string string
}.
Definition validate_capability (c : CapabilityContract) : ContractResult :=
  _ ← schema "CapabilityContract" (cc_schema_version c);
  _ ← refuse_if (negb (capability_name (cc_id c))) "CapabilityContract" "id"
        "must be a namespaced identifier such as reasoning.generate";
  required "CapabilityContract" "version" (cc_version c).

Record EventContract : Type := mkEvent {
  ev_schema_version : Z;
  ev_id : string;
  ev_version : string;
  ev_event_type : string;
  ev_source : string;
  ev_timestamp : string;
  ev_payload : Value;
  ev_metadata : gmap string Value
}.
Definition validate_event (c : EventContract) : ContractResult :=
  _ ← schema "EventContract" (ev_schema_version c);
  _ ← required "EventContract" "id" (ev_id c);
  _ ← required "EventContract" "version" (ev_version c);
  _ ← required "EventContract" "event_type" (ev_event_type c);
  required "EventContract" "source" (ev_source c).

(** ** Models *)

Inductive ModelKind : Type :=
| MK_Foundation | MK_Vision | MK_Speech | MK_Embedding | MK_Mathematical | MK_Statistical
| MK_Optimization | MK_Control | MK_Simulation | MK_Analytical | MK_Custom.
#[global] Instance ModelKind_eq_dec : EqDecision ModelKind.
Proof. solve_decision. Defined.

Record ModelBackend : Type := mkModelBackend {
  mb_kind : string;
  mb_entrypoint : string;
  mb_runtime : string
}.
#[global] Instance ModelBackend_eq_dec : EqDecision ModelBackend.
Proof. solve_decision. Defined.
Record DeploymentSpec : Type := mkDeployment {
  dep_mode : string;
  dep_target : string;
  dep_replicas : Z
}.
#[global] Instance DeploymentSpec_eq_dec : EqDecision DeploymentSpec.
Proof. solve_decision. Defined.
Record EvaluationSpec : Type := mkEvaluation {
  eval_dataset : string;
  eval_metrics : list string;
  eval_thresholds : gmap string f64
}.

Record ModelSpec : Type := mkModelSpec {
  ms_schema_version : Z;
  ms_id : string;
  ms_name : string;
  ms_kind : ModelKind;
  ms_version : string;
  ms_capabilities : list string;
  ms_input_schema : Value;
  ms_output_schema : Value;
  ms_backend : ModelBackend;
  ms_resource_requirements : ResourceVector;
  ms_deployment : DeploymentSpec;
  ms_evaluation : EvaluationSpec;
  ms_artifacts : list (Contract ArtifactFields);
  ms_provenance : gmap string string;
  ms_compatibility : gmap string string;
  ms_security : gmap string string
}.

Definition validate_model (m : ModelSpec) : ContractResult :=
  _ ← schema "ModelSpec" (ms_schema_version m);
  _ ← required "ModelSpec" "id" (ms_id m);
  _ ← required "ModelSpec" "name" (ms_name m);
  _ ← required "ModelSpec" "version" (ms_version m);
  _ ← required "ModelSpec" "backend.kind" (mb_kind (ms_backend m));
  _ ← (if decide (mb_entrypoint (ms_backend m) = "") then Ok tt
       else portable_reference "ModelSpec" "backend.entrypoint" (mb_entrypoint (ms_backend m)));
  _ ← refuse_if (bool_decide (ms_capabilities m = [])
                 || existsb (λ i, negb (capability_name i)) (ms_capabilities m))
        "ModelSpec" "capabilities" "must contain valid namespaced capability identifiers";
  check_each validate_artifact (ms_artifacts m).

(** ** Providers and packs *)

Record ProviderManifest : Type := mkProviderManifest {
  pm_schema_version : Z;
  pm_name : string;
  pm_version : string;
  pm_backend : string;
  pm_runtime_class : string;
  pm_entrypoint : string;
  pm_model : string;
  pm_endpoint : string;
  pm_credential_env : string;
  pm_capabilities : list string;
  pm_lifecycle : list string;
  pm_metadata : gmap string string
}.

Definition required_lifecycle : list string :=
  ["probe"; "metadata"; "capabilities"; "health"; "execute"; "cancel"; "shutdown"].

Definition validate_provider_manifest (m : ProviderManifest) : ContractResult :=
  let contract := "ProviderManifest" in
  _ ← schema contract (pm_schema_version m);
  _ ← required contract "name" (pm_name m);
  _ ← required contract "version" (pm_version m);
  _ ← required contract "backend" (pm_backend m);
  _ ← refuse_if (existsb (λ i, negb (capability_name i)) (pm_capabilities m))
        contract "capabilities" "contains an invalid capability identifier";
  _ ← refuse_if (negb (bool_decide (pm_credential_env m = ""))
                 && negb (environment_name (pm_credential_env m)))
        contract "credential_env" "must be an environment-variable name, not a secret";
  _ ← refuse_if (negb (bool_decide (pm_endpoint m = ""))
                 && (string_mem "@" (pm_endpoint m) || string_mem "?" (pm_endpoint m)
                     || string_mem "#" (pm_endpoint m)))
        contract "endpoint" "must not contain credentials, query parameters, or fragments";
  if decide (pm_backend m = "external-process") then
    _ ← required contract "entrypoint" (pm_entrypoint m);
    _ ← portable_reference contract "entrypoint" (pm_entrypoint m);
    refuse_if (existsb (λ op, negb (bool_decide (op ∈ pm_lifecycle m))) required_lifecycle)
      contract "lifecycle" "external providers must declare the complete Provider SDK v1 lifecycle"
  else Ok tt.

Record PackManifest : Type := mkPack {
  pk_schema_version : Z;
  pk_name : string;
  pk_version : string;
  pk_description : string;
  pk_models : list string;
  pk_providers : list string;
  pk_workflows : list string;
  pk_policies : list string;
  pk_resources : list string;
  pk_compatibility : gmap string string;
  pk_license : string
}.
Definition validate_pack (p : PackManifest) : ContractResult :=
  _ ← schema "PackManifest" (pk_schema_version p);
  _ ← required "PackManifest" "name" (pk_name p);
  _ ← required "PackManifest" "version" (pk_version p);
  _ ← required "PackManifest" "license" (pk_license p);
  check_each (portable_reference "PackManifest" "references")
    (pk_models p ++ pk_providers p ++ pk_workflows p ++ pk_policies p ++ pk_resources p).

(** ** Extensions *)

Record ExtensionCapabilityRequest : Type := mkCapabilityRequest {
  ecr_capability : string;
  ecr_access : string;
  ecr_scope : list string;
  ecr_reason : string;
  ecr_required : bool
}.
#[global] Instance ExtensionCapabilityRequest_eq_dec : EqDecision ExtensionCapabilityRequest.
Proof. solve_decision. Defined.

(** An empty item, or one with a NUL. *)
Definition scope_item_bad (s : string) : bool :=
  bool_decide (s = "") || string_mem (ascii_of_N 0) s.

Definition validate_capability_request (r : ExtensionCapabilityRequest) : ContractResult :=
  let contract := "ExtensionAdmissionRequest" in
  _ ← refuse_if (negb (capability_name (ecr_capability r))) contract
        "capability_requests.capability" "must be a namespaced capability identifier";
  _ ← refuse_if (negb (bool_decide (ecr_access r ∈ ["read"; "write"; "execute"; "connect"; "use"])))
        contract "capability_requests.access" "must be read, write, execute, connect, or use";
  refuse_if (existsb scope_item_bad (ecr_scope r)) contract "capability_requests.scope"
    "must contain non-empty, NUL-free values".

Record ExtensionAdmissionRequest : Type := mkAdmission {
  ea_schema_version : Z;
  ea_extension_id : string;
  ea_version : string;
  ea_content_digest : string;
  ea_source_format : string;
  ea_compatibility_level : Z;
  ea_kinds : list string;
  ea_capability_requests : list ExtensionCapabilityRequest;
  ea_executor : string;
  ea_metadata : gmap string string
}.
#[global] Instance ExtensionAdmissionRequest_eq_dec : EqDecision ExtensionAdmissionRequest.
Proof. solve_decision. Defined.

Definition supply_chain_fields : list string :=
  ["normalized_ir_digest"; "sbom_digest"; "provenance_digest"; "signature_digest"].
Definition allowed_kinds : list string :=
  ["skill"; "tool"; "plugin"; "provider"; "agent"; "template"; "pack"].

Definition validate_admission (r : ExtensionAdmissionRequest) : ContractResult :=
  let contract := "ExtensionAdmissionRequest" in
  _ ← schema contract (ea_schema_version r);
  _ ← required contract "extension_id" (ea_extension_id r);
  _ ← required contract "version" (ea_version r);
  _ ← required contract "source_format" (ea_source_format r);
  _ ← refuse_if (5 <? ea_compatibility_level r) contract "compatibility_level"
        "must be between C0 and C5";
  _ ← refuse_if (negb (valid_digest (ea_content_digest r))) contract "content_digest"
        "must be a lowercase sha256 digest";
  _ ← refuse_if (bool_decide (ea_metadata r !! "authority" ≠ Some "none")) contract
        "metadata.authority" "must be none at admission";
  _ ← refuse_if (bool_decide (ea_metadata r !! "supply_chain_verified" ≠ Some "true")) contract
        "metadata.supply_chain_verified" "must confirm local evidence verification";
  _ ← check_each (λ field,
        refuse_if (negb (valid_digest (default "" (ea_metadata r !! field)))) contract
          "metadata.supply_chain_digest" (field +:+ " must be a lowercase sha256 digest"))
        supply_chain_fields;
  _ ← refuse_if (negb (bool_decide (ea_metadata r !! "signature_status"
                                    ∈ [Some "Unsigned"; Some "Verified"]))) contract
        "metadata.signature_status" "must be Unsigned or cryptographically Verified";
  _ ← refuse_if (bool_decide (ea_kinds r = [])
                 || existsb (λ k, negb (bool_decide (k ∈ allowed_kinds))) (ea_kinds r)) contract
        "kinds" "must contain known extension kinds";
  _ ← refuse_if (negb (bool_decide (NoDup (ea_kinds r)))) contract "kinds"
        "must not contain duplicates";
  _ ← check_each validate_capability_request (ea_capability_requests r);
  refuse_if (bool_decide ("plugin" ∈ ea_kinds r) && bool_decide (ea_executor r = "")) contract
    "executor" "code-bearing plugins must select a governed executor class".

Record ExtensionAdmissionDecision : Type := mkDecision {
  ed_admitted : bool;
  ed_extension_id : string;
  ed_normalized_digest : string;
  ed_requested_capabilities : list string;
  ed_granted_capabilities : list string;
  ed_denied_capabilities : list string;
  ed_approval_required : bool;
  ed_executor_constraints : gmap string string;
  ed_scope_constraints : gmap string (list string);
  ed_policy_version : string;
  ed_decision_reason : string;
  ed_receipt_id : string
}.
#[global] Instance ExtensionAdmissionDecision_eq_dec : EqDecision ExtensionAdmissionDecision.
Proof. solve_decision. Defined.

Record ExtensionAuthorizationRequest : Type := mkAuthorization {
  eu_admission : ExtensionAdmissionRequest;
  eu_admission_receipt_id : string;
  eu_approval_id : string;
  eu_approved_capabilities : list string
}.
Definition requested_capabilities (r : ExtensionAdmissionRequest) : list string :=
  ecr_capability <$> ea_capability_requests r.
Definition validate_authorization (r : ExtensionAuthorizationRequest) : ContractResult :=
  let contract := "ExtensionAuthorizationRequest" in
  let approved := list_to_set (C := gset string) (eu_approved_capabilities r) in
  _ ← validate_admission (eu_admission r);
  _ ← required contract "admission_receipt_id" (eu_admission_receipt_id r);
  _ ← required contract "approval_id" (eu_approval_id r);
  refuse_if (bool_decide (size approved ≠ length (eu_approved_capabilities r))
             || negb (bool_decide (approved ⊆ list_to_set (requested_capabilities (eu_admission r)))))
    contract "approved_capabilities" "must be a unique subset of requested capabilities".

Record ExtensionExecutionRequest : Type := mkExtensionExecution {
  ex_schema_version : Z;
  ex_operation_id : string;
  ex_extension_id : string;
  ex_content_digest : string;
  ex_authorization_receipt_id : string;
  ex_capability : string;
  ex_operation : string;
  ex_parameter_hash : string;
  ex_executor : string;
  ex_scope : list string
}.
#[global] Instance ExtensionExecutionRequest_eq_dec : EqDecision ExtensionExecutionRequest.
Proof. solve_decision. Defined.
Definition validate_execution (r : ExtensionExecutionRequest) : ContractResult :=
  let contract := "ExtensionExecutionRequest" in
  _ ← schema contract (ex_schema_version r);
  _ ← required contract "operation_id" (ex_operation_id r);
  _ ← required contract "extension_id" (ex_extension_id r);
  _ ← required contract "authorization_receipt_id" (ex_authorization_receipt_id r);
  _ ← required contract "operation" (ex_operation r);
  _ ← refuse_if (negb (capability_name (ex_capability r))) contract "capability"
        "must be a namespaced capability identifier";
  _ ← check_each (λ '(field, digest),
        refuse_if (negb (valid_digest digest)) contract field "must be a lowercase sha256 digest")
        [("content_digest", ex_content_digest r); ("parameter_hash", ex_parameter_hash r)];
  refuse_if (existsb scope_item_bad (ex_scope r)) contract "scope"
    "must contain non-empty, NUL-free values".

Record ExtensionExecutionPermit : Type := mkPermit {
  ep_allowed : bool;
  ep_operation_id : string;
  ep_actor : string;
  ep_extension_id : string;
  ep_content_digest : string;
  ep_authorization_receipt_id : string;
  ep_capability : string;
  ep_operation : string;
  ep_parameter_hash : string;
  ep_executor : string;
  ep_policy_version : string;
  ep_decision_reason : string;
  ep_issued_at_us : Z;
  ep_permit_id : string
}.
#[global] Instance ExtensionExecutionPermit_eq_dec : EqDecision ExtensionExecutionPermit.
Proof. solve_decision. Defined.

Record ExtensionRevocationRequest : Type := mkRevocation {
  er_schema_version : Z;
  er_extension_id : string;
  er_content_digest : string;
  er_authorization_receipt_id : string;
  er_reason : string
}.
#[global] Instance ExtensionRevocationRequest_eq_dec : EqDecision ExtensionRevocationRequest.
Proof. solve_decision. Defined.
Definition validate_revocation (r : ExtensionRevocationRequest) : ContractResult :=
  let contract := "ExtensionRevocationRequest" in
  _ ← schema contract (er_schema_version r);
  _ ← required contract "extension_id" (er_extension_id r);
  _ ← required contract "authorization_receipt_id" (er_authorization_receipt_id r);
  refuse_if (negb (valid_digest (er_content_digest r))) contract "content_digest"
    "must be a lowercase sha256 digest".

(** ** Graphs *)

(** [CapabilityGraph]: the providers of each capability, in name order. *)
Definition CapabilityGraph : Type := gmap string (gset string).
Definition advertise (provider capability : string) (g : CapabilityGraph) : CapabilityGraph :=
  <[capability := default ∅ (g !! capability) ∪ {[provider]}]> g.
Definition providers_for (g : CapabilityGraph) (capability : string) : list string :=
  sort_by String.compare (elements (default ∅ (g !! capability))).

(** [ResourceGraph]: the capacity of each node; the nodes in name order. *)
Definition ResourceGraph : Type := gmap string ResourceVector.
Definition feasible_nodes (g : ResourceGraph) (need : ResourceVector) : list string :=
  (filter (λ p, fits_within need p.2 = true)
     (sort_by (λ a b, String.compare a.1 b.1) (map_to_list g))).*1.

(** ** What the checks accept *)

Lemma refuse_if_Ok b contract field message :
  refuse_if b contract field message = Ok tt ↔ b = false.
Proof. by destruct b. Qed.

Lemma check_bind_Ok {E} (r s : result E unit) : (_ ← r; s) = Ok tt ↔ r = Ok tt ∧ s = Ok tt.
Proof. destruct r as [[]|e]; simpl; naive_solver. Qed.

Lemma check_each_Ok {A E} (check : A → result E unit) l :
  check_each check l = Ok tt ↔ Forall (λ x, check x = Ok tt) l.
Proof.
  induction l as [|x l IH]; simpl; [naive_solver|].
  rewrite check_bind_Ok, IH, Forall_cons. done.
Qed.

Lemma required_Ok contract field value : required contract field value = Ok tt ↔ blank value = false.
Proof. apply refuse_if_Ok. Qed.
Lemma schema_Ok contract v : schema contract v = Ok tt ↔ v = 1.
Proof. unfold schema. rewrite refuse_if_Ok, negb_false_iff. apply Z.eqb_eq. Qed.

Create Rewrite HintDb contracts.
#[export] Hint Rewrite refuse_if_Ok @check_bind_Ok @check_each_Ok required_Ok schema_Ok
  negb_false_iff negb_true_iff orb_false_iff andb_false_iff bool_decide_eq_false
  bool_decide_eq_true Z.ltb_ge : contracts.
Ltac contract_facts := autorewrite with contracts in *.

(** *** Digests *)

(** ["sha256:"] and sixty-four lower-case hexadecimal digits. *)
Definition is_digest (s : string) : Prop :=
  ∃ h, s = "sha256:" +:+ h ∧ String.length h = 64%nat ∧ string_all is_lower_hex h = true.

Lemma valid_digest_iff s : valid_digest s = true ↔ is_digest s.
Proof.
  unfold valid_digest, is_digest. rewrite !andb_true_iff, bool_decide_eq_true, starts_with_iff.
  split.
  - intros [[Hl (h & ->)] Hh]. exists h. split; [done|]. split; [|exact Hh].
    change (7 + String.length h = 71)%nat in Hl. lia.
  - intros (h & -> & Hl & Hh). split; [split|exact Hh]; [|by exists h].
    change (7 + String.length h = 71)%nat. lia.
Qed.

(** *** Capability names *)

Lemma split_on_cons c s : ∃ x l, split_on c s = x :: l ∧ s = join (String c "") (x :: l).
Proof.
  induction s as [|d s (x & l & E & Hs)]; simpl; [by exists "", []|].
  case_decide as Hd.
  - rewrite E, Hd. exists "", (x :: l). split; [done|]. rewrite Hs at 1. done.
  - rewrite E. exists (String d x), l. split; [done|]. rewrite Hs at 1. by destruct l.
Qed.

Lemma split_on_no_sep c s : Forall (λ x, string_mem c x = false) (split_on c s).
Proof.
  induction s as [|d s IH]; simpl; [by constructor|]. case_decide as Hd; [by constructor|].
  destruct (split_on c s) as [|x l]; [constructor; [|done]|].
  - simpl. rewrite bool_decide_false by done. done.
  - apply Forall_cons in IH as [Hx Hl]. constructor; [|done]. simpl.
    by rewrite bool_decide_false, Hx by done.
Qed.

Lemma split_on_app c x s :
  string_mem c x = false → split_on c (x +:+ String c s) = x :: split_on c s.
Proof.
  induction x as [|d x IH]; rewrite ?string_app_cons, ?string_app_nil; simpl; intros Hx.
  - by rewrite decide_True.
  - apply orb_false_iff in Hx as [Hd%bool_decide_eq_false Hx]. rewrite decide_False by done.
    by rewrite IH.
Qed.

Lemma split_on_single c x : string_mem c x = false → split_on c x = [x].
Proof.
  induction x as [|d x IH]; simpl; intros Hx; [done|].
  apply orb_false_iff in Hx as [Hd%bool_decide_eq_false Hx]. rewrite decide_False by done.
  by rewrite IH.
Qed.

Lemma split_on_join c l :
  l ≠ [] → Forall (λ x, string_mem c x = false) l → split_on c (join (String c "") l) = l.
Proof.
  intros Hl. induction 1 as [|x l Hx Hf IH]; [done|]. destruct l as [|y l].
  - by apply split_on_single.
  - change (split_on c (x +:+ String c (join (String c "") (y :: l))) = x :: y :: l).
    rewrite split_on_app by done. by rewrite IH.
Qed.

Lemma string_mem_split c s : string_mem c s = true ↔ (2 ≤ length (split_on c s))%nat.
Proof.
  destruct (split_on_cons c s) as (x & l & E & Hs). rewrite E. destruct l as [|y l]; simpl.
  - pose proof (split_on_no_sep c s) as Hn. rewrite E in Hn. apply Forall_cons in Hn as [Hx _].
    simpl in Hs. subst s. rewrite Hx. split; [done|lia].
  - split; [lia|intros _]. rewrite Hs. clear. simpl.
    induction x as [|d x IH]; simpl; [by rewrite bool_decide_true|]. by rewrite IH, orb_true_r.
Qed.

Lemma capability_segment_no_dot s : capability_segment s = true → string_mem "." s = false.
Proof.
  unfold capability_segment. intros [_ Hs]%andb_true_iff.
  induction s as [|d s IH]; simpl in *; [done|]. apply andb_true_iff in Hs as [Hd Hs].
  rewrite (IH Hs), orb_false_r. apply bool_decide_eq_false. intros ->. done.
Qed.

(** A capability name is a list of at least two segments joined by dots, each
    made of lower-case letters, digits, underscores and hyphens and not empty:
    the check accepts exactly these. *)
Theorem capability_name_exact v :
  capability_name v = true ↔
  ∃ l, (2 ≤ length l)%nat ∧ v = join "." l ∧ Forall (λ s, capability_segment s = true) l.
Proof.
  unfold capability_name. rewrite andb_true_iff, forallb_elem, string_mem_split. split.
  - intros [Hseg Hlen]. exists (split_on "." v). split_and!; [done| |by apply Forall_forall].
    destruct (split_on_cons "." v) as (x & l & -> & Hv). exact Hv.
  - intros (l & Hlen & -> & Hseg). rewrite split_on_join.
    + split; [|done]. by apply Forall_forall.
    + intros ->. simpl in Hlen. lia.
    + eapply Forall_impl; [exact Hseg|]. apply capability_segment_no_dot.
Qed.

(** *** Extension requests *)

(** What an admission request must be. *)
Record admission_wf (r : ExtensionAdmissionRequest) : Prop := {
  aw_schema : ea_schema_version r = 1;
  aw_named : blank (ea_extension_id r) = false ∧ blank (ea_version r) = false ∧
    blank (ea_source_format r) = false;
  aw_level : ea_compatibility_level r ≤ 5;
  aw_digest : is_digest (ea_content_digest r);
  aw_authority : ea_metadata r !! "authority" = Some "none";
  aw_verified : ea_metadata r !! "supply_chain_verified" = Some "true";
  aw_supply_chain : ∀ f, f ∈ supply_chain_fields →
    ∃ d, ea_metadata r !! f = Some d ∧ is_digest d;
  aw_signature : ea_metadata r !! "signature_status" = Some "Unsigned" ∨
    ea_metadata r !! "signature_status" = Some "Verified";
  aw_kinds : ea_kinds r ≠ [] ∧ ea_kinds r ⊆ allowed_kinds ∧ NoDup (ea_kinds r);
  aw_requests : ∀ c, c ∈ ea_capability_requests r →
    capability_name (ecr_capability c) = true ∧
    ecr_access c ∈ ["read"; "write"; "execute"; "connect"; "use"] ∧
    (∀ i, i ∈ ecr_scope c → scope_item_bad i = false);
  aw_executor : "plugin" ∈ ea_kinds r → ea_executor r ≠ ""
}.

Lemma validate_capability_request_Ok c :
  validate_capability_request c = Ok tt ↔
  capability_name (ecr_capability c) = true ∧
  ecr_access c ∈ ["read"; "write"; "execute"; "connect"; "use"] ∧
  (∀ i, i ∈ ecr_scope c → scope_item_bad i = false).
Proof.
  unfold validate_capability_request. contract_facts.
  assert (existsb scope_item_bad (ecr_scope c) = false ↔
    ∀ i, i ∈ ecr_scope c → scope_item_bad i = false) as ->; [|done].
  rewrite <-not_true_iff_false, existsb_elem. split.
  - intros Hn i Hi. apply not_true_iff_false. eauto.
  - intros Hf (i & Hi & Hb). rewrite Hf in Hb; done.
Qed.

Lemma supply_chain_digest_Ok r f :
  valid_digest (default "" (ea_metadata r !! f)) = true ↔
  ∃ d, ea_metadata r !! f = Some d ∧ is_digest d.
Proof.
  rewrite valid_digest_iff. destruct (ea_metadata r !! f) as [d|]; simpl; [naive_solver|].
  split; [intros (h & Hh & _); done|naive_solver].
Qed.

(** Admission requests are checked completely: exactly the well-formed ones
    pass. *)
Theorem admission_request_exact r : validate_admission r = Ok tt ↔ admission_wf r.
Proof.
  unfold validate_admission. autorewrite with contracts.
  assert (existsb (λ k, negb (bool_decide (k ∈ allowed_kinds))) (ea_kinds r) = false ↔
    ea_kinds r ⊆ allowed_kinds) as Hkinds.
  { rewrite <-not_true_iff_false, existsb_elem. split.
    - intros Hn k Hk. destruct (decide (k ∈ allowed_kinds)) as [|Hno]; [done|].
      destruct Hn. exists k. by rewrite bool_decide_false.
    - intros Hsub (k & Hk & Hb%negb_true_iff%bool_decide_eq_false). by apply Hb, Hsub. }
  rewrite Hkinds, !Forall_forall. setoid_rewrite refuse_if_Ok. setoid_rewrite negb_false_iff.
  setoid_rewrite supply_chain_digest_Ok. setoid_rewrite validate_capability_request_Ok.
  rewrite valid_digest_iff. split.
  - intros (H1 & H2 & H3 & H4 & H5 & H6 & H7 & H8 & H9 & H10 & (H11 & H11') & H12 & H13 & H14).
    split; try done; [by apply dec_stable|by apply dec_stable|set_solver|].
    intros Hp He. by destruct H14.
  - intros [H1 (H2 & H3 & H4) H5 H6 H7 H8 H9 H10 (H11 & H12 & H13) H14 H15].
    split_and!; try done; [naive_solver|naive_solver|set_solver|].
    destruct (decide ("plugin" ∈ ea_kinds r)); naive_solver.
Qed.

(** An authorization approves some of the capabilities requested, each once. *)
Lemma validate_authorization_Ok a :
  validate_authorization a = Ok tt ↔
  validate_admission (eu_admission a) = Ok tt ∧ blank (eu_admission_receipt_id a) = false ∧
  blank (eu_approval_id a) = false ∧ NoDup (eu_approved_capabilities a) ∧
  eu_approved_capabilities a ⊆ requested_capabilities (eu_admission a).
Proof.
  unfold validate_authorization. autorewrite with contracts.
  assert (size (list_to_set (C := gset string) (eu_approved_capabilities a))
    = length (eu_approved_capabilities a) ↔ NoDup (eu_approved_capabilities a)) as Hnd.
  { split; [|apply size_list_to_set]. generalize (eu_approved_capabilities a) as l.
    induction l as [|x l IH]; intros Hs; [constructor|]. simpl in Hs.
    destruct (decide (x ∈ l)) as [Hx|Hx].
    - rewrite subseteq_union_1_L in Hs by set_solver.
      assert (∀ k : list string, size (list_to_set (C := gset string) k) ≤ length k)%nat as Hle.
      { clear. induction k as [|y k IH]; simpl; [done|].
        pose proof (size_union_alt {[y]} (list_to_set (C := gset string) k)) as Hu.
        rewrite Hu, size_singleton.
        pose proof (subseteq_size (list_to_set k ∖ {[y]}) (list_to_set (C := gset string) k)
          ltac:(set_solver)). lia. }
      specialize (Hle l). lia.
    - rewrite size_union, size_singleton in Hs by set_solver. constructor; [done|].
      apply IH. lia. }
  rewrite <-Hnd. split; intros (? & ? & ? & ? & ?); split_and!; try done; [lia|set_solver|lia|set_solver].
Qed.
