(* ===== verification/Nki.v ===== *)
(** * The kernel interface

    [crates/nous-nki/src/envelope.rs], [methods.rs], [transport.rs] and the
    connection loop of [daemon/nousd/src/main.rs] ([handle_connection],
    [constant_time_equal], [nki_error]): envelopes, outcomes as JSON, frames, and
    the checks a request passes before it is dispatched. *)

From S2P Require Import Prelude Journal Contracts.
Local Open Scope Z_scope.

(** ** Envelopes *)

Record NKIRequest : Type := mkNki {
  nk_request_id : string;
  nk_idempotency_key : string;
  nk_version : Z;
  nk_principal_id : string;
  nk_session_token : string;
  nk_namespace : string;
  nk_deadline_us : Z;
  nk_traceparent : string;
  nk_tracestate : string;
  nk_feature_flags : list string;
  nk_method : string;
  nk_payload : bytes
}.
#[global] Instance NKIRequest_eq_dec : EqDecision NKIRequest.
Proof. solve_decision. Defined.

Record NKIErrorBody : Type := mkNkiError {
  nb_code : string;
  nb_message : string;
  nb_failed_phase : string;
  nb_cause : string;
  nb_retryable : bool;
  nb_recommended_delay_ms : Z
}.

(** [NKIOutcome] with payloads in [P]: JSON on the wire, the value behind it in
    a handler. *)
Inductive NKIOutcome (P : Type) : Type := Success (payload : P) | Error_ (error : NKIErrorBody).
Arguments Success {P} _.
Arguments Error_ {P} _.

Record NKIResponse (P : Type) : Type := mkResponse {
  np_request_id : string;
  np_nki_version : Z;
  np_server_timestamp_us : Z;
  np_trace_id : string;
  np_outcome : NKIOutcome P
}.
Arguments mkResponse {P} _ _ _ _ _.

(** [Display for NKIErrorBody]. *)
Definition error_body_text (e : NKIErrorBody) : string := nb_code e +:+ ": " +:+ nb_message e.

(** A payload inside the JSON envelope is text. The codec is a library's; it is exact
    on bytes and pads to groups of four characters. *)
Definition octets (b : bytes) : Prop := Forall (λ z, 0 ≤ z < 256) b.
Class Base64 : Type := {
  b64_encode : bytes → string;
  b64_decode : string → result string bytes
}.
Class Base64Laws `{Base64} : Prop := {
  b64_exact b : octets b → b64_decode (b64_encode b) = Ok b;
  b64_length b : String.length (b64_encode b) = (4 * ((length b + 2) / 3))%nat
}.
Definition base64_serialize `{Base64} (data : bytes) : string :=
  if decide (data = []) then "" else b64_encode data.
Definition base64_deserialize `{Base64} (s : string) : result string bytes :=
  if decide (s = "") then Ok [] else b64_decode s.

(** Payloads survive the envelope, the empty one included. *)
Lemma payload_text_roundtrip `{Base64Laws} data :
  octets data → base64_deserialize (base64_serialize data) = Ok data.
Proof.
  intros Hdata.
  unfold base64_serialize, base64_deserialize. destruct (decide (data = [])) as [->|Hne]; [done|].
  rewrite decide_False; [by apply b64_exact|]. intros E. apply (f_equal String.length) in E.
  rewrite b64_length in E. change (String.length "") with 0%nat in E.
  assert (1 ≤ (length data + 2) / 3)%nat; [|lia].
  apply Nat.div_le_lower_bound; [lia|]. destruct data; [done|]. simpl. lia.
Qed.

Definition NKI_VERSION : Z := 2.
Definition MIN_NKI_VERSION : Z := 1.

(** [nki_error]. *)
Definition nki_error {P} (code message : string) (retryable : bool) : NKIOutcome P :=
  Error_ (mkNkiError code message "EXECUTE" "" retryable (if retryable then 250 else 0)).

(** ** Outcomes as JSON *)

(** [Serialize] of [NKIErrorBody] and [NKIOutcome]. *)
Definition error_to_value (e : NKIErrorBody) : Value :=
  VObject [("cause", VString (nb_cause e)); ("code", VString (nb_code e));
           ("failed_phase", VString (nb_failed_phase e)); ("message", VString (nb_message e));
           ("recommended_delay_ms", VNumber (PosInt (nb_recommended_delay_ms e)));
           ("retryable", VBool (nb_retryable e))].
Definition outcome_to_value (o : NKIOutcome Value) : Value :=
  match o with
  | Success p => VObject [("payload", p); ("status", VString "success")]
  | Error_ e => VObject [("error", error_to_value e); ("status", VString "error")]
  end.

(** The fields of a derived [Deserialize]: required or with a default. *)
Definition field_string (v : Value) (key : string) : result string string :=
  match value_get v key with
  | Some (VString s) => Ok s
  | Some _ => Err ("invalid type for field `" +:+ key +:+ "`")
  | None => Err ("missing field `" +:+ key +:+ "`")
  end.
Definition default_string (v : Value) (key : string) : result string string :=
  match value_get v key with None => Ok "" | Some _ => field_string v key end.
Definition field_bool (v : Value) (key : string) : result string bool :=
  match value_get v key with
  | Some (VBool b) => Ok b
  | Some _ => Err ("invalid type for field `" +:+ key +:+ "`")
  | None => Err ("missing field `" +:+ key +:+ "`")
  end.
Definition default_u32 (v : Value) (key : string) : result string Z :=
  match value_get v key with
  | None => Ok 0
  | Some (VNumber (PosInt n)) =>
      if decide (n ≤ u32_max) then Ok n else Err ("invalid value for field `" +:+ key +:+ "`")
  | Some _ => Err ("invalid type for field `" +:+ key +:+ "`")
  end.
Definition error_of_value (v : Value) : result string NKIErrorBody :=
  match v with
  | VObject _ =>
      code ← field_string v "code";
      message ← field_string v "message";
      failed_phase ← default_string v "failed_phase";
      cause ← default_string v "cause";
      retryable ← field_bool v "retryable";
      delay ← default_u32 v "recommended_delay_ms";
      Ok (mkNkiError code message failed_phase cause retryable delay)
  | _ => Err "expected struct NKIErrorBody"
  end.

(** [Deserialize for NKIOutcome]: by the status if there is one, otherwise by
    the fields present. *)
Definition outcome_payload (v : Value) : result string (NKIOutcome Value) :=
  match value_get v "payload" with
  | Some p => Ok (Success p)
  | None => Err "missing field `payload`"
  end.
Definition outcome_error (v : Value) : result string (NKIOutcome Value) :=
  match value_get v "error" with
  | Some e => Error_ <$> error_of_value e
  | None => Err "missing field `error`"
  end.
Definition outcome_of_value (v : Value) : result string (NKIOutcome Value) :=
  match v with
  | VObject _ =>
      match value_get v "status" ≫= value_as_str with
      | Some status =>
          if decide (status = "success") then outcome_payload v
          else if decide (status = "error") then outcome_error v
          else Err ("unknown NKI outcome status '" +:+ status +:+ "'")
      | None =>
          match value_get v "error", value_get v "payload" with
          | Some _, _ => outcome_error v
          | None, Some _ => outcome_payload v
          | None, None => Err "NKI outcome requires status, payload, or error"
          end
      end
  | _ => Err "NKI outcome must be an object"
  end.

(** ** Frames *)

(** [u32::to_be_bytes] and [from_be_bytes]. *)
Definition be32 (z : Z) : bytes :=
  [z / 2 ^ 24 mod 256; z / 2 ^ 16 mod 256; z / 2 ^ 8 mod 256; z mod 256].
Definition of_be32 (a b c d : Z) : Z := a * 2 ^ 24 + b * 2 ^ 16 + c * 2 ^ 8 + d.

Inductive TransportError : Type :=
| ConnectionFailed (text : string)
| Timeout_ (ms : Z)
| Serialization (text : string)
| Closed_
| Unauthenticated_
| Unsupported_ (text : string).

(** [LengthPrefixedCodec]. *)
Definition encode_raw (b : bytes) : bytes := be32 (wrap32 (Z.of_nat (length b))) ++ b.
Definition frame_encode `{Serde T} (msg : T) : result TransportError bytes :=
  match to_vec msg with
  | None => Err (Serialization (to_vec_text msg))
  | Some body => Ok (encode_raw body)
  end.
Definition frame_decode `{Serde T} (data : bytes) : result TransportError T :=
  match data with
  | a :: b :: c :: d :: rest =>
      let len := Z.to_nat (of_be32 a b c d) in
      if decide (length rest < len)%nat then Err (Serialization "Message truncated")
      else match from_slice (take len rest) with
           | Some x => Ok x
           | None => Err (Serialization (@from_slice_text T _ (take len rest)))
           end
  | _ => Err (Serialization "Message too short")
  end.

(** ** Connections *)

(** [constant_time_equal]. *)
Definition byte_at (l : bytes) (i : nat) : Z := default 0 (l !! i).
Definition constant_time_equal (left right : bytes) : bool :=
  foldl (λ d i, Z.lor d (Z.lxor (byte_at left i) (byte_at right i)))
    (Z.lxor (Z.of_nat (length left)) (Z.of_nat (length right)))
    (seq 0 (max (length left) (length right))) =? 0.

(** The checks of [handle_connection], in its order; [None] lets the request
    through. *)
Definition envelope_refusal {P} (now : Z) (session_token : string) (r : NKIRequest) :
    option (NKIOutcome P) :=
  if negb ((MIN_NKI_VERSION <=? nk_version r) && (nk_version r <=? NKI_VERSION)) then
    Some (nki_error "NKI_VERSION_UNSUPPORTED" "unsupported NKI version" false)
  else if bool_decide (nk_request_id r = "") || bool_decide (nk_idempotency_key r = "")
          || bool_decide (nk_principal_id r = "") || bool_decide (nk_namespace r = "") then
    Some (nki_error "INVALID_ENVELOPE"
            "request_id, idempotency_key, principal_id, and namespace are required" false)
  else if negb (bool_decide (session_token = ""))
          && negb (constant_time_equal (string_bytes (nk_session_token r))
                     (string_bytes session_token)) then
    Some (nki_error "UNAUTHENTICATED" "local Runtime session is invalid" false)
  else if (0 <? nk_deadline_us r) && (nk_deadline_us r <? now) then
    Some (nki_error "DEADLINE_EXCEEDED" "request deadline expired" true)
  else None.

Definition MAX_FRAME : Z := 16 * 1024 * 1024.

(** One read of the loop: the end of the stream, an error, or a body. *)
Inductive Frame : Type := FrameEnd | FrameError (text : string) | FrameBody (body rest : bytes).
Definition read_frame (stream : bytes) : Frame :=
  match stream with
  | a :: b :: c :: d :: rest =>
      let len := of_be32 a b c d in
      if decide (MAX_FRAME < len) then FrameError "NKI frame exceeds 16 MiB"
      else if decide (length rest < Z.to_nat len)%nat then FrameError "early eof"
      else FrameBody (take (Z.to_nat len) rest) (drop (Z.to_nat len) rest)
  | _ => FrameEnd
  end.

Section Connection.
Context {S P : Type} `{Serde NKIRequest}.
Context (dispatch : NKIRequest → M S string (NKIOutcome P)).

(** What the loop reads for one request: the clock twice and a trace id. *)
Record Tick : Type := mkTick { tk_now : Z; tk_sent : Z; tk_trace : string }.

(** The body of the loop after a frame: check, dispatch, respond. *)
Definition answer (session_token : string) (t : Tick) (r : NKIRequest) :
    M S string (NKIResponse P) :=
  outcome ← (match envelope_refusal (tk_now t) session_token r with
             | Some o => mret o
             | None => dispatch r
             end);
  mret (mkResponse (nk_request_id r) NKI_VERSION (tk_sent t) (tk_trace t) outcome).

(** [handle_connection]: the responses written, and how it ended. *)
Fixpoint handle_connection (session_token : string) (ticks : list Tick) (stream : bytes) (s : S) :
    list (NKIResponse P) * result string unit * S :=
  match ticks with
  | [] => ([], Ok tt, s)
  | t :: ticks' =>
      match read_frame stream with
      | FrameEnd => ([], Ok tt, s)
      | FrameError e => ([], Err e, s)
      | FrameBody body rest =>
          match from_slice body with
          | None => ([], Err (@from_slice_text NKIRequest _ body), s)
          | Some r =>
              match answer session_token t r s with
              | (Err e, s') => ([], Err e, s')
              | (Ok resp, s') =>
                  let '(rs, res, s'') := handle_connection session_token ticks' rest s' in
                  (resp :: rs, res, s'')
              end
          end
      end
  end.
End Connection.

(** ** Comparing tokens *)

(** The constant-time comparison is equality, for byte strings of any
    lengths: it never stops early, and still answers true exactly on equal
    strings. *)
Theorem constant_time_equal_exact l r : constant_time_equal l r = true ↔ l = r.
Proof.
  assert (∀ ks d, foldl (λ d i, Z.lor d (Z.lxor (byte_at l i) (byte_at r i))) d ks = 0 ↔
    d = 0 ∧ ∀ i, i ∈ ks → byte_at l i = byte_at r i) as Hfold.
  { induction ks as [|i ks IH]; intros d; simpl; [set_solver|]. rewrite IH, Z.lor_eq_0_iff.
    assert (Z.lxor (byte_at l i) (byte_at r i) = 0 ↔ byte_at l i = byte_at r i) as ->.
    { split; [apply Z.lxor_eq|intros ->; apply Z.lxor_nilpotent]. }
    set_solver. }
  unfold constant_time_equal. rewrite Z.eqb_eq, Hfold. split.
  - intros [Hlen%Z.lxor_eq%Nat2Z.inj Hb]. apply list_eq_same_length with (length r); [done|done|].
    intros i x y Hi Hx Hy. assert (byte_at l i = byte_at r i) as E by (apply Hb, elem_of_seq; lia).
    change (default 0 (l !! i) = default 0 (r !! i)) in E. unfold bytes in E. by rewrite Hx, Hy in E.
  - intros ->. split; [apply Z.lxor_nilpotent|done].
Qed.

(** ** Outcomes *)

(** Outcomes survive the wire: what a response serializes to is read back as
    the outcome it came from. *)
Theorem outcome_roundtrip o :
  match o with Success _ => True | Error_ e => nb_recommended_delay_ms e ≤ u32_max end →
  outcome_of_value (outcome_to_value o) = Ok o.
Proof.
  destruct o as [p|[]]; simpl; [done|]. intros Hd. unfold outcome_of_value, outcome_error. simpl.
  unfold error_of_value. simpl. unfold default_u32. simpl. by rewrite decide_True.
Qed.

(** ** Frames *)

Lemma of_be32_be32 z : 0 ≤ z < 2 ^ 32 →
  match be32 z with [a; b; c; d] => of_be32 a b c d | _ => -1 end = z.
Proof.
  intros Hz. unfold be32, of_be32.
  pose proof (Z.div_mod z (2 ^ 8)). pose proof (Z.div_mod (z / 2 ^ 8) (2 ^ 8)).
  pose proof (Z.div_mod (z / 2 ^ 16) (2 ^ 8)).
  assert (z / 2 ^ 16 = z / 2 ^ 8 / 2 ^ 8) as E1 by (rewrite Z.div_div by lia; done).
  assert (z / 2 ^ 24 = z / 2 ^ 16 / 2 ^ 8) as E2 by (rewrite Z.div_div by lia; done).
  rewrite (Z.mod_small (z / 2 ^ 24) 256).
  2:{ split; [apply Z.div_pos; lia|apply Z.div_lt_upper_bound; lia]. }
  change 256 with (2 ^ 8). rewrite E2, E1 in *. lia.
Qed.

Lemma encode_raw_cons b rest :
  Z.of_nat (length b) < 2 ^ 32 →
  ∃ w x y z, encode_raw b ++ rest = w :: x :: y :: z :: b ++ rest ∧
    of_be32 w x y z = Z.of_nat (length b).
Proof.
  intros Hb. unfold encode_raw, wrap32. rewrite Z.mod_small by lia.
  do 4 eexists. split; [reflexivity|]. apply (of_be32_be32 (Z.of_nat (length b))). lia.
Qed.

(** A legible message is decoded from its frame, whatever follows it. *)
Lemma frame_roundtrip `{Serde T} (x : T) b rest :
  legible x → to_vec x = Some b → Z.of_nat (length b) < 2 ^ 32 →
  frame_encode x = Ok (encode_raw b) ∧ frame_decode (encode_raw b ++ rest) = Ok x.
Proof.
  intros Hlegible Hx Hb. unfold frame_encode. rewrite Hx. split; [done|].
  destruct (encode_raw_cons b rest Hb) as (w & x' & y & z & -> & Hlen). simpl.
  rewrite Hlen, Nat2Z.id, decide_False by (rewrite length_app; lia).
  rewrite take_app_length. by rewrite (Hlegible b Hx).
Qed.

Lemma read_frame_encode b rest :
  Z.of_nat (length b) ≤ MAX_FRAME → read_frame (encode_raw b ++ rest) = FrameBody b rest.
Proof.
  intros Hb. destruct (encode_raw_cons b rest) as (w & x & y & z & -> & Hlen).
  { unfold MAX_FRAME in Hb. lia. }
  simpl. rewrite Hlen, Nat2Z.id, decide_False, decide_False by (rewrite ?length_app; lia).
  by rewrite take_app_length, drop_app_length.
Qed.

(** ** Connections *)

Section Connections.
Context {S P : Type} `{Serde NKIRequest}.
Context (dispatch : NKIRequest → M S string (NKIOutcome P)).

(** One answer after the other, until one fails. *)
Fixpoint answers (token : string) (ticks : list Tick) (rs : list NKIRequest) (s : S) :
    list (NKIResponse P) * result string unit * S :=
  match rs, ticks with
  | r :: rs', t :: ticks' =>
      match answer dispatch token t r s with
      | (Err e, s') => ([], Err e, s')
      | (Ok resp, s') =>
          let '(resps, res, s'') := answers token ticks' rs' s' in (resp :: resps, res, s'')
      end
  | _, _ => ([], Ok tt, s)
  end.

(** A connection answers its requests one by one, in order. The frames a
    client sends of legible requests, however many and back to back, are read as
    exactly the requests they encode, and each is answered in the state the ones before it left. *)
Theorem connection_answers_in_order token ticks rs bodies s :
  Forall2 (λ r b, legible r ∧ to_vec r = Some b ∧ Z.of_nat (length b) ≤ MAX_FRAME) rs bodies →
  (length rs < length ticks)%nat →
  handle_connection dispatch token ticks (concat (encode_raw <$> bodies)) s
  = answers token ticks rs s.
Proof.
  intros Hf. revert ticks s.
  induction Hf as [|r b rs bodies (Hl & Hr & Hb) _ IH]; intros [|t ticks] s Hn;
    cbn [length] in Hn; try lia; [done|].
  rewrite fmap_cons. cbn [concat handle_connection answers]. rewrite read_frame_encode by done. rewrite (Hl b Hr).
  destruct (answer dispatch token t r s) as [[resp|e] s']; [|done].
  rewrite IH by lia. done.
Qed.

(** Boolean tests as propositions. *)
Ltac bool_facts :=
  rewrite ?andb_true_iff, ?andb_false_iff, ?orb_true_iff, ?orb_false_iff,
    ?negb_true_iff, ?negb_false_iff, ?Z.ltb_lt, ?Z.ltb_ge, ?Z.leb_le, ?Z.leb_gt,
    ?bool_decide_eq_true, ?bool_decide_eq_false in *.

(** C32: Only a request that passes every check reaches the kernel. It has a
    supported version and the four required fields, carries the session token
    when one is configured, and its deadline has not passed; every other request
    is refused without touching the state. *)
Theorem dispatch_guarded token t r s :
  (envelope_refusal (P := P) (tk_now t) token r = None ↔
     MIN_NKI_VERSION ≤ nk_version r ≤ NKI_VERSION ∧
     nk_request_id r ≠ "" ∧ nk_idempotency_key r ≠ "" ∧ nk_principal_id r ≠ "" ∧
     nk_namespace r ≠ "" ∧
     (token = "" ∨ nk_session_token r = token) ∧
     (nk_deadline_us r ≤ 0 ∨ tk_now t ≤ nk_deadline_us r)) ∧
  ∀ o, envelope_refusal (tk_now t) token r = Some o →
    answer dispatch token t r s
    = (Ok (mkResponse (nk_request_id r) NKI_VERSION (tk_sent t) (tk_trace t) o), s).
Proof.
  split.
  - unfold envelope_refusal.
    destruct (constant_time_equal _ _) eqn:Heq.
    + apply constant_time_equal_exact, string_bytes_inj in Heq.
      repeat case_match; bool_facts; naive_solver lia.
    + assert (nk_session_token r ≠ token) as Hne.
      { intros Hc. rewrite Hc in Heq. by rewrite (proj2 (constant_time_equal_exact _ _)) in Heq. }
      repeat case_match; bool_facts; naive_solver lia.
  - intros o Ho. unfold answer. by rewrite Ho.
Qed.
End Connections.

(** ** A concrete connection *)

#[global] Instance NKIRequest_countable : Countable NKIRequest.
Proof.
  refine (inj_countable
    (λ r, ([nk_request_id r; nk_idempotency_key r; nk_principal_id r; nk_session_token r;
            nk_namespace r; nk_traceparent r; nk_tracestate r; nk_method r],
           nk_feature_flags r, nk_payload r, (nk_version r, nk_deadline_us r)))
    (λ '(l, fs, p, (v, t)), match l with
       | [a; b; c; d; e; f; g; h] => Some (mkNki a b v c d e t f g fs h p)
       | _ => None end) _).
  by intros [].
Defined.
#[local] Instance nki_serde : Serde NKIRequest := countable_serde _.

Definition ex_nki (id : string) : NKIRequest :=
  mkNki id "k" 2 "p" "" "ns" 0 "" "" [] "HealthCheck" [].
Definition ex_bodies : list bytes := omap to_vec [ex_nki "a"; ex_nki "b"].
Definition ex_dispatch (r : NKIRequest) : M nat string (NKIOutcome string) :=
  λ n, (Ok (Success (nk_method r)), S n).
Definition ex_ticks : list Tick := [mkTick 1 2 "t1"; mkTick 3 4 "t2"; mkTick 5 6 "t3"].

Lemma connection_answers_in_order_witness :
  handle_connection ex_dispatch "" ex_ticks (concat (encode_raw <$> ex_bodies)) 0%nat
  = ([mkResponse "a" 2 2 "t1" (Success "HealthCheck");
      mkResponse "b" 2 4 "t2" (Success "HealthCheck")], Ok tt, 2%nat).
Proof.
  rewrite (connection_answers_in_order ex_dispatch "" ex_ticks [ex_nki "a"; ex_nki "b"]).
  - vm_compute. reflexivity.
  - repeat apply Forall2_cons_2; [..|constructor];
      (split; [intros b; apply countable_serde_laws|split; [reflexivity|]]; vm_compute; discriminate).
  - simpl. lia.
Defined.

Lemma outcome_roundtrip_witness :
  outcome_of_value (outcome_to_value (nki_error "X" "m" true)) = Ok (nki_error "X" "m" true).
Proof. apply outcome_roundtrip. vm_compute. discriminate. Defined.

(** A codec with these laws: groups of three bytes as four characters, the last of
    which counts them. *)
Definition octet_char (z : Z) : ascii := Ascii.ascii_of_nat (Z.to_nat z).
Definition char_octet (c : ascii) : Z := Z.of_nat (Ascii.nat_of_ascii c).
Definition group_text (a b c n : Z) (rest : string) : string :=
  String (octet_char a) (String (octet_char b) (String (octet_char c) (String (octet_char n) rest))).
Fixpoint grouped_encode (l : bytes) : string :=
  match l with
  | a :: b :: c :: l => group_text a b c 3 (grouped_encode l)
  | [a; b] => group_text a b 0 2 ""
  | [a] => group_text a 0 0 1 ""
  | [] => ""
  end.
Fixpoint grouped_decode (s : string) : result string bytes :=
  match s with
  | String a (String b (String c (String n s))) =>
      rest ← grouped_decode s;
      Ok (take (Z.to_nat (char_octet n)) [char_octet a; char_octet b; char_octet c] ++ rest)
  | "" => Ok []
  | _ => Err "invalid length"
  end.
Definition grouped_base64 : Base64 :=
  {| b64_encode := grouped_encode; b64_decode := grouped_decode |}.

Lemma char_octet_char z : 0 ≤ z < 256 → char_octet (octet_char z) = z.
Proof. intros Hz. unfold char_octet, octet_char. rewrite Ascii.nat_ascii_embedding; lia. Qed.

Lemma grouped_base64_laws : @Base64Laws grouped_base64.
Proof.
  split.
  - intros l. simpl. revert l. fix IH 1. intros [|a [|b [|c l]]] Hl; cbn [grouped_encode].
    + done.
    + apply Forall_cons in Hl as [Ha _]. simpl. by rewrite !char_octet_char by lia.
    + apply Forall_cons in Hl as [Ha [Hb _]%Forall_cons]. simpl. by rewrite !char_octet_char by lia.
    + apply Forall_cons in Hl as [Ha [Hb [Hc Hl]%Forall_cons]%Forall_cons].
      cbn [group_text grouped_decode]. rewrite (IH l Hl). simpl.
      by rewrite !char_octet_char by lia.
  - change (∀ l, String.length (grouped_encode l) = (4 * ((length l + 2) / 3))%nat).
    fix IH 1. intros [|a [|b [|c l]]]; [reflexivity..|].
    assert ((length (a :: b :: c :: l) + 2) / 3 = S ((length l + 2) / 3))%nat as ->.
    { rewrite <-(Nat.div_add_l 1 3) by lia. f_equal. }
    cbn [grouped_encode group_text String.length]. rewrite (IH l). lia.
Qed.

Lemma payload_text_roundtrip_witness :
  @base64_deserialize grouped_base64 (@base64_serialize grouped_base64 [123; 125; 10; 255])
  = Ok [123; 125; 10; 255].
Proof.
  apply (@payload_text_roundtrip grouped_base64 grouped_base64_laws).
  apply (bool_decide_unpack _). reflexivity.
Defined.
