(* ===== verification/Extensions.v ===== *)
(** * Extensions

    The extension protocol of [daemon/nousd/src/main.rs] (the arms of
    [dispatch_request] that admit, authorize, permit and revoke extensions). Its
    only state is the kernel journal: every decision is a commit under the
    workload ["extension::<id>"], and later requests are checked against the
    latest one. *)

From S2P Require Import Prelude Errors Journal Provider Contracts Nki.
Local Open Scope Z_scope.

(** ** What receipts are made of

    The JSON objects hashed into receipt identifiers. *)

Record AdmissionMaterial : Type := mkAdmissionMaterial {
  am_extension : ExtensionAdmissionRequest;
  am_principal : string
}.
Record AuthorizationMaterial : Type := mkAuthorizationMaterial {
  um_admission_receipt : string;
  um_approval : string;
  um_approved : list string;
  um_digest : string
}.
Record ExecutionMaterial : Type := mkExecutionMaterial {
  xm_execution : ExtensionExecutionRequest;
  xm_principal : string;
  xm_idempotency_key : string
}.
Record RevocationMaterial : Type := mkRevocationMaterial {
  rm_authorization_receipt : string;
  rm_digest : string;
  rm_principal : string;
  rm_reason : string
}.

(** The payload of a successful outcome. *)
Inductive ExtensionPayload : Type :=
| PDecision (d : ExtensionAdmissionDecision)
| PPermit (p : ExtensionExecutionPermit).

Abbreviation Handler := (M Journal string (NKIOutcome ExtensionPayload)).

(** ** Decisions *)

Definition collect_scopes (rs : list ExtensionCapabilityRequest) : gmap string (list string) :=
  foldl (λ m r, <[ecr_capability r := ecr_scope r]> m) ∅ rs.

Definition executor_constraints_of (executor : string) : gmap string string :=
  let base := <["network" := "deny_by_default"]> (<["authority" := "none"]> ∅) in
  if decide (executor = "") then base
  else <["executor" := executor]> (<["isolation" := "strict"]> base).

Definition admission_decision (x : ExtensionAdmissionRequest) (receipt_id : string) :
    ExtensionAdmissionDecision :=
  let requested := requested_capabilities x in
  mkDecision true (ea_extension_id x) (ea_content_digest x) requested [] []
    (negb (bool_decide (requested = []))) (executor_constraints_of (ea_executor x))
    (collect_scopes (ea_capability_requests x)) "extension-admission-v1"
    (if decide (requested = []) then "admitted_without_runtime_authority"
     else "capability_approval_required") receipt_id.

Definition authorization_decision (a : ExtensionAuthorizationRequest)
    (prior : ExtensionAdmissionDecision) (receipt_id : string) : ExtensionAdmissionDecision :=
  let requested := requested_capabilities (eu_admission a) in
  let approved := eu_approved_capabilities a in
  let remaining := filter (λ c, c ∉ approved) requested in
  mkDecision true (ea_extension_id (eu_admission a)) (ea_content_digest (eu_admission a)) requested
    approved [] (negb (bool_decide (remaining = []))) (ed_executor_constraints prior)
    (ed_scope_constraints prior) "extension-authorization-v1"
    (if decide (remaining = []) then "approved_capabilities_bound"
     else "partial_approval_requires_review") receipt_id.

Definition revocation_decision (r : ExtensionRevocationRequest)
    (prior : ExtensionAdmissionDecision) (receipt_id : string) : ExtensionAdmissionDecision :=
  mkDecision true (er_extension_id r) (er_content_digest r) (ed_requested_capabilities prior) []
    (ed_granted_capabilities prior) (negb (bool_decide (ed_requested_capabilities prior = [])))
    (<["authority" := "none"]> (ed_executor_constraints prior)) (ed_scope_constraints prior)
    "extension-revocation-v1" "authority_revoked" receipt_id.

Definition execution_permit (q : NKIRequest) (x : ExtensionExecutionRequest) (now : Z)
    (permit_id : string) : ExtensionExecutionPermit :=
  mkPermit true (ex_operation_id x) (nk_principal_id q) (ex_extension_id x) (ex_content_digest x)
    (ex_authorization_receipt_id x) (ex_capability x) (ex_operation x) (ex_parameter_hash x)
    (ex_executor x) "extension-execution-v1" "authorized_capability_bound" now permit_id.

(** ** Journal records *)

Definition extension_workload (id : string) : string := "extension::" +:+ id.
Definition extension_key (id digest what key : string) : string :=
  "extension:" +:+ id +:+ ":" +:+ digest +:+ ":" +:+ what +:+ ":" +:+ key.

(** The record of a decision; the callers differ in the fields given. *)
Definition extension_entry (q : NKIRequest) (id digest object_type object_id : string)
    (previous : option string) (phase : string) (generation : Z) (payload : bytes) (key : string) :
    JournalEntry :=
  mkEntry 0 (extension_workload id) Commit object_type object_id previous phase generation payload
    digest (nk_principal_id q) (Some key) 0 [].

(** The last record that satisfies [p]. *)
Definition find_last (p : JournalEntry → bool) (es : list JournalEntry) : option JournalEntry :=
  snd <$> list_find (λ e, p e = true) (reverse es).

Definition is_commit (types : list string) (e : JournalEntry) : bool :=
  bool_decide (je_entry_type e = Commit) && bool_decide (je_object_type e ∈ types).
Definition is_authority (e : JournalEntry) : bool :=
  is_commit ["ExtensionAuthorizationDecision"; "ExtensionRevocationDecision"] e.

Section Handlers.
Context `{JournalEnv} `{Serde ExtensionAdmissionRequest} `{Serde ExtensionAuthorizationRequest}
  `{Serde ExtensionExecutionRequest} `{Serde ExtensionRevocationRequest}
  `{Serde ExtensionAdmissionDecision} `{Serde ExtensionExecutionPermit}
  `{Serde AdmissionMaterial} `{Serde AuthorizationMaterial} `{Serde ExecutionMaterial}
  `{Serde RevocationMaterial}.

(** [format!("<prefix>-{}", &digest[..24])]. *)
Definition receipt_of (prefix : string) (material : bytes) : string :=
  prefix +:+ "-" +:+ String.substring 0 24 (digest_bytes material).

(** [serde_json::to_vec(..)?] and [journal.append(..)?] in a handler. *)
Definition encoded `{Serde T} (x : T) : M Journal string bytes :=
  match to_vec x with Some b => mret b | None => throw (to_vec_text x) end.
Definition ext_append (io : Io) (e : JournalEntry) : M Journal string Z :=
  map_err_M nous_error_to_string (append io e).
Definition ext_read (io : Io) (id : string) : M Journal string (list JournalEntry) := λ j,
  (map_err nous_error_to_string (read_workload io j (extension_workload id)), j).

(** [AdmitExtension]. *)
Definition admit_extension (io : Io) (q : NKIRequest) : Handler :=
  match from_slice (nk_payload q) with
  | None => mret (nki_error "INVALID_EXTENSION_ADMISSION"
                    (@from_slice_text ExtensionAdmissionRequest _ (nk_payload q)) false)
  | Some x =>
      match validate_admission x with
      | Err e => mret (nki_error "EXTENSION_ADMISSION_DENIED" (contract_error_text e) false)
      | Ok _ =>
          material ← encoded (mkAdmissionMaterial x (nk_principal_id q));
          let d := admission_decision x (receipt_of "admission" material) in
          payload ← encoded d;
          _ ← ext_append io (extension_entry q (ea_extension_id x) (ea_content_digest x)
                "ExtensionAdmissionDecision" (ed_receipt_id d) None
                (if ed_approval_required d then "APPROVAL_REQUIRED" else "ADMITTED") 1 payload
                (extension_key (ea_extension_id x) (ea_content_digest x) "admit"
                   (nk_idempotency_key q)));
          mret (Success (PDecision d))
      end
  end.

(** The persisted admission an authorization refers to: found by its receipt,
    and bound to the request by hashing it again with the actor on record. *)
Definition prior_admission (a : ExtensionAuthorizationRequest) (es : list JournalEntry) :
    option ExtensionAdmissionDecision :=
  e ← find_last (λ e, is_commit ["ExtensionAdmissionDecision"] e
                      && bool_decide (je_object_id e = eu_admission_receipt_id a)) es;
  material ← to_vec (mkAdmissionMaterial (eu_admission a) (je_actor e));
  if decide (je_object_id e ≠ receipt_of "admission" material) then None
  else from_slice (je_payload e).

(** [AuthorizeExtension]: with the records [es] read, and the whole of it. *)
Definition authorize_after (es : list JournalEntry) (io : Io) (q : NKIRequest)
    (a : ExtensionAuthorizationRequest) : Handler :=
  let id := ea_extension_id (eu_admission a) in
  let digest := ea_content_digest (eu_admission a) in
  let missing := mret (nki_error "EXTENSION_ADMISSION_NOT_FOUND"
                         "matching admission receipt and digest are required" false) in
  match prior_admission a es with
  | Some prior =>
      if decide (ed_extension_id prior = id ∧ ed_normalized_digest prior = digest) then
        material ← encoded (mkAuthorizationMaterial (eu_admission_receipt_id a)
                              (eu_approval_id a) (eu_approved_capabilities a) digest);
        let d := authorization_decision a prior (receipt_of "authorization" material) in
        payload ← encoded d;
        _ ← ext_append io (extension_entry q id digest "ExtensionAuthorizationDecision"
              (ed_receipt_id d) (Some "APPROVAL_REQUIRED")
              (if ed_approval_required d then "PARTIALLY_AUTHORIZED" else "AUTHORIZED") 2
              payload (extension_key id digest "authorize" (eu_approval_id a)));
        mret (Success (PDecision d))
      else missing
  | None => missing
  end.
Definition authorize_extension (io_read io : Io) (q : NKIRequest) : Handler :=
  match from_slice (nk_payload q) with
  | None => mret (nki_error "INVALID_EXTENSION_AUTHORIZATION"
                    (@from_slice_text ExtensionAuthorizationRequest _ (nk_payload q)) false)
  | Some a =>
      match validate_authorization a with
      | Err e => mret (nki_error "EXTENSION_AUTHORIZATION_DENIED" (contract_error_text e) false)
      | Ok _ =>
          es ← ext_read io_read (ea_extension_id (eu_admission a)); authorize_after es io q a
      end
  end.

(** The latest authorization or revocation, if it is the one the request names. *)
Definition current_authorization (receipt : string) (es : list JournalEntry) :
    option ExtensionAdmissionDecision :=
  e ← find_last is_authority es;
  if decide (je_object_id e ≠ receipt) then None else from_slice (je_payload e).

Definition scope_allowed (d : ExtensionAdmissionDecision) (x : ExtensionExecutionRequest) : bool :=
  forallb (λ i, bool_decide (i ∈ default [] (ed_scope_constraints d !! ex_capability x)))
    (ex_scope x).
Definition executor_allowed (d : ExtensionAdmissionDecision) (x : ExtensionExecutionRequest) :
    bool :=
  let required_executor := default "" (ed_executor_constraints d !! "executor") in
  bool_decide (required_executor = "") || bool_decide (ex_executor x = required_executor).

(** [AuthorizeExtensionExecution]: with the records read, and the whole of it;
    [now] is the clock read for the permit. *)
Definition permit_after (es : list JournalEntry) (io : Io) (now : Z) (q : NKIRequest)
    (x : ExtensionExecutionRequest) : Handler :=
  let denied := mret (nki_error "EXTENSION_EXECUTION_DENIED"
    "matching authorization receipt, digest, and capability are required" false) in
  match current_authorization (ex_authorization_receipt_id x) es with
  | Some d =>
      if decide (ed_extension_id d = ex_extension_id x ∧
                 ed_normalized_digest d = ex_content_digest x ∧
                 ex_capability x ∈ ed_granted_capabilities d) then
        if negb (scope_allowed d x) || negb (executor_allowed d x) then
          mret (nki_error "EXTENSION_EXECUTION_DENIED"
                  "executor or scope exceeds the Kernel authorization" false)
        else
          material ← encoded (mkExecutionMaterial x (nk_principal_id q) (nk_idempotency_key q));
          let p := execution_permit q x now (receipt_of "extension-permit" material) in
          payload ← encoded p;
          _ ← ext_append io (extension_entry q (ex_extension_id x) (ex_content_digest x)
                "ExtensionExecutionPermit" (ep_permit_id p) (Some "AUTHORIZED")
                "EXECUTION_PERMITTED" 3 payload
                (extension_key (ex_extension_id x) (ex_content_digest x) "execute"
                   (nk_idempotency_key q)));
          mret (Success (PPermit p))
      else denied
  | None => denied
  end.
Definition permit_execution (io_read io : Io) (now : Z) (q : NKIRequest) : Handler :=
  match from_slice (nk_payload q) with
  | None => mret (nki_error "INVALID_EXTENSION_EXECUTION"
                    (@from_slice_text ExtensionExecutionRequest _ (nk_payload q)) false)
  | Some x =>
      match validate_execution x with
      | Err e => mret (nki_error "EXTENSION_EXECUTION_DENIED" (contract_error_text e) false)
      | Ok _ => es ← ext_read io_read (ex_extension_id x); permit_after es io now q x
      end
  end.

(** The authorization in force, which a revocation must name. *)
Definition authorization_in_force (receipt : string) (es : list JournalEntry) :
    option ExtensionAdmissionDecision :=
  e ← find_last is_authority es;
  if decide (je_object_type e ≠ "ExtensionAuthorizationDecision" ∨ je_object_id e ≠ receipt)
  then None else from_slice (je_payload e).

(** [RevokeExtension]: with the records read, and the whole of it. *)
Definition revoke_after (es : list JournalEntry) (io : Io) (q : NKIRequest)
    (r : ExtensionRevocationRequest) : Handler :=
  let id := er_extension_id r in
  let key := extension_key id (er_content_digest r) "revoke" (nk_idempotency_key q) in
  let missing := mret (nki_error "EXTENSION_AUTHORIZATION_NOT_FOUND"
    "matching active authorization receipt and digest are required" false) in
  match find_last (λ e, is_commit ["ExtensionRevocationDecision"] e
                        && bool_decide (je_idempotency_key e = Some key)) es with
  | Some e =>
      match from_slice (je_payload e) with
      | Some d => mret (Success (PDecision d))
      | None => mret (nki_error "EXTENSION_REVOCATION_STATE_INVALID"
                        (@from_slice_text ExtensionAdmissionDecision _ (je_payload e)) false)
      end
  | None =>
      match authorization_in_force (er_authorization_receipt_id r) es with
      | Some prior =>
          if decide (ed_extension_id prior = id ∧
                     ed_normalized_digest prior = er_content_digest r) then
            material ← encoded (mkRevocationMaterial (er_authorization_receipt_id r)
                                  (er_content_digest r) (nk_principal_id q) (er_reason r));
            let d := revocation_decision r prior (receipt_of "revocation" material) in
            payload ← encoded d;
            _ ← ext_append io (extension_entry q id (er_content_digest r)
                  "ExtensionRevocationDecision" (ed_receipt_id d) (Some "AUTHORIZED")
                  "REVOKED" 4 payload key);
            mret (Success (PDecision d))
          else missing
      | None => missing
      end
  end.
Definition revoke_extension (io_read io : Io) (q : NKIRequest) : Handler :=
  match from_slice (nk_payload q) with
  | None => mret (nki_error "INVALID_EXTENSION_REVOCATION"
                    (@from_slice_text ExtensionRevocationRequest _ (nk_payload q)) false)
  | Some r =>
      match validate_revocation r with
      | Err e => mret (nki_error "EXTENSION_REVOCATION_DENIED" (contract_error_text e) false)
      | Ok _ => es ← ext_read io_read (er_extension_id r); revoke_after es io q r
      end
  end.
End Handlers.

(** ** Searching the records *)

Lemma find_last_Some p es e :
  find_last p es = Some e ↔
  ∃ l1 l2, es = l1 ++ e :: l2 ∧ p e = true ∧ Forall (λ x, p x = false) l2.
Proof.
  unfold find_last. split.
  - intros ([i x] & Hf & Hx)%fmap_Some. simpl in Hx. subst x.
    apply list_find_Some in Hf as (Hi & Hp & Hbefore).
    apply list_elem_of_split_length in Hi as (l1 & l2 & Hes & Hlen).
    exists (reverse l2), (reverse l1). split_and!; [|done|].
    + rewrite <-(reverse_involutive es), Hes. by rewrite reverse_app, reverse_cons, <-app_assoc.
    + apply Forall_forall. intros y Hy. rewrite elem_of_reverse in Hy. apply not_true_iff_false.
      apply list_elem_of_lookup in Hy as [k Hk]. pose proof (lookup_lt_Some _ _ _ Hk).
      assert (k < i)%nat as Hlt by lia. eapply Hbefore; [|exact Hlt]. rewrite Hes.
      by rewrite lookup_app_l.
  - intros (l1 & l2 & -> & Hp & Hl2). rewrite reverse_app, reverse_cons, <-app_assoc. simpl.
    rewrite list_find_app_r.
    + simpl. by rewrite decide_True.
    + apply list_find_None. apply Forall_forall. intros x Hx. rewrite elem_of_reverse in Hx.
      rewrite Forall_forall in Hl2. by rewrite (Hl2 x Hx).
Qed.

Lemma find_last_elem p es e : find_last p es = Some e → e ∈ es ∧ p e = true.
Proof. intros (l1 & l2 & -> & Hp & _)%find_last_Some. split; [set_solver|done]. Qed.

Lemma collect_scopes_elem rs k s :
  collect_scopes rs !! k = Some s → ∃ r, r ∈ rs ∧ ecr_capability r = k ∧ ecr_scope r = s.
Proof.
  unfold collect_scopes. induction rs as [|r rs IH] using rev_ind; [done|].
  rewrite foldl_snoc. intros [[Hk Hs]|[Hk Hl]]%lookup_insert_Some.
  - exists r. set_solver.
  - destruct (IH Hl) as (r' & Hr & ? & ?). exists r'. set_solver.
Qed.

Lemma executor_constraints_executor x :
  default "" (executor_constraints_of x !! "executor") = x.
Proof. unfold executor_constraints_of. case_decide; subst; [done|]. by rewrite lookup_insert_eq. Qed.

Lemma extension_workload_inj a b : extension_workload a = extension_workload b → a = b.
Proof. intros. by apply (string_app_cancel "extension::"). Qed.

(** ** The protocol

    Handlers run at the same time: what one has read may be older than the
    journal it appends to. A step therefore takes any records of the journal as
    what was read. A new process may open the database left behind. *)

Definition extension_types : list string :=
  ["ExtensionAdmissionDecision"; "ExtensionAuthorizationDecision"; "ExtensionRevocationDecision";
   "ExtensionExecutionPermit"].

Section Protocol.
Context `{JournalEnv} `{Serde ExtensionAdmissionRequest} `{Serde ExtensionAuthorizationRequest}
  `{Serde ExtensionExecutionRequest} `{Serde ExtensionRevocationRequest}
  `{Serde ExtensionAdmissionDecision} `{Serde ExtensionExecutionPermit}
  `{Serde AdmissionMaterial} `{Serde AuthorizationMaterial} `{Serde ExecutionMaterial}
  `{Serde RevocationMaterial}.

(** A step, labelled with the extension it authorizes, if any. *)
Inductive xstep : option string → Journal → Journal → Prop :=
| XAdmit io q j : xstep None j (admit_extension io q j).2
| XAuthorize es io q a j :
    es ⊆ entries j → validate_authorization a = Ok tt →
    xstep (Some (ea_extension_id (eu_admission a))) j (authorize_after es io q a j).2
| XPermit es io now q x j :
    es ⊆ entries j → xstep None j (permit_after es io now q x j).2
| XRevoke es io q r j :
    es ⊆ entries j → xstep None j (revoke_after es io q r j).2
| XOther io e j :
    je_object_type e ∉ extension_types → entry_wf e → xstep None j (append io e j).2
| XReopen j j' : open no_open_faults (inner (conn j)) = Ok j' → xstep None j j'.

Definition any_step (j j' : Journal) : Prop := ∃ l, xstep l j j'.

(** The last part of every handler: encode, append, answer. *)
Lemma ext_append_cases io e j r j' :
  ext_append io e j = (r, j') →
  (j' = j ∧ (is_ok r = true → ∃ k, je_idempotency_key e = Some k ∧ key_used j k)) ∨
  (is_ok r = true ∧ j' = push io e j ∧ next_seq j ≤ i64_max ∧
   ∀ k, je_idempotency_key e = Some k → ¬ key_used j k).
Proof.
  unfold ext_append, map_err_M. destruct (append io e j) as [r' j1] eqn:Ha. intros [= <- <-].
  apply append_cases in Ha as [(? & -> & ->)|[(k & row & Hk & Hrow & Hkr & -> & ->)|(-> & -> & ? & ?)]].
  - by left.
  - left. split; [done|]. intros _. exists k. split; [done|]. apply Exists_exists. eauto.
  - by right.
Qed.

Lemma encoded_bind {T A} `{Serde T} (x : T) (f : bytes → M Journal string A) j :
  (b ← encoded x; f b) j = match to_vec x with Some b => f b j | None => (Err (to_vec_text x), j) end.
Proof. unfold encoded. by destruct (to_vec x). Qed.

Lemma encode_append_cases {T} `{Serde T} (x : T) (f : bytes → JournalEntry) io o j r j' :
  (payload ← encoded x; _ ← ext_append io (f payload);
   mret (M := M Journal string) (A := NKIOutcome ExtensionPayload) o) j = (r, j') →
  (j' = j ∧ (is_ok r = true → ∃ payload k,
     je_idempotency_key (f payload) = Some k ∧ key_used j k)) ∨
  ∃ payload, to_vec x = Some payload ∧ r = Ok o ∧ j' = push io (f payload) j ∧
    next_seq j ≤ i64_max ∧ ∀ k, je_idempotency_key (f payload) = Some k → ¬ key_used j k.
Proof.
  rewrite encoded_bind. destruct (to_vec x) as [payload|]; [|intros [= <- <-]; by left].
  unfold mbind, M_bind. simpl. destruct (ext_append io (f payload) j) as [res j1] eqn:Ha.
  apply ext_append_cases in Ha as [[-> Hk]|(Hok & -> & Hn & Hk)].
  - destruct res; intros [= <- <-]; left; (split; [done|]); [|done]. intros _.
    destruct (Hk eq_refl) as (k & ? & ?). eauto.
  - destruct res as [z|e]; [|done]. intros [= <- <-]. right. exists payload. split_and!; done.
Qed.

(** *** What the records mean *)

Context `{!SerdeLaws ExtensionAdmissionDecision}.

(** [e] records the admission of [x]. *)
Definition admits (e : JournalEntry) (x : ExtensionAdmissionRequest) : Prop :=
  validate_admission x = Ok tt ∧
  je_workload_id e = extension_workload (ea_extension_id x) ∧
  from_slice (je_payload e) = Some (admission_decision x (je_object_id e)) ∧
  ∃ m, to_vec (mkAdmissionMaterial x (je_actor e)) = Some m ∧
    je_object_id e = receipt_of "admission" m.

(** [e] records the approval [a] of an extension admitted as [x]: the admission
    is on record under the receipt that [a] names, and the request in [a] has
    that receipt too. *)
Definition approves (j : Journal) (e : JournalEntry) (a : ExtensionAuthorizationRequest)
    (x : ExtensionAdmissionRequest) : Prop :=
  validate_authorization a = Ok tt ∧
  je_workload_id e = extension_workload (ea_extension_id (eu_admission a)) ∧
  ea_extension_id x = ea_extension_id (eu_admission a) ∧
  ea_content_digest x = ea_content_digest (eu_admission a) ∧
  ∃ e0 m, e0 ∈ entries j ∧ is_commit ["ExtensionAdmissionDecision"] e0 = true ∧ admits e0 x ∧
    je_object_id e0 = eu_admission_receipt_id a ∧
    to_vec (mkAdmissionMaterial (eu_admission a) (je_actor e0)) = Some m ∧
    eu_admission_receipt_id a = receipt_of "admission" m ∧
    from_slice (je_payload e)
    = Some (authorization_decision a (admission_decision x (je_object_id e0)) (je_object_id e)).

Definition revokes (e : JournalEntry) : Prop :=
  ∃ d, from_slice (je_payload e) = Some d ∧ ed_granted_capabilities d = [].

(** A record, once what it depends on is in [j]. *)
Record entry_means (j : Journal) (e : JournalEntry) : Prop := {
  em_admission : is_commit ["ExtensionAdmissionDecision"] e = true → ∃ x, admits e x;
  em_authorization :
    is_commit ["ExtensionAuthorizationDecision"] e = true → ∃ a x, approves j e a x;
  em_revocation : is_commit ["ExtensionRevocationDecision"] e = true → revokes e
}.

Record ext_inv (j : Journal) : Prop := {
  xi_ok : journal_ok j;
  xi_means : ∀ e, e ∈ entries j → entry_means j e
}.

Lemma approves_mono j j' e a x : entries j ⊆ entries j' → approves j e a x → approves j' e a x.
Proof.
  intros Hsub (? & ? & ? & ? & e0 & m & He0 & ?). unfold approves. split_and!; try done.
  exists e0, m. split; [by apply Hsub|done].
Qed.

Lemma ext_inv_push io e j :
  ext_inv j → entry_wf e → next_seq j ≤ i64_max →
  (∀ k, je_idempotency_key e = Some k → ¬ key_used j k) →
  entry_means j (finalize (next_seq j) (io_now io) e) → ext_inv (push io e j).
Proof.
  intros [Hok Hm] Hwf Hn Hk Hnew. split; [by apply push_ok|]. rewrite entries_push.
  assert (entries j ⊆ entries (push io e j)) as Hsub by (rewrite entries_push; set_solver).
  assert (∀ e', entry_means j e' → entry_means (push io e j) e') as Hmono.
  { intros e' [H1' H2' H3']. split; [done| |done]. intros Hc. destruct (H2' Hc) as (a & x & Ha).
    exists a, x. by eapply approves_mono. }
  intros e' [He'|He'%list_elem_of_singleton]%elem_of_app; [auto|subst]. auto.
Qed.

(** A record of another type means nothing here. *)
Lemma foreign_means j e : je_object_type e ∉ extension_types → entry_means j e.
Proof.
  intros Ht. split; unfold is_commit; intros [_ Hc%bool_decide_eq_true]%andb_true_iff;
    destruct Ht; unfold extension_types; set_solver.
Qed.

Lemma is_commit_other e t types :
  je_object_type e = t → t ∉ types → is_commit types e = false.
Proof.
  intros Ht Hn. unfold is_commit. rewrite (bool_decide_false (je_object_type e ∈ types)).
  - apply andb_false_r.
  - by rewrite Ht.
Qed.

(** *** What a step does *)

(** At most one record is added, with its meaning, and an authorization only by
    the step labelled with its extension. *)
Definition adds (l : option string) (j j' : Journal) : Prop :=
  ((journal_ok j → journal_ok j') ∧ entries j' = entries j) ∨ ∃ io e, j' = push io e j ∧ entry_wf e ∧ next_seq j ≤ i64_max ∧
    (∀ k, je_idempotency_key e = Some k → ¬ key_used j k) ∧
    entry_means j (finalize (next_seq j) (io_now io) e) ∧
    (is_commit ["ExtensionAuthorizationDecision"] e = true →
     ∃ id, l = Some id ∧ je_workload_id e = extension_workload id).

(** The shared end of the handlers that record a decision of type [t]. *)
Lemma adds_record {T} `{Serde T} (x : T) f io o l t j r j' :
  (payload ← encoded x; _ ← ext_append io (f payload);
   mret (M := M Journal string) (A := NKIOutcome ExtensionPayload) o) j = (r, j') →
  (∀ payload, to_vec x = Some payload →
     je_object_type (f payload) = t ∧ entry_wf (f payload) ∧
     entry_means j (finalize (next_seq j) (io_now io) (f payload)) ∧
     (t = "ExtensionAuthorizationDecision" →
      ∃ id, l = Some id ∧ je_workload_id (f payload) = extension_workload id)) →
  adds l j j'.
Proof.
  intros Hh Hf. apply encode_append_cases in Hh as [[-> _]|(payload & Hp & _ & -> & Hn & Hk)];
    [by left|]. destruct (Hf payload Hp) as (Ht & Hwf & Hm & Hl).
  right. exists io, (f payload). split_and!; try done.
  intros [_ Hc%bool_decide_eq_true]%andb_true_iff. apply Hl. set_solver.
Qed.

Lemma admit_adds io q j r j' : admit_extension io q j = (r, j') → adds None j j'.
Proof.
  unfold admit_extension. destruct (from_slice (nk_payload q)) as [x|]; [|intros [= <- <-]; by left].
  destruct (validate_admission x) as [[]|e] eqn:Hv; [|intros [= <- <-]; by left].
  rewrite encoded_bind. destruct (to_vec (mkAdmissionMaterial _ _)) as [m|] eqn:Hm;
    [|intros [= <- <-]; by left].
  intros Hh. apply (adds_record _ _ _ _ _ "ExtensionAdmissionDecision" _ _ _ Hh).
  intros payload Hp. split_and!; [done|vm_compute; split; discriminate| |done]. split.
  - intros _. exists x. split_and!; [done|done| |by exists m]. simpl. exact (from_to_vec _ _ Hp).
  - by rewrite (is_commit_other _ "ExtensionAdmissionDecision") by (done || set_solver).
  - by rewrite (is_commit_other _ "ExtensionAdmissionDecision") by (done || set_solver).
Qed.

(** The admission an authorization found is one on record. *)
Lemma prior_admission_sound j a es prior :
  ext_inv j → es ⊆ entries j → prior_admission a es = Some prior →
  ∃ e0 x m, e0 ∈ entries j ∧ is_commit ["ExtensionAdmissionDecision"] e0 = true ∧ admits e0 x ∧
    je_object_id e0 = eu_admission_receipt_id a ∧
    to_vec (mkAdmissionMaterial (eu_admission a) (je_actor e0)) = Some m ∧
    eu_admission_receipt_id a = receipt_of "admission" m ∧
    prior = admission_decision x (je_object_id e0).
Proof.
  intros Hinv Hsub. unfold prior_admission. intros (e0 & Hf & Hrest)%bind_Some.
  apply find_last_elem in Hf as [Hin [Hc Hid%bool_decide_eq_true]%andb_true_iff].
  apply bind_Some in Hrest as (m & Hm & Hrest). case_decide as Hr; [done|].
  apply Hsub in Hin.
  destruct (em_admission _ _ (xi_means _ Hinv _ Hin) Hc) as (x & Hx).
  exists e0, x, m. split_and!; try done; [congruence|].
  destruct Hx as (_ & _ & Hd & _). rewrite Hd in Hrest. by injection Hrest.
Qed.

Lemma authorize_adds es io q a j r j' :
  ext_inv j → es ⊆ entries j → validate_authorization a = Ok tt →
  authorize_after es io q a j = (r, j') → adds (Some (ea_extension_id (eu_admission a))) j j'.
Proof.
  intros Hinv Hsub Hv. unfold authorize_after.
  destruct (prior_admission a es) as [prior|] eqn:Hp; [|intros [= <- <-]; by left].
  case_decide as Hd; [|intros [= <- <-]; by left]. destruct Hd as [Hid Hdig].
  rewrite encoded_bind. destruct (to_vec (mkAuthorizationMaterial _ _ _ _)) as [m|] eqn:Hm;
    [|intros [= <- <-]; by left].
  destruct (prior_admission_sound _ _ _ _ Hinv Hsub Hp)
    as (e0 & x & m0 & He0 & Hc & Hx & Hoid & Hm0 & Hr0 & ->).
  intros Hh. apply (adds_record _ _ _ _ _ "ExtensionAuthorizationDecision" _ _ _ Hh).
  intros payload Hpl. split_and!; [done|vm_compute; split; discriminate| |by eauto]. split.
  - by rewrite (is_commit_other _ "ExtensionAuthorizationDecision") by (done || set_solver).
  - intros _. exists a, x. split_and!; [done|done|done|done|]. exists e0, m0.
    split_and!; try done. exact (from_to_vec _ _ Hpl).
  - by rewrite (is_commit_other _ "ExtensionAuthorizationDecision") by (done || set_solver).
Qed.

Lemma permit_adds es io now q x j r j' :
  permit_after es io now q x j = (r, j') → adds None j j'.
Proof.
  unfold permit_after.
  destruct (current_authorization _ es) as [d|]; [|intros [= <- <-]; by left].
  case_decide; [|intros [= <- <-]; by left].
  destruct (negb _ || negb _); [intros [= <- <-]; by left|].
  rewrite encoded_bind. destruct (to_vec (mkExecutionMaterial _ _ _)) as [m|];
    [|intros [= <- <-]; by left].
  intros Hh. apply (adds_record _ _ _ _ _ "ExtensionExecutionPermit" _ _ _ Hh).
  intros payload Hp. split_and!; [done|vm_compute; split; discriminate| |done].
  split; by rewrite (is_commit_other _ "ExtensionExecutionPermit") by (done || set_solver).
Qed.

Lemma revoke_adds es io q r j res j' :
  revoke_after es io q r j = (res, j') → adds None j j'.
Proof.
  unfold revoke_after. destruct (find_last _ es) as [e|].
  { destruct (from_slice (je_payload e)); intros [= <- <-]; by left. }
  destruct (authorization_in_force _ es) as [d|]; [|intros [= <- <-]; by left].
  case_decide; [|intros [= <- <-]; by left].
  rewrite encoded_bind. destruct (to_vec (mkRevocationMaterial _ _ _ _)) as [m|];
    [|intros [= <- <-]; by left].
  intros Hh. apply (adds_record _ _ _ _ _ "ExtensionRevocationDecision" _ _ _ Hh).
  intros payload Hp. split_and!; [done|vm_compute; split; discriminate| |done]. split.
  - by rewrite (is_commit_other _ "ExtensionRevocationDecision") by (done || set_solver).
  - by rewrite (is_commit_other _ "ExtensionRevocationDecision") by (done || set_solver).
  - intros _. eexists. split; [exact (from_to_vec _ _ Hp)|done].
Qed.

Lemma xstep_adds l j j' : ext_inv j → xstep l j j' → adds l j j'.
Proof.
  intros Hinv. destruct 1 as [io q j|es io q a j Hsub Hv|es io now q x j Hsub|es io q r j Hsub
    |io e j Ht Hwf|j j' Ho].
  - destruct (admit_extension io q j) eqn:Hh. by eapply admit_adds.
  - destruct (authorize_after es io q a j) eqn:Hh. by eapply authorize_adds.
  - destruct (permit_after es io now q x j) eqn:Hh. by eapply permit_adds.
  - destruct (revoke_after es io q r j) eqn:Hh. by eapply revoke_adds.
  - destruct (append io e j) as [res j1] eqn:Ha. simpl.
    apply append_cases in Ha as [(? & -> & ->)|[(? & ? & ? & ? & ? & -> & ->)|(-> & -> & ? & ?)]];
      [by left..|]. right. exists io, e. split_and!; try done; [by apply foreign_means|].
    intros [_ Hc%bool_decide_eq_true]%andb_true_iff. destruct Ht. unfold extension_types. set_solver.
  - left. destruct (reopen_ok j j' (xi_ok _ Hinv) Ho) as [Hok He]. done.
Qed.

Lemma adds_inv l j j' : ext_inv j → adds l j j' → ext_inv j'.
Proof.
  intros Hinv [[Hok He]|(io & e & -> & Hwf & Hn & Hk & Hm & _)]; [|by apply ext_inv_push].
  destruct Hinv as [Hj Hm]. split; [by apply Hok|]. rewrite He. intros e Hin.
  destruct (Hm e Hin) as [Ha Hb Hc]. split; [done| |done]. intros Hi.
  destruct (Hb Hi) as (a & x & Hx). exists a, x. eapply approves_mono; [|done]. by rewrite He.
Qed.

(** A journal the extension protocol has not used. *)
Definition no_extensions (j : Journal) : Prop :=
  journal_ok j ∧ Forall (λ e, je_object_type e ∉ extension_types) (entries j).

Lemma reachable_inv j j' : no_extensions j → rtc any_step j j' → ext_inv j'.
Proof.
  intros [Hok Hn]. assert (ext_inv j) as Hinv.
  { split; [done|]. intros e He. rewrite Forall_forall in Hn. by apply foreign_means, Hn. }
  clear Hok Hn. induction 1 as [j|j j1 j2 (l & Hs) _ IH]; [done|].
  apply IH. eapply adds_inv; [done|]. by apply xstep_adds.
Qed.

(** *** Reading *)

Lemma read_workload_elem io j w es :
  journal_ok j → read_workload io j w = Ok es → es ⊆ entries j.
Proof.
  intros Hok Hr e He. rewrite (read_workload_inv _ _ _ _ Hok Hr) in He.
  by apply list_elem_of_filter in He as [_ He].
Qed.

(** What the daemon runs are steps: each handler, from reading the journal to
    the answer. *)
Lemma handlers_step io_read io now q j :
  journal_ok j →
  rtc any_step j (admit_extension io q j).2 ∧
  rtc any_step j (authorize_extension io_read io q j).2 ∧
  rtc any_step j (permit_execution io_read io now q j).2 ∧
  rtc any_step j (revoke_extension io_read io q j).2.
Proof.
  intros Hok. split_and!.
  - apply rtc_once. exists None. constructor.
  - unfold authorize_extension. destruct (from_slice _) as [a|]; [|done].
    destruct (validate_authorization a) as [[]|] eqn:Hv; [|done].
    unfold mbind, M_bind, ext_read.
    destruct (read_workload io_read j _) as [es|] eqn:Hr; simpl; [|done].
    apply rtc_once. eexists. apply XAuthorize; [by eapply read_workload_elem|done].
  - unfold permit_execution. destruct (from_slice _) as [x|]; [|done].
    destruct (validate_execution x); [|done]. unfold mbind, M_bind, ext_read.
    destruct (read_workload io_read j _) as [es|] eqn:Hr; simpl; [|done].
    apply rtc_once. eexists. apply XPermit. by eapply read_workload_elem.
  - unfold revoke_extension. destruct (from_slice _) as [r|]; [|done].
    destruct (validate_revocation r); [|done]. unfold mbind, M_bind, ext_read.
    destruct (read_workload io_read j _) as [es|] eqn:Hr; simpl; [|done].
    apply rtc_once. eexists. apply XRevoke. by eapply read_workload_elem.
Qed.

(** What a permit rests on. *)
Lemma permit_after_sound es io now q x j p j' :
  permit_after es io now q x j = (Ok (Success (PPermit p)), j') →
  ∃ e d, find_last is_authority es = Some e ∧ je_object_id e = ex_authorization_receipt_id x ∧
    from_slice (je_payload e) = Some d ∧ ed_normalized_digest d = ex_content_digest x ∧
    ex_capability x ∈ ed_granted_capabilities d ∧
    scope_allowed d x = true ∧ executor_allowed d x = true ∧
    ∃ id, p = execution_permit q x now id.
Proof.
  unfold permit_after. destruct (current_authorization _ es) as [d|] eqn:Hc; [|done].
  case_decide as Hd; [|done]. destruct Hd as (Hid & Hdig & Hcap).
  destruct (scope_allowed d x) eqn:Hs; [|done]. destruct (executor_allowed d x) eqn:He; [|done].
  simpl. rewrite encoded_bind. destruct (to_vec (mkExecutionMaterial _ _ _)) as [m|]; [|done].
  rewrite encoded_bind. destruct (to_vec _) as [payload|]; [|done].
  unfold mbind, M_bind. destruct (ext_append _ _ _) as [[]]; [|done]. intros [= <- _].
  apply bind_Some in Hc as (e & Hf & Hrest). case_decide; [done|]. exists e, d.
  split_and!; try done. eauto.
Qed.

(** C15: A permit follows an approval in force. However admissions, approvals,
    revocations, permits and other records are interleaved, when a permit is
    issued from what was read of the journal, the latest decision on the
    extension read is an approval of an admitted extension with the digest in the
    permit; the capability is among those approved, which were requested, every
    scope item was requested for the capability, and the executor is the one the
    admission bound. *)
Theorem permit_follows_authorization j0 j es io_read io now q x j1 p j2 :
  no_extensions j0 → rtc any_step j0 j →
  read_workload io_read j (extension_workload (ex_extension_id x)) = Ok es →
  permit_after es io now q x j1 = (Ok (Success (PPermit p)), j2) →
  ∃ e a y, find_last is_authority es = Some e ∧
    is_commit ["ExtensionAuthorizationDecision"] e = true ∧
    je_object_id e = ep_authorization_receipt_id p ∧
    approves j e a y ∧
    ep_extension_id p = ea_extension_id y ∧ ep_content_digest p = ea_content_digest y ∧
    ep_capability p ∈ eu_approved_capabilities a ∧
    eu_approved_capabilities a ⊆ requested_capabilities (eu_admission a) ∧
    (∀ i, i ∈ ex_scope x → ∃ c, c ∈ ea_capability_requests y ∧
       ecr_capability c = ep_capability p ∧ i ∈ ecr_scope c) ∧
    (ea_executor y = "" ∨ ep_executor p = ea_executor y).
Proof.
  intros Hj0 Hreach Hr Hp. pose proof (reachable_inv _ _ Hj0 Hreach) as Hinv.
  pose proof (read_workload_inv _ _ _ _ (xi_ok _ Hinv) Hr) as Hes.
  destruct (permit_after_sound _ _ _ _ _ _ _ _ Hp)
    as (e & d & Hf & Hid & Hd & Hdig & Hcap & Hscope & Hexec & id & ->).
  pose proof (find_last_elem _ _ _ Hf) as [Hin Hauth]. rewrite Hes in Hin.
  apply list_elem_of_filter in Hin as [Hw Hin]. pose proof (xi_means _ Hinv _ Hin) as Hmeans.
  apply andb_true_iff in Hauth as [Hcommit Ht%bool_decide_eq_true].
  assert (∀ t, je_object_type e = t → is_commit [t] e = true) as Hty.
  { intros t Ht'. unfold is_commit. rewrite Hcommit, bool_decide_true; [done|]. set_solver. }
  apply elem_of_cons in Ht as [Ht|Ht%list_elem_of_singleton].
  2:{ destruct (em_revocation _ _ Hmeans (Hty _ Ht)) as (d' & Hd' & Hg).
      rewrite Hd in Hd'. injection Hd' as <-. rewrite Hg in Hcap. by apply not_elem_of_nil in Hcap. }
  destruct (em_authorization _ _ Hmeans (Hty _ Ht)) as (a & y & Happ).
  pose proof Happ as (Hva & Hwa & Hyid & Hydig & e0 & m & _ & _ & _ & _ & _ & _ & Hda).
  rewrite Hd in Hda. injection Hda as ->. simpl in *. rewrite Hwa in Hw.
  apply extension_workload_inj in Hw. apply validate_authorization_Ok in Hva as (_ & _ & _ & _ & Hsub).
  exists e, a, y. split_and!; try done; [by apply Hty|congruence|congruence| |].
  - unfold scope_allowed in Hscope. rewrite forallb_elem in Hscope. intros i Hi.
    apply Hscope, bool_decide_eq_true in Hi. simpl in Hi.
    destruct (collect_scopes _ !! _) as [s|] eqn:Hs; [|by apply not_elem_of_nil in Hi].
    apply collect_scopes_elem in Hs as (c & Hc & Hcc & <-). eauto.
  - unfold executor_allowed in Hexec. simpl in Hexec.
    rewrite executor_constraints_executor in Hexec.
    apply orb_true_iff in Hexec as [->%bool_decide_eq_true|Hx%bool_decide_eq_true]; auto.
Qed.

(** *** Revocation *)

Lemma find_last_snoc p es e :
  find_last p (es ++ [e]) = if p e then Some e else find_last p es.
Proof.
  unfold find_last. rewrite reverse_snoc. simpl. destruct (p e); case_decide; try done.
  by destruct (list_find _ (reverse es)) as [[]|].
Qed.

(** The latest decision on [id] is a revocation. *)
Definition revoked (id : string) (j : Journal) : Prop :=
  ∃ e, find_last is_authority (filter (λ e, je_workload_id e = extension_workload id) (entries j))
       = Some e ∧ is_commit ["ExtensionRevocationDecision"] e = true.

Lemma revoked_adds id l j j' : revoked id j → l ≠ Some id → adds l j j' → revoked id j'.
Proof.
  intros (e & Hf & Hr) Hl [[_ He]|(io & e' & -> & _ & _ & _ & _ & Hlab)];
    [exists e; by rewrite He|].
  set (e1 := finalize (next_seq j) (io_now io) e').
  assert (is_commit ["ExtensionAuthorizationDecision"] e1
    = is_commit ["ExtensionAuthorizationDecision"] e') as Ha by done.
  unfold revoked. rewrite entries_push, filter_app. fold e1.
  rewrite (list.filter_cons _ e1 []). case_decide as Hw; [|rewrite app_nil_r; by exists e].
  rewrite filter_nil, find_last_snoc. destruct (is_authority e1) eqn:Hauth; [|by exists e].
  exists e1. split; [done|]. unfold is_authority, is_commit in Hauth.
  apply andb_true_iff in Hauth as [Hc [Ht|Ht%list_elem_of_singleton]%bool_decide_eq_true%elem_of_cons].
  - destruct Hlab as (id' & -> & Hw').
    + unfold is_commit. change (je_entry_type e1) with (je_entry_type e') in Hc.
      change (je_object_type e1) with (je_object_type e') in Ht. rewrite Hc, Ht. done.
    + change (je_workload_id e1) with (je_workload_id e') in Hw. rewrite Hw' in Hw.
      apply extension_workload_inj in Hw. congruence.
  - unfold is_commit. by rewrite Hc, Ht.
Qed.

Lemma revoke_after_revokes es io q r io_read j d j' :
  journal_ok j → read_workload io_read j (extension_workload (er_extension_id r)) = Ok es →
  ¬ key_used j (extension_key (er_extension_id r) (er_content_digest r) "revoke"
                  (nk_idempotency_key q)) →
  revoke_after es io q r j = (Ok (Success d), j') → revoked (er_extension_id r) j'.
Proof.
  intros Hok Hr Hfresh. pose proof (read_workload_inv _ _ _ _ Hok Hr) as Hes. unfold revoke_after.
  destruct (find_last _ es) as [e|] eqn:Hf.
  { exfalso. apply find_last_elem in Hf as [Hin [_ Hk%bool_decide_eq_true]%andb_true_iff].
    rewrite Hes in Hin. apply list_elem_of_filter in Hin as [_ Hin].
    apply list_elem_of_fmap in Hin as (row & -> & Hrow). apply Hfresh, Exists_exists. eauto. }
  destruct (authorization_in_force _ es) as [prior|]; [|done].
  case_decide; [|done]. rewrite encoded_bind. destruct (to_vec (mkRevocationMaterial _ _ _ _)) as [m|];
    [|done].
  intros Hh. apply encode_append_cases in Hh as [[-> Hu]|(payload & _ & _ & -> & _ & _)].
  { exfalso. destruct (Hu eq_refl) as (payload & k & [= <-] & Hused). done. }
  unfold revoked. rewrite entries_push, filter_app, (list.filter_cons _ _ []), decide_True by done.
  rewrite filter_nil, find_last_snoc. eexists. split; reflexivity.
Qed.

(** C16: A revocation takes effect. Once it is answered under a fresh idempotency
    key, then whatever happens next, short of a new approval of the extension, no
    permit is issued from a later reading of the journal. *)
Theorem revocation_effective j0 j es io_read io q r d j1 j2 io_read2 es2 io2 now q2 x j3 :
  no_extensions j0 → rtc any_step j0 j →
  read_workload io_read j (extension_workload (er_extension_id r)) = Ok es →
  ¬ key_used j (extension_key (er_extension_id r) (er_content_digest r) "revoke"
                  (nk_idempotency_key q)) →
  revoke_after es io q r j = (Ok (Success d), j1) →
  rtc (λ a b, ∃ l, l ≠ Some (er_extension_id r) ∧ xstep l a b) j1 j2 →
  ex_extension_id x = er_extension_id r →
  read_workload io_read2 j2 (extension_workload (ex_extension_id x)) = Ok es2 →
  ∀ p j4, permit_after es2 io2 now q2 x j3 ≠ (Ok (Success (PPermit p)), j4).
Proof.
  intros Hj0 Hreach Hr Hfresh Hrev Hlater Hx Hr2 p j4 Hp.
  pose proof (reachable_inv _ _ Hj0 Hreach) as Hinv.
  pose proof (revoke_after_revokes _ _ _ _ _ _ _ _ (xi_ok _ Hinv) Hr Hfresh Hrev) as Hrevoked.
  assert (ext_inv j1) as Hinv1 by (eapply adds_inv; [exact Hinv|by eapply revoke_adds]).
  assert (ext_inv j2 ∧ revoked (er_extension_id r) j2) as [Hinv2 (e & Hf & Hc)].
  { clear -Hinv1 Hrevoked Hlater SerdeLaws0. induction Hlater as [j|j j' j'' (l & Hl & Hs) _ IH]; [done|].
    apply xstep_adds in Hs; [|done]. apply IH; [by eapply revoked_adds|by eapply adds_inv]. }
  pose proof (read_workload_inv _ _ _ _ (xi_ok _ Hinv2) Hr2) as Hes2. rewrite Hx in Hes2.
  destruct (permit_after_sound _ _ _ _ _ _ _ _ Hp) as (e' & d' & Hf' & _ & Hd & _ & Hcap & _).
  rewrite Hes2, Hf in Hf'. injection Hf' as <-.
  pose proof (find_last_elem _ _ _ Hf) as [[_ Hin]%list_elem_of_filter _].
  destruct (em_revocation _ _ (xi_means _ Hinv2 _ Hin) Hc) as (d2 & Hd2 & Hg).
  rewrite Hd in Hd2. injection Hd2 as <-. rewrite Hg in Hcap. by apply not_elem_of_nil in Hcap.
Qed.
End Protocol.

(** ** A concrete extension *)

#[global] Instance ExtensionAdmissionDecision_countable : Countable ExtensionAdmissionDecision.
Proof.
  refine (inj_countable
    (λ d, ([ed_extension_id d; ed_normalized_digest d; ed_policy_version d; ed_decision_reason d;
            ed_receipt_id d],
           [ed_requested_capabilities d; ed_granted_capabilities d; ed_denied_capabilities d],
           ed_executor_constraints d, ed_scope_constraints d, (ed_admitted d, ed_approval_required d)))
    (λ '(l, ks, x, s, (v, c)), match l, ks with
       | [a; b; d; e; f], [k1; k2; k3] => Some (mkDecision v a b k1 k2 k3 c x s d e f)
       | _, _ => None end) _).
  by intros [].
Defined.

(** Codecs for evaluation: a request is read from a payload that numbers it, the
    hashed materials are rendered as texts. *)
Definition text_serde {T} (text : T → list string) : Serde T := {|
  to_vec x := Some (concat (string_bytes <$> text x));
  from_slice _ := None;
  to_vec_text _ := "";
  from_slice_text _ := ""
|}.
Definition table_serde {T} (table : list T) : Serde T := {|
  to_vec _ := None;
  from_slice b := match b with [i] => table !! Z.to_nat i | _ => None end;
  to_vec_text _ := "";
  from_slice_text _ := ""
|}.

Definition ex_hash (c : string) : string :=
  "sha256:" +:+ String.concat "" (replicate 64 c).
Definition ex_admission : ExtensionAdmissionRequest :=
  mkAdmission 1 "ext" "1.0" (ex_hash "a") "skill" 2 ["plugin"]
    [mkCapabilityRequest "files.read" "read" ["/data"] "" true;
     mkCapabilityRequest "net.fetch" "connect" ["example.org"] "" true] "wasm"
    (list_to_map [("authority", "none"); ("supply_chain_verified", "true");
       ("normalized_ir_digest", ex_hash "1"); ("sbom_digest", ex_hash "2");
       ("provenance_digest", ex_hash "3"); ("signature_digest", ex_hash "4");
       ("signature_status", "Unsigned")]).

#[local] Existing Instance ex_env.
#[local] Instance ex_s1 : Serde ExtensionAdmissionRequest := table_serde [ex_admission].
#[local] Instance ex_s2 : Serde ExtensionAdmissionDecision := countable_serde _.
#[local] Instance ex_s2_laws : SerdeLaws ExtensionAdmissionDecision := countable_serde_laws _.
#[local] Instance ex_s3 : Serde ExtensionExecutionPermit := text_serde (λ p, [ep_permit_id p]).
#[local] Instance ex_s4 : Serde AdmissionMaterial :=
  text_serde (λ m, [ea_extension_id (am_extension m); am_principal m; "............"]).
#[local] Instance ex_s5 : Serde AuthorizationMaterial :=
  text_serde (λ m, [um_approval m; "............"]).
#[local] Instance ex_s6 : Serde ExecutionMaterial :=
  text_serde (λ m, [xm_idempotency_key m; ex_operation_id (xm_execution m); "............"]).
#[local] Instance ex_s7 : Serde RevocationMaterial :=
  text_serde (λ m, [rm_authorization_receipt m; "............"]).

Definition ex_call (key : string) : NKIRequest := mkNki "r" key 2 "p" "" "ns" 0 "" "" [] "" [0].
Definition ex_answer (r : result string (NKIOutcome ExtensionPayload) * Journal) :
    option ExtensionPayload :=
  match r.1 with Ok (Success p) => Some p | _ => None end.
Definition ex_receipt (o : option ExtensionPayload) : string :=
  match o with Some (PDecision d) => ed_receipt_id d | _ => "" end.
Definition ex_es (j : Journal) : list JournalEntry :=
  match read_workload ex_io j (extension_workload "ext") with Ok es => es | Err _ => [] end.

Definition ex_admitted := admit_extension ex_io (ex_call "k1") fresh_journal.
Definition ex_approval (approval : string) (caps : list string) : ExtensionAuthorizationRequest :=
  mkAuthorization ex_admission (ex_receipt (ex_answer ex_admitted)) approval caps.
Definition ex_authorized :=
  authorize_after (ex_es ex_admitted.2) ex_io (ex_call "k2") (ex_approval "ok" ["files.read"])
    ex_admitted.2.
Definition ex_use (operation capability : string) (scope : list string) : ExtensionExecutionRequest :=
  mkExtensionExecution 1 operation "ext" (ex_hash "a") (ex_receipt (ex_answer ex_authorized))
    capability "read" (ex_hash "b") "wasm" scope.
Definition ex_permitted (key : string) (x : ExtensionExecutionRequest) (es : list JournalEntry) :=
  permit_after es ex_io 7 (ex_call key) x.
Definition ex_revoked :=
  revoke_after (ex_es ex_authorized.2) ex_io (ex_call "k4")
    (mkRevocation 1 "ext" (ex_hash "a") (ex_receipt (ex_answer ex_authorized)) "") ex_authorized.2.

(** Only what was approved is permitted. *)
Example ex_permits :
  let j := ex_authorized.2 in
  is_Some (ex_answer (ex_permitted "k3" (ex_use "op" "files.read" ["/data"]) (ex_es j) j)) ∧
  ex_answer (ex_permitted "k3" (ex_use "op" "net.fetch" ["example.org"]) (ex_es j) j) = None ∧
  ex_answer (ex_permitted "k3" (ex_use "op" "files.read" ["/etc"]) (ex_es j) j) = None ∧
  ex_answer (ex_permitted "k3" (ex_use "op" "files.read" ["/data"]) (ex_es ex_revoked.2)
               ex_revoked.2) = None.
Proof. split_and!; vm_compute; eauto. Qed.

Lemma ex_es_read j : journal_ok j → available_db ex_io j →
  read_workload ex_io j (extension_workload "ext") = Ok (ex_es j) ∧ ex_es j ⊆ entries j.
Proof.
  intros Hok Hav. unfold ex_es. pose proof (read_workload_ok ex_io j (extension_workload "ext") Hok Hav)
    as Hr. rewrite Hr. split; [done|]. intros e He. by apply list_elem_of_filter in He as [_ He].
Qed.

Lemma ex_fresh : no_extensions fresh_journal.
Proof. split; [apply fresh_journal_ok|constructor]. Qed.

Lemma ex_reachable :
  rtc any_step fresh_journal ex_authorized.2 ∧ ext_inv ex_authorized.2 ∧
  read_workload ex_io ex_authorized.2 (extension_workload "ext") = Ok (ex_es ex_authorized.2).
Proof.
  assert (rtc any_step fresh_journal ex_admitted.2) as H1
    by (apply rtc_once; exists None; constructor).
  pose proof (reachable_inv _ _ ex_fresh H1) as [Hok1 _].
  assert (rtc any_step fresh_journal ex_authorized.2) as H2.
  { etrans; [exact H1|]. apply rtc_once. eexists. apply XAuthorize.
    - apply ex_es_read; [done|]. vm_compute. done.
    - vm_compute. reflexivity. }
  split; [done|]. split; [by apply (reachable_inv _ _ ex_fresh)|].
  apply ex_es_read; [by apply (reachable_inv _ _ ex_fresh)|]. vm_compute. done.
Qed.

Lemma permit_follows_authorization_witness :
  ∃ p j2 e a y,
    ex_permitted "k3" (ex_use "op" "files.read" ["/data"]) (ex_es ex_authorized.2) ex_authorized.2
      = (Ok (Success (PPermit p)), j2) ∧
    approves ex_authorized.2 e a y ∧ ep_capability p ∈ eu_approved_capabilities a.
Proof.
  destruct ex_reachable as (Hr & _ & Hes).
  destruct (ex_permitted "k3" (ex_use "op" "files.read" ["/data"]) (ex_es ex_authorized.2)
    ex_authorized.2) as [res j2] eqn:Hp.
  assert (∃ p, res = Ok (Success (PPermit p))) as [p ->].
  { apply (f_equal fst) in Hp. vm_compute in Hp. subst res. eexists. reflexivity. }
  destruct (permit_follows_authorization fresh_journal ex_authorized.2 (ex_es ex_authorized.2) ex_io
    ex_io 7 (ex_call "k3") (ex_use "op" "files.read" ["/data"]) ex_authorized.2 p j2 ex_fresh Hr Hes Hp)
    as (e & a & y & _ & _ & _ & Ha & _ & _ & Hc & _).
  exists p, j2, e, a, y. split; [reflexivity|]. split; [exact Ha|exact Hc].
Defined.

Definition ex_op : ExtensionExecutionRequest := ex_use "op" "files.read" ["/data"].

Lemma revocation_effective_witness :
  is_Some (ex_answer (ex_permitted "k5" ex_op (ex_es ex_authorized.2) ex_authorized.2)) ∧
  ∀ p j4, ex_permitted "k5" ex_op (ex_es ex_revoked.2) ex_revoked.2
    ≠ (Ok (Success (PPermit p)), j4).
Proof.
  split; [vm_compute; eauto|]. destruct ex_reachable as (Hr & Hinv & Hes).
  assert (available_db ex_io ex_revoked.2) as Hav by (split; vm_compute; reflexivity).
  destruct ex_revoked as [res j1] eqn:Hrev.
  assert (∃ d, res = Ok (Success d)) as [d ->].
  { apply (f_equal fst) in Hrev. vm_compute in Hrev. subst res. eexists. reflexivity. }
  assert (ext_inv j1) as Hinv1 by (eapply adds_inv; [exact Hinv|by eapply revoke_adds]).
  apply (revocation_effective fresh_journal ex_authorized.2 (ex_es ex_authorized.2) ex_io ex_io
    (ex_call "k4") (mkRevocation 1 "ext" (ex_hash "a") (ex_receipt (ex_answer ex_authorized)) "")
    d j1 j1 ex_io).
  - exact ex_fresh.
  - exact Hr.
  - exact Hes.
  - intros Hu. apply (bool_decide_pack _) in Hu. vm_compute in Hu. exact Hu.
  - exact Hrev.
  - reflexivity.
  - reflexivity.
  - by apply ex_es_read; [apply Hinv1|].
Defined.

(** *** What the answers do not say *)

(** A permit under an idempotency key used before is issued but not recorded. *)
Example permit_unrecorded :
  let j := (ex_permitted "k3" (ex_use "op" "files.read" ["/data"]) (ex_es ex_authorized.2)
              ex_authorized.2).2 in
  let again := ex_permitted "k3" (ex_use "other" "files.read" []) (ex_es j) j in
  is_Some (ex_answer again) ∧ length (entries again.2) = length (entries j).
Proof. split; vm_compute; [eauto|reflexivity]. Qed.

(** A revoked extension approved again, for more, under the same approval is told
    that its capabilities are bound; nothing is recorded and none are. *)
Example reapproval_void :
  let again := authorize_after (ex_es ex_revoked.2) ex_io (ex_call "k5")
                 (ex_approval "ok" ["files.read"; "net.fetch"]) ex_revoked.2 in
  (match ex_answer again with Some (PDecision d) => ed_decision_reason d | _ => "" end)
    = "approved_capabilities_bound" ∧
  length (entries again.2) = length (entries ex_revoked.2) ∧
  ex_answer (ex_permitted "k6" (ex_use "op" "files.read" []) (ex_es again.2) again.2) = None.
Proof. split_and!; vm_compute; reflexivity. Qed.

(** A permit decided on what was read before a revocation is issued and recorded
    after it. *)
Example permit_races_revocation :
  let late := ex_permitted "k3" (ex_use "op" "files.read" []) (ex_es ex_authorized.2) ex_revoked.2 in
  is_Some (ex_answer late) ∧ length (entries late.2) = S (length (entries ex_revoked.2)).
Proof. split; vm_compute; [eauto|reflexivity]. Qed.
