(* ===== verification/Intelligence.v ===== *)
(** * Intelligence projects

    [crates/nous-intelligence/src]: the manifests a developer writes around the
    runtime (backends, graphs of models and tools, datasets, experiments, model
    profiles, projects) with their [validate], the comparison of two versions,
    the lowering of a graph to a workflow contract and the assessment of a model
    merge. BTreeMap keys and BTreeSet members come in order. *)

From S2P Require Import Prelude Errors Float64 Resource Provider Contracts Graph.
Local Open Scope Z_scope.

(** ** Checks (lib.rs) *)

Definition INTELLIGENCE_SCHEMA_VERSION : Z := 1.

Inductive IntelligenceError : Type :=
| Invalid (object field message : string)
| Incompatible_ (object message : string).

Definition intelligence_error_text (e : IntelligenceError) : string :=
  match e with
  | Invalid o f m => "invalid " +:+ o +:+ " field '" +:+ f +:+ "': " +:+ m
  | Incompatible_ o m => "incompatible " +:+ o +:+ ": " +:+ m
  end.

Abbreviation Verdict := (result IntelligenceError unit).

(** An early return of [invalid]. *)
Definition invalid_if (b : bool) (object field message : string) : Verdict :=
  if b then Err (Invalid object field message) else Ok tt.

Definition require (object field value : string) : Verdict :=
  invalid_if (blank value) object field "must not be empty".
Definition intelligence_schema (object : string) (version : Z) : Verdict :=
  invalid_if (negb (version =? INTELLIGENCE_SCHEMA_VERSION)) object "schema_version"
    ("expected " +:+ show_u INTELLIGENCE_SCHEMA_VERSION +:+ ", found " +:+ show_u version).

Definition valid_identifier (value : string) : bool :=
  negb (bool_decide (value = "")) &&
  string_all (λ c, is_ascii_lowercase c || is_ascii_uppercase c || is_ascii_digit c
                   || bool_decide (c ∈ ["-"; "_"; "."]%char)) value &&
  negb (bool_decide (value = ".")) && negb (bool_decide (value = "..")).

(** [map_err] of a contract's error. *)
Definition contract_verdict (object field : string) (r : ContractResult) : Verdict :=
  match r with Ok _ => Ok tt | Err e => Err (Invalid object field (contract_error_text e)) end.

(** A loop that refuses a repeated key after checking each item. *)
Fixpoint check_distinct {A} (check : A → Verdict) (key : A → string) (twice : string → IntelligenceError)
    (seen : list string) (l : list A) : Verdict :=
  match l with
  | [] => Ok tt
  | x :: l' =>
      _ ← check x;
      if decide (key x ∈ seen) then Err (twice (key x))
      else check_distinct check key twice (key x :: seen) l'
  end.

(** ** Comparison of JSON values *)

Definition number_eqb (a b : Number) : bool :=
  match a, b with
  | PosInt x, PosInt y | NegInt x, NegInt y => x =? y
  | Float x, Float y => f64_eqb x y
  | _, _ => false
  end.

Fixpoint value_eqb (a b : Value) {struct a} : bool :=
  match a, b with
  | VNull, VNull => true
  | VBool x, VBool y => Bool.eqb x y
  | VNumber x, VNumber y => number_eqb x y
  | VString x, VString y => bool_decide (x = y)
  | VArray l, VArray k =>
      (fix go l k := match l, k with
                     | [], [] => true
                     | x :: l', y :: k' => value_eqb x y && go l' k'
                     | _, _ => false
                     end) l k
  | VObject l, VObject k =>
      (fix go l k := match l, k with
                     | [], [] => true
                     | (i, x) :: l', (j, y) :: k' => bool_decide (i = j) && value_eqb x y && go l' k'
                     | _, _ => false
                     end) l k
  | _, _ => false
  end.

Definition opt_eqb {A} (eqb : A → A → bool) (a b : option A) : bool :=
  match a, b with
  | Some x, Some y => eqb x y
  | None, None => true
  | _, _ => false
  end.

(** The keys of a BTreeMap in order. *)
Definition keys {A} (m : gmap string A) : list string := sort_by String.compare (map_to_list m).*1.

Definition map_eqb {A} (eqb : A → A → bool) (a b : gmap string A) : bool :=
  forallb (λ k, opt_eqb eqb (a !! k) (b !! k)) ((map_to_list a).*1 ++ (map_to_list b).*1).

(** ** Backends (backend.rs) *)

Inductive BackendKind : Type :=
| BK_RemoteApi | BK_Python | BK_Native | BK_Onnx | BK_Pytorch | BK_Container | BK_Wasm
| BK_Device | BK_Human | BK_Custom.
#[global] Instance BackendKind_eq_dec : EqDecision BackendKind.
Proof. solve_decision. Defined.

Record BackendSpec : Type := mkBackend {
  bs_kind : BackendKind;
  bs_provider : string;
  bs_entrypoint : string;
  bs_configuration : gmap string string
}.
#[global] Instance BackendSpec_eq_dec : EqDecision BackendSpec.
Proof. solve_decision. Defined.

Definition validate_backend (b : BackendSpec) : Verdict :=
  _ ← (if decide (bs_kind b ∈ [BK_RemoteApi; BK_Device])
       then require "BackendSpec" "provider" (bs_provider b) else Ok tt);
  _ ← (if decide (bs_kind b ∈ [BK_Python; BK_Native; BK_Onnx; BK_Pytorch; BK_Container; BK_Wasm;
                               BK_Custom])
       then require "BackendSpec" "entrypoint" (bs_entrypoint b) else Ok tt);
  invalid_if (contains ".." (bs_entrypoint b)) "BackendSpec" "entrypoint"
    "parent traversal is not allowed".

(** ** Graphs (graph.rs) *)

Inductive NodeKind : Type :=
| NK_Model | NK_Algorithm | NK_Preprocessor | NK_Postprocessor | NK_Router | NK_Adapter
| NK_Verifier | NK_Solver | NK_Tool | NK_Device | NK_Human.
#[global] Instance NodeKind_eq_dec : EqDecision NodeKind.
Proof. solve_decision. Defined.

Inductive SideEffectDeclaration : Type :=
| SD_None | SD_FilesystemRead | SD_FilesystemWrite | SD_Network | SD_DeviceRead | SD_DeviceWrite
| SD_HumanApproval | SD_Custom (name : string).
#[global] Instance SideEffectDeclaration_eq_dec : EqDecision SideEffectDeclaration.
Proof. solve_decision. Defined.

Record GraphNode : Type := mkGraphNode {
  gn_id : string;
  gn_kind : NodeKind;
  gn_reference : string;
  gn_capability : string;
  gn_input_schema : Value;
  gn_output_schema : Value;
  gn_resources : ResourceVector;
  gn_parameters : gmap string Value;
  gn_side_effects : list SideEffectDeclaration;
  gn_backend : BackendSpec
}.

Definition validate_graph_node (n : GraphNode) : Verdict :=
  _ ← invalid_if (negb (valid_identifier (gn_id n))) "GraphNode" "id"
        "must use letters, digits, '.', '-' or '_'";
  _ ← invalid_if (negb (string_mem "." (gn_capability n))) "GraphNode" "capability"
        "must be a namespaced capability identifier";
  _ ← (if decide (gn_kind n ∈ [NK_Model; NK_Tool; NK_Device])
       then require "GraphNode" "reference" (gn_reference n) else Ok tt);
  validate_backend (gn_backend n).

Record GraphEdge : Type := mkGraphEdge { ge_from : string; ge_to : string }.
#[global] Instance GraphEdge_eq_dec : EqDecision GraphEdge.
Proof. solve_decision. Defined.

Record IntelligenceGraph : Type := mkIntelligenceGraph {
  ig_schema_version : Z;
  ig_id : string;
  ig_version : string;
  ig_nodes : list GraphNode;
  ig_edges : list GraphEdge;
  ig_metadata : gmap string string
}.

Definition schema_type (schema : Value) : option string := value_get schema "type" ≫= value_as_str.
Definition validate_schema_connection (output input : Value) : result string unit :=
  match schema_type output, schema_type input with
  | Some o, Some i =>
      if decide (o = i) then Ok tt
      else Err ("output type '" +:+ o +:+ "' does not match input type '" +:+ i +:+ "'")
  | _, _ => Ok tt
  end.

Definition graph_error (message : string) : IntelligenceError :=
  Invalid "IntelligenceGraph" "edges" message.

(** [nodes]: the nodes by name; a later node of the same name would replace an
    earlier one. *)
Definition node_table (ns : list GraphNode) : gmap string GraphNode :=
  foldl (λ m n, <[gn_id n := n]> m) ∅ ns.

(** One edge of the loop that fills the tables. *)
Definition check_edge (nodes : gmap string GraphNode) (seen : list GraphEdge) (e : GraphEdge) :
    Verdict :=
  if decide (ge_from e = ge_to e) then Err (graph_error ("self-cycle at '" +:+ ge_from e +:+ "'"))
  else match nodes !! ge_from e with
  | None => Err (graph_error ("unknown source node '" +:+ ge_from e +:+ "'"))
  | Some from =>
      match nodes !! ge_to e with
      | None => Err (graph_error ("unknown target node '" +:+ ge_to e +:+ "'"))
      | Some to =>
          if decide (e ∈ seen)
          then Err (graph_error ("duplicate edge '" +:+ ge_from e +:+ " -> " +:+ ge_to e +:+ "'"))
          else match validate_schema_connection (gn_output_schema from) (gn_input_schema to) with
          | Err m => Err (graph_error (ge_from e +:+ " -> " +:+ ge_to e +:+ ": " +:+ m))
          | Ok _ => Ok tt
          end
      end
  end.

Fixpoint edge_tables (nodes : gmap string GraphNode) (seen : list GraphEdge) (es : list GraphEdge)
    (t : Tables) : result IntelligenceError Tables :=
  match es with
  | [] => Ok t
  | e :: es' =>
      _ ← check_edge nodes seen e;
      edge_tables nodes (e :: seen) es' (add_edge (ge_from e) (ge_to e) t)
  end.

(** BTreeMap iteration. *)
Definition btree_order : HashOrder := {|
  hash_iter := λ V m, sort_by (λ a b, String.compare a.1 b.1) (map_to_list m);
  hash_iter_perm := λ V m, sort_by_perm _ _
|}.

(** [IntelligenceGraph::validate] up to the loop over the queue: the tables. *)
Definition graph_tables (g : IntelligenceGraph) : result IntelligenceError Tables :=
  _ ← intelligence_schema "IntelligenceGraph" (ig_schema_version g);
  _ ← require "IntelligenceGraph" "id" (ig_id g);
  _ ← require "IntelligenceGraph" "version" (ig_version g);
  _ ← invalid_if (bool_decide (ig_nodes g = [])) "IntelligenceGraph" "nodes"
        "must contain at least one node";
  _ ← check_distinct validate_graph_node gn_id
        (λ id, Invalid "IntelligenceGraph" "nodes" ("duplicate node '" +:+ id +:+ "'"))
        [] (ig_nodes g);
  let nodes := node_table (ig_nodes g) in
  edge_tables nodes [] (ig_edges g) (foldl (λ t v, add_vertex v t) (∅, ∅) (keys nodes)).

(** The whole of it; [None] would be a panic (a degree below zero) or a loop that
    does not end. *)
Definition validate_graph (g : IntelligenceGraph) : option Verdict :=
  match graph_tables g with
  | Err e => Some (Err e)
  | Ok (adjacency, indegree) =>
      visited ← @kahn btree_order adjacency indegree;
      Some (if decide (length visited ≠ size (node_table (ig_nodes g)))
            then Err (graph_error "graph contains a cycle") else Ok tt)
  end.

(** [to_workflow_contract]. *)
Definition to_workflow_contract (g : IntelligenceGraph) :
    option (result IntelligenceError (Contract WorkflowFields)) :=
  verdict ← validate_graph g;
  Some (match verdict with
  | Err e => Err e
  | Ok _ =>
      let workflow :=
        mkContract (ig_schema_version g) (ig_id g) (ig_version g)
          (mkWorkflowFields (gn_id <$> ig_nodes g) ((λ e, (ge_from e, ge_to e)) <$> ig_edges g))
          (<["source_schema" := show_u (ig_schema_version g)]>
             (<["source" := "IntelligenceGraph"]> ∅)) in
      match contract_verdict "IntelligenceGraph" "workflow" (validate_workflow workflow) with
      | Err e => Err e
      | Ok _ => Ok workflow
      end
  end).

Definition node_eqb (a b : GraphNode) : bool :=
  bool_decide (gn_id a = gn_id b) && bool_decide (gn_kind a = gn_kind b)
  && bool_decide (gn_reference a = gn_reference b)
  && bool_decide (gn_capability a = gn_capability b)
  && value_eqb (gn_input_schema a) (gn_input_schema b)
  && value_eqb (gn_output_schema a) (gn_output_schema b)
  && bool_decide (gn_resources a = gn_resources b)
  && map_eqb value_eqb (gn_parameters a) (gn_parameters b)
  && bool_decide (gn_side_effects a = gn_side_effects b)
  && bool_decide (gn_backend a = gn_backend b).

Record GraphDiff : Type := mkGraphDiff {
  gd_added_nodes : list string;
  gd_removed_nodes : list string;
  gd_changed_nodes : list string;
  gd_added_edges : list GraphEdge;
  gd_removed_edges : list GraphEdge
}.

(** The derived order of [GraphEdge] and the members of a BTreeSet difference. *)
Definition edge_compare (a b : GraphEdge) : comparison :=
  match String.compare (ge_from a) (ge_from b) with
  | Eq => String.compare (ge_to a) (ge_to b)
  | c => c
  end.
Definition edge_difference (a b : list GraphEdge) : list GraphEdge :=
  sort_by edge_compare (filter (.∉ b) (remove_dups a)).

Definition graph_diff (g other : IntelligenceGraph) : GraphDiff :=
  let left := node_table (ig_nodes g) in
  let right := node_table (ig_nodes other) in
  let changed id :=
    match left !! id, right !! id with
    | Some a, Some b => negb (node_eqb b a)
    | _, _ => false
    end in
  mkGraphDiff
    (sort_by String.compare (filter (λ id, left !! id = None) (keys right)))
    (sort_by String.compare (filter (λ id, right !! id = None) (keys left)))
    (sort_by String.compare (filter (λ id, changed id = true) (keys left)))
    (edge_difference (ig_edges other) (ig_edges g))
    (edge_difference (ig_edges g) (ig_edges other)).

(** ** Data and experiments (data.rs) *)

Record DatasetSplit : Type := mkSplit {
  ds_name : string;
  ds_artifact : Contract ArtifactFields;
  ds_schema : Value;
  ds_rows : option Z
}.
Definition validate_split (s : DatasetSplit) : Verdict :=
  _ ← require "DatasetSplit" "name" (ds_name s);
  contract_verdict "DatasetSplit" "artifact" (validate_artifact (ds_artifact s)).

Record DatasetManifest : Type := mkDataset {
  dm_schema_version : Z;
  dm_id : string;
  dm_version : string;
  dm_license : string;
  dm_splits : list DatasetSplit;
  dm_transforms : list string;
  dm_provenance : gmap string string;
  dm_quality : gmap string f64
}.

Definition f64_is_finite (x : f64) : bool :=
  match x with SpecFloat.S754_zero _ | SpecFloat.S754_finite _ _ _ => true | _ => false end.

Definition validate_dataset (d : DatasetManifest) : Verdict :=
  _ ← intelligence_schema "DatasetManifest" (dm_schema_version d);
  _ ← invalid_if (negb (valid_identifier (dm_id d))) "DatasetManifest" "id" "invalid identifier";
  _ ← require "DatasetManifest" "version" (dm_version d);
  _ ← require "DatasetManifest" "license" (dm_license d);
  _ ← invalid_if (bool_decide (dm_splits d = [])) "DatasetManifest" "splits"
        "must contain at least one split";
  _ ← check_distinct validate_split ds_name
        (λ name, Invalid "DatasetManifest" "splits" ("duplicate split '" +:+ name +:+ "'"))
        [] (dm_splits d);
  invalid_if (existsb (λ q, negb (f64_is_finite q.2)) (map_to_list (dm_quality d)))
    "DatasetManifest" "quality" "quality values must be finite".

Inductive MetricValue : Type := MNumber (x : f64) | MText (s : string) | MBoolean (b : bool).
Definition metric_eqb (a b : MetricValue) : bool :=
  match a, b with
  | MNumber x, MNumber y => f64_eqb x y
  | MText x, MText y => bool_decide (x = y)
  | MBoolean x, MBoolean y => Bool.eqb x y
  | _, _ => false
  end.

Inductive ExperimentStatus : Type :=
| ES_Created | ES_Queued | ES_Running | ES_Paused | ES_Completed | ES_Failed | ES_Cancelled.

Record ExperimentManifest : Type := mkExperiment {
  em_schema_version : Z;
  em_id : string;
  em_version : string;
  em_model : string;
  em_dataset : string;
  em_code_revision : string;
  em_runtime_version : string;
  em_seed : Z;
  em_status : ExperimentStatus;
  em_parameters : gmap string Value;
  em_resources : ResourceVector;
  em_environment : gmap string string;
  em_metrics : gmap string MetricValue;
  em_artifacts : list (Contract ArtifactFields)
}.

Definition metric_unbounded (m : MetricValue) : bool :=
  match m with MNumber x => negb (f64_is_finite x) | _ => false end.

Definition validate_experiment (e : ExperimentManifest) : Verdict :=
  _ ← intelligence_schema "ExperimentManifest" (em_schema_version e);
  _ ← invalid_if (negb (valid_identifier (em_id e))) "ExperimentManifest" "id"
        "invalid identifier";
  _ ← check_each (λ p, require "ExperimentManifest" p.1 p.2)
        [("version", em_version e); ("model", em_model e); ("dataset", em_dataset e);
         ("code_revision", em_code_revision e); ("runtime_version", em_runtime_version e)];
  _ ← invalid_if (existsb (λ q, metric_unbounded q.2) (map_to_list (em_metrics e)))
        "ExperimentManifest" "metrics" "numeric metrics must be finite";
  check_each (λ a, contract_verdict "ExperimentManifest" "artifacts" (validate_artifact a))
    (em_artifacts e).

(** [map_diff]: the keys of either map whose values differ, with both values. *)
Definition map_diff {A} (eqb : A → A → bool) (left right : gmap string A) :
    gmap string (option A * option A) :=
  foldl (λ m k, if opt_eqb eqb (left !! k) (right !! k) then m
                else <[k := (left !! k, right !! k)]> m) ∅
    (remove_dups (keys left ++ keys right)).

Record ExperimentDiff : Type := mkExperimentDiff {
  ed_model_changed : bool;
  ed_dataset_changed : bool;
  ed_code_changed : bool;
  ed_seed_changed : bool;
  ed_parameter_changes : gmap string (option Value * option Value);
  ed_metric_changes : gmap string (option MetricValue * option MetricValue)
}.
Definition experiment_diff (a b : ExperimentManifest) : ExperimentDiff :=
  mkExperimentDiff (negb (bool_decide (em_model a = em_model b)))
    (negb (bool_decide (em_dataset a = em_dataset b)))
    (negb (bool_decide (em_code_revision a = em_code_revision b)))
    (negb (bool_decide (em_seed a = em_seed b)))
    (map_diff value_eqb (em_parameters a) (em_parameters b))
    (map_diff metric_eqb (em_metrics a) (em_metrics b)).

(** ** Model profiles (model_engineering.rs) *)

Record ArchitectureMetadata : Type := mkArchitecture {
  ar_architecture_id : string;
  ar_layers : option Z;
  ar_hidden_dimension : option Z;
  ar_attention : string;
  ar_experts : option Z;
  ar_activation : string;
  ar_context_length : option Z;
  ar_tokenizer_digest : string;
  ar_tensor_shapes_digest : string
}.
#[global] Instance ArchitectureMetadata_eq_dec : EqDecision ArchitectureMetadata.
Proof. solve_decision. Defined.

Inductive ModelExtension : Type :=
| ME_None
| ME_Llm (context_length : Z) (tokenizer precision : string) (generation : gmap string Value)
| ME_Vision (input_shape : list Z) (classes preprocessing postprocessing : list string)
| ME_Mathematical (solver : string) (variables : list string) (parameters : gmap string Value)
    (initial_conditions : gmap string f64) (tolerance : f64)
| ME_Control (sampling_period_seconds : f64) (state_dimension control_dimension : Z)
    (stability : gmap string string)
| ME_Custom (name : string) (values : gmap string Value).

Record LicenseGrant : Type := mkLicense {
  lg_id : string;
  lg_source : string;
  lg_derivative_works : option bool;
  lg_redistribution : option bool;
  lg_commercial_use : option bool
}.
#[global] Instance LicenseGrant_eq_dec : EqDecision LicenseGrant.
Proof. solve_decision. Defined.

Record ModelProfile : Type := mkModelProfile {
  mp_schema_version : Z;
  mp_model : ModelSpec;
  mp_architecture : ArchitectureMetadata;
  mp_extension : ModelExtension;
  mp_license : LicenseGrant;
  mp_adapters : list string;
  mp_quantization : string;
  mp_dataset_lineage : list string;
  mp_status : string
}.

(** The pairs of model kind and extension that go together. *)
Definition extension_matches (k : ModelKind) (x : ModelExtension) : Verdict :=
  match k, x with
  | MK_Vision, ME_Vision [] _ _ _ =>
      Err (Invalid "ModelProfile" "extension.input_shape" "vision input shape must not be empty")
  | MK_Vision, ME_Vision _ _ _ _
  | MK_Foundation, ME_Llm _ _ _ _
  | (MK_Mathematical | MK_Statistical | MK_Optimization), ME_Mathematical _ _ _ _ _
  | MK_Control, ME_Control _ _ _ _
  | _, (ME_Custom _ _ | ME_None) => Ok tt
  | _, _ => Err (Invalid "ModelProfile" "extension"
                   "extension type is incompatible with ModelSpec kind")
  end.

Definition not_positive (x : f64) : bool :=
  negb (f64_is_finite x) || f64_leb x (SpecFloat.S754_zero false).

Definition extension_values (x : ModelExtension) : Verdict :=
  match x with
  | ME_Llm context_length tokenizer precision _ =>
      _ ← invalid_if (context_length =? 0) "ModelProfile" "extension.context_length"
            "must be positive";
      _ ← require "ModelProfile" "extension.tokenizer" tokenizer;
      require "ModelProfile" "extension.precision" precision
  | ME_Mathematical solver _ _ _ tolerance =>
      _ ← require "ModelProfile" "extension.solver" solver;
      invalid_if (not_positive tolerance) "ModelProfile" "extension.tolerance"
        "must be finite and positive"
  | ME_Control period _ _ _ =>
      invalid_if (not_positive period) "ModelProfile" "extension.sampling_period_seconds"
        "must be finite and positive"
  | _ => Ok tt
  end.

Definition validate_profile (p : ModelProfile) : Verdict :=
  _ ← intelligence_schema "ModelProfile" (mp_schema_version p);
  _ ← contract_verdict "ModelProfile" "model" (validate_model (mp_model p));
  _ ← require "ModelProfile" "architecture.architecture_id"
        (ar_architecture_id (mp_architecture p));
  _ ← require "ModelProfile" "license.id" (lg_id (mp_license p));
  _ ← require "ModelProfile" "license.source" (lg_source (mp_license p));
  _ ← extension_matches (ms_kind (mp_model p)) (mp_extension p);
  extension_values (mp_extension p).

Record ModelDiff : Type := mkModelDiff {
  md_identity_changed : bool;
  md_version_changed : bool;
  md_kind_changed : bool;
  md_architecture_changed : bool;
  md_tokenizer_changed : bool;
  md_backend_changed : bool;
  md_capability_changes : list string * list string;
  md_artifact_changes : list string * list string;
  md_adapter_changes : list string * list string;
  md_quantization_changed : bool;
  md_evaluation_changed : bool;
  md_deployment_changed : bool;
  md_license_changed : bool
}.

Definition string_set_diff (left right : list string) : list string * list string :=
  (sort_by String.compare (filter (.∉ right) (remove_dups left)),
   sort_by String.compare (filter (.∉ left) (remove_dups right))).

Definition evaluation_eqb (a b : EvaluationSpec) : bool :=
  bool_decide (eval_dataset a = eval_dataset b) && bool_decide (eval_metrics a = eval_metrics b)
  && map_eqb f64_eqb (eval_thresholds a) (eval_thresholds b).

Definition profile_diff (a b : ModelProfile) : ModelDiff :=
  let differ {X} `{EqDecision X} (f : ModelProfile → X) := negb (bool_decide (f a = f b)) in
  let digests p := (λ c, artifact_sha256 (ct_fields c)) <$> ms_artifacts (mp_model p) in
  mkModelDiff (differ (λ p, ms_id (mp_model p))) (differ (λ p, ms_version (mp_model p)))
    (differ (λ p, ms_kind (mp_model p))) (differ mp_architecture)
    (differ (λ p, ar_tokenizer_digest (mp_architecture p)))
    (differ (λ p, ms_backend (mp_model p)))
    (string_set_diff (ms_capabilities (mp_model a)) (ms_capabilities (mp_model b)))
    (string_set_diff (digests a) (digests b))
    (string_set_diff (mp_adapters a) (mp_adapters b)) (differ mp_quantization)
    (negb (evaluation_eqb (ms_evaluation (mp_model a)) (ms_evaluation (mp_model b))))
    (differ (λ p, ms_deployment (mp_model p))) (differ mp_license).

(** *** Merging models *)

Inductive MergeStrategy : Type :=
| MS_Linear | MS_Slerp | MS_Ties | MS_Dare | MS_AdapterMerge | MS_Custom.
#[global] Instance MergeStrategy_eq_dec : EqDecision MergeStrategy.
Proof. solve_decision. Defined.

Record MergeRequest : Type := mkMerge {
  mr_schema_version : Z;
  mr_output_id : string;
  mr_strategy : MergeStrategy;
  mr_publish : bool;
  mr_sources : list ModelProfile;
  mr_parameters : gmap string Value
}.
Record MergeAssessment : Type := mkAssessment {
  mas_compatible : bool;
  mas_strategy : MergeStrategy;
  mas_reasons : list string;
  mas_warnings : list string
}.

(** [Vec::dedup]. *)
Fixpoint dedup (l : list string) : list string :=
  match l with
  | x :: ((y :: _) as l') => if decide (x = y) then dedup l' else x :: dedup l'
  | _ => l
  end.

Definition reason_if (b : bool) (text : string) : list string := if b then [text] else [].

Definition merge_reasons (r : MergeRequest) (baseline source : ModelProfile) : list string :=
  let id := ms_id (mp_model source) in
  let differ {X} `{EqDecision X} (f : ModelProfile → X) := negb (bool_decide (f source = f baseline)) in
  let lacks (o : option bool) := negb (bool_decide (o = Some true)) in
  reason_if (differ (λ p, ms_kind (mp_model p))) (id +:+ " has a different model kind") ++
  reason_if (differ (λ p, ar_architecture_id (mp_architecture p)))
    (id +:+ " has a different architecture") ++
  reason_if (differ (λ p, ar_tokenizer_digest (mp_architecture p)))
    (id +:+ " has an incompatible tokenizer") ++
  reason_if (negb (bool_decide (mr_strategy r = MS_AdapterMerge))
             && differ (λ p, ar_tensor_shapes_digest (mp_architecture p)))
    (id +:+ " has incompatible tensor shapes") ++
  reason_if (lacks (lg_derivative_works (mp_license source)))
    (id +:+ " license does not explicitly permit derivative works") ++
  reason_if (mr_publish r && lacks (lg_redistribution (mp_license source)))
    (id +:+ " license does not explicitly permit redistribution").

Definition merge_warnings (source : ModelProfile) : list string :=
  reason_if (bool_decide (lg_commercial_use (mp_license source) = None))
    (ms_id (mp_model source) +:+ " commercial-use permission is unknown").

Definition assess_merge (r : MergeRequest) : result IntelligenceError MergeAssessment :=
  _ ← intelligence_schema "MergeRequest" (mr_schema_version r);
  _ ← require "MergeRequest" "output_id" (mr_output_id r);
  match mr_sources r with
  | [] | [_] => Err (Invalid "MergeRequest" "sources" "at least two source models are required")
  | baseline :: _ =>
      _ ← check_each validate_profile (mr_sources r);
      let reasons := dedup (sort_by String.compare (mr_sources r ≫= merge_reasons r baseline)) in
      let warnings := dedup (sort_by String.compare (mr_sources r ≫= merge_warnings)) in
      Ok (mkAssessment (bool_decide (reasons = [])) (mr_strategy r) reasons warnings)
  end.

(** ** Projects (project.rs) *)

Record ProjectReference : Type := mkReference { pf_id : string; pf_path : string }.

Definition validate_project_reference (r : ProjectReference) : Verdict :=
  _ ← require "ProjectReference" "id" (pf_id r);
  _ ← require "ProjectReference" "path" (pf_path r);
  invalid_if (path_unportable (pf_path r)) "ProjectReference" "path"
    "must be a portable project-relative path without parent traversal".

Record ProjectManifest : Type := mkProject {
  pj_schema_version : Z;
  pj_id : string;
  pj_name : string;
  pj_version : string;
  pj_description : string;
  pj_license : string;
  pj_models : list ProjectReference;
  pj_algorithms : list ProjectReference;
  pj_datasets : list ProjectReference;
  pj_providers : list ProjectReference;
  pj_workflows : list ProjectReference;
  pj_policies : list ProjectReference;
  pj_experiments : list ProjectReference;
  pj_deployments : list ProjectReference;
  pj_secret_refs : gmap string string;
  pj_metadata : gmap string string
}.

Definition references (p : ProjectManifest) : list ProjectReference :=
  pj_models p ++ pj_algorithms p ++ pj_datasets p ++ pj_providers p ++ pj_workflows p ++
  pj_policies p ++ pj_experiments p ++ pj_deployments p.

Definition validate_project (p : ProjectManifest) : Verdict :=
  _ ← intelligence_schema "ProjectManifest" (pj_schema_version p);
  _ ← invalid_if (negb (valid_identifier (pj_id p))) "ProjectManifest" "id"
        "must use letters, digits, '.', '-' or '_'";
  _ ← require "ProjectManifest" "name" (pj_name p);
  _ ← require "ProjectManifest" "version" (pj_version p);
  _ ← require "ProjectManifest" "license" (pj_license p);
  _ ← check_each validate_project_reference (references p);
  invalid_if (existsb (λ q, negb (valid_identifier q.1) || negb (environment_name q.2))
                (map_to_list (pj_secret_refs p)))
    "ProjectManifest" "secret_refs"
    "values must be environment-variable names; secret values are forbidden".

(** ** What the checks accept *)

Lemma invalid_if_Ok b object field message :
  invalid_if b object field message = Ok tt ↔ b = false.
Proof. by destruct b. Qed.
Lemma require_Ok object field value : require object field value = Ok tt ↔ blank value = false.
Proof. apply invalid_if_Ok. Qed.
Lemma intelligence_schema_Ok object v : intelligence_schema object v = Ok tt ↔ v = 1.
Proof. unfold intelligence_schema. rewrite invalid_if_Ok, negb_false_iff. apply Z.eqb_eq. Qed.
Lemma contract_verdict_Ok object field r : contract_verdict object field r = Ok tt ↔ r = Ok tt.
Proof. destruct r as [[]|]; naive_solver. Qed.

Lemma check_distinct_Ok {A} (check : A → Verdict) key twice seen l :
  check_distinct check key twice seen l = Ok tt ↔
  Forall (λ x, check x = Ok tt) l ∧ NoDup (key <$> l) ∧ Forall (λ x, key x ∉ seen) l.
Proof.
  revert seen. induction l as [|x l IH]; intros seen; simpl; [by repeat split; constructor|].
  rewrite check_bind_Ok, !Forall_cons, NoDup_cons. case_decide as Hin.
  { split; [naive_solver|]. by intros (_ & _ & Hx & _). }
  rewrite IH, !Forall_forall, list_elem_of_fmap. setoid_rewrite not_elem_of_cons. split.
  - intros (Hc & Hl & Hnd & Hf). split_and!; [done|done| |done|done|naive_solver].
    intros (y & He & Hy). destruct (Hf y Hy) as [Hne _]. congruence.
  - intros ((Hc & Hl) & (Hx & Hnd) & _ & Hf). split_and!; [done..|].
    intros y Hy. split; [|by apply Hf]. intros He. apply Hx. by exists y.
Qed.

Lemma check_then_Ok {E B} (r : result E unit) (k : result E B) b :
  (_ ← r; k) = Ok b ↔ r = Ok tt ∧ k = Ok b.
Proof. destruct r as [[]|e]; simpl; naive_solver. Qed.

#[export] Hint Rewrite @check_then_Ok invalid_if_Ok require_Ok intelligence_schema_Ok contract_verdict_Ok
  @check_distinct_Ok : contracts.

Lemma elem_of_keys {A} (m : gmap string A) k : k ∈ keys m ↔ is_Some (m !! k).
Proof.
  unfold keys. rewrite sort_by_perm, list_elem_of_fmap. split.
  - intros ([k' v] & -> & Hin%elem_of_map_to_list). by eexists.
  - intros [v Hv]. exists (k, v). split; [done|by apply elem_of_map_to_list].
Qed.

(** *** Tables *)

Lemma node_table_snoc ns n : node_table (ns ++ [n]) = <[gn_id n := n]> (node_table ns).
Proof. unfold node_table. by rewrite foldl_app. Qed.

Lemma node_table_None ns id : node_table ns !! id = None ↔ id ∉ gn_id <$> ns.
Proof.
  induction ns as [|n ns IH] using rev_ind; [by split; [intros _ ?%not_elem_of_nil|]|].
  rewrite node_table_snoc, lookup_insert_None, IH, fmap_app, not_elem_of_app. simpl.
  rewrite list_elem_of_singleton. naive_solver.
Qed.

Lemma node_table_Some ns id n :
  NoDup (gn_id <$> ns) → node_table ns !! id = Some n ↔ n ∈ ns ∧ gn_id n = id.
Proof.
  induction ns as [|m ns IH] using rev_ind; [intros _; by split; [|intros [?%not_elem_of_nil _]]|].
  rewrite fmap_app, NoDup_app. intros (Hnd & Hm & _).
  rewrite node_table_snoc, lookup_insert_Some, IH, elem_of_app, list_elem_of_singleton by done.
  assert (gn_id m ∉ gn_id <$> ns) as Hfresh
    by (intros Hin; apply (Hm _ Hin); simpl; by apply list_elem_of_singleton).
  split; [naive_solver|]. intros [[Hin| ->] <-]; [|by left]. right. split; [|done].
  intros He. apply Hfresh. rewrite He. by apply list_elem_of_fmap_2.
Qed.

Lemma node_table_dom ns : dom (node_table ns) = list_to_set (gn_id <$> ns).
Proof.
  apply set_eq. intros id. rewrite elem_of_dom, elem_of_list_to_set.
  pose proof (node_table_None ns id) as Hn. destruct (node_table ns !! id) as [n|].
  - split; [|by eexists]. intros _. destruct (decide (id ∈ gn_id <$> ns)); [done|naive_solver].
  - split; [by intros []|]. intros. naive_solver.
Qed.

(** An edge between two nodes that exist and whose types agree. *)
Definition edge_fits (nodes : gmap string GraphNode) (e : GraphEdge) : Prop :=
  ge_from e ≠ ge_to e ∧ ∃ m n, nodes !! ge_from e = Some m ∧ nodes !! ge_to e = Some n ∧
    validate_schema_connection (gn_output_schema m) (gn_input_schema n) = Ok tt.

Lemma check_edge_Ok nodes seen e :
  check_edge nodes seen e = Ok tt ↔ edge_fits nodes e ∧ e ∉ seen.
Proof.
  unfold check_edge, edge_fits. case_decide; [naive_solver|].
  destruct (nodes !! ge_from e) as [m|]; [|naive_solver].
  destruct (nodes !! ge_to e) as [n|]; [|naive_solver]. case_decide; [naive_solver|].
  destruct (validate_schema_connection _ _) as [[]|] eqn:Hv; split; try naive_solver.
  intros [[_ (m' & n' & [= <-] & [= <-] & ?)] _]. congruence.
Qed.

Definition edge_pair (e : GraphEdge) : string * string := (ge_from e, ge_to e).

Lemma edge_tables_Ok nodes seen es t t' :
  edge_tables nodes seen es t = Ok t' ↔
  Forall (edge_fits nodes) es ∧ NoDup es ∧ Forall (.∉ seen) es ∧
  t' = foldl (λ t e, add_edge e.1 e.2 t) t (edge_pair <$> es).
Proof.
  revert seen t. induction es as [|e es IH]; intros seen t; simpl.
  { split; [intros [= ->]; repeat split; constructor|]. by intros (_ & _ & _ & ->). }
  rewrite !Forall_cons, NoDup_cons. pose proof (check_edge_Ok nodes seen e) as Hc.
  destruct (check_edge nodes seen e) as [[]|err]; simpl; [|split; [done|naive_solver]].
  rewrite IH, !Forall_forall. setoid_rewrite not_elem_of_cons.
  destruct (proj1 Hc eq_refl) as [Hf Hs]. split.
  - intros (Hfs & Hnd & Hsn & ->). split_and!; [done|done| |done|done|naive_solver|done].
    intros Hin. by destruct (Hsn e Hin).
  - intros ((_ & Hfs) & (Hne & Hnd) & (_ & Hsn) & ->). split_and!; [done|done| |done].
    intros x Hx. split; [|by apply Hsn]. by intros ->.
Qed.

(** *** Graphs *)

Definition graph_edges (g : IntelligenceGraph) : Edges := edge_pair <$> ig_edges g.

(** What a graph must be: named nodes that are each in order, distinct edges
    between nodes that exist, types that agree where both ends declare one, and
    no way that leads back. *)
Record graph_wf (g : IntelligenceGraph) : Prop := {
  gw_schema : ig_schema_version g = 1;
  gw_id : blank (ig_id g) = false;
  gw_version : blank (ig_version g) = false;
  gw_some : ig_nodes g ≠ [];
  gw_nodes : Forall (λ n, validate_graph_node n = Ok tt) (ig_nodes g);
  gw_names : NoDup (gn_id <$> ig_nodes g);
  gw_distinct : NoDup (ig_edges g);
  gw_ends : ∀ e, e ∈ ig_edges g → ∃ m n, m ∈ ig_nodes g ∧ n ∈ ig_nodes g ∧
    ge_from e = gn_id m ∧ ge_to e = gn_id n ∧
    ∀ o i, schema_type (gn_output_schema m) = Some o → schema_type (gn_input_schema n) = Some i →
      o = i;
  gw_acyclic : acyclic (graph_edges g)
}.

Lemma validate_schema_connection_Ok output input :
  validate_schema_connection output input = Ok tt ↔
  ∀ o i, schema_type output = Some o → schema_type input = Some i → o = i.
Proof.
  unfold validate_schema_connection.
  destruct (schema_type output) as [o|], (schema_type input) as [i|]; try naive_solver.
  case_decide; naive_solver.
Qed.

Lemma edges_fit g :
  NoDup (gn_id <$> ig_nodes g) →
  Forall (edge_fits (node_table (ig_nodes g))) (ig_edges g) ↔
  (∀ e, e ∈ ig_edges g → ge_from e ≠ ge_to e ∧ ∃ m n, m ∈ ig_nodes g ∧ n ∈ ig_nodes g ∧
    ge_from e = gn_id m ∧ ge_to e = gn_id n ∧
    ∀ o i, schema_type (gn_output_schema m) = Some o → schema_type (gn_input_schema n) = Some i →
      o = i).
Proof.
  intros Hnd. rewrite Forall_forall. unfold edge_fits. split; intros H e He.
  - destruct (H e He) as (Hne & m & n & Hm & Hn & Hv). split; [done|].
    apply (node_table_Some _ _ _ Hnd) in Hm as [? ?], Hn as [? ?].
    exists m, n. by split_and!; [..|apply validate_schema_connection_Ok].
  - destruct (H e He) as (Hne & m & n & ? & ? & Ef & Et & Hv). split; [done|].
    exists m, n. rewrite Ef, Et. split_and!; [by apply node_table_Some..|by apply validate_schema_connection_Ok].
Qed.

Lemma acyclic_no_loop E m n : acyclic E → (m, n) ∈ E → m ≠ n.
Proof. intros Hac He ->. apply (Hac n). by apply tc_once. Qed.

Lemma Forall_not_elem_nil {A} (l : list A) {B} (f : A → B) : Forall (λ x, f x ∉ []) l.
Proof. apply Forall_true. intros x. apply not_elem_of_nil. Qed.

(** The graphs whose tables can be built: those in order but for a cycle. *)
Lemma graph_tables_wf g :
  (acyclic (graph_edges g) ∧ ∃ t, graph_tables g = Ok t) ↔ graph_wf g.
Proof.
  unfold graph_tables. repeat setoid_rewrite check_then_Ok. setoid_rewrite edge_tables_Ok. split.
  - intros (Hac & t & Hs & Hi & Hv & Hne & Hn & Hfit & Hes & _ & _). contract_facts.
    destruct Hn as (Hn & Hnd & _). pose proof (proj1 (edges_fit g Hnd) Hfit) as Hends. split; try done.
    intros e He. by destruct (Hends e He).
  - intros [Hs Hi Hv Hne Hn Hnd Hes He Hac]. split; [done|]. eexists.
    contract_facts. split_and!; [done..|apply Forall_not_elem_nil| |done|apply (Forall_not_elem_nil _ id)|done].
    apply (proj2 (edges_fit g Hnd)). intros x Hx. split; [|by apply He].
    apply (acyclic_no_loop _ _ _ Hac). by apply (list_elem_of_fmap_2 edge_pair).
Qed.

(** How many nodes the queue visits. *)
Lemma graph_visits g adjacency indegree :
  graph_tables g = Ok (adjacency, indegree) →
  ∃ visited, @kahn btree_order adjacency indegree = Some visited ∧
    (length visited = size (node_table (ig_nodes g)) ↔ acyclic (graph_edges g)).
Proof.
  unfold graph_tables. rewrite !check_then_Ok. set (nodes := node_table (ig_nodes g)).
  intros (_ & _ & _ & _ & _ & (Hfit & _ & _ & Ht)%edge_tables_Ok).
  assert (list_to_set (keys nodes) = dom nodes) as HV.
  { apply set_eq. intros k. by rewrite elem_of_list_to_set, elem_of_keys, elem_of_dom. }
  assert (∀ m n, edge (graph_edges g) m n → m ∈ dom nodes ∧ n ∈ dom nodes) as Hends.
  { intros m n (e & [= -> ->] & He)%list_elem_of_fmap. rewrite Forall_forall in Hfit.
    destruct (Hfit e He) as (_ & a & b & Ha & Hb & _). rewrite !elem_of_dom. eauto. }
  assert (tables_ok (dom nodes) ([] ++ graph_edges g) (adjacency, indegree)) as [Hadj Hdeg _].
  { rewrite Ht, <-HV. apply add_edges_ok; [apply add_vertices_ok|].
    intros m n Hmn. rewrite HV. by destruct (Hends m n Hmn). }
  destruct (@kahn_exact btree_order _ _ _ _ Hadj Hdeg Hends) as (order & Hk & _ & _ & _ & _ & Hlen).
  exists order. by rewrite <-size_dom.
Qed.

(** C33: Validation of an intelligence graph always returns, without a panic and
    without running for ever, and accepts exactly the graphs in order: version
    1, named, with nodes that are each valid and have distinct names, distinct
    edges between existing nodes whose declared types agree, and no cycle. *)
Theorem graph_validation_exact g :
  ∃ v, validate_graph g = Some v ∧ (v = Ok tt ↔ graph_wf g).
Proof.
  unfold validate_graph. setoid_rewrite <-graph_tables_wf.
  destruct (graph_tables g) as [[adjacency indegree]|e] eqn:Ht; [|naive_solver].
  destruct (graph_visits _ _ _ Ht) as (visited & -> & Hv). cbn [mbind option_bind].
  eexists. split; [done|]. case_decide as Hc; naive_solver.
Qed.

(** A graph in order is lowered to a workflow contract that is in order, with
    the graph's nodes as steps; no other graph is. *)
Theorem lowering_exact g :
  ∃ r, to_workflow_contract g = Some r ∧ (is_ok r = true ↔ graph_wf g) ∧
    ∀ w, r = Ok w → validate_workflow w = Ok tt ∧
      workflow_steps (ct_fields w) = gn_id <$> ig_nodes g ∧
      workflow_edges (ct_fields w) = graph_edges g.
Proof.
  unfold to_workflow_contract. destruct (graph_validation_exact g) as (v & -> & Hv).
  cbn [mbind option_bind]. eexists. split; [done|].
  destruct v as [[]|e]; [|split; [naive_solver|done]].
  destruct (proj1 Hv eq_refl) as [Hs Hi Hver _ _ _ _ _ _].
  destruct (validate_workflow _) as [[]|err] eqn:Hw; cbn.
  { split; [naive_solver|]. intros w [= <-]. by split. }
  exfalso. revert Hw. cbn. unfold validate_workflow, validate_contract. cbn.
  rewrite (proj2 (schema_Ok _ _) Hs), !(proj2 (required_Ok _ _ _)) by done. done.
Qed.

(** *** Differences *)

Lemma elem_of_sorted (l : list string) x : x ∈ sort_by String.compare l ↔ x ∈ l.
Proof. by rewrite sort_by_perm. Qed.

Lemma elem_of_edge_difference a b e : e ∈ edge_difference a b ↔ e ∈ a ∧ e ∉ b.
Proof.
  unfold edge_difference. rewrite sort_by_perm, list_elem_of_filter, elem_of_remove_dups. naive_solver.
Qed.

Lemma is_Some_node_table ns id : is_Some (node_table ns !! id) ↔ id ∈ gn_id <$> ns.
Proof. rewrite <-elem_of_dom, node_table_dom. by rewrite elem_of_list_to_set. Qed.

(** The difference of two graphs names exactly the nodes and edges that only one
    of them has and, when their nodes have distinct names, the nodes both have
    in different forms. *)
Theorem graph_diff_exact g h :
  let d := graph_diff g h in
  (∀ id, id ∈ gd_added_nodes d ↔ id ∈ gn_id <$> ig_nodes h ∧ id ∉ gn_id <$> ig_nodes g) ∧
  (∀ id, id ∈ gd_removed_nodes d ↔ id ∈ gn_id <$> ig_nodes g ∧ id ∉ gn_id <$> ig_nodes h) ∧
  (∀ e, e ∈ gd_added_edges d ↔ e ∈ ig_edges h ∧ e ∉ ig_edges g) ∧
  (∀ e, e ∈ gd_removed_edges d ↔ e ∈ ig_edges g ∧ e ∉ ig_edges h) ∧
  (NoDup (gn_id <$> ig_nodes g) → NoDup (gn_id <$> ig_nodes h) →
   ∀ id, id ∈ gd_changed_nodes d ↔ ∃ m n, m ∈ ig_nodes g ∧ n ∈ ig_nodes h ∧
     gn_id m = id ∧ gn_id n = id ∧ node_eqb n m = false).
Proof.
  simpl. split_and!; intros.
  - rewrite elem_of_sorted, list_elem_of_filter, elem_of_keys, is_Some_node_table, node_table_None.
    naive_solver.
  - rewrite elem_of_sorted, list_elem_of_filter, elem_of_keys, is_Some_node_table, node_table_None.
    naive_solver.
  - apply elem_of_edge_difference.
  - apply elem_of_edge_difference.
  - rewrite elem_of_sorted, list_elem_of_filter, elem_of_keys.
    split.
    + intros [Hc [m Hm]]. rewrite Hm in Hc. destruct (node_table (ig_nodes h) !! id) as [n|] eqn:Hn;
        [|done]. apply negb_true_iff in Hc. exists m, n.
      apply node_table_Some in Hm as [? ?]; [|done]. apply node_table_Some in Hn as [? ?]; [|done].
      done.
    + intros (m & n & Hm & Hn & <- & Hid & Hc).
      assert (node_table (ig_nodes g) !! gn_id m = Some m) as -> by (by apply node_table_Some).
      assert (node_table (ig_nodes h) !! gn_id m = Some n) as -> by (by apply node_table_Some).
      rewrite Hc. split; [done|by eexists].
Qed.

(** [map_diff] lists the keys at which the maps differ, with both values. *)
Lemma map_diff_lookup {A} (eqb : A → A → bool) left right k :
  map_diff eqb left right !! k =
  if opt_eqb eqb (left !! k) (right !! k) then None else Some (left !! k, right !! k).
Proof.
  unfold map_diff. set (ks := remove_dups _).
  assert (k ∈ ks ↔ is_Some (left !! k) ∨ is_Some (right !! k)) as Hk.
  { unfold ks. by rewrite elem_of_remove_dups, elem_of_app, !elem_of_keys. }
  assert (∀ m : gmap string (option A * option A), foldl (λ m k, if opt_eqb eqb (left !! k) (right !! k) then m
                else <[k := (left !! k, right !! k)]> m) m ks !! k =
    if decide (k ∈ ks ∧ opt_eqb eqb (left !! k) (right !! k) = false)
    then Some (left !! k, right !! k) else m !! k) as Hf.
  { clear Hk. induction ks as [|x ks IH]; intros m; cbn [foldl].
    { rewrite decide_False by (by intros [?%not_elem_of_nil _]). done. }
    rewrite IH. destruct (decide (k = x)) as [<-|Hne].
    - destruct (opt_eqb eqb (left !! k) (right !! k)).
      + by rewrite !decide_False by naive_solver.
      + rewrite lookup_insert_eq, (decide_True (P := k ∈ k :: ks ∧ false = false))
          by (split; [by left|done]).
        by destruct (decide _).
    - assert (k ∈ x :: ks ↔ k ∈ ks) as Hx by (rewrite elem_of_cons; naive_solver).
      destruct (decide (k ∈ ks ∧ _)) as [Hd|Hd]; [by rewrite decide_True by (by rewrite Hx)|].
      rewrite decide_False by (by rewrite Hx).
      destruct (opt_eqb eqb (left !! x) _); [done|]. by rewrite lookup_insert_ne. }
  rewrite Hf, lookup_empty. destruct (opt_eqb eqb _ _) eqn:He; [by rewrite decide_False by naive_solver|].
  rewrite decide_True; [done|]. split; [|done]. apply Hk.
  destruct (left !! k), (right !! k); [left|left|right|done]; by eexists.
Qed.

(** *** Merging *)

Lemma elem_of_dedup l x : x ∈ dedup l ↔ x ∈ l.
Proof.
  induction l as [|a l IH]; [done|]. destruct l as [|b l]; [done|].
  change (dedup (a :: b :: l)) with (if decide (a = b) then dedup (b :: l) else a :: dedup (b :: l)).
  case_decide as Hd.
  - rewrite IH, !elem_of_cons. naive_solver.
  - by rewrite elem_of_cons, IH, (elem_of_cons (b :: l)).
Qed.

Lemma sorted_reasons_nil l : dedup (sort_by String.compare l) = [] ↔ l = [].
Proof.
  split; [|by intros ->]. intros Hd. destruct l as [|x l]; [done|exfalso].
  assert (x ∈ dedup (sort_by String.compare (x :: l))) as Hx
    by (apply elem_of_dedup, elem_of_sorted; by left).
  rewrite Hd in Hx. by apply not_elem_of_nil in Hx.
Qed.

Lemma reason_if_nil b text : reason_if b text = [] ↔ b = false.
Proof. by destruct b. Qed.

(** A source that may be merged with the first one: same kind, architecture and
    tokenizer, same tensor shapes unless only adapters are merged, and a licence
    that explicitly permits derivative works and, to publish, redistribution. *)
Record mergeable (r : MergeRequest) (baseline source : ModelProfile) : Prop := {
  mb_same_kind : ms_kind (mp_model source) = ms_kind (mp_model baseline);
  mb_same_architecture : ar_architecture_id (mp_architecture source) =
    ar_architecture_id (mp_architecture baseline);
  mb_same_tokenizer : ar_tokenizer_digest (mp_architecture source) =
    ar_tokenizer_digest (mp_architecture baseline);
  mb_same_shapes : mr_strategy r = MS_AdapterMerge ∨
    ar_tensor_shapes_digest (mp_architecture source) =
    ar_tensor_shapes_digest (mp_architecture baseline);
  mb_derivatives : lg_derivative_works (mp_license source) = Some true;
  mb_publishable : mr_publish r = true → lg_redistribution (mp_license source) = Some true
}.

Lemma merge_reasons_nil r baseline source :
  merge_reasons r baseline source = [] ↔ mergeable r baseline source.
Proof.
  unfold merge_reasons. rewrite !app_nil, !reason_if_nil, !andb_false_iff, !negb_false_iff,
    !bool_decide_eq_true. split.
  - intros (? & ? & ? & ? & ? & Hp). split; try done. intros Hpub. destruct Hp; [congruence|done].
  - intros [? ? ? ? ? Hp]. split_and!; try done. destruct (mr_publish r); [right; by apply Hp|by left].
Qed.

(** A merge is assessed as compatible exactly if the request is in order, it
    has at least two sources, every source is a valid profile, and every source
    may be merged with the first: unknown licence terms are refusals. *)
Theorem merge_compatible_exact r :
  (∃ a, assess_merge r = Ok a ∧ mas_compatible a = true) ↔
  mr_schema_version r = 1 ∧ blank (mr_output_id r) = false ∧
  (2 ≤ length (mr_sources r))%nat ∧
  Forall (λ s, validate_profile s = Ok tt) (mr_sources r) ∧
  ∃ baseline, head (mr_sources r) = Some baseline ∧
    Forall (mergeable r baseline) (mr_sources r).
Proof.
  unfold assess_merge. destruct (mr_sources r) as [|baseline [|second rest]] eqn:Hs.
  1,2: split; [intros (a & Ha & _)|cbn; naive_solver lia];
    rewrite !check_then_Ok in Ha; by destruct Ha as (_ & _ & ?).
  cbn [length head]. set (sources := baseline :: second :: rest).
  assert (dedup (sort_by String.compare (sources ≫= merge_reasons r baseline)) = [] ↔
    Forall (mergeable r baseline) sources) as Hc.
  { rewrite sorted_reasons_nil. clear Hs.
    induction sources as [|s l IH]; [by split; [constructor|]|].
    by rewrite bind_cons, app_nil, Forall_cons, IH, merge_reasons_nil. }
  split.
  - intros (a & Ha & Hcomp). rewrite !check_then_Ok, check_each_Ok in Ha. contract_facts.
    destruct Ha as (H1 & H2 & Hv & Ha). injection Ha as <-. apply bool_decide_eq_true, Hc in Hcomp.
    split_and!; [done|done|lia|done|].
    by exists baseline.
  - intros (H1 & H2 & _ & Hv & b & [= <-] & Hm). apply Hc in Hm. eexists.
    rewrite !check_then_Ok, check_each_Ok. contract_facts.
    split; [by split_and!|by apply bool_decide_eq_true].
Qed.
