(* ===== verification/Analysis.v ===== *)
(** * Analysing a project

    [crates/nous-intelligence/src/project.rs], [analyze_project]: the bounded
    walk over a source tree that proposes how to import it. The file system is a
    tree as found when the walk starts; a directory or an entry that cannot be
    read carries the error. *)

From S2P Require Import Prelude Errors Intelligence.
Local Open Scope Z_scope.

(** ** Files *)

Inductive FsNode : Type :=
| FsSymlink
| FsDir (failure : option string) (entries : list (string * FsNode))
| FsFile (size : Z) (content : option string)
| FsOther
| FsBroken (error : string).

(** A directory on the stack: its path below the root, its contents, its depth. *)
Record Pending : Type := mkPending {
  pn_path : list string;
  pn_failure : option string;
  pn_entries : list (string * FsNode);
  pn_depth : nat
}.

Definition MAX_FILES : Z := 20000.
Definition MAX_DEPTH : nat := 24.
Definition MAX_MANIFEST_BYTES : Z := 1048576.
Definition SKIPPED : list string :=
  [".git"; ".nous"; ".venv"; "node_modules"; "target"; "dist"; "build"; "__pycache__";
   ".pytest_cache"].

(** [display_relative]: the path below the root, with forward slashes. *)
Fixpoint forward_slashes (s : string) : string :=
  match s with
  | EmptyString => EmptyString
  | String c s' => String (if decide (c = "\"%char) then "/"%char else c) (forward_slashes s')
  end.
Definition display_relative (path : list string) : string := forward_slashes (join "/" path).

(** [Path::extension]: what follows the last dot, unless nothing precedes it. *)
Fixpoint after_last_dot (s : string) : option string :=
  match s with
  | EmptyString => None
  | String c s' =>
      match after_last_dot s' with
      | Some e => Some e
      | None => if decide (c = "."%char) then Some s' else None
      end
  end.
Definition extension_of (name : string) : option string :=
  match name with EmptyString => None | String _ s => after_last_dot s end.

(** ** The analysis *)

Record MigrationProposal : Type := mkProposal {
  pr_adapter_first : bool;
  pr_provider_manifest : bool;
  pr_model_spec : bool;
  pr_pack_manifest : bool;
  pr_workflow_template : bool;
  pr_user_review_required : bool;
  pr_recommendations : list string
}.
Record ProjectAnalysis : Type := mkAnalysis {
  an_root : string;
  an_files_scanned : Z;
  an_languages : gset string;
  an_dependency_manifests : list string;
  an_entrypoints : list string;
  an_model_assets : list string;
  an_container_files : list string;
  an_test_files : list string;
  an_license_files : list string;
  an_frameworks : gset string;
  an_proposal : MigrationProposal;
  an_warnings : list string
}.
Definition analysis_new (root : string) : ProjectAnalysis :=
  mkAnalysis root 0 ∅ [] [] [] [] [] [] ∅ (mkProposal true false false true false true []) [].
Definition count_file (a : ProjectAnalysis) : ProjectAnalysis :=
  mkAnalysis (an_root a) (an_files_scanned a + 1) (an_languages a) (an_dependency_manifests a)
    (an_entrypoints a) (an_model_assets a) (an_container_files a) (an_test_files a)
    (an_license_files a) (an_frameworks a) (an_proposal a) (an_warnings a).
Definition warn (text : string) (a : ProjectAnalysis) : ProjectAnalysis :=
  mkAnalysis (an_root a) (an_files_scanned a) (an_languages a) (an_dependency_manifests a)
    (an_entrypoints a) (an_model_assets a) (an_container_files a) (an_test_files a)
    (an_license_files a) (an_frameworks a) (an_proposal a) (an_warnings a ++ [text]).

Definition language_of (extension : string) : option string :=
  if decide (extension = "py") then Some "Python"
  else if decide (extension = "rs") then Some "Rust"
  else if decide (extension ∈ ["c"; "h"]) then Some "C"
  else if decide (extension ∈ ["cc"; "cpp"; "cxx"; "hpp"]) then Some "C++"
  else if decide (extension ∈ ["js"; "jsx"]) then Some "JavaScript"
  else if decide (extension ∈ ["ts"; "tsx"]) then Some "TypeScript"
  else if decide (extension = "go") then Some "Go"
  else if decide (extension = "java") then Some "Java"
  else None.
Definition dependency_manifests : list string :=
  ["pyproject.toml"; "requirements.txt"; "setup.py"; "cargo.toml"; "package.json";
   "package-lock.json"; "poetry.lock"; "uv.lock"; "cmakelists.txt"; "go.mod"].
Definition framework_needles : list (string * string) :=
  [("torch", "PyTorch"); ("transformers", "Transformers"); ("tensorflow", "TensorFlow");
   ("onnxruntime", "ONNX Runtime"); ("numpy", "NumPy"); ("scipy", "SciPy"); ("fastapi", "FastAPI");
   ("flask", "Flask"); ("tokio", "Tokio"); ("serde", "Serde")].
Definition frameworks_in (content : string) : gset string :=
  list_to_set (snd <$> filter (λ p, contains p.1 content = true) framework_needles).
Definition entrypoint_names : list string :=
  ["main.py"; "app.py"; "cli.py"; "main.rs"; "lib.rs"; "index.js"; "index.ts"].
Definition model_extensions : list string := ["onnx"; "safetensors"; "gguf"; "pt"; "pth"; "ckpt"].

(** [classify_file] for the file at [path] below a root at [base]; the test for
    a component named tests looks at the whole path. *)
Definition classify_file (base path : list string) (size : Z) (content : option string)
    (a : ProjectAnalysis) : ProjectAnalysis :=
  let relative := display_relative path in
  let name := to_ascii_lowercase (default "" (last path)) in
  let extension := to_ascii_lowercase (default "" (last path ≫= extension_of)) in
  let manifest := bool_decide (name ∈ dependency_manifests) in
  mkAnalysis (an_root a) (an_files_scanned a)
    (match language_of extension with Some l => {[l]} ∪ an_languages a | None => an_languages a end)
    (an_dependency_manifests a ++ reason_if manifest relative)
    (an_entrypoints a ++ reason_if (bool_decide (name ∈ entrypoint_names)) relative)
    (an_model_assets a ++ reason_if (bool_decide (extension ∈ model_extensions)) relative)
    (an_container_files a ++
       reason_if (bool_decide (name = "dockerfile") || starts_with "docker-compose" name) relative)
    (an_test_files a ++
       reason_if (starts_with "test_" name || ends_with "_test.rs" name
                  || bool_decide ("tests" ∈ base ++ path)) relative)
    (an_license_files a ++
       reason_if (bool_decide (name = "license") || starts_with "license." name
                  || starts_with "copying" name) relative)
    (if manifest && (size <=? MAX_MANIFEST_BYTES)
     then frameworks_in (to_ascii_lowercase (default "" content)) ∪ an_frameworks a
     else an_frameworks a)
    (an_proposal a) (an_warnings a).

(** The loop over the entries of a directory: the stack it leaves and the
    analysis; at the file limit the stack is cleared. *)
Fixpoint scan_entries (base dir : list string) (depth : nat) (es : list (string * FsNode))
    (pending : list Pending) (a : ProjectAnalysis) : result string (list Pending * ProjectAnalysis) :=
  match es with
  | [] => Ok (pending, a)
  | (name, node) :: es' =>
      if MAX_FILES <=? an_files_scanned a then Ok ([], warn ("file limit reached (" +:+ show_u MAX_FILES +:+ ")") a)
      else
        let path := dir ++ [name] in
        match node with
        | FsBroken error => Err error
        | FsSymlink =>
            scan_entries base dir depth es' pending
              (warn ("symlink not followed: " +:+ display_relative path) a)
        | FsDir failure entries =>
            scan_entries base dir depth es'
              (if decide (name ∈ SKIPPED) then pending
               else mkPending path failure entries (S depth) :: pending) a
        | FsOther => scan_entries base dir depth es' pending a
        | FsFile size content =>
            scan_entries base dir depth es' pending
              (classify_file base path size content (count_file a))
        end
  end.

(** [while let Some((directory, depth)) = pending.pop()]; [None] when the fuel
    runs out. *)
Fixpoint scan (fuel : nat) (base : list string) (pending : list Pending) (a : ProjectAnalysis) :
    option (result string ProjectAnalysis) :=
  match pending with
  | [] => Some (Ok a)
  | p :: rest =>
      match fuel with
      | O => None
      | S f =>
          if decide (MAX_DEPTH < pn_depth p)%nat then
            scan f base rest (warn ("depth limit reached at " +:+ display_relative (pn_path p)) a)
          else match pn_failure p with
          | Some error => Some (Err error)
          | None =>
              match scan_entries base (pn_path p) (pn_depth p) (pn_entries p) rest a with
              | Err error => Some (Err error)
              | Ok (pending', a') => scan f base pending' a'
              end
          end
      end
  end.

(** How many directories a tree has. *)
Fixpoint fs_dirs (n : FsNode) : nat :=
  match n with
  | FsDir _ es => S ((fix sum es := match es with [] => O | (_, m) :: es' => (fs_dirs m + sum es')%nat end) es)
  | _ => O
  end.

Definition sorted_unique (l : list string) : list string := dedup (sort_by String.compare l).

(** The end of [analyze_project]. *)
Definition conclude (a : ProjectAnalysis) : ProjectAnalysis :=
  let entrypoints := sorted_unique (an_entrypoints a) in
  let model_assets := sorted_unique (an_model_assets a) in
  let license_files := sorted_unique (an_license_files a) in
  let provider := negb (bool_decide (entrypoints = [])) in
  let model := negb (bool_decide (model_assets = [])) in
  mkAnalysis (an_root a) (an_files_scanned a) (an_languages a)
    (sorted_unique (an_dependency_manifests a)) entrypoints model_assets
    (sorted_unique (an_container_files a)) (sorted_unique (an_test_files a)) license_files
    (an_frameworks a)
    (mkProposal true provider model true
       (bool_decide (1 < length entrypoints)%nat || provider && model) true
       (sort_by String.compare
          (reason_if provider "wrap an existing entrypoint with a ProviderManifest adapter" ++
           reason_if model "inspect model licenses and generate ModelSpec references without copying weights")))
    (sort_by String.compare
       (sorted_unique (an_warnings a) ++
        reason_if (bool_decide (license_files = []))
          "no top-level license file was detected; manual license review is required")).

Definition analyze_project (base : list string) (root : FsNode) :
    option (result string ProjectAnalysis) :=
  match root with
  | FsDir failure entries =>
      r ← scan (fs_dirs root) base [mkPending [] failure entries 0] (analysis_new ("/" +:+ join "/" base));
      Some (match r with Ok a => Ok (conclude a) | Err e => Err e end)
  | FsBroken error => Some (Err error)
  | _ => Some (Err "project root must be a directory")
  end.

(** ** The walk ends, within its bounds and inside the tree *)

Section Walk.
Context (base : list string) (root : FsNode).

(** The nodes the walk may look at: below directories that are not skipped and
    not too deep, never through a link. *)
Inductive visit : list string → nat → FsNode → Prop :=
| visit_root : visit [] 0 root
| visit_child p d failure es name n :
    visit p d (FsDir failure es) → (d ≤ MAX_DEPTH)%nat → (name, n) ∈ es →
    (∀ f es', n = FsDir f es' → name ∉ SKIPPED) →
    visit (p ++ [name]) (S d) n.

(** A path of a regular file among them. *)
Definition listed (s : string) : Prop :=
  ∃ p d size content, visit p d (FsFile size content) ∧ s = display_relative p.
Definition reported (a : ProjectAnalysis) : list string :=
  an_dependency_manifests a ++ an_entrypoints a ++ an_model_assets a ++ an_container_files a ++
  an_test_files a ++ an_license_files a.

Record walk_inv (pending : list Pending) (a : ProjectAnalysis) : Prop := {
  wi_files : 0 ≤ an_files_scanned a ≤ MAX_FILES;
  wi_listed : ∀ s, s ∈ reported a → listed s;
  wi_pending : Forall (λ p, visit (pn_path p) (pn_depth p) (FsDir (pn_failure p) (pn_entries p))) pending
}.

Definition entries_dirs (es : list (string * FsNode)) : nat := sum_list (fs_dirs ∘ snd <$> es).
Lemma fs_dirs_dir failure es : fs_dirs (FsDir failure es) = S (entries_dirs es).
Proof.
  simpl. f_equal. unfold entries_dirs. induction es as [|[name n] es IH]; [done|]. simpl. by rewrite IH.
Qed.
Definition pending_dirs (l : list Pending) : nat :=
  sum_list ((λ p, S (entries_dirs (pn_entries p))) <$> l).

Lemma pending_dirs_cons p l :
  pending_dirs (p :: l) = (S (entries_dirs (pn_entries p)) + pending_dirs l)%nat.
Proof. done. Qed.

Lemma elem_of_reason_if b (text s : string) : s ∈ reason_if b text → s = text.
Proof. destruct b; simpl; [by intros ->%list_elem_of_singleton|by intros ?%not_elem_of_nil]. Qed.

Lemma classify_reported path size content a s :
  s ∈ reported (classify_file base path size content a) → s ∈ reported a ∨ s = display_relative path.
Proof.
  unfold reported. cbn [classify_file an_dependency_manifests an_entrypoints an_model_assets
    an_container_files an_test_files an_license_files].
  intros Hs. repeat match goal with Hs : _ ∈ _ ++ _ |- _ => apply elem_of_app in Hs as [Hs|Hs] end;
    first [right; by eapply elem_of_reason_if | left; rewrite !elem_of_app; tauto].
Qed.

Lemma scan_entries_inv dir depth failure all es pending a pending' a' :
  visit dir depth (FsDir failure all) → (depth ≤ MAX_DEPTH)%nat → es ⊆ all → walk_inv pending a →
  scan_entries base dir depth es pending a = Ok (pending', a') →
  walk_inv pending' a' ∧ (pending_dirs pending' ≤ entries_dirs es + pending_dirs pending)%nat.
Proof.
  intros Hdir Hdepth. revert pending a. induction es as [|[name n] es IH]; intros pending a Hsub Hi.
  { simpl. intros [= <- <-]. split; [done|]. unfold entries_dirs. simpl. lia. }
  assert (es ⊆ all) as Hsub' by set_solver. assert ((name, n) ∈ all) as Hin by set_solver.
  assert (entries_dirs ((name, n) :: es) = fs_dirs n + entries_dirs es)%nat as Hd by done.
  cbn [scan_entries]. destruct (MAX_FILES <=? an_files_scanned a) eqn:Hmax.
  { intros [= <- <-]. destruct Hi. split; [by split; [..|constructor]|]. unfold pending_dirs. simpl. lia. }
  apply Z.leb_gt in Hmax. destruct n as [|f es'|size content| |error].
  - intros Hs. apply IH in Hs; [by rewrite Hd|done|by destruct Hi].
  - rewrite Hd, fs_dirs_dir. case_decide as Hskip; intros Hs.
    + apply IH in Hs as [? Hle]; [|done|done]. split; [done|lia].
    + apply IH in Hs as [? Hle]; [|done|].
      { split; [done|]. rewrite pending_dirs_cons in Hle. simpl in Hle. lia. }
      destruct Hi. split; [done|done|]. constructor; [|done]. simpl.
      eapply visit_child; [done|lia|done|]. by intros ? ? [= <- <-].
  - intros Hs. apply IH in Hs; [by rewrite Hd|done|]. destruct Hi as [Hf Hl Hp].
    split; [simpl; lia| |done]. intros s [Hr| ->]%classify_reported; [by apply Hl|].
    exists (dir ++ [name]), (S depth), size, content. split; [|done]. eapply visit_child; [done..|].
    by intros.
  - intros Hs. apply IH in Hs; [by rewrite Hd|done|done].
  - done.
Qed.

Lemma scan_inv fuel pending a :
  walk_inv pending a → (pending_dirs pending ≤ fuel)%nat →
  ∃ r, scan fuel base pending a = Some r ∧ ∀ a', r = Ok a' → walk_inv [] a'.
Proof.
  revert pending a. induction fuel as [|f IH]; intros [|p pending] a Hi Hf.
  - eexists. split; [done|]. by intros a' [= <-].
  - unfold pending_dirs in Hf. simpl in Hf. lia.
  - eexists. split; [done|]. by intros a' [= <-].
  - cbn [scan]. rewrite pending_dirs_cons in Hf. destruct Hi as [Hfiles Hl [Hv Hrest]%Forall_cons]. case_decide as Hdepth; [apply IH; [done|lia]|].
    destruct (pn_failure p) as [error|] eqn:Hfail; [by eexists|].
    destruct (scan_entries _ _ _ _ _ _) as [[pending' a']|error] eqn:Hs; [|by eexists].
    eapply scan_entries_inv in Hs as [Hi' Hle]; [apply IH; [done|lia]|done|lia|done|done].
Qed.
End Walk.

Lemma elem_of_sorted_unique l s : s ∈ sorted_unique l ↔ s ∈ l.
Proof. unfold sorted_unique. by rewrite elem_of_dedup, elem_of_sorted. Qed.

(** The analysis of a project always ends, and when it succeeds it counted at
    most twenty thousand files and every path it reports is that of a regular
    file of the tree, reached without following a link, without entering one of
    the skipped directories and at most twenty-five levels down. *)
Theorem analysis_bounded base root :
  ∃ r, analyze_project base root = Some r ∧
  ∀ a, r = Ok a →
    0 ≤ an_files_scanned a ≤ 20000 ∧
    ∀ s, s ∈ reported a → ∃ p d size content,
      visit root p d (FsFile size content) ∧ s = display_relative p ∧ (d ≤ 25)%nat.
Proof.
  unfold analyze_project. destruct root as [|failure es|size content| |error];
    [by eexists| |by eexists..].
  destruct (scan_inv base (FsDir failure es) (fs_dirs (FsDir failure es)) [mkPending [] failure es 0]
    (analysis_new ("/" +:+ join "/" base))) as (r & -> & Hr).
  { split; [by vm_compute|by intros s ?%not_elem_of_nil|]. constructor; [apply visit_root|constructor]. }
  { rewrite fs_dirs_dir. unfold pending_dirs. simpl. lia. }
  cbn [mbind option_bind]. eexists. split; [done|]. destruct r as [a0|e]; [|done].
  intros a [= <-]. destruct (Hr a0 eq_refl) as [Hf Hl _]. split; [exact Hf|].
  intros s Hs. assert (s ∈ reported a0) as Hs0.
  { unfold reported in *. cbn in Hs. rewrite !elem_of_app, !elem_of_sorted_unique in Hs.
    by rewrite !elem_of_app. }
  destruct (Hl s Hs0) as (p & d & size & content & Hv & ->). exists p, d, size, content.
  split_and!; [done|done|]. inversion Hv; subst. unfold MAX_DEPTH in *. lia.
Qed.

(** ** Examples *)

Definition ex_file (content : string) : FsNode := FsFile 10 (Some content).
Definition ex_tree : FsNode :=
  FsDir None [("Cargo.toml", ex_file "[dependencies] tokio"); ("LICENSE", ex_file "");
    ("src", FsDir None [("main.rs", ex_file ""); ("loop", FsSymlink)]);
    ("models", FsDir None [("net.ONNX", FsFile 9999999 None)]);
    ("target", FsDir None [("lib.rs", ex_file "")])].
Definition ex_analysis (base : list string) (t : FsNode) : ProjectAnalysis :=
  match analyze_project base t with Some (Ok a) => a | _ => analysis_new "" end.

Example ex_analyzed :
  let a := ex_analysis ["home"; "p"] ex_tree in
  an_files_scanned a = 4 ∧ an_entrypoints a = ["src/main.rs"] ∧
  an_model_assets a = ["models/net.ONNX"] ∧ an_frameworks a = {["Tokio"]} ∧
  an_warnings a = ["symlink not followed: src/loop"] ∧
  pr_workflow_template (an_proposal a) = true ∧ an_test_files a = [].
Proof. by vm_compute. Qed.

(** The component named tests is looked for in the absolute path: below such a
    directory every file of a project counts as a test. *)
Example project_below_tests :
  length (an_test_files (ex_analysis ["home"; "tests"; "p"] ex_tree)) = 4%nat.
Proof. by vm_compute. Qed.

(** A licence anywhere in the tree silences the warning about a missing
    top-level one. *)
Example nested_license_silences_warning :
  an_warnings (ex_analysis [] (FsDir None [("third_party", FsDir None [("LICENSE", ex_file "")])])) = [] ∧
  an_warnings (ex_analysis [] (FsDir None [])) =
    ["no top-level license file was detected; manual license review is required"].
Proof. by vm_compute. Qed.
