(* ===== verification/ControlPlane.v ===== *)
(** * Control plane

    [crates/nous-control-plane/src/lib.rs] with [nous-types/src/control_api.rs]:
    the catalog of developer assets. A catalog is a SQLite table behind a lock,
    keyed by kind and name; writes compare the expected generation inside one
    transaction, a deletion reads first and compares again in the statement that
    deletes. Decoding of manifests and the JSON codec are parameters. *)

From S2P Require Import Prelude Errors Journal Provider Contracts Graph Intelligence.
Local Open Scope Z_scope.

(** ** Requests and assets (control_api.rs) *)

Definition CONTROL_API_SCHEMA_VERSION : Z := 1.

Inductive AssetKind : Type :=
| AK_Project | AK_Model | AK_Graph | AK_Dataset | AK_Experiment | AK_Artifact.
#[global] Instance AssetKind_eq_dec : EqDecision AssetKind.
Proof. solve_decision. Defined.

Definition asset_kind_str (k : AssetKind) : string :=
  match k with
  | AK_Project => "project" | AK_Model => "model" | AK_Graph => "graph"
  | AK_Dataset => "dataset" | AK_Experiment => "experiment" | AK_Artifact => "artifact"
  end.
(** The derived [Deserialize] of a kind from its name. *)
Definition asset_kind_parse (s : string) : option AssetKind :=
  snd <$> (snd <$> list_find (λ p, p.1 = s)
    ((λ k, (asset_kind_str k, k)) <$>
       [AK_Project; AK_Model; AK_Graph; AK_Dataset; AK_Experiment; AK_Artifact])).

Record PutAssetRequest : Type := mkPut {
  pa_schema_version : Z;
  pa_kind : AssetKind;
  pa_document : Value;
  pa_expected_generation : option Z
}.
Record AssetSelector : Type := mkSelector {
  as_schema_version : Z;
  as_kind : AssetKind;
  as_id : string
}.
Record ListAssetsRequest : Type := mkList { la_schema_version : Z; la_kind : AssetKind }.
Record ControlAsset : Type := mkAsset {
  ca_schema_version : Z;
  ca_kind : AssetKind;
  ca_id : string;
  ca_version : string;
  ca_generation : Z;
  ca_sha256 : string;
  ca_document : Value;
  ca_created_at_us : Z;
  ca_updated_at_us : Z
}.

(** ** The catalog *)

Inductive ControlPlaneError : Type :=
| CInvalid (m : string) | CNotFound (kind id : string) | CConflict (m : string)
| CStorage (m : string).
Definition control_error_text (e : ControlPlaneError) : string :=
  match e with
  | CInvalid m => "invalid control request: " +:+ m
  | CNotFound kind id => "control asset not found: " +:+ kind +:+ "/" +:+ id
  | CConflict m => "control asset conflict: " +:+ m
  | CStorage m => "control-plane storage failure: " +:+ m
  end.

(** A row of [control_assets] apart from its primary key. *)
Record AssetRow : Type := mkAssetRow {
  cr_version : string;
  cr_generation : Z;
  cr_sha256 : string;
  cr_document : bytes;
  cr_created_at_us : Z;
  cr_updated_at_us : Z
}.
Abbreviation AssetTable := (gmap (string * string) AssetRow).
Definition Catalog : Type := Mutex AssetTable.
Definition catalog_new : Catalog := mutex_new ∅.
(** [ControlPlaneStore::open] on the file a process left: the table is there, or is
    created empty. *)
Definition catalog_open (failure : option string) (s : Catalog) : result ControlPlaneError Catalog :=
  match failure with
  | Some text => Err (CStorage text)
  | None => Ok (mutex_new (inner s))
  end.

(** What the environment does during one call: the clock, and the failures the
    engine reports when a transaction starts, for a query, for a statement that
    writes and when the transaction is committed. *)
Record CatalogIo : Type := mkCatalogIo {
  co_now : Z;
  co_begin : option string;
  co_query : option string;
  co_write : option string;
  co_commit : option string
}.
Definition catalog_calm (now : Z) : CatalogIo := mkCatalogIo now None None None None.

(** [serde_json::from_value] at a manifest type. *)
Class FromValue (T : Type) : Type := {
  from_value : Value → option T;
  from_value_text : Value → string
}.

Section Catalog.
Context `{JournalEnv} `{Serde Value} `{FromValue ProjectManifest} `{FromValue ModelProfile}
  `{FromValue ModelSpec} `{FromValue IntelligenceGraph} `{FromValue DatasetManifest}
  `{FromValue ExperimentManifest} `{FromValue (Contract ArtifactFields)}.

Definition storage (e : SqlError) : ControlPlaneError := CStorage (sql_text e).
Definition storage_failure (o : option string) : result ControlPlaneError unit :=
  match o with Some text => Err (storage (SqlFailure text)) | None => Ok tt end.

Definition cp_required (field value : string) : result ControlPlaneError unit :=
  if blank value then Err (CInvalid (field +:+ " must not be empty")) else Ok tt.
Definition check_schema (version : Z) : result ControlPlaneError unit :=
  if decide (version = CONTROL_API_SCHEMA_VERSION) then Ok tt
  else Err (CInvalid ("expected schema version " +:+ show_u CONTROL_API_SCHEMA_VERSION +:+
                      ", found " +:+ show_u version)).

(** [key.to_ascii_lowercase().replace('-', "_")]. *)
Fixpoint underscored (s : string) : string :=
  match s with
  | EmptyString => EmptyString
  | String c s' => String (if decide (c = "-"%char) then "_"%char else c) (underscored s')
  end.
Definition secret_field (key : string) : bool :=
  bool_decide (underscored (to_ascii_lowercase key) ∈
    ["api_key"; "token"; "secret"; "password"; "access_token"; "session_token"]).
(** A value that may stand under such a key. *)
Definition harmless (v : Value) : bool :=
  value_is_null v || bool_decide (value_as_str v = Some "").

Fixpoint reject_embedded_secrets (v : Value) : result ControlPlaneError unit :=
  match v with
  | VObject l =>
      (fix go l := match l with
       | [] => Ok tt
       | (key, w) :: l' =>
           _ ← (if secret_field key && negb (harmless w)
                then Err (CInvalid ("embedded secret field '" +:+ key +:+
                            "' is forbidden; use an environment reference"))
                else Ok tt);
           _ ← reject_embedded_secrets w;
           go l'
       end) l
  | VArray l =>
      (fix go l := match l with
       | [] => Ok tt
       | w :: l' => _ ← reject_embedded_secrets w; go l'
       end) l
  | _ => Ok tt
  end.

Definition decode_document {T} `{FromValue T} (document : Value) : result ControlPlaneError T :=
  ok_or (from_value document) (CInvalid (@from_value_text T _ document)).
Definition invalid_contract (v : Verdict) : result ControlPlaneError unit :=
  map_err (λ e, CInvalid (intelligence_error_text e)) v.
Definition invalid_spec (v : ContractResult) : result ControlPlaneError unit :=
  map_err (λ e, CInvalid (contract_error_text e)) v.

(** [validate_document]: the name and version of a valid document of a kind. A
    graph's validation always gives a verdict ([graph_validation_exact]). *)
Definition validate_document (kind : AssetKind) (document : Value) :
    result ControlPlaneError (string * string) :=
  match kind with
  | AK_Project =>
      value ← decode_document document;
      _ ← invalid_contract (validate_project value); Ok (pj_id value, pj_version value)
  | AK_Model =>
      match from_value document with
      | Some profile =>
          _ ← invalid_contract (validate_profile profile);
          Ok (ms_id (mp_model profile), ms_version (mp_model profile))
      | None =>
          value ← decode_document document;
          _ ← invalid_spec (validate_model value); Ok (ms_id value, ms_version value)
      end
  | AK_Graph =>
      value ← decode_document document;
      _ ← invalid_contract (default (Ok tt) (validate_graph value)); Ok (ig_id value, ig_version value)
  | AK_Dataset =>
      value ← decode_document document;
      _ ← invalid_contract (validate_dataset value); Ok (dm_id value, dm_version value)
  | AK_Experiment =>
      value ← decode_document document;
      _ ← invalid_contract (validate_experiment value); Ok (em_id value, em_version value)
  | AK_Artifact =>
      value ← decode_document document;
      _ ← invalid_spec (validate_artifact value); Ok (ct_id value, ct_version value)
  end.

(** [row_to_asset] and [select_asset]. *)
Definition row_to_asset (key : string * string) (r : AssetRow) : result SqlError ControlAsset :=
  kind ← ok_or (asset_kind_parse key.1) (SqlConversion "kind");
  generation ← get_u64 "generation" (cr_generation r);
  document ← ok_or (from_slice (cr_document r)) (SqlConversion "document");
  Ok (mkAsset CONTROL_API_SCHEMA_VERSION kind key.2 (cr_version r) generation (cr_sha256 r) document
        (cr_created_at_us r) (cr_updated_at_us r)).
Definition select_asset (io : CatalogIo) (table : AssetTable) (kind : AssetKind) (id : string) :
    result ControlPlaneError (option ControlAsset) :=
  _ ← storage_failure (co_query io);
  match table !! (asset_kind_str kind, id) with
  | None => Ok None
  | Some r => asset ← map_err storage (row_to_asset (asset_kind_str kind, id) r); Ok (Some asset)
  end.

Definition catalog_lock (s : Catalog) : result ControlPlaneError AssetTable :=
  ok_or (lock s) (CStorage "catalog lock is poisoned").

(** The checks of [put] before the lock is taken: name, version and encoding. *)
Definition put_checks (q : PutAssetRequest) : result ControlPlaneError (string * string * bytes) :=
  _ ← check_schema (pa_schema_version q);
  _ ← reject_embedded_secrets (pa_document q);
  named ← validate_document (pa_kind q) (pa_document q);
  encoded ← ok_or (to_vec (pa_document q)) (CInvalid (to_vec_text (pa_document q)));
  Ok (named.1, named.2, encoded).

(** The transaction of [put]; an error before the commit rolls it back. *)
Definition put_transaction (io : CatalogIo) (q : PutAssetRequest) (id version : string)
    (encoded : bytes) (table : AssetTable) : result ControlPlaneError (ControlAsset * AssetTable) :=
  let sha256 := digest_bytes encoded in
  let key := (asset_kind_str (pa_kind q), id) in
  _ ← storage_failure (co_begin io);
  existing ← select_asset io table (pa_kind q) id;
  written ←
    match existing with
    | Some existing =>
        if decide (ca_sha256 existing = sha256) then Ok (existing, table)
        else if decide (pa_expected_generation q ≠ Some (ca_generation existing))
        then Err (CConflict (id +:+ " generation is " +:+ show_u (ca_generation existing) +:+
                             "; expected_generation is required for update"))
        else
          let generation := sat_add64 (ca_generation existing) 1 in
          _ ← (if bind_u64 generation then Ok tt else Err (storage (SqlConversion "generation")));
          _ ← storage_failure (co_write io);
          Ok (mkAsset CONTROL_API_SCHEMA_VERSION (pa_kind q) id version generation sha256
                (pa_document q) (ca_created_at_us existing) (co_now io),
              <[key := mkAssetRow version generation sha256 encoded (ca_created_at_us existing)
                         (co_now io)]> table)
    | None =>
        if decide (is_Some (pa_expected_generation q))
        then Err (CConflict "expected_generation cannot be set when creating an asset")
        else
          _ ← storage_failure (co_write io);
          Ok (mkAsset CONTROL_API_SCHEMA_VERSION (pa_kind q) id version 1 sha256 (pa_document q)
                (co_now io) (co_now io),
              <[key := mkAssetRow version 1 sha256 encoded (co_now io) (co_now io)]> table)
    end;
  _ ← storage_failure (co_commit io);
  Ok written.

Definition catalog_put (io : CatalogIo) (q : PutAssetRequest) :
    M Catalog ControlPlaneError ControlAsset := λ s,
  match (checked ← put_checks q; table ← catalog_lock s;
         put_transaction io q checked.1.1 checked.1.2 checked.2 table) with
  | Err e => (Err e, s)
  | Ok (asset, table) => (Ok asset, mutex_set table s)
  end.

(** [validate]: name, version and digest. *)
Definition catalog_validate (kind : AssetKind) (document : Value) :
    result ControlPlaneError (string * string * string) :=
  _ ← reject_embedded_secrets document;
  named ← validate_document kind document;
  encoded ← ok_or (to_vec document) (CInvalid (to_vec_text document));
  Ok (named.1, named.2, digest_bytes encoded).

Definition catalog_get (io : CatalogIo) (s : Catalog) (sel : AssetSelector) :
    result ControlPlaneError ControlAsset :=
  _ ← check_schema (as_schema_version sel);
  _ ← cp_required "id" (as_id sel);
  table ← catalog_lock s;
  found ← select_asset io table (as_kind sel) (as_id sel);
  ok_or found (CNotFound (asset_kind_str (as_kind sel)) (as_id sel)).

Fixpoint rows_to_assets (l : list ((string * string) * AssetRow)) : result SqlError (list ControlAsset) :=
  match l with
  | [] => Ok []
  | (key, r) :: l' => a ← row_to_asset key r; rest ← rows_to_assets l'; Ok (a :: rest)
  end.
(** [list]: [WHERE kind=?1 ORDER BY id]. *)
Definition catalog_list (io : CatalogIo) (s : Catalog) (q : ListAssetsRequest) :
    result ControlPlaneError (list ControlAsset) :=
  _ ← check_schema (la_schema_version q);
  table ← catalog_lock s;
  _ ← storage_failure (co_query io);
  map_err storage (rows_to_assets
    (sort_by (λ a b, String.compare a.1.2 b.1.2)
       (filter (λ p, p.1.1 = asset_kind_str (la_kind q)) (map_to_list table)))).

(** [delete]: the row is read, then deleted if it still has that generation. *)
Definition delete_row (io : CatalogIo) (sel : AssetSelector) (expected_generation : Z) :
    M Catalog ControlPlaneError unit := λ s,
  let key := (asset_kind_str (as_kind sel), as_id sel) in
  match (table ← catalog_lock s;
         _ ← (if bind_u64 expected_generation then Ok tt
              else Err (storage (SqlConversion "expected_generation")));
         _ ← storage_failure (co_write io); Ok table) with
  | Err e => (Err e, s)
  | Ok table =>
      if decide (cr_generation <$> table !! key = Some expected_generation)
      then (Ok tt, mutex_set (delete key table) s)
      else (Err (CConflict "asset changed during deletion"), s)
  end.
Definition delete_check (io : CatalogIo) (s : Catalog) (sel : AssetSelector)
    (expected_generation : Z) : result ControlPlaneError unit :=
  asset ← catalog_get io s sel;
  if decide (ca_generation asset = expected_generation) then Ok tt
  else Err (CConflict (ca_id asset +:+ " generation is " +:+ show_u (ca_generation asset) +:+
                       ", not " +:+ show_u expected_generation)).
Definition catalog_delete (io_read io : CatalogIo) (sel : AssetSelector) (expected_generation : Z) :
    M Catalog ControlPlaneError unit := λ s,
  match delete_check io_read s sel expected_generation with
  | Err e => (Err e, s)
  | Ok _ => delete_row io sel expected_generation s
  end.
End Catalog.

(** ** Secrets *)

(** Induction on a JSON value with hypotheses for the members. *)
Lemma Value_nested_ind (P : Value → Prop) :
  P VNull → (∀ b, P (VBool b)) → (∀ n, P (VNumber n)) → (∀ s, P (VString s)) →
  (∀ l, Forall P l → P (VArray l)) → (∀ l, Forall (λ p, P p.2) l → P (VObject l)) → ∀ v, P v.
Proof.
  intros Hn Hb Hnum Hs Ha Ho. fix IH 1. intros [|b|n|s|l|l]; [done..| |].
  - apply Ha. induction l as [|w l IHl]; constructor; [apply IH|exact IHl].
  - apply Ho. induction l as [|[k w] l IHl]; constructor; [apply IH|exact IHl].
Qed.

(** [member v k w]: somewhere inside [v] an object has member [k] with value [w]. *)
Inductive member : Value → string → Value → Prop :=
| member_here l k w : (k, w) ∈ l → member (VObject l) k w
| member_field l k w k' w' : (k, w) ∈ l → member w k' w' → member (VObject l) k' w'
| member_item l w k' w' : w ∈ l → member w k' w' → member (VArray l) k' w'.

Definition secret_free (v : Value) : Prop :=
  ∀ k w, member v k w → secret_field k = true → harmless w = true.

Lemma secret_free_object l :
  secret_free (VObject l) ↔
  Forall (λ p, (secret_field p.1 && negb (harmless p.2)) = false ∧ secret_free p.2) l.
Proof.
  rewrite Forall_forall. split.
  - intros Hf [k w] Hin. split; simpl.
    + destruct (secret_field k) eqn:Hk; [|done].
      by rewrite (Hf k w (member_here _ _ _ Hin) Hk).
    + intros k' w' Hm. by apply Hf, (member_field _ k w).
  - intros Hall k w Hm Hk. inversion Hm as [? ? ? Hin|? k0 w0 ? ? Hin Hm'|]; subst.
    + destruct (Hall _ Hin) as [Hs _]. simpl in Hs. rewrite Hk in Hs. by destruct (harmless w).
    + destruct (Hall _ Hin) as [_ Hs]. by apply (Hs k w).
Qed.

Lemma secret_free_array l : secret_free (VArray l) ↔ Forall secret_free l.
Proof.
  rewrite Forall_forall. split.
  - intros Hf w Hin k' w' Hm. by apply Hf, (member_item _ w).
  - intros Hall k w Hm Hk. inversion Hm as [| |? w0 ? ? Hin Hm']; subst. by apply (Hall w0 Hin k w).
Qed.

(** The secrets check accepts a document exactly if no object at any depth
    has a member whose name, in lower case and with underscores, is one of the
    names of secrets and whose value is neither null nor the empty text. *)
Theorem secrets_check_exact v : reject_embedded_secrets v = Ok tt ↔ secret_free v.
Proof.
  induction v as [|b|n|s|l IH|l IH] using Value_nested_ind.
  1-4: split; [intros _ k w Hm; inversion Hm|done].
  - rewrite secret_free_array. simpl. induction IH as [|w l Hw _ IHl]; [by split; [constructor|]|].
    by rewrite check_bind_Ok, Forall_cons, IHl, Hw.
  - rewrite secret_free_object. simpl. induction IH as [|[k w] l Hw _ IHl]; [by split; [constructor|]|].
    simpl in Hw. rewrite !check_bind_Ok, Forall_cons, IHl, Hw. simpl.
    destruct (secret_field k && negb (harmless w)); naive_solver.
Qed.

(** ** Effects of the operations *)

Lemma asset_kind_parse_str k : asset_kind_parse (asset_kind_str k) = Some k.
Proof. by destruct k. Qed.
#[global] Instance asset_kind_str_inj : Inj (=) (=) asset_kind_str.
Proof. intros [] []; simpl; congruence. Qed.

Section CatalogFacts.
Context `{JournalEnv} `{Serde Value} `{FromValue ProjectManifest} `{FromValue ModelProfile}
  `{FromValue ModelSpec} `{FromValue IntelligenceGraph} `{FromValue DatasetManifest}
  `{FromValue ExperimentManifest} `{FromValue (Contract ArtifactFields)}.

Definition catalog_rows (s : Catalog) : AssetTable := inner s.

(** What a successful [put] of a checked document does to the table. *)
Inductive put_effect (io : CatalogIo) (q : PutAssetRequest) (id version : string) (encoded : bytes)
    (table : AssetTable) : ControlAsset → AssetTable → Prop :=
| pe_same row a :
    table !! (asset_kind_str (pa_kind q), id) = Some row →
    row_to_asset (asset_kind_str (pa_kind q), id) row = Ok a →
    cr_sha256 row = digest_bytes encoded →
    put_effect io q id version encoded table a table
| pe_update row :
    table !! (asset_kind_str (pa_kind q), id) = Some row →
    cr_sha256 row ≠ digest_bytes encoded →
    pa_expected_generation q = Some (cr_generation row) →
    0 ≤ cr_generation row → cr_generation row + 1 ≤ i64_max →
    put_effect io q id version encoded table
      (mkAsset 1 (pa_kind q) id version (cr_generation row + 1) (digest_bytes encoded)
         (pa_document q) (cr_created_at_us row) (co_now io))
      (<[(asset_kind_str (pa_kind q), id) :=
           mkAssetRow version (cr_generation row + 1) (digest_bytes encoded) encoded
             (cr_created_at_us row) (co_now io)]> table)
| pe_create :
    table !! (asset_kind_str (pa_kind q), id) = None →
    pa_expected_generation q = None →
    put_effect io q id version encoded table
      (mkAsset 1 (pa_kind q) id version 1 (digest_bytes encoded) (pa_document q) (co_now io)
         (co_now io))
      (<[(asset_kind_str (pa_kind q), id) :=
           mkAssetRow version 1 (digest_bytes encoded) encoded (co_now io) (co_now io)]> table).

Lemma storage_failure_Ok o : storage_failure o = Ok tt ↔ o = None.
Proof. by destruct o. Qed.

Lemma row_to_asset_Ok key r a :
  row_to_asset key r = Ok a →
  ca_generation a = cr_generation r ∧ 0 ≤ cr_generation r ∧ ca_sha256 a = cr_sha256 r ∧
  ca_created_at_us a = cr_created_at_us r.
Proof.
  unfold row_to_asset, get_u64. destruct (asset_kind_parse key.1) as [k|]; simpl; [|done].
  case_decide; simpl; [|done]. destruct (from_slice _) as [d|]; simpl; [|done]. by intros [= <-].
Qed.

Lemma select_asset_Ok io table kind id o :
  select_asset io table kind id = Ok o →
  match o with
  | None => table !! (asset_kind_str kind, id) = None
  | Some a => ∃ row, table !! (asset_kind_str kind, id) = Some row ∧
      row_to_asset (asset_kind_str kind, id) row = Ok a
  end.
Proof.
  unfold select_asset. intros (_ & Hs)%check_then_Ok.
  destruct (table !! _) as [row|]; [|by injection Hs as <-].
  destruct (row_to_asset _ row) as [a|] eqn:Hr; simpl in Hs; [|done]. injection Hs as <-. eauto.
Qed.

Lemma put_transaction_effect io q id version encoded table a table' :
  put_transaction io q id version encoded table = Ok (a, table') →
  put_effect io q id version encoded table a table'.
Proof.
  unfold put_transaction. intros (_ & Ht)%check_then_Ok.
  apply result_bind_inv_ok in Ht as (existing & Hsel%select_asset_Ok & Ht).
  apply result_bind_inv_ok in Ht as (written & Hw & Ht).
  apply check_then_Ok in Ht as [_ [= ->]].
  destruct existing as [existing|].
  - destruct Hsel as (row & Hrow & Ha). pose proof (row_to_asset_Ok _ _ _ Ha) as (Hg & Hpos & Hsha & Hcr).
    case_decide as Hd; [injection Hw as -> ->; eapply pe_same; [done..|congruence]|].
    case_decide as Hgen; [done|].
    apply check_then_Ok in Hw as [Hb Hw]. apply check_then_Ok in Hw as [_ Hw].
    rewrite Hg, Hcr in *. destruct (bind_u64 _) eqn:Hbind; [|done].
    apply bool_decide_eq_true in Hbind. unfold sat_add64 in *.
    assert (Z.min u64_max (cr_generation row + 1) = cr_generation row + 1) as Hmin
      by (unfold i64_max, u64_max in *; lia).
    rewrite Hmin in *. injection Hw as <- <-. eapply pe_update; [done|congruence|done..].
  - case_decide as Hd; [done|]. apply check_then_Ok in Hw as [_ [= <- <-]].
    apply pe_create; [done|]. by destruct (pa_expected_generation q); [destruct Hd|].
Qed.

Lemma put_inv io q s r s' :
  catalog_put io q s = (r, s') →
  (s' = s ∧ is_ok r = false) ∨
  ∃ id version encoded a table', r = Ok a ∧ put_checks q = Ok (id, version, encoded) ∧
    s' = mutex_set table' s ∧ put_effect io q id version encoded (catalog_rows s) a table'.
Proof.
  unfold catalog_put. destruct (checked ← put_checks q; _) as [[a table']|e] eqn:Hp;
    intros [= <- <-]; [right|by left].
  apply result_bind_inv_ok in Hp as ([[id version] encoded] & Hc & Hp).
  apply result_bind_inv_ok in Hp as (table & Hl & Hp).
  unfold catalog_lock in Hl. destruct (lock s) eqn:Hlock; [|done]. injection Hl as ->.
  apply lock_Some in Hlock as [_ <-]. apply put_transaction_effect in Hp.
  by exists id, version, encoded, a, table'.
Qed.

Lemma delete_inv io sel g s r s' :
  delete_row io sel g s = (r, s') →
  s' = s ∨
  (r = Ok tt ∧ cr_generation <$> catalog_rows s !! (asset_kind_str (as_kind sel), as_id sel) = Some g ∧
   s' = mutex_set (delete (asset_kind_str (as_kind sel), as_id sel) (catalog_rows s)) s).
Proof.
  unfold delete_row. destruct (table ← catalog_lock s; _) as [table|e] eqn:Ht;
    [|intros [= <- <-]; by left].
  apply result_bind_inv_ok in Ht as (t & Hl & Ht). rewrite !check_then_Ok in Ht.
  destruct Ht as (_ & _ & [= ->]). unfold catalog_lock in Hl.
  destruct (lock s) eqn:Hlock; [|done]. injection Hl as ->. apply lock_Some in Hlock as [_ <-].
  case_decide; intros [= <- <-]; [by right|by left].
Qed.

(** *** Any use of a catalog *)

(** Clients interleave: a write, or the deleting statement of a deletion whose
    check was made at some earlier time. Reads change nothing. *)
Inductive cstep : Catalog → Catalog → Prop :=
| cstep_put io q s r s' : catalog_put io q s = (r, s') → cstep s s'
| cstep_delete io sel g s r s' : delete_row io sel g s = (r, s') → cstep s s'
| cstep_reopen failure s s' : catalog_open failure s = Ok s' → cstep s s'.

Lemma cstep_rows s s' key :
  cstep s s' →
  catalog_rows s' !! key = catalog_rows s !! key ∨
  catalog_rows s' !! key = None ∨
  ∃ io q id version encoded a table', put_checks q = Ok (id, version, encoded) ∧
    put_effect io q id version encoded (catalog_rows s) a table' ∧
    key = (asset_kind_str (pa_kind q), id) ∧ catalog_rows s' = table'.
Proof.
  intros [io q s0 r s1 Hp|io sel g s0 r s1 Hd|failure s0 s1 Ho].
  - apply put_inv in Hp as [[-> _]|(id & version & encoded & a & table' & _ & Hc & -> & Hp)]; [by left|].
    destruct (decide (key = (asset_kind_str (pa_kind q), id))) as [->|Hne].
    + right. right. by exists io, q, id, version, encoded, a, table'.
    + left. unfold catalog_rows at 1. simpl. destruct Hp; [done|..]; by rewrite lookup_insert_ne.
  - apply delete_inv in Hd as [->|(_ & _ & ->)]; [by left|]. unfold catalog_rows at 1 3. simpl.
    rewrite lookup_delete. case_decide; [by right; left|by left].
  - destruct failure; [done|]. injection Ho as <-. by left.
Qed.

(** What a row must be: the encoding of a secret-free document, valid for the
    kind and named like the row. *)
Definition row_valid (key : string * string) (row : AssetRow) : Prop :=
  1 ≤ cr_generation row ≤ i64_max ∧ cr_sha256 row = digest_bytes (cr_document row) ∧
  ∃ kind doc, key.1 = asset_kind_str kind ∧ to_vec doc = Some (cr_document row) ∧ secret_free doc ∧
    validate_document kind doc = Ok (key.2, cr_version row).
Definition catalog_valid (s : Catalog) : Prop := map_Forall row_valid (catalog_rows s).

Lemma put_checks_Ok q id version encoded :
  put_checks q = Ok (id, version, encoded) →
  pa_schema_version q = 1 ∧ secret_free (pa_document q) ∧
  validate_document (pa_kind q) (pa_document q) = Ok (id, version) ∧
  to_vec (pa_document q) = Some encoded.
Proof.
  unfold put_checks. rewrite !check_then_Ok, secrets_check_exact. intros (Hs & Hf & Hp).
  apply result_bind_inv_ok in Hp as ([i v] & Hv & Hp).
  destruct (to_vec (pa_document q)) as [e|]; simpl in Hp; [|done]. injection Hp as -> -> ->.
  unfold check_schema in Hs. by case_decide.
Qed.

Lemma cstep_valid s s' : catalog_valid s → cstep s s' → catalog_valid s'.
Proof.
  intros Hv Hstep key row Hrow.
  destruct (cstep_rows s s' key Hstep) as [He|[He|(io & q & id & version & encoded & a & table' & Hc & Hp & -> & Ht)]].
  - apply (Hv key). by rewrite <-He.
  - congruence.
  - apply put_checks_Ok in Hc as (_ & Hf & Hd & Hto). rewrite Ht in Hrow.
    assert (∀ g c u, row = mkAssetRow version g (digest_bytes encoded) encoded c u → 1 ≤ g ≤ i64_max →
      row_valid (asset_kind_str (pa_kind q), id) row) as Hnew.
    { intros g c u -> Hg. split; [done|]. split; [done|]. by exists (pa_kind q), (pa_document q). }
    destruct Hp as [? ? Hr _ _|r0 Hr _ _ Hpos Hmax|_ _].
    + by apply (Hv _ row).
    + rewrite lookup_insert_eq in Hrow. injection Hrow as <-. eapply Hnew; [done|lia].
    + rewrite lookup_insert_eq in Hrow. injection Hrow as <-. eapply Hnew; [done|]. unfold i64_max. lia.
Qed.

(** C31: However the catalog is used, by any interleaving of writes, deletions and
    restarts and whatever storage failures they meet, every row is the encoding of a
    document that is valid for its kind, carries no secret and is named and
    versioned like the row, its digest is the digest of that encoding, and its
    generation is at least 1 and fits the column. *)
Theorem catalog_holds_valid_documents s kind id row :
  rtc cstep catalog_new s →
  catalog_rows s !! (asset_kind_str kind, id) = Some row →
  1 ≤ cr_generation row ≤ i64_max ∧ cr_sha256 row = digest_bytes (cr_document row) ∧
  ∃ doc, to_vec doc = Some (cr_document row) ∧ secret_free doc ∧
    validate_document kind doc = Ok (id, cr_version row).
Proof.
  intros Hr Hrow.
  assert (catalog_valid s) as Hv.
  { assert (catalog_valid catalog_new) as Hinit by (apply map_Forall_empty). revert Hinit.
    clear Hrow. induction Hr; eauto using cstep_valid. }
  destruct (Hv _ _ Hrow) as (Hg & Hs & k & doc & Hk & Hdoc). split_and!; [by apply Hg..|done|].
  simpl in Hk. apply asset_kind_str_inj in Hk as ->. by exists doc.
Qed.

(** *** Compare and swap *)

(** Steps that leave the asset in place. *)
Definition kept (key : string * string) (s s' : Catalog) : Prop :=
  cstep s s' ∧ is_Some (catalog_rows s' !! key).
Definition generation_at (s : Catalog) (key : string * string) : option Z :=
  cr_generation <$> catalog_rows s !! key.

Lemma kept_generation key s s' g :
  kept key s s' → generation_at s key = Some g → ∃ g', generation_at s' key = Some g' ∧ g ≤ g'.
Proof.
  unfold generation_at. intros [Hstep [row' Hrow']] (row & Hrow & Hg)%fmap_Some.
  destruct (cstep_rows s s' key Hstep) as [He|[He|(io & q & id & v & e & a & t' & _ & Hp & -> & Ht)]].
  - exists g. rewrite He, Hrow, Hg. split; [done|lia].
  - congruence.
  - rewrite Ht in *. rewrite Hrow'. exists (cr_generation row'). split; [done|].
    destruct Hp as [? ? Hr _ _|r0 Hr _ _ _ _|Hr _].
    + rewrite Hrow in *. simplify_eq. lia.
    + rewrite Hrow in *. rewrite lookup_insert_eq in Hrow'. simplify_eq. simpl. lia.
    + congruence.
Qed.

(** C30: No update is lost. Once a write that named generation [g] changed an
    asset, then as long as the asset is not deleted, and whatever else happens,
    a second write that names the same generation changes nothing: it conflicts,
    or the document is already the one stored. *)
Theorem stale_generation_refused io1 q1 s1 a s2 s3 io2 q2 r s4 id v1 e1 v2 e2 g :
  put_checks q1 = Ok (id, v1, e1) → put_checks q2 = Ok (id, v2, e2) → pa_kind q2 = pa_kind q1 →
  pa_expected_generation q1 = Some g → pa_expected_generation q2 = Some g →
  catalog_put io1 q1 s1 = (Ok a, s2) → s2 ≠ s1 →
  rtc (kept (asset_kind_str (pa_kind q1), id)) s2 s3 →
  catalog_put io2 q2 s3 = (r, s4) →
  s4 = s3 ∧ (∀ b, r = Ok b → ca_sha256 b = digest_bytes e2).
Proof.
  intros Hc1 Hc2 Hk Hg1 Hg2 Hp1 Hne Hrest Hp2. set (key := (asset_kind_str (pa_kind q1), id)) in *.
  assert (generation_at s2 key = Some (g + 1)) as Hgen.
  { apply put_inv in Hp1 as [[? _]|(id' & v & e & a' & t' & _ & Hc & -> & Hp)]; [done|].
    rewrite Hc1 in Hc. injection Hc as <- <- <-. unfold generation_at, catalog_rows. simpl.
    destruct Hp as [? ? ? ? ?|row Hr _ He _ _|_ He]; [|..].
    - destruct Hne. by destruct s1.
    - unfold key. rewrite lookup_insert_eq. simpl. congruence.
    - congruence. }
  assert (∃ g', generation_at s3 key = Some g' ∧ g + 1 ≤ g') as (g' & Hg' & Hle).
  { clear Hp2. assert (∃ g', generation_at s2 key = Some g' ∧ g + 1 ≤ g') as Hinit by (exists (g + 1); auto with lia).
    revert Hinit. clear Hgen Hp1 Hne. induction Hrest as [s|s s' s'' Hst _ IH]; [done|].
    intros (g0 & Hinit & Hle). apply IH. destruct (kept_generation _ _ _ _ Hst Hinit) as (g1 & ? & ?).
    exists g1. split; [done|lia]. }
  apply put_inv in Hp2 as [[-> Hr]|(id' & v & e & b & t' & -> & Hc & -> & Hp)].
  { split; [done|]. by intros b ->. }
  rewrite Hc2 in Hc. injection Hc as <- <- <-. unfold generation_at in Hg'.
  destruct Hp as [row b Hr Hb Hsha|row Hr _ He _ _|_ He].
  - split; [by destruct s3|]. intros b' [= <-]. apply row_to_asset_Ok in Hb as (_ & _ & -> & _). done.
  - exfalso. rewrite Hk in Hr. unfold key in Hg'. rewrite Hr in Hg'. simpl in Hg'. simplify_eq. lia.
  - congruence.
Qed.

(** *** Reading back *)

Lemma valid_identifier_not_blank s : valid_identifier s = true → blank s = false.
Proof.
  unfold valid_identifier. destruct s as [|c s]; [done|]. rewrite !andb_true_iff.
  intros [[[_ Hc] _] _]. simpl in Hc. apply andb_true_iff in Hc as [Hc _].
  assert (45 ≤ byte_of c ≤ 122) as Hb.
  { rewrite !orb_true_iff, bool_decide_eq_true in Hc. unfold byte_of.
    destruct Hc as [[[Hc|Hc]|Hc]|Hc].
    1-3: apply andb_true_iff in Hc as [?%N.leb_le ?%N.leb_le]; lia.
    by repeat (apply elem_of_cons in Hc as [->|Hc]; [done|]); apply not_elem_of_nil in Hc. }
  simpl. unfold whitespace1, whitespace2, whitespace3.
  rewrite (proj2 (andb_false_iff (9 <=? byte_of c) _)) by lia. simpl.
  rewrite !(proj2 (Z.eqb_neq (byte_of c) _)) by lia. simpl. by destruct s as [|? [|]].
Qed.

(** The name of a valid document is not blank. *)
Lemma validate_document_named kind doc id version :
  validate_document kind doc = Ok (id, version) → blank id = false.
Proof.
  assert (∀ (c : bool) o f m, invalid_if c o f m = Ok tt → c = false) as Hi by (by intros []).
  unfold validate_document, invalid_contract, invalid_spec, map_err.
  destruct kind; [..|].
  1,3-6: intros (value & _ & Hv)%result_bind_inv_ok.
  6: destruct (from_value doc) as [p|]; [|intros (value & _ & Hv)%result_bind_inv_ok].
  6: intros Hv.
  all: apply check_then_Ok in Hv as [Hv [= <- _]].
  - destruct (validate_project value) as [[]|] eqn:E; [|done].
    unfold validate_project in E. rewrite !check_then_Ok in E. contract_facts.
    apply valid_identifier_not_blank, E.
  - destruct (graph_validation_exact value) as (v & Hgv & Hw). rewrite Hgv in Hv. simpl in Hv.
    destruct v as [[]|]; [|done]. by apply Hw.
  - destruct (validate_dataset value) as [[]|] eqn:E; [|done].
    unfold validate_dataset in E. rewrite !check_then_Ok in E. contract_facts.
    apply valid_identifier_not_blank, E.
  - destruct (validate_experiment value) as [[]|] eqn:E; [|done].
    unfold validate_experiment in E. rewrite !check_then_Ok in E. contract_facts.
    apply valid_identifier_not_blank, E.
  - destruct (validate_artifact value) as [[]|] eqn:E; [|done].
    unfold validate_artifact, validate_contract in E. contract_facts. apply E.
  - destruct (validate_profile p) as [[]|] eqn:E; [|done].
    unfold validate_profile, validate_model in E. rewrite !check_then_Ok in E. contract_facts. apply E.
  - destruct (validate_model value) as [[]|] eqn:E; [|done].
    unfold validate_model in E. contract_facts. apply E.
Qed.

(** What [put] returned is what [get] finds: after a successful write, a read
    of the asset by its name that meets no storage failure returns exactly the
    asset the write returned, provided the written document survives being
    encoded and decoded. *)
Theorem put_then_get io q s a s' io' :
  catalog_put io q s = (Ok a, s') →
  (∀ e, to_vec (pa_document q) = Some e → from_slice e = Some (pa_document q)) →
  co_query io' = None →
  catalog_get io' s' (mkSelector 1 (pa_kind q) (ca_id a)) = Ok a.
Proof.
  intros Hput Hdoc Hq. assert (poisoned s = false) as Hp.
  { unfold catalog_put in Hput. destruct (checked ← put_checks q; _) as [?|] eqn:E; [|done].
    apply result_bind_inv_ok in E as (c & _ & E). apply result_bind_inv_ok in E as (t & E & _).
    unfold catalog_lock, lock in E. by destruct (poisoned s). }
  apply put_inv in Hput as [[_ ?]|(id & version & encoded & a' & table' & [= <-] & Hc & -> & Heff)]; [done|].
  apply put_checks_Ok in Hc as (_ & _ & Hv & Hto). pose proof (validate_document_named _ _ _ _ Hv) as Hb.
  assert (ca_id a = id ∧ row_to_asset (asset_kind_str (pa_kind q), id) <$>
    table' !! (asset_kind_str (pa_kind q), id) = Some (Ok a)) as [-> Hrow].
  { destruct Heff as [row a Hr Ha _|row _ _ _ Hpos _|_ _].
    - rewrite Hr. simpl. rewrite Ha. split; [|done]. unfold row_to_asset in Ha. cbn [fst] in Ha.
      rewrite asset_kind_parse_str in Ha. simpl in Ha. destruct (get_u64 _ _); simpl in Ha; [|done].
      destruct (from_slice _); simpl in Ha; [|done]. by injection Ha as <-.
    - rewrite lookup_insert_eq. simpl. unfold row_to_asset, get_u64. simpl.
      rewrite asset_kind_parse_str, decide_True, (Hdoc encoded Hto) by lia. done.
    - rewrite lookup_insert_eq. simpl. unfold row_to_asset, get_u64. simpl.
      rewrite asset_kind_parse_str, (Hdoc encoded Hto). done. }
  unfold catalog_get, check_schema, cp_required, catalog_lock, select_asset. simpl.
  rewrite Hb, lock_set, Hq by done. simpl.
  destruct (table' !! _) as [row|]; [|done]. simpl in Hrow. injection Hrow as ->. done.
Qed.
End CatalogFacts.

(** ** Examples *)

Definition ex_document (id text : string) : Value :=
  VObject [("creator", VString text); ("id", VString id); ("version", VString "1")].
Definition ex_documents : list Value :=
  [ex_document "a" "x"; ex_document "a" "y"; ex_document "a" "z"].

#[local] Existing Instance ex_env.
#[local] Instance ex_value_serde : Serde Value := {|
  to_vec v := (λ p, [Z.of_nat p.1]) <$> list_find (λ w, value_eqb v w = true) ex_documents;
  from_slice b := match b with [i] => ex_documents !! Z.to_nat i | _ => None end;
  to_vec_text _ := "";
  from_slice_text _ := ""
|}.
(** Only artifact documents can be read. *)
#[local] Instance ex_artifact_value : FromValue (Contract ArtifactFields) := {|
  from_value v :=
    id ← value_get v "id" ≫= value_as_str; version ← value_get v "version" ≫= value_as_str;
    Some (mkContract 1 id version (mkArtifactFields "" "" "" "") ∅);
  from_value_text _ := "missing field"
|}.
Definition ex_unread T : FromValue T := {| from_value _ := None; from_value_text _ := "" |}.
#[local] Existing Instance ex_unread | 100.

Definition ex_put (text : string) (expected : option Z) : PutAssetRequest :=
  mkPut 1 AK_Artifact (ex_document "a" text) expected.
Definition ex_catalog (n : Z) (q : PutAssetRequest) (s : Catalog) : Catalog :=
  (catalog_put (catalog_calm n) q s).2.
(** Created, then updated. *)
Definition ex_cat1 : Catalog := ex_catalog 10 (ex_put "x" None) catalog_new.
Definition ex_cat2 : Catalog := ex_catalog 11 (ex_put "y" (Some 1)) ex_cat1.

Example ex_generations :
  generation_at ex_cat1 ("artifact", "a") = Some 1 ∧
  generation_at ex_cat2 ("artifact", "a") = Some 2 ∧
  generation_at (ex_catalog 12 (ex_put "y" None) ex_cat2) ("artifact", "a") = Some 2 ∧
  is_ok (catalog_put (catalog_calm 12) (ex_put "z" (Some 1)) ex_cat2).1 = false.
Proof. by vm_compute. Qed.

Definition ex_asset : ControlAsset :=
  mkAsset 1 AK_Artifact "a" "1" 2 (digest_bytes [1]) (ex_document "a" "y") 10 11.

Lemma ex_updated : catalog_put (catalog_calm 11) (ex_put "y" (Some 1)) ex_cat1 = (Ok ex_asset, ex_cat2).
Proof. vm_compute. reflexivity. Qed.
Lemma ex_put_step n q s : cstep s (ex_catalog n q s).
Proof. exact (cstep_put _ _ _ _ _ (surjective_pairing _)). Qed.
Lemma ex_row :
  catalog_rows ex_cat2 !! (asset_kind_str AK_Artifact, "a") =
  Some (mkAssetRow "1" 2 (digest_bytes [1]) [1] 10 11).
Proof. vm_compute. reflexivity. Qed.
Lemma ex_changed : ex_cat2 ≠ ex_cat1.
Proof.
  intros He. apply (f_equal (λ s, generation_at s ("artifact", "a"))) in He. by vm_compute in He.
Qed.
Lemma ex_round_trip e :
  to_vec (ex_document "a" "y") = Some e → from_slice e = Some (ex_document "a" "y").
Proof. vm_compute. by intros [= <-]. Qed.

Lemma catalog_holds_valid_documents_witness :
  ∃ doc, to_vec doc = Some [1] ∧ secret_free doc ∧ validate_document AK_Artifact doc = Ok ("a", "1").
Proof.
  destruct (catalog_holds_valid_documents ex_cat2 AK_Artifact "a" _
    (rtc_l _ _ _ _ (ex_put_step 10 (ex_put "x" None) catalog_new)
       (rtc_once _ _ (ex_put_step 11 (ex_put "y" (Some 1)) ex_cat1))) ex_row) as (_ & _ & doc & Hd).
  exists doc. exact Hd.
Defined.

Lemma stale_generation_refused_witness :
  let p := catalog_put (catalog_calm 12) (ex_put "z" (Some 1)) ex_cat2 in
  p.2 = ex_cat2 ∧ ∀ b, p.1 = Ok b → ca_sha256 b = digest_bytes [2].
Proof.
  exact (stale_generation_refused (catalog_calm 11) (ex_put "y" (Some 1)) ex_cat1 ex_asset ex_cat2
    ex_cat2 (catalog_calm 12) (ex_put "z" (Some 1)) _ _ "a" "1" [1] "1" [2] 1 eq_refl eq_refl eq_refl
    eq_refl eq_refl ex_updated ex_changed (rtc_refl _ _) (surjective_pairing _)).
Defined.

Lemma put_then_get_witness :
  catalog_get (catalog_calm 20) ex_cat2 (mkSelector 1 AK_Artifact "a") = Ok ex_asset.
Proof.
  exact (put_then_get (catalog_calm 11) (ex_put "y" (Some 1)) ex_cat1 ex_asset ex_cat2
    (catalog_calm 20) ex_updated ex_round_trip eq_refl).
Defined.

(** Generations start again at 1 when an asset is created anew: a client that
    read generation 1 of the deleted asset overwrites, or deletes, the new one. *)
Example generation_reused_after_delete :
  let s1 := (catalog_delete (catalog_calm 11) (catalog_calm 12) (mkSelector 1 AK_Artifact "a") 1 ex_cat1).2 in
  let s2 := ex_catalog 13 (ex_put "y" None) s1 in
  generation_at s1 ("artifact", "a") = None ∧
  is_ok (catalog_put (catalog_calm 14) (ex_put "z" (Some 1)) s2).1 = true.
Proof. by vm_compute. Qed.

(** The check compares whole member names, so a credential under any other name
    passes. *)
Example credential_under_other_name :
  reject_embedded_secrets (VObject [("openai_api_key", VString "sk-1"); ("private_key", VString "k")])
  = Ok tt ∧
  is_ok (reject_embedded_secrets (VObject [("API-Key", VString "sk-1")])) = false.
Proof. by vm_compute. Qed.
