(* ===== verification/Client.v ===== *)
(** * The runtime client

    [crates/nous-runtime-client/src/lib.rs]: one request at a time over a
    connection to the daemon, with the frames and the envelope checks of the
    client's side, and the typed calls built on it. Composed with the daemon's side
    of a connection, in [Nki], this is a remote call. *)

From S2P Require Import Prelude Journal Contracts Nki Intelligence ControlPlane.
Local Open Scope Z_scope.

Inductive ClientError : Type :=
| ClConnectionFailed (text : string)
| ClSerialization (text : string)
| ClIo (text : string)
| ClNki (error : NKIErrorBody)
| ClUnsupported (text : string)
| ClProtocol (text : string)
| ClTimeout.

Definition MAX_FRAME_BYTES : Z := 16 * 1024 * 1024.
Definition DEFAULT_TIMEOUT_us : Z := 30 * 1000000.

(** Where the thirty seconds are over: with some bytes of the request written, or
    with some bytes of the response read. *)
Inductive Expiry : Type := MidWrite (n : nat) | MidRead (n : nat).

(** What one call finds: two drawn identifiers, the clock, the session token of the
    environment, the failures of the stream (a write that fails may have written some
    bytes), what a read past the end reports, and whether the call runs out of
    time. *)
Record CallIo : Type := mkCallIo {
  cl_request_id : string;
  cl_idempotency_key : string;
  cl_now : result string Z;
  cl_token : option string;
  cl_write : option (nat * string);
  cl_flush : option string;
  cl_eof : string;
  cl_expiry : option Expiry
}.

(** [serde_json::to_value]. *)
Class ToValue (T : Type) : Type := {
  to_value : T → option Value;
  to_value_text : T → string
}.

Section Client.
Context {S : Type} `{Serde NKIRequest} `{Serde (NKIResponse Value)} `{Serde Value}.

(** The daemon at the other end: what it sends when it is sent some bytes. *)
Context (peer : bytes → S → bytes * S).

(** What the daemon sent and was not read yet, and the daemon's state. *)
Record Connection : Type := mkConnection { cn_incoming : bytes; cn_peer : S }.

(** [connect_tcp]: what the attempt gave, [None] when its time ran out; [connect] on
    a platform with or without Unix sockets. *)
Definition connect_tcp (addr : string) (attempt : option (result string S)) :
    result ClientError Connection :=
  match attempt with
  | None => Err ClTimeout
  | Some (Err text) => Err (ClConnectionFailed ("Cannot connect to " +:+ addr +:+ ": " +:+ text))
  | Some (Ok s) => Ok (mkConnection [] s)
  end.
Definition connect (unix : bool) (path : string) (attempt : result string S) :
    result ClientError Connection :=
  if unix then
    match attempt with
    | Err text => Err (ClConnectionFailed ("Cannot connect to " +:+ path +:+ ": " +:+ text))
    | Ok s => Ok (mkConnection [] s)
    end
  else Err (ClUnsupported ("Unix domain sockets are unavailable on this platform: " +:+ path)).

Definition deliver (b : bytes) (c : Connection) : Connection :=
  let '(reply, s) := peer b (cn_peer c) in mkConnection (cn_incoming c ++ reply) s.
Definition consume (n : nat) (c : Connection) : Connection :=
  mkConnection (drop n (cn_incoming c)) (cn_peer c).

(** The envelope of a request. *)
Definition client_request (x : CallIo) (now : Z) (method : string) (payload : Value) : NKIRequest :=
  mkNki (cl_request_id x) (cl_idempotency_key x) NKI_VERSION "rust-sdk" (default "" (cl_token x))
    "default" (Z.min (now + DEFAULT_TIMEOUT_us) i64_max) "" "" [] method
    (default [] (to_vec payload)).

(** Writing a frame and flushing it. *)
Definition send_frame (x : CallIo) (framed : bytes) : M Connection ClientError unit := λ c,
  match cl_expiry x with
  | Some (MidWrite n) => (Err ClTimeout, deliver (take n framed) c)
  | _ =>
      match cl_write x with
      | Some (n, e) => (Err (ClIo e), deliver (take n framed) c)
      | None =>
          match cl_flush x with
          | Some e => (Err (ClIo e), deliver framed c)
          | None => (Ok tt, deliver framed c)
          end
      end
  end.

(** [read_exact], of four bytes and of a body. *)
Definition read_exact (x : CallIo) (n : nat) : M Connection ClientError bytes := λ c,
  if decide (n ≤ length (cn_incoming c))%nat
  then (Ok (take n (cn_incoming c)), consume n c)
  else (Err (ClIo (cl_eof x)), consume (length (cn_incoming c)) c).
Definition read_body (x : CallIo) : M Connection ClientError bytes := λ c,
  match cl_expiry x with
  | Some (MidRead n) => (Err ClTimeout, consume n c)
  | _ =>
      (len_buf ← read_exact x 4;
       match len_buf with
       | [a; b; d; e] =>
           let msg_len := of_be32 a b d e in
           if decide (MAX_FRAME_BYTES < msg_len)
           then throw (ClProtocol "response exceeds 16 MiB")
           else read_exact x (Z.to_nat msg_len)
       | _ => throw (ClIo (cl_eof x))
       end) c
  end.

(** [NkiConnection::request_inner] under the timeout of [request]. *)
Definition check_response (x : CallIo) (body : bytes) : result ClientError Value :=
  match from_slice body with
  | None => Err (ClSerialization (from_slice_text (T := NKIResponse Value) body))
  | Some r =>
      if decide (np_request_id _ r ≠ cl_request_id x)
      then Err (ClProtocol "response request_id does not match request")
      else if decide (np_nki_version _ r ≠ NKI_VERSION)
      then Err (ClProtocol "response NKI version is unsupported")
      else match np_outcome _ r with
           | Success payload => Ok payload
           | Error_ e => Err (ClNki e)
           end
  end.
Definition request (x : CallIo) (method : string) (payload : Value) :
    M Connection ClientError Value :=
  now ← lift (map_err ClProtocol (cl_now x));
  let r := client_request x now method payload in
  body ← lift (ok_or (to_vec r) (ClSerialization (to_vec_text r)));
  if decide (MAX_FRAME_BYTES < Z.of_nat (length body))
  then throw (ClProtocol "request exceeds 16 MiB")
  else
    _ ← send_frame x (encode_raw body);
    reply ← read_body x;
    lift (check_response x reply).

(** ** The typed calls *)

Context `{ToValue PutAssetRequest} `{ToValue AssetSelector} `{ToValue ListAssetsRequest}
  `{FromValue ControlAsset} `{FromValue (list ControlAsset)}.

Definition value_of `{ToValue T} (a : T) : M Connection ClientError Value :=
  lift (ok_or (to_value a) (ClSerialization (to_value_text a))).
Definition decoded `{FromValue T} (v : Value) : M Connection ClientError T :=
  lift (ok_or (from_value v) (ClSerialization (from_value_text (T := T) v))).

Definition submit (x : CallIo) (spec : Value) := request x "SubmitWorkload" spec.
Definition client_get_workload (x : CallIo) (workload_id : string) :=
  request x "GetWorkload" (VObject [("workload_id", VString workload_id)]).
Definition client_list_workloads (x : CallIo) (limit : Z) :=
  request x "ListWorkloads" (VObject [("limit", VNumber (PosInt limit))]).
Definition client_cancel_workload (x : CallIo) (workload_id reason : string) :=
  request x "CancelWorkload" (VObject [("force", VBool false); ("reason", VString reason);
                                       ("workload_id", VString workload_id)]).
Definition client_health_check (x : CallIo) (deep : bool) :=
  request x "HealthCheck" (VObject [("deep", VBool deep)]).
Definition client_register_model (x : CallIo) (model : Value) :=
  request x "RegisterModel" (VObject [("model", model)]).
Definition client_put_asset (x : CallIo) (q : PutAssetRequest) : M Connection ClientError ControlAsset :=
  v ← value_of q; payload ← request x "PutControlAsset" v; decoded payload.
Definition client_get_asset (x : CallIo) (s : AssetSelector) : M Connection ClientError ControlAsset :=
  v ← value_of s; payload ← request x "GetControlAsset" v; decoded payload.
Definition client_list_assets (x : CallIo) (q : ListAssetsRequest) :
    M Connection ClientError (list ControlAsset) :=
  v ← value_of q;
  payload ← request x "ListControlAssets" v;
  decoded (default VNull (value_get payload "assets")).
Definition client_delete_asset (x : CallIo) (s : AssetSelector) (expected_generation : Z) :
    M Connection ClientError unit :=
  selector ← value_of s;
  _ ← request x "DeleteControlAsset"
        (VObject [("expected_generation", VNumber (PosInt expected_generation));
                  ("selector", selector)]);
  mret tt.
Definition in_default_namespace : Value := VObject [("namespace", VString "default")].
Definition list_engines (x : CallIo) := request x "ListEngines" in_default_namespace.
Definition list_devices (x : CallIo) := request x "ListDevices" in_default_namespace.
Definition create_checkpoint (x : CallIo) (workload_id : string) :=
  request x "CreateCheckpoint" (VObject [("workload_id", VString workload_id)]).

(** [NkiClient]. *)
Definition client_submit_workload (x : CallIo) (spec : Value) : M Connection ClientError string :=
  resp ← submit x spec;
  let text key := value_get resp key ≫= value_as_str in
  lift (ok_or (match text "workload_id" with Some s => Some s | None => text "operation_id" end)
          (ClProtocol "submission response has no workload ID")).
Definition client_health (x : CallIo) : M Connection ClientError bool :=
  resp ← client_health_check x false;
  mret (match value_get resp "healthy" ≫= value_as_bool with
        | Some b => b
        | None => bool_decide (value_get resp "state" ≫= value_as_str ∈ [Some "READY"; Some "DEGRADED"])
        end).
End Client.

(** ** A call to the daemon *)

Definition calm (x : CallIo) : Prop := cl_write x = None ∧ cl_flush x = None.

Section RemoteCall.
Context {S : Type} `{Serde NKIRequest} `{Serde (NKIResponse Value)} `{Serde Value}.

Lemma read_exact_app x l rest (s : S) :
  read_exact x (length l) (mkConnection (l ++ rest) s) = (Ok l, mkConnection rest s).
Proof.
  unfold read_exact, consume. simpl. rewrite decide_True by (rewrite length_app; lia).
  by rewrite take_app_length, drop_app_length.
Qed.

(** Reading one frame that has arrived. *)
Lemma read_body_frame x rb rest (s : S) :
  cl_expiry x = None → Z.of_nat (length rb) ≤ MAX_FRAME_BYTES →
  read_body x (mkConnection (encode_raw rb ++ rest) s) = (Ok rb, mkConnection rest s).
Proof.
  intros Hx Hb. unfold MAX_FRAME_BYTES in Hb.
  destruct (encode_raw_cons rb rest) as (a & b & d & e & He & Hlen); [lia|].
  unfold read_body. rewrite Hx, He. unfold mbind, M_bind.
  change (a :: b :: d :: e :: rb ++ rest) with ([a; b; d; e] ++ rb ++ rest).
  rewrite (read_exact_app x [a; b; d; e]).
  rewrite Hlen, decide_False by (unfold MAX_FRAME_BYTES; lia).
  rewrite Nat2Z.id. apply read_exact_app.
Qed.

(** The daemon reads the request and sends one response, under an identifier. *)
Definition replies (peer : bytes → S → bytes * S) (x : CallIo) (method : string) (payload : Value)
    (s : S) (resp : NKIResponse Value) (s' : S) : Prop :=
  ∃ now b rb, cl_now x = Ok now ∧ to_vec (client_request x now method payload) = Some b ∧
    Z.of_nat (length b) ≤ MAX_FRAME_BYTES ∧ peer (encode_raw b) s = (encode_raw rb, s') ∧
    Z.of_nat (length rb) ≤ MAX_FRAME_BYTES ∧ from_slice rb = Some resp.

(** A response waits to be read. *)
Definition holds (c : @Connection S) (resp : NKIResponse Value) : Prop :=
  ∃ rb, cn_incoming c = encode_raw rb ∧ Z.of_nat (length rb) ≤ MAX_FRAME_BYTES ∧
    from_slice rb = Some resp.

Definition judged (x : CallIo) (resp : NKIResponse Value) : result ClientError Value :=
  if decide (np_request_id _ resp ≠ cl_request_id x)
  then Err (ClProtocol "response request_id does not match request")
  else if decide (np_nki_version _ resp ≠ NKI_VERSION)
  then Err (ClProtocol "response NKI version is unsupported")
  else match np_outcome _ resp with Success v => Ok v | Error_ e => Err (ClNki e) end.

(** A call is judged by the first response that arrives; the others wait. *)
Lemma request_replied peer x method payload c resp s' :
  calm x → cl_expiry x = None → replies peer x method payload (cn_peer c) resp s' →
  (cn_incoming c = [] →
     request peer x method payload c = (judged x resp, mkConnection [] s')) ∧
  (∀ old, holds c old →
     ∃ c', request peer x method payload c = (judged x old, c') ∧ holds c' resp ∧ cn_peer c' = s').
Proof.
  intros [Hw Hf] He (now & b & rb & Hn & Hb & Hlb & Hp & Hlr & Hr).
  assert (request peer x method payload c
          = (reply ← read_body x; lift (check_response x reply))
              (mkConnection (cn_incoming c ++ encode_raw rb) s')) as Hreq.
  { unfold request, mbind, M_bind at 1, lift at 1. rewrite Hn. simpl.
    unfold M_bind at 1, lift at 1. rewrite Hb. simpl. rewrite decide_False by lia.
    unfold M_bind at 1, send_frame. rewrite He, Hw, Hf. unfold deliver. by rewrite Hp. }
  rewrite Hreq. unfold mbind, M_bind, lift. split.
  - intros Hc. rewrite Hc. simpl. rewrite <-(app_nil_r (encode_raw rb)), read_body_frame by done.
    unfold check_response. by rewrite Hr.
  - intros old (rb0 & Hc & Hl0 & Hr0). rewrite Hc, read_body_frame by done.
    unfold check_response. rewrite Hr0. exists (mkConnection (encode_raw rb) s').
    split_and!; [done| |done]. exists rb. done.
Qed.

(** A call that runs out of time while it waits leaves the response behind. *)
Lemma request_expired peer x method payload s resp s' :
  calm x → cl_expiry x = Some (MidRead 0) → replies peer x method payload s resp s' →
  ∃ c', request peer x method payload (mkConnection [] s) = (Err ClTimeout, c') ∧
    holds c' resp ∧ cn_peer c' = s'.
Proof.
  intros [Hw Hf] He (now & b & rb & Hn & Hb & Hlb & Hp & Hlr & Hr).
  unfold request, mbind, M_bind at 1, lift at 1. rewrite Hn. simpl.
  unfold M_bind at 1, lift at 1. rewrite Hb. simpl. rewrite decide_False by lia.
  unfold M_bind, send_frame. rewrite He, Hw, Hf. unfold deliver. simpl. rewrite Hp.
  unfold read_body. rewrite He. eexists. split; [done|]. split; [|done]. exists rb. done.
Qed.
End RemoteCall.

(** ** The daemon at the other end *)

Section Daemon.
Context {S : Type} `{Serde NKIRequest} `{Serde (NKIResponse Value)} `{Serde Value}.
Context (dispatch : NKIRequest → M S string (NKIOutcome Value)) (session_token : string).

(** One turn of the connection loop: the responses as the frames written. *)
Definition daemon_peer (t : Tick) (b : bytes) (s : S) : bytes * S :=
  let '(rs, _, s') := handle_connection dispatch session_token [t] b s in
  (concat (encode_raw <$> omap to_vec rs), s').

Lemma daemon_replies x method payload t s now b o s' rb :
  let r := client_request x now method payload in
  let resp := mkResponse (nk_request_id r) NKI_VERSION (tk_sent t) (tk_trace t) o in
  cl_now x = Ok now → to_vec r = Some b → Z.of_nat (length b) ≤ MAX_FRAME_BYTES →
  envelope_refusal (P := Value) (tk_now t) session_token r = None → dispatch r s = (Ok o, s') →
  to_vec resp = Some rb → Z.of_nat (length rb) ≤ MAX_FRAME_BYTES → legible r → legible resp →
  replies (daemon_peer t) x method payload s resp s'.
Proof.
  intros r resp Hn Hb Hlb He Hd Hrb Hlr Lr Lresp. exists now, b, rb. split_and!; [done..| |done|].
  2:{ by apply Lresp. }
  unfold daemon_peer. cbn [handle_connection].
  rewrite <-(app_nil_r (encode_raw b)), read_frame_encode by done.
  rewrite (Lr b Hb). unfold answer, mbind, M_bind. rewrite He, Hd. simpl.
  unfold resp in Hrb. simpl in Hrb. rewrite Hrb. simpl. by rewrite app_nil_r.
Qed.

(** The client's envelope is in order for a daemon that shares its token. *)
Lemma client_request_admitted x now method payload t :
  cl_request_id x ≠ "" → cl_idempotency_key x ≠ "" →
  session_token = "" ∨ cl_token x = Some session_token →
  tk_now t ≤ Z.min (now + DEFAULT_TIMEOUT_us) i64_max →
  envelope_refusal (P := Value) (tk_now t) session_token (client_request x now method payload)
  = None.
Proof.
  intros Hid Hkey Htok Ht. unfold envelope_refusal, client_request. simpl.
  rewrite !(bool_decide_eq_false_2 (_ = "")) by done. simpl.
  assert (negb (bool_decide (session_token = "")) &&
          negb (constant_time_equal (string_bytes (default "" (cl_token x)))
                  (string_bytes session_token)) = false) as ->.
  { destruct Htok as [->| ->]; [by rewrite bool_decide_eq_true_2|]. simpl.
    rewrite (proj2 (constant_time_equal_exact _ _)) by done. by rewrite andb_false_r. }
  by rewrite (proj2 (Z.ltb_ge _ _) Ht), andb_false_r.
Qed.

(** C13: A remote call. A client that has the daemon's session token, if there is
    one, and calls a method on a connection with nothing left over of an earlier
    call, on a stream that works and within its own time limit, with the daemon's
    clock at most the thirty seconds of the deadline ahead of its own, gets exactly
    what the daemon's dispatcher returns for the method and payload, as a value or as
    an error, and leaves the connection with nothing left over; provided the request
    and the response fit a frame and read back from their JSON, which values with
    floating-point numbers or of a depth over 128 need not do. *)
Theorem remote_call x method payload t s now b o s' rb :
  let r := client_request x now method payload in
  let resp := mkResponse (nk_request_id r) NKI_VERSION (tk_sent t) (tk_trace t) o in
  calm x → cl_expiry x = None → cl_now x = Ok now →
  cl_request_id x ≠ "" → cl_idempotency_key x ≠ "" →
  session_token = "" ∨ cl_token x = Some session_token →
  tk_now t ≤ Z.min (now + DEFAULT_TIMEOUT_us) i64_max →
  to_vec r = Some b → Z.of_nat (length b) ≤ MAX_FRAME_BYTES →
  dispatch r s = (Ok o, s') →
  to_vec resp = Some rb → Z.of_nat (length rb) ≤ MAX_FRAME_BYTES → legible r → legible resp →
  request (daemon_peer t) x method payload (mkConnection [] s)
  = (match o with Success v => Ok v | Error_ e => Err (ClNki e) end, mkConnection [] s').
Proof.
  intros r resp Hc He Hn Hid Hkey Htok Ht Hb Hlb Hd Hrb Hlr Lr Lresp.
  destruct (request_replied (daemon_peer t) x method payload (mkConnection [] s) _ s' Hc He
    (daemon_replies x method payload t s now b o s' rb Hn Hb Hlb
       (client_request_admitted x now method payload t Hid Hkey Htok Ht) Hd Hrb Hlr Lr Lresp)) as [H3 _].
  rewrite H3 by done. unfold judged. simpl. rewrite !decide_False by (simpl; tauto). done.
Qed.
End Daemon.

(** ** After a timeout *)

Section Desynchronized.
Context {S : Type} `{Serde NKIRequest} `{Serde (NKIResponse Value)} `{Serde Value}.

(** Calls one after the other on a connection, each answered by the daemon under
    its own identifier: the identifiers and what the client returned. *)
Inductive answered : @Connection S → list (string * result ClientError Value) → @Connection S → Prop :=
| AnsweredNone c : answered c [] c
| AnsweredCall peer x method payload c resp s' res c' l c'' :
    calm x → cl_expiry x = None → replies peer x method payload (cn_peer c) resp s' →
    np_request_id _ resp = cl_request_id x →
    request peer x method payload c = (res, c') → answered c' l c'' →
    answered c ((cl_request_id x, res) :: l) c''.

Lemma stale_forever c old l c' :
  answered c l c' → holds c old → NoDup (np_request_id _ old :: l.*1) →
  Forall (λ p, p.2 = Err (ClProtocol "response request_id does not match request")) l.
Proof.
  intros Ha. revert old.
  induction Ha as [c|peer x method payload c resp s' res c1 l c2 Hc He Hr Hid Hreq _ IH];
    intros old Hold Hnd; [done|].
  destruct (proj2 (request_replied peer x method payload c resp s' Hc He Hr) old Hold)
    as (c3 & Hreq' & Hh & _).
  rewrite Hreq in Hreq'. injection Hreq' as -> ->.
  rewrite fmap_cons, !NoDup_cons in Hnd. simpl in Hnd. destruct Hnd as (Hne & Hnin & Hnd).
  constructor.
  - simpl. unfold judged. rewrite decide_True; [done|]. set_solver.
  - apply (IH resp Hh). rewrite Hid. by apply NoDup_cons.
Qed.

(** A timed-out call spoils its connection. If a call runs out of time while
    it waits for a response that the daemon does send, then every later call on the
    connection fails, for good, with a mismatch of identifiers, although the daemon
    executes it and answers: each call reads the response of the one before. *)
Theorem timeout_spoils_connection peer x method payload s resp s' c l c' :
  calm x → cl_expiry x = Some (MidRead 0) → replies peer x method payload s resp s' →
  np_request_id _ resp = cl_request_id x →
  (request peer x method payload (mkConnection [] s)).2 = c →
  answered c l c' → NoDup (cl_request_id x :: l.*1) →
  Forall (λ p, p.2 = Err (ClProtocol "response request_id does not match request")) l.
Proof.
  intros Hc He Hr Hid Hreq Ha Hnd.
  destruct (request_expired peer x method payload s resp s' Hc He Hr) as (c1 & Hreq' & Hh & _).
  rewrite Hreq' in Hreq. simpl in Hreq. subst c1.
  apply (stale_forever c resp l c' Ha Hh). by rewrite Hid.
Qed.
End Desynchronized.

(** ** A concrete connection *)

#[local] Instance cl_requests : Serde NKIRequest := countable_serde _.
Lemma cl_request_legible (r : NKIRequest) : legible r.
Proof. intros b. apply countable_serde_laws. Qed.
(** Responses that carry a text can be written. *)
#[local] Instance cl_responses : Serde (NKIResponse Value) := {|
  to_vec r :=
    match np_outcome _ r with
    | Success (VString text) =>
        Some (bits_of_pos (encode (np_request_id _ r, np_nki_version _ r,
                np_server_timestamp_us _ r, np_trace_id _ r, text)))
    | _ => None
    end;
  from_slice b :=
    '(id, version, sent, trace, text) ← decode (pos_of_bits b);
    Some (mkResponse id version sent trace (Success (VString text)));
  to_vec_text _ := "";
  from_slice_text _ := ""
|}.
Lemma cl_response_legible (r : NKIResponse Value) : legible r.
Proof.
  destruct r as [id v sent trace [p|e]]; intros doc; [|done]. destruct p as [| | |text| |]; try done. intros [= <-].
  cbn [from_slice cl_responses]. by rewrite pos_of_bits_of_pos, decode_encode.
Qed.
#[local] Instance cl_values : Serde Value :=
  {| to_vec _ := Some []; from_slice _ := None; to_vec_text _ := ""; from_slice_text _ := "" |}.

(** A daemon that counts the requests it is given. *)
Definition cl_dispatch (r : NKIRequest) : M nat string (NKIOutcome Value) :=
  λ n, (Ok (Success (VString (nk_method r))), S n).
Definition cl_call (id : string) (expiry : option Expiry) : CallIo :=
  mkCallIo id "k" (Ok 5) (Some "token") None None "early eof" expiry.
Definition cl_peer : bytes → nat → bytes * nat := daemon_peer cl_dispatch "token" (mkTick 6 7 "t").
Definition cl_resp (id : string) : NKIResponse Value :=
  mkResponse id NKI_VERSION 7 "t" (Success (VString "HealthCheck")).

Definition cl_body (id : string) : bytes :=
  default [] (to_vec (client_request (cl_call id None) 5 "HealthCheck" VNull)).
Definition cl_reply (id : string) : bytes := default [] (to_vec (cl_resp id)).

Lemma remote_call_witness :
  request cl_peer (cl_call "a" None) "HealthCheck" VNull (mkConnection [] 0%nat)
  = (Ok (VString "HealthCheck"), mkConnection [] 1%nat).
Proof.
  apply (remote_call cl_dispatch "token" (cl_call "a" None) "HealthCheck" VNull (mkTick 6 7 "t")
    0%nat 5 (cl_body "a") (Success (VString "HealthCheck")) 1%nat (cl_reply "a"));
    try reflexivity; try done.
  - by right.
  - apply cl_request_legible.
  - apply cl_response_legible.
Defined.

Lemma cl_replies id expiry n :
  id ∈ ["a"; "b"] →
  replies cl_peer (cl_call id expiry) "HealthCheck" VNull n (cl_resp id) (S n).
Proof.
  intros Hid.
  assert (bool_decide (to_vec (client_request (cl_call id None) 5 "HealthCheck" VNull) = Some (cl_body id) ∧
            Z.of_nat (length (cl_body id)) ≤ MAX_FRAME_BYTES ∧
            Z.of_nat (length (cl_reply id)) ≤ MAX_FRAME_BYTES ∧ id ≠ "") = true) as Hb.
  { apply list_elem_of_In in Hid as [<-|[<-|[]]]; vm_compute; reflexivity. }
  apply bool_decide_eq_true in Hb as (Hb & Hlb & Hlr & Hne).
  apply (daemon_replies cl_dispatch "token" (cl_call id expiry) "HealthCheck" VNull (mkTick 6 7 "t")
    n 5 (cl_body id) (Success (VString "HealthCheck")) (S n) (cl_reply id));
    [done..| |done|done|done|apply cl_request_legible|apply cl_response_legible].
  apply client_request_admitted; [done|done|by right|]. vm_compute. discriminate.
Qed.

(** The first call times out, the second is executed and fails. *)
Definition cl_after : @Connection nat :=
  (request cl_peer (cl_call "a" (Some (MidRead 0))) "HealthCheck" VNull (mkConnection [] 0%nat)).2.
Lemma timeout_spoils_connection_witness :
  let later := request cl_peer (cl_call "b" None) "HealthCheck" VNull cl_after in
  later.1 = Err (ClProtocol "response request_id does not match request") ∧
  cn_peer later.2 = 2%nat.
Proof.
  intros later. split; [|vm_compute; reflexivity].
  assert (Forall (λ p, p.2 = Err (ClProtocol "response request_id does not match request"))
            [("b", later.1)]) as Hall.
  { apply (timeout_spoils_connection cl_peer (cl_call "a" (Some (MidRead 0))) "HealthCheck" VNull
      0%nat (cl_resp "a") 1%nat cl_after _ later.2).
    - split; reflexivity.
    - reflexivity.
    - apply cl_replies, list_elem_of_here.
    - reflexivity.
    - reflexivity.
    - eapply (AnsweredCall cl_peer (cl_call "b" None) "HealthCheck" VNull cl_after (cl_resp "b"));
        [split; reflexivity|reflexivity| |reflexivity|apply surjective_pairing|constructor].
      apply cl_replies, list_elem_of_further, list_elem_of_here.
    - apply (bool_decide_unpack _). vm_compute. exact I. }
  rewrite Forall_singleton in Hall. exact Hall.
Defined.
