(* ===== verification/PyClient.v ===== *)
(** * The client in Python

    [sdk/python/src/nous_kernel/client.py]: one connection per request, the
    envelope as a JSON text, the response read in whatever pieces the socket
    delivers, and the typed calls. Composed with the daemon's side of a
    connection, in [Nki], it is a remote call like that of the Rust client in
    [Client]. *)

From S2P Require Import Prelude Float64 Journal Contracts Nki Intelligence ControlPlane Client.
Local Open Scope Z_scope.

(** The exceptions the module raises or lets pass. *)
Inductive PyError : Type :=
| PyValueError (text : string)
| PyTypeError (text : string)
| PyAttributeError (text : string)
| PyConnectionError (text : string)
| PyOSError (text : string)
| PyNkiError (body : NKIErrorBody).

(** What the module uses of Python's library: JSON as text in UTF-8, [str] of a
    value that is no string, [int] of texts and floats, [strip] and [lower], and
    the characters of a string. *)
Class PyPlatform : Type := {
  py_dumps : Value → bytes;
  py_loads : bytes → result string Value;
  py_repr : Value → string;
  py_int_text : string → option Z;
  py_int_float : f64 → option Z;
  py_strip : string → string;
  py_lower : string → string;
  py_chars : string → list string
}.

(** What one call finds: two drawn identifiers, the clock with the timeout added,
    in microseconds, the session token of the environment, the failures of
    connecting and sending, how many bytes (less one) the socket delivers at most
    at each read, and what a read finds at the end of what was sent: the end of
    the stream, or an error such as a timeout. *)
Record PyIo : Type := mkPyIo {
  py_request_id : string;
  py_idempotency_key : string;
  py_deadline : Z;
  py_token : option string;
  py_connect : option string;
  py_sendall : option (nat * string);
  py_pieces : list nat;
  py_end : option string
}.

Definition CONTROL_ASSET_KINDS : list string :=
  ["project"; "model"; "graph"; "dataset"; "experiment"; "artifact"].

Section PyClient.
Context `{PyPlatform} `{Base64}.

(** ** Values *)

(** [str(v)], [bool(v)], [int(v)] and [list(v)] of what JSON gives. *)
Definition py_str (v : Value) : string := match v with VString s => s | _ => py_repr v end.
Definition py_bool (v : Value) : bool :=
  match v with
  | VNull | VBool false | VNumber (PosInt 0) | VString "" | VArray [] | VObject [] => false
  | VNumber (Float x) => negb (f64_eqb x (f64_of_Z 0))
  | _ => true
  end.
Definition py_int (v : Value) : result PyError Z :=
  match v with
  | VNumber (PosInt n) | VNumber (NegInt n) => Ok n
  | VBool b => Ok (if b then 1 else 0)
  | VNumber (Float x) => ok_or (py_int_float x) (PyValueError "cannot convert float to integer")
  | VString s => ok_or (py_int_text s) (PyValueError "invalid literal for int()")
  | _ => Err (PyTypeError "int() argument must be a string or a number")
  end.
Definition py_list (v : Value) : result PyError (list Value) :=
  match v with
  | VArray l => Ok l
  | VObject l => Ok (VString <$> l.*1)
  | VString s => Ok (VString <$> py_chars s)
  | _ => Err (PyTypeError "object is not iterable")
  end.

(** [v == n] for an integer that is neither 0 nor 1. *)
Definition py_is_int (v : option Value) (n : Z) : bool :=
  match v with
  | Some (VNumber (PosInt m)) => m =? n
  | Some (VNumber (Float x)) => f64_eqb x (f64_of_Z n)
  | _ => false
  end.
Definition py_is_str (v : option Value) (s : string) : bool :=
  match v with Some (VString t) => bool_decide (t = s) | _ => false end.

(** ** The envelope *)

Definition py_payload (payload : option (list (string * Value))) : bytes :=
  py_dumps (VObject (default [] payload)).
Definition py_envelope (x : PyIo) (method : string) (payload : option (list (string * Value))) :
    Value :=
  VObject [("request_id", VString (py_request_id x));
           ("idempotency_key", VString (py_idempotency_key x));
           ("nki_version", VNumber (PosInt NKI_VERSION));
           ("principal_id", VString "python-sdk");
           ("session_token", VString (default "" (py_token x)));
           ("namespace", VString "default");
           ("deadline_us", VNumber (if decide (py_deadline x < 0) then NegInt (py_deadline x)
                                    else PosInt (py_deadline x)));
           ("traceparent", VString ""); ("tracestate", VString "");
           ("feature_flags", VArray []); ("method", VString method);
           ("payload", VString (b64_encode (py_payload payload)))].

(** [Deserialize] of [NKIRequest]. *)
Definition field_int (lo hi : Z) (v : Value) (key : string) : result string Z :=
  match value_get v key with
  | Some (VNumber (PosInt n)) | Some (VNumber (NegInt n)) =>
      if decide (lo ≤ n ≤ hi) then Ok n else Err ("invalid value for field `" +:+ key +:+ "`")
  | Some _ => Err ("invalid type for field `" +:+ key +:+ "`")
  | None => Err ("missing field `" +:+ key +:+ "`")
  end.
Definition field_strings (v : Value) (key : string) : result string (list string) :=
  match value_get v key with
  | Some (VArray l) =>
      ok_or (mapM value_as_str l) ("invalid type for field `" +:+ key +:+ "`")
  | Some _ => Err ("invalid type for field `" +:+ key +:+ "`")
  | None => Err ("missing field `" +:+ key +:+ "`")
  end.
Definition request_of_value (v : Value) : result string NKIRequest :=
  match v with
  | VObject _ =>
      request_id ← field_string v "request_id";
      idempotency_key ← field_string v "idempotency_key";
      nki_version ← field_int 0 u32_max v "nki_version";
      principal_id ← field_string v "principal_id";
      session_token ← default_string v "session_token";
      namespace ← field_string v "namespace";
      deadline_us ← field_int i64_min i64_max v "deadline_us";
      traceparent ← field_string v "traceparent";
      tracestate ← field_string v "tracestate";
      feature_flags ← field_strings v "feature_flags";
      method ← field_string v "method";
      text ← field_string v "payload";
      payload ← base64_deserialize text;
      Ok (mkNki request_id idempotency_key nki_version principal_id session_token namespace
            deadline_us traceparent tracestate feature_flags method payload)
  | _ => Err "expected struct NKIRequest"
  end.

(** [Serialize] of [NKIResponse], its outcome flattened. *)
Definition response_to_value (r : NKIResponse Value) : Value :=
  VObject ([("request_id", VString (np_request_id _ r));
            ("nki_version", VNumber (PosInt (np_nki_version _ r)));
            ("server_timestamp_us", VNumber (PosInt (np_server_timestamp_us _ r)));
            ("trace_id", VString (np_trace_id _ r))] ++
           match outcome_to_value (np_outcome _ r) with VObject l => l | _ => [] end).

(** ** The response *)

(** [NkiClient._parse_response]. *)
Definition py_error (error : Value) : result PyError NKIErrorBody :=
  let get key d := default d (value_get error key) in
  delay ← py_int (get "recommended_delay_ms" (VNumber (PosInt 0)));
  Ok (mkNkiError (py_str (get "code" (VString "UNKNOWN")))
        (py_str (get "message" (VString "kernel request failed")))
        (py_str (get "failed_phase" (VString ""))) (py_str (get "cause" (VString "")))
        (py_bool (get "retryable" (VBool false))) delay).
Definition parse_response (response : Value) (request_id : string) : result PyError Value :=
  match response with
  | VObject _ =>
      if negb (py_is_str (value_get response "request_id") request_id) then
        Err (PyValueError "NKI response request_id does not match the request")
      else if negb (py_is_int (value_get response "nki_version") NKI_VERSION) then
        Err (PyValueError "NKI response version is unsupported")
      else
        let status := value_get response "status" in
        if py_is_str status "error" then
          match value_get response "error" with
          | Some (VObject l) => body ← py_error (VObject l); Err (PyNkiError body)
          | _ => Err (PyValueError "NKI error response has no structured error body")
          end
        else if negb (py_is_str status "success") then
          Err (PyValueError "NKI response status is unsupported")
        else Ok (default VNull (value_get response "payload"))
  | _ => Err (PyTypeError "NKI response must be an object")
  end.

(** ** The socket *)

Record PySocket : Type := mkSocket { sk_incoming : bytes; sk_pieces : list nat; sk_end : option string }.

(** [connection.recv(n)] for a positive [n]. *)
Definition recv (n : nat) : M PySocket PyError bytes := λ c,
  match sk_incoming c, sk_end c with
  | [], Some e => (Err (PyOSError e), c)
  | [], None => (Ok [], c)
  | incoming, _ =>
      let k := match sk_pieces c with p :: _ => Nat.min n (S p) | [] => n end in
      (Ok (take k incoming), mkSocket (drop k incoming) (tail (sk_pieces c)) (sk_end c))
  end.

(** [NkiClient._read_exact]: every turn of its loop reads at least one byte or
    raises, so as many turns as bytes asked for are enough. *)
Fixpoint read_loop (fuel : nat) (size : nat) (chunks : bytes) : M PySocket PyError bytes :=
  if decide (length chunks < size)%nat then
    match fuel with
    | O => throw (PyOSError "")
    | S fuel =>
        chunk ← recv (size - length chunks);
        if decide (chunk = []) then
          throw (PyConnectionError "NKI connection closed before the frame completed")
        else read_loop fuel size (chunks ++ chunk)
    end
  else mret chunks.
Definition py_read_exact (size : nat) : M PySocket PyError bytes := read_loop size size [].

(** The frame of a response. *)
Definition py_read_body : M PySocket PyError bytes :=
  header ← py_read_exact 4;
  match header with
  | [a; b; c; d] =>
      let size := of_be32 a b c d in
      if decide (MAX_FRAME_BYTES < size) then throw (PyValueError "NKI response exceeds 16 MiB")
      else py_read_exact (Z.to_nat size)
  | _ => throw (PyOSError "")
  end.

Section Calls.
Context {S : Type} (peer : bytes → S → bytes * S).

(** [NkiClient.request]: what it returns, and the daemon afterwards. *)
Definition py_request (x : PyIo) (method : string) (payload : option (list (string * Value))) :
    M S PyError Value := λ s,
  let body := py_dumps (py_envelope x method payload) in
  if decide (MAX_FRAME_BYTES < Z.of_nat (length body)) then
    (Err (PyValueError "NKI request exceeds 16 MiB"), s)
  else
    match py_connect x with
    | Some e => (Err (PyOSError e), s)
    | None =>
        match py_sendall x with
        | Some (n, e) => (Err (PyOSError e), (peer (take n (encode_raw body)) s).2)
        | None =>
            let '(reply, s') := peer (encode_raw body) s in
            (response ← (py_read_body (mkSocket reply (py_pieces x) (py_end x))).1;
             v ← map_err PyValueError (py_loads response);
             parse_response v (py_request_id x), s')
        end
    end.

(** ** The typed calls *)

Definition py_asset_kind (kind : string) : result PyError string :=
  let normalized := py_lower (py_strip kind) in
  if decide (normalized ∈ CONTROL_ASSET_KINDS) then Ok normalized
  else Err (PyValueError "asset kind must be project, model, graph, dataset, experiment, or artifact").

Definition py_int_value (n : Z) : Value := VNumber (if decide (n < 0) then NegInt n else PosInt n).

(** [list(payload.get(key, []))]. *)
Definition py_member_list (payload : Value) (key : string) : result PyError (list Value) :=
  match payload with
  | VObject _ => py_list (default (VArray []) (value_get payload key))
  | _ => Err (PyAttributeError "object has no attribute 'get'")
  end.

Definition py_health (x : PyIo) := py_request x "HealthCheck" (Some [("deep", VBool false)]).
Definition py_submit (x : PyIo) (operation : list (string * Value)) :=
  py_request x "SubmitWorkload" (Some operation).
Definition py_cancel (x : PyIo) (workload_id : string) :=
  py_request x "CancelWorkload" (Some [("workload_id", VString workload_id)]).
Definition py_get_workload (x : PyIo) (workload_id : string) :=
  py_request x "GetWorkload" (Some [("workload_id", VString workload_id)]).
Definition py_list_workloads (x : PyIo) (limit : Z) : M S PyError (list Value) :=
  if decide (1 ≤ limit ≤ 1000) then
    payload ← py_request x "ListWorkloads" (Some [("limit", py_int_value limit)]);
    lift (py_member_list payload "workloads")
  else throw (PyValueError "limit must be between 1 and 1000").
Definition py_put_asset (x : PyIo) (kind : string) (document : list (string * Value))
    (expected_generation : option Z) : M S PyError Value :=
  k ← lift (py_asset_kind kind);
  let payload := [("schema_version", VNumber (PosInt 1)); ("kind", VString k);
                  ("document", VObject document)] in
  match expected_generation with
  | None => py_request x "PutControlAsset" (Some payload)
  | Some g =>
      if decide (g < 1) then throw (PyValueError "expected_generation must be positive")
      else py_request x "PutControlAsset" (Some (payload ++ [("expected_generation", py_int_value g)]))
  end.
Definition py_get_asset (x : PyIo) (kind asset_id : string) : M S PyError Value :=
  k ← lift (py_asset_kind kind);
  py_request x "GetControlAsset"
    (Some [("schema_version", VNumber (PosInt 1)); ("kind", VString k); ("id", VString asset_id)]).
Definition py_list_assets (x : PyIo) (kind : string) : M S PyError (list Value) :=
  k ← lift (py_asset_kind kind);
  payload ← py_request x "ListControlAssets"
    (Some [("schema_version", VNumber (PosInt 1)); ("kind", VString k)]);
  lift (py_member_list payload "assets").
Definition py_delete_asset (x : PyIo) (kind asset_id : string) (expected_generation : Z) :
    M S PyError unit :=
  if decide (expected_generation < 1) then
    throw (PyValueError "expected_generation must be positive")
  else
    k ← lift (py_asset_kind kind);
    _ ← py_request x "DeleteControlAsset"
      (Some [("selector", VObject [("schema_version", VNumber (PosInt 1)); ("kind", VString k);
                                   ("id", VString asset_id)]);
             ("expected_generation", py_int_value expected_generation)]);
    mret tt.
Definition py_metrics (x : PyIo) := py_request x "GetMetrics" (Some []).
End Calls.
End PyClient.

(** ** Reading in pieces *)

Section Reading.
Context `{PyPlatform}.

(** A read gives some bytes of what has arrived, and no more than asked for. *)
Lemma recv_some n l rest ps e :
  (0 < n)%nat → length l = n →
  ∃ l1 l2, l = l1 ++ l2 ∧ l1 ≠ [] ∧
    recv n (mkSocket (l ++ rest) ps e) = (Ok l1, mkSocket (l2 ++ rest) (tail ps) e).
Proof.
  intros Hn Hl. set (k := match ps with p :: _ => Nat.min n (S p) | [] => n end).
  assert (0 < k ≤ length l)%nat as Hk by (unfold k; destruct ps; lia).
  exists (take k l), (drop k l). split_and!; [by rewrite take_drop| |].
  - intros E. apply (f_equal length) in E. rewrite length_take in E. simpl in E. lia.
  - unfold recv. simpl. destruct (l ++ rest) as [|b bs] eqn:E.
    { apply (f_equal length) in E. rewrite length_app in E. simpl in E. lia. }
    rewrite <-E. fold k. rewrite take_app_le, drop_app_le by lia. by destruct e.
Qed.

(** However the bytes arrive, a complete read returns exactly the bytes asked
    for and leaves the others. *)
Lemma read_loop_complete fuel size chunks l rest ps e :
  (length chunks + length l = size)%nat → (length l ≤ fuel)%nat →
  ∃ ps', read_loop fuel size chunks (mkSocket (l ++ rest) ps e)
         = (Ok (chunks ++ l), mkSocket rest ps' e).
Proof.
  revert chunks l ps. induction fuel as [|fuel IH]; intros chunks l ps Hs Hf; simpl.
  - destruct l; [|simpl in Hf; lia]. simpl in Hs. rewrite decide_False by lia.
    exists ps. by rewrite app_nil_r.
  - case_decide as Hd.
    + destruct (recv_some (size - length chunks) l rest ps e) as (l1 & l2 & -> & Hne & Hr);
        [lia|lia|].
      unfold mbind, M_bind. rewrite Hr. rewrite decide_False by done.
      rewrite length_app in Hs, Hf. destruct l1 as [|b l1]; [done|]. simpl in Hs, Hf.
      destruct (IH (chunks ++ b :: l1) l2 (tail ps)) as [ps' Hps'];
        [rewrite length_app; simpl; lia|lia|]. exists ps'. rewrite Hps'. by rewrite <-app_assoc.
    + destruct l; [|simpl in Hs; lia]. exists ps. by rewrite app_nil_r.
Qed.

Lemma read_exact_complete l rest ps e :
  ∃ ps', py_read_exact (length l) (mkSocket (l ++ rest) ps e) = (Ok l, mkSocket rest ps' e).
Proof. apply (read_loop_complete (length l) (length l) []); simpl; lia. Qed.

(** If the stream ends early the read raises, whatever arrived. *)
Lemma read_loop_short fuel size chunks l ps e :
  (length chunks + length l < size)%nat → (length l < fuel)%nat →
  (read_loop fuel size chunks (mkSocket l ps e)).1 =
  Err (match e with
       | Some t => PyOSError t
       | None => PyConnectionError "NKI connection closed before the frame completed"
       end).
Proof.
  revert chunks l ps. induction fuel as [|fuel IH]; intros chunks l ps Hs Hf; [lia|]. simpl.
  rewrite decide_True by lia. unfold mbind, M_bind. destruct l as [|b l].
  { by destruct e. }
  set (n := (size - length chunks)%nat).
  set (k := match ps with p :: _ => Nat.min n (S p) | [] => n end).
  assert (0 < k)%nat as Hk by (unfold k, n; simpl in Hs; destruct ps; lia).
  assert (recv n (mkSocket (b :: l) ps e) =
    (Ok (take k (b :: l)), mkSocket (drop k (b :: l)) (tail ps) e)) as ->
    by (unfold recv; simpl; fold k; by destruct e).
  rewrite decide_False by (by destruct k; [lia|]).
  apply IH.
  - rewrite length_app, length_take, length_drop. lia.
  - rewrite length_drop. simpl in *. lia.
Qed.

(** A closed connection is reported as such: with fewer bytes than the frame
    announces, in whatever pieces, the read raises. *)
Theorem short_frame_raises size l ps :
  (length l < size)%nat →
  (py_read_exact size (mkSocket l ps None)).1 =
  Err (PyConnectionError "NKI connection closed before the frame completed").
Proof. intros Hl. by apply (read_loop_short size size [] l ps None). Qed.

Lemma py_read_body_frame rb rest ps e :
  Z.of_nat (length rb) ≤ MAX_FRAME_BYTES →
  (py_read_body (mkSocket (encode_raw rb ++ rest) ps e)).1 = Ok rb.
Proof.
  intros Hb. unfold MAX_FRAME_BYTES in Hb.
  destruct (encode_raw_cons rb rest) as (a & b & c & d & He & Hlen); [lia|].
  unfold py_read_body. rewrite He. unfold mbind, M_bind.
  change (a :: b :: c :: d :: rb ++ rest) with ([a; b; c; d] ++ rb ++ rest).
  destruct (read_exact_complete [a; b; c; d] (rb ++ rest) ps e) as [ps1 H1'].
  change (length [a; b; c; d]) with 4%nat in H1'. rewrite H1'.
  rewrite Hlen, decide_False by (unfold MAX_FRAME_BYTES; lia). rewrite Nat2Z.id.
  destruct (read_exact_complete rb rest ps1 e) as [ps2 H2']. by rewrite H2'.
Qed.
End Reading.

(** ** A call to the daemon *)

(** The two JSON libraries speak of the same texts: the daemon reads from the
    envelope, whose members are texts, integers and an empty list, what they say. *)
Class WireLaws `{PyPlatform} `{Base64} `{Serde NKIRequest} : Prop := {
  wire_request x method payload :
    from_slice (py_dumps (py_envelope x method payload))
    = result_ok (request_of_value (py_envelope x method payload))
}.

(** The request the daemon reads. *)
Definition py_nki_request `{PyPlatform} (x : PyIo) (method : string)
    (payload : option (list (string * Value))) : NKIRequest :=
  mkNki (py_request_id x) (py_idempotency_key x) NKI_VERSION "python-sdk"
    (default "" (py_token x)) "default" (py_deadline x) "" "" [] method (py_payload payload).

Section PyRemoteCall.
Context `{PyPlatform} `{Base64} `{!Base64Laws} `{Serde NKIRequest} `{Serde (NKIResponse Value)}.
Context `{!WireLaws}.

Lemma py_envelope_read x method payload :
  i64_min ≤ py_deadline x ≤ i64_max → py_payload payload ≠ [] → octets (py_payload payload) →
  request_of_value (py_envelope x method payload) = Ok (py_nki_request x method payload).
Proof.
  intros Hd Hp Ho. pose proof (payload_text_roundtrip (py_payload payload) Ho) as Hr.
  unfold base64_serialize in Hr. rewrite decide_False in Hr by done.
  unfold request_of_value, py_envelope. cbn -[base64_deserialize].
  unfold field_int. simpl.
  destruct (decide (py_deadline x < 0)); simpl; (rewrite decide_True by done); simpl;
    rewrite Hr; done.
Qed.

(** What Python makes of a response under its identifier. *)
Lemma parse_response_exact r :
  np_nki_version _ r = NKI_VERSION →
  parse_response (response_to_value r) (np_request_id _ r) =
  match np_outcome _ r with Success v => Ok v | Error_ e => Err (PyNkiError e) end.
Proof.
  destruct r as [id v sent trace [p|[code message phase cause [] delay]]]; simpl; intros ->;
    unfold parse_response, py_is_str, py_is_int; simpl; by rewrite bool_decide_eq_true_2.
Qed.

Context {S : Type} (dispatch : NKIRequest → M S string (NKIOutcome Value)) (session_token : string).

(** A call from Python. A client with the daemon's session token and a deadline
    the daemon's clock has not passed gets exactly what the dispatcher returns for
    the method and payload, as a value or as the structured error, in whatever
    pieces the response arrives and whatever comes after it, provided request and
    response fit a frame, Python reads from the response the object that was
    written, and the connection works. *)
Theorem py_remote_call x method payload t s o s' rb :
  let r := py_nki_request x method payload in
  let body := py_dumps (py_envelope x method payload) in
  py_connect x = None → py_sendall x = None →
  py_request_id x ≠ "" → py_idempotency_key x ≠ "" → py_payload payload ≠ [] →
  octets (py_payload payload) →
  session_token = "" ∨ py_token x = Some session_token →
  i64_min ≤ py_deadline x ≤ i64_max → tk_now t ≤ py_deadline x →
  Z.of_nat (length body) ≤ MAX_FRAME_BYTES →
  dispatch r s = (Ok o, s') →
  to_vec (mkResponse (nk_request_id r) NKI_VERSION (tk_sent t) (tk_trace t) o) = Some rb →
  Z.of_nat (length rb) ≤ MAX_FRAME_BYTES →
  py_loads rb =
    Ok (response_to_value (mkResponse (nk_request_id r) NKI_VERSION (tk_sent t) (tk_trace t) o)) →
  py_request (daemon_peer dispatch session_token t) x method payload s
  = (match o with Success v => Ok v | Error_ e => Err (PyNkiError e) end, s').
Proof.
  intros r body Hc Hsend Hid Hkey Hp Ho Htok Hdl Ht Hb Hd Hrb Hlr Hread.
  assert (envelope_refusal (P := Value) (tk_now t) session_token r = None) as Hadm.
  { unfold envelope_refusal, r, py_nki_request. simpl.
    rewrite !(bool_decide_eq_false_2 (_ = "")) by done. simpl.
    assert (negb (bool_decide (session_token = "")) &&
            negb (constant_time_equal (string_bytes (default "" (py_token x)))
                    (string_bytes session_token)) = false) as ->.
    { destruct Htok as [->| ->]; [by rewrite bool_decide_eq_true_2|]. simpl.
      rewrite (proj2 (constant_time_equal_exact _ _)) by done. by rewrite andb_false_r. }
    by rewrite (proj2 (Z.ltb_ge _ _) Ht), andb_false_r. }
  assert (daemon_peer dispatch session_token t (encode_raw body) s = (encode_raw rb, s')) as Hpeer.
  { unfold daemon_peer. cbn [handle_connection].
    rewrite <-(app_nil_r (encode_raw body)), read_frame_encode by done.
    unfold body. rewrite wire_request, py_envelope_read by done. cbn [result_ok].
    unfold answer, mbind, M_bind. fold r. rewrite Hadm, Hd. simpl in Hrb |- *. rewrite Hrb. simpl.
    by rewrite app_nil_r. }
  unfold py_request. fold body. rewrite decide_False by lia. rewrite Hc, Hsend, Hpeer.
  rewrite <-(app_nil_r (encode_raw rb)), py_read_body_frame by done.
  cbn [mbind result_bind]. rewrite Hread. simpl.
  f_equal. apply (parse_response_exact
    (mkResponse (nk_request_id r) NKI_VERSION (tk_sent t) (tk_trace t) o)). done.
Qed.
End PyRemoteCall.

(** ** A concrete call *)

(** JSON values can be enumerated, so there is a text for each. *)
Fixpoint value_tree (v : Value) : gen_tree (bool + string + (Z + Z + f64)) :=
  match v with
  | VNull => GenNode 0 []
  | VBool b => GenLeaf (inl (inl b))
  | VNumber (PosInt n) => GenLeaf (inr (inl (inl n)))
  | VNumber (NegInt n) => GenLeaf (inr (inl (inr n)))
  | VNumber (Float x) => GenLeaf (inr (inr x))
  | VString s => GenLeaf (inl (inr s))
  | VArray l => GenNode 1 (value_tree <$> l)
  | VObject l => GenNode 2 ((λ '(k, v), GenNode 3 [GenLeaf (inl (inr k)); value_tree v]) <$> l)
  end.
Fixpoint tree_value (t : gen_tree (bool + string + (Z + Z + f64))) : Value :=
  match t with
  | GenLeaf (inl (inl b)) => VBool b
  | GenLeaf (inl (inr s)) => VString s
  | GenLeaf (inr (inl (inl n))) => VNumber (PosInt n)
  | GenLeaf (inr (inl (inr n))) => VNumber (NegInt n)
  | GenLeaf (inr (inr x)) => VNumber (Float x)
  | GenNode 1 l => VArray (tree_value <$> l)
  | GenNode 2 l =>
      VObject ((λ t, match t with
                     | GenNode _ [GenLeaf (inl (inr k)); t'] => (k, tree_value t')
                     | _ => ("", VNull)
                     end) <$> l)
  | GenNode _ _ => VNull
  end.
Lemma value_tree_inv : ∀ v, tree_value (value_tree v) = v.
Proof.
  fix IH 1. intros [|b|[n|n|x]|s|l|l]; try reflexivity; simpl; f_equal.
  - induction l as [|v l IHl]; [reflexivity|]. simpl. f_equal; [apply IH|exact IHl].
  - induction l as [|[k v] l IHl]; [reflexivity|]. simpl. f_equal; [|exact IHl].
    f_equal. apply IH.
Qed.

#[local] Instance py_platform : PyPlatform := {|
  py_dumps v := bits_of_pos (encode (value_tree v));
  py_loads b := ok_or (tree_value <$> decode (pos_of_bits b)) "Expecting value";
  py_repr _ := ""; py_int_text _ := None; py_int_float _ := None;
  py_strip s := s; py_lower s := s; py_chars s := [s]
|}.
Lemma py_loads_dumps v : py_loads (py_dumps v) = Ok v.
Proof. simpl. rewrite pos_of_bits_of_pos, decode_encode. simpl. by rewrite value_tree_inv. Qed.

#[local] Existing Instances grouped_base64 grouped_base64_laws.
#[local] Instance py_requests : Serde NKIRequest := {|
  to_vec _ := None; from_slice b := result_ok (py_loads b) ≫= λ v, result_ok (request_of_value v);
  to_vec_text _ := ""; from_slice_text _ := ""
|}.
#[local] Instance py_responses : Serde (NKIResponse Value) := {|
  to_vec r := Some (py_dumps (response_to_value r)); from_slice _ := None;
  to_vec_text _ := ""; from_slice_text _ := ""
|}.
#[local] Instance py_wire : WireLaws.
Proof.
  split. intros x method payload. cbn [from_slice py_requests]. by rewrite py_loads_dumps.
Qed.

Definition py_call (pieces : list nat) : PyIo :=
  mkPyIo "a" "k" 30000000 (Some "token") None None pieces None.
Definition py_dispatch (r : NKIRequest) : M nat string (NKIOutcome Value) :=
  λ n, (Ok (if decide (nk_method r = "GetMetrics") then Success (VString (nk_principal_id r))
            else nki_error "METHOD_NOT_SUPPORTED" "" false), S n).

Lemma py_remote_call_witness :
  py_metrics (daemon_peer py_dispatch "token" (mkTick 6 7 "t")) (py_call [0%nat; 2%nat; 4%nat]) 0%nat
  = (Ok (VString "python-sdk"), 1%nat).
Proof.
  apply (py_remote_call py_dispatch "token" (py_call [0%nat; 2%nat; 4%nat]) "GetMetrics" (Some [])
    (mkTick 6 7 "t") 0%nat (Success (VString "python-sdk")) 1%nat
    (py_dumps (response_to_value (mkResponse "a" NKI_VERSION 7 "t" (Success (VString "python-sdk"))))));
    [done|done|discriminate|discriminate|vm_compute; discriminate| |by right|
     split; discriminate|discriminate|vm_compute; discriminate|reflexivity|reflexivity|
     vm_compute; discriminate|apply py_loads_dumps].
  apply (bool_decide_unpack _). vm_compute. exact I.
Defined.

Lemma short_frame_raises_witness :
  (py_read_exact 4 (mkSocket [0; 0] [0%nat] None)).1 =
  Err (PyConnectionError "NKI connection closed before the frame completed").
Proof. apply (short_frame_raises 4 [0; 0] [0%nat]). simpl. lia. Defined.
