(* ===== verification/Executor.v ===== *)
(** * Boot and durable execution

    [crates/nous-kernel-core/src/lib.rs] ([BootCore], [DurableExecutor]) and
    [fault.rs]: an operation is journaled as an intent, executed by a provider,
    its receipt recorded, and committed, so that after a crash at any point it
    can be resumed. The provider is a parameter: what it answers is an argument
    of each call, and every call is logged. *)

From S2P Require Import Prelude Errors Journal Provider.
Local Open Scope Z_scope.

(** ** Boot *)

Inductive KernelState : Type :=
| Starting | KRecovering | Ready | KDegraded | KFailed | ShuttingDown.
#[global] Instance KernelState_eq_dec : EqDecision KernelState.
Proof. solve_decision. Defined.

Record BootCore : Type := mkBoot {
  bc_state : Mutex KernelState;
  bc_integrity_failures : Mutex (list Z);
  bc_journal : Journal
}.

Section Boot.
Context `{JournalEnv}.

Definition boot_set_state (s : KernelState) : M BootCore KernelError unit := λ c,
  match lock (bc_state c) with
  | None => (Err (KJournal "kernel state lock is poisoned"), c)
  | Some _ => (Ok tt, mkBoot (mutex_set s (bc_state c)) (bc_integrity_failures c) (bc_journal c))
  end.

(** [BootCore::open] on the tables found at the path; [status] is the engine's
    answer to the storage check. *)
Definition boot_open (f : OpenFaults) (io : Io) (status : result string string) (db : Db) :
    result KernelError BootCore :=
  j ← map_err journal_error (open f db);
  let core := mkBoot (mutex_new KRecovering) (mutex_new []) j in
  corrupted ← map_err journal_error (verify_integrity io status j);
  Ok (mkBoot (mutex_new (if decide (corrupted = []) then Ready else KDegraded))
             (mutex_new corrupted) j).

(** [BootCore::state]. *)
Definition boot_state (c : BootCore) : KernelState := default KFailed (lock (bc_state c)).

(** [BootCore::integrity_failures]. *)
Definition integrity_failures (io : Io) (status : result string string) (verify : bool) :
    M BootCore KernelError (list Z) := λ c,
  let poisoned_cache := KJournal "integrity cache lock is poisoned" in
  if verify then
    match verify_integrity io status (bc_journal c) with
    | Err e => (Err (journal_error e), c)
    | Ok corrupted =>
        match lock (bc_integrity_failures c) with
        | None => (Err poisoned_cache, c)
        | Some _ => (Ok corrupted, mkBoot (bc_state c)
                       (mutex_set corrupted (bc_integrity_failures c)) (bc_journal c))
        end
    end
  else (ok_or (lock (bc_integrity_failures c)) poisoned_cache, c).

(** [BootCore::shutdown]. *)
Definition boot_shutdown (c : BootCore) : BootCore := (boot_set_state ShuttingDown c).2.
End Boot.

(** ** Receipts and fault points *)

Record OperationReceipt : Type := mkOpReceipt {
  or_operation_id : string;
  or_input_digest : string;
  or_output_digest : string;
  or_snapshot_digest : string;
  or_provider_revision : string;
  or_result : string;
  or_completed_at_us : Z
}.
#[global] Instance OperationReceipt_eq_dec : EqDecision OperationReceipt.
Proof. solve_decision. Defined.

Inductive FaultPoint : Type :=
| EffectAfterIntent | EffectBeforeExecute | EffectAfterExecute | EffectAfterReceipt
| EffectAfterCommit | ResourceAfterRelease.
#[global] Instance FaultPoint_eq_dec : EqDecision FaultPoint.
Proof. solve_decision. Defined.

(** [FaultPoint::as_str]. *)
Definition fault_as_str (p : FaultPoint) : string :=
  match p with
  | EffectAfterIntent => "effect.after_intent"
  | EffectBeforeExecute => "effect.before_execute"
  | EffectAfterExecute => "effect.after_execute"
  | EffectAfterReceipt => "effect.after_receipt"
  | EffectAfterCommit => "effect.after_commit"
  | ResourceAfterRelease => "resource.after_release"
  end.

(** How an execution ends: with the code's [Result], or with the process dying
    at a fault point. *)
Inductive Halt : Type :=
| Failed_ (e : KernelError)
| Crashed (p : FaultPoint).

(** [fault::trigger]: the process aborts at the selected point. *)
Definition trigger {S} (crash : option FaultPoint) (p : FaultPoint) : M S Halt unit :=
  if decide (crash = Some p) then throw (Crashed p) else mret tt.

(** ** The executor *)

(** The journal, and the operations the provider was asked to execute, latest
    first. *)
Record XState : Type := mkX { x_journal : Journal; x_calls : list string }.

(** What the environment does during one execution: storage at each journal
    access, the provider's answer, whether the cancellation token is set, and
    where the process dies, if it does. *)
Record ExecIo : Type := mkExecIo {
  xio_committed : Io;
  xio_intent : Io;
  xio_received : Io;
  xio_receipt : Io;
  xio_commit : Io;
  xio_cancelled : bool;
  xio_provider : OperationRequest → result KernelError OperationReceipt;
  xio_crash : option FaultPoint
}.

Definition intent_key (op : string) : string := "operation:" +:+ op +:+ ":intent".
Definition receipt_key (op : string) : string := "operation:" +:+ op +:+ ":receipt".
Definition commit_key (op : string) : string := "operation:" +:+ op +:+ ":commit".

(** The entry [DurableExecutor::append] writes. *)
Definition operation_entry (r : OperationRequest) (t : EntryType) (object_type phase : string)
    (payload : bytes) (key : option string) : JournalEntry :=
  mkEntry 0 (rq_workload_id r) t object_type (rq_operation_id r) None phase 1 payload
    (rq_operation_id r) "nousd" key 0 [].

(** The two durable marks of an operation: its receipt and its commit. *)
Inductive mark : Type := MReceipt | MCommit.
Definition mark_type (k : mark) : EntryType :=
  match k with MReceipt => Observation | MCommit => Commit end.
Definition mark_object (k : mark) : string :=
  match k with MReceipt => "OperationReceipt" | MCommit => "StepCommit" end.
Definition mark_key (k : mark) (op : string) : string :=
  match k with MReceipt => receipt_key op | MCommit => commit_key op end.

Definition is_mark (k : mark) (op : string) (e : JournalEntry) : Prop :=
  je_entry_type e = mark_type k ∧ je_object_type e = mark_object k ∧ je_object_id e = op.
#[global] Instance is_mark_dec k op e : Decision (is_mark k op e).
Proof. unfold is_mark. apply _. Defined.

Section Executor.
Context `{JournalEnv} `{Serde OperationRequest} `{Serde OperationReceipt}.

(** [DurableExecutor::append]. *)
Definition exec_append `{Serde T} (io : Io) (r : OperationRequest) (t : EntryType)
    (object_type phase : string) (payload : T) (key : option string) :
    M XState Halt unit := λ s,
  match to_vec payload with
  | None => (Err (Failed_ (KSerialization (to_vec_text payload))), s)
  | Some b =>
      match append io (operation_entry r t object_type phase b key) (x_journal s) with
      | (Err e, j') => (Err (Failed_ (journal_error e)), mkX j' (x_calls s))
      | (Ok _, j') => (Ok tt, mkX j' (x_calls s))
      end
  end.

(** The reverse search shared by [committed_receipt] and [received_receipt]. *)
Definition latest_receipt (p : JournalEntry → Prop) `{∀ e, Decision (p e)}
    (es : list JournalEntry) : option OperationReceipt :=
  '(_, e) ← list_find p (reverse es); from_slice (je_payload e).

(** [DurableExecutor::committed_receipt] and [received_receipt]. *)
Definition committed_receipt (io : Io) (r : OperationRequest) :
    M XState Halt (option OperationReceipt) := λ s,
  (map_err (λ e, Failed_ (journal_error e))
     (latest_receipt (is_mark MCommit (rq_operation_id r))
        <$> read_workload io (x_journal s) (rq_workload_id r)), s).

Definition received_receipt (io : Io) (r : OperationRequest) :
    M XState Halt (option OperationReceipt) := λ s,
  (map_err (λ e, Failed_ (journal_error e))
     (latest_receipt (is_mark MReceipt (rq_operation_id r))
        <$> read_workload io (x_journal s) (rq_workload_id r)), s).

(** The provider call: logged, with the answer the environment gives. *)
Definition call_provider (x : ExecIo) (r : OperationRequest) : M XState Halt OperationReceipt :=
  λ s, (map_err Failed_ (xio_provider x r), mkX (x_journal s) (rq_operation_id r :: x_calls s)).

(** The [match] on [received_receipt]: a recorded receipt, or a provider call
    whose receipt is recorded. *)
Definition obtain_receipt (x : ExecIo) (r : OperationRequest) : M XState Halt OperationReceipt :=
  received ← received_receipt (xio_received x) r;
  match received with
  | Some receipt => mret receipt
  | None =>
      _ ← trigger (xio_crash x) EffectBeforeExecute;
      receipt ← call_provider x r;
      _ ← trigger (xio_crash x) EffectAfterExecute;
      _ ← exec_append (xio_receipt x) r Observation "OperationReceipt" "RECEIVED" receipt
            (Some (receipt_key (rq_operation_id r)));
      mret receipt
  end.

(** [DurableExecutor::execute_cancellable]. *)
Definition execute_cancellable (x : ExecIo) (r : OperationRequest) :
    M XState Halt OperationReceipt :=
  committed ← committed_receipt (xio_committed x) r;
  match committed with
  | Some receipt => mret receipt
  | None =>
      _ ← exec_append (xio_intent x) r Intent "Operation" "PENDING" r
            (Some (intent_key (rq_operation_id r)));
      _ ← trigger (xio_crash x) EffectAfterIntent;
      if xio_cancelled x then throw (Failed_ (KCancelled (rq_operation_id r)))
      else
        receipt ← obtain_receipt x r;
        _ ← trigger (xio_crash x) EffectAfterReceipt;
        _ ← exec_append (xio_commit x) r Commit "StepCommit" "COMMITTED" receipt
              (Some (commit_key (rq_operation_id r)));
        _ ← trigger (xio_crash x) EffectAfterCommit;
        mret receipt
  end.

(** One iteration of the loop of [pending_operations]. *)
Definition pending_entry (pending : gmap string OperationRequest) (e : JournalEntry) :
    gmap string OperationRequest :=
  if decide (je_entry_type e = Intent ∧ je_object_type e = "Operation") then
    match from_slice (je_payload e) with
    | Some r => <[rq_operation_id r := r]> pending
    | None => pending
    end
  else if decide ((je_entry_type e = Commit ∧ je_object_type e = "StepCommit") ∨
                  (je_entry_type e = Abort ∧ je_object_type e = "Operation"))
  then delete (je_object_id e) pending
  else pending.

Definition pending_map (es : list JournalEntry) : gmap string OperationRequest :=
  foldl pending_entry ∅ es.

(** [DurableExecutor::pending_operations]. *)
Definition pending_operations `{HashOrder} (io : Io) (j : Journal) :
    result KernelError (list OperationRequest) :=
  es ← map_err journal_error (read_from io j 0);
  Ok ((hash_iter (pending_map es)).*2).
End Executor.

(** ** Keys

    The three keys of an operation determine it and never coincide. *)

Lemma op_key_inj a b s t :
  String.length s = String.length t → "operation:" +:+ a +:+ s = "operation:" +:+ b +:+ t →
  a = b ∧ s = t.
Proof. intros Hl Hk%string_app_cancel. by apply string_app_inj. Qed.

Lemma intent_key_inj a b : intent_key a = intent_key b → a = b.
Proof. intros Hk. by apply op_key_inj in Hk as [-> _]. Qed.

Lemma receipt_key_alt a : receipt_key a = "operation:" +:+ (a +:+ ":") +:+ "receipt".
Proof. unfold receipt_key. by rewrite string_app_assoc. Qed.

Lemma mark_key_inj k l a b : mark_key k a = mark_key l b → k = l ∧ a = b.
Proof.
  destruct k, l; simpl; rewrite ?receipt_key_alt; intros Hk; apply op_key_inj in Hk as [Ha Hs];
    try done.
  split; [done|]. by apply string_app_inj in Ha as [-> _].
Qed.

Lemma intent_key_not_mark k a b : intent_key a ≠ mark_key k b.
Proof.
  destruct k; simpl; rewrite ?receipt_key_alt; intros Hk; by apply op_key_inj in Hk as [_ ?].
Qed.

(** ** What the executor's journal looks like *)

Section ExecutorProofs.
Context `{JournalEnv} `{Serde OperationRequest} `{Serde OperationReceipt}.

(** What is asked of the callers, and not checked by the code: [wl] names the one
    workload each operation identifier is used under, and [ok] is anything else they
    promise of their requests. *)
Context (wl : string → string) (ok : OperationRequest → Prop).

Definition submitted (r : OperationRequest) : Prop :=
  rq_workload_id r = wl (rq_operation_id r) ∧ ok r.

Definition is_intent (op : string) (e : JournalEntry) : Prop :=
  je_entry_type e = Intent ∧ je_object_type e = "Operation" ∧ je_object_id e = op.

#[local] Instance is_intent_dec op e : Decision (is_intent op e).
Proof. unfold is_intent. apply _. Defined.

(** An entry written by the executor, or one that uses none of its types and
    keys. *)
Record entry_spec (e : JournalEntry) : Prop := {
  es_mark : ∀ k, je_object_type e = mark_object k →
    je_entry_type e = mark_type k ∧ je_idempotency_key e = Some (mark_key k (je_object_id e)) ∧
    je_workload_id e = wl (je_object_id e) ∧
    ∃ rc : OperationReceipt, from_slice (je_payload e) = Some rc;
  es_mark_key : ∀ k op, je_idempotency_key e = Some (mark_key k op) → is_mark k op e;
  es_intent : je_entry_type e = Intent → je_object_type e = "Operation" →
    ∃ r : OperationRequest, from_slice (je_payload e) = Some r ∧
      rq_operation_id r = je_object_id e ∧ submitted r;
  es_intent_key : ∀ op, je_idempotency_key e = Some (intent_key op) → is_intent op e
}.

(** No intent of an operation follows its commit. *)
Definition settled (es : list JournalEntry) : Prop :=
  ∀ i k e e' op, (i < k)%nat → es !! i = Some e → is_mark MCommit op e →
    es !! k = Some e' → ¬ is_intent op e'.

(** Every mark of the journal is the one of its operation; and, moreover, no
    committed operation is intended again. *)
Record marks_inv (j : Journal) : Prop := {
  xi_ok : journal_ok j;
  xi_entries : Forall entry_spec (entries j)
}.
Record exec_inv (j : Journal) : Prop := {
  xi_marks :> marks_inv j;
  xi_settled : settled (entries j)
}.

(** An entry of another component. *)
Definition foreign (e : JournalEntry) : Prop :=
  (∀ k, je_object_type e ≠ mark_object k) ∧
  ¬ (je_entry_type e = Intent ∧ je_object_type e = "Operation") ∧
  (∀ k op, je_idempotency_key e ≠ Some (mark_key k op)) ∧
  (∀ op, je_idempotency_key e ≠ Some (intent_key op)).

Lemma foreign_spec e : foreign e → entry_spec e.
Proof. intros (Ho & Hi & Hk & Hik). split; naive_solver. Qed.

(** An intent recorded again, for another provider, under a key of its own. *)
Record rebinding (e : JournalEntry) : Prop := {
  rb_type : je_entry_type e = Intent;
  rb_object : je_object_type e = "Operation";
  rb_request : ∃ r : OperationRequest, from_slice (je_payload e) = Some r ∧
    rq_operation_id r = je_object_id e ∧ submitted r;
  rb_mark_key : ∀ k op, je_idempotency_key e ≠ Some (mark_key k op);
  rb_intent_key : ∀ op, je_idempotency_key e ≠ Some (intent_key op)
}.

Lemma rebinding_spec e : rebinding e → entry_spec e.
Proof.
  intros [Ht Ho Hr Hm Hi]. split.
  - intros k Hk. rewrite Ho in Hk. by destruct k.
  - intros k op Hk. by destruct (Hm k op).
  - done.
  - intros op Hk. by destruct (Hi op).
Qed.

(** Filling in sequence, time and checksum changes nothing these speak of. *)
Lemma entry_spec_finalize seq now e : entry_spec e → entry_spec (finalize seq now e).
Proof. intros [? ? ? ?]. by split. Qed.

Lemma settled_snoc es e :
  settled (es ++ [e]) ↔
  settled es ∧ ∀ op, is_intent op e → Forall (λ x, ¬ is_mark MCommit op x) es.
Proof.
  split.
  - intros Hs. split.
    + intros i k x y op Hik Hi Hm Hk.
      apply (Hs i k x y op); try done; by apply lookup_app_l_Some.
    + intros op He. apply Forall_lookup. intros i x Hi Hm.
      apply (Hs i (length es) x e op); try done.
      * by eapply lookup_lt_Some.
      * by apply lookup_app_l_Some.
      * by apply list_lookup_middle.
  - intros [Hs He] i k x y op Hik Hi Hm Hk Hy.
    apply lookup_app_Some in Hk as [Hk|[Hle Hk]].
    + apply lookup_app_Some in Hi as [Hi|[Hle _]]; [by eapply (Hs i k)|].
      apply lookup_lt_Some in Hk. lia.
    + apply list_lookup_singleton_Some in Hk as [Hz <-].
      rewrite lookup_app_l in Hi by lia. apply He in Hy. rewrite Forall_lookup in Hy.
      by eapply Hy.
Qed.

Lemma marks_inv_push io e j :
  marks_inv j → entry_spec e → entry_wf e → next_seq j ≤ i64_max →
  (∀ k, je_idempotency_key e = Some k → ¬ key_used j k) →
  marks_inv (push io e j).
Proof.
  intros [Hok Hes] He Hwf Hn Hk. split.
  - by apply push_ok.
  - rewrite entries_push. apply Forall_app. split; [done|]. apply Forall_singleton.
    by apply entry_spec_finalize.
Qed.

Lemma settled_push io e j :
  (∀ op, is_intent op e → Forall (λ x, ¬ is_mark MCommit op x) (entries j)) →
  settled (entries j) → settled (entries (push io e j)).
Proof. intros Hm Hs. rewrite entries_push. by apply settled_snoc. Qed.

Lemma exec_inv_push io e j :
  exec_inv j → entry_spec e → entry_wf e → next_seq j ≤ i64_max →
  (∀ k, je_idempotency_key e = Some k → ¬ key_used j k) →
  (∀ op, is_intent op e → Forall (λ x, ¬ is_mark MCommit op x) (entries j)) →
  exec_inv (push io e j).
Proof. intros [Hm Hs] He Hwf Hn Hk Hi. split; [by apply marks_inv_push|by apply settled_push]. Qed.

(** An idempotency key in use belongs to an entry, and to only one. *)
Lemma key_used_entry j k :
  key_used j k ↔ ∃ e, e ∈ entries j ∧ je_idempotency_key e = Some k.
Proof.
  unfold key_used, entries. rewrite Exists_exists. split.
  - intros (r & Hr & Hk). exists (typed r). split; [by apply list_elem_of_fmap_2|done].
  - intros (e & (r & -> & Hr)%list_elem_of_fmap & Hk). eauto.
Qed.

Lemma entry_key_unique j e1 e2 k :
  journal_ok j → e1 ∈ entries j → e2 ∈ entries j →
  je_idempotency_key e1 = Some k → je_idempotency_key e2 = Some k → e1 = e2.
Proof.
  intros Hok (r1 & -> & Ha)%list_elem_of_fmap (r2 & -> & Hb)%list_elem_of_fmap E1 E2.
  by rewrite (journal_ok_key_unique j r1 r2 k).
Qed.

(** An operation has at most one receipt and one commit. *)
Lemma mark_unique j k op e1 e2 :
  marks_inv j → e1 ∈ entries j → e2 ∈ entries j → is_mark k op e1 → is_mark k op e2 → e1 = e2.
Proof.
  intros [Hok Hes] Ha Hb (_ & Ho1 & <-) (_ & Ho2 & Hid).
  rewrite Forall_forall in Hes.
  destruct (es_mark _ (Hes _ Ha) k Ho1) as (_ & K1 & _).
  destruct (es_mark _ (Hes _ Hb) k Ho2) as (_ & K2 & _). rewrite Hid in K2.
  by eapply entry_key_unique.
Qed.

(** ** Reading marks *)

(** The receipt under a mark is found by the reverse search, and nothing else
    is. *)
Lemma latest_receipt_mark j k op rc :
  marks_inv j →
  latest_receipt (is_mark k op) (filter (λ e, je_workload_id e = wl op) (entries j)) = Some rc ↔
  ∃ e, e ∈ entries j ∧ is_mark k op e ∧ from_slice (je_payload e) = Some rc.
Proof.
  intros Hinv. unfold latest_receipt. set (es := filter _ _).
  assert (∀ e, e ∈ reverse es ∧ is_mark k op e ↔ e ∈ entries j ∧ is_mark k op e) as Hin.
  { intros e. rewrite elem_of_reverse. unfold es. rewrite list_elem_of_filter.
    split; [tauto|]. intros [He Hm]. split_and!; [|done|done].
    pose proof (xi_entries _ Hinv) as Hes. rewrite Forall_forall in Hes.
    destruct Hm as (_ & Ho & Hid). destruct (es_mark _ (Hes e He) k Ho) as (_ & _ & Hw & _).
    by rewrite Hw, Hid. }
  destruct (list_find _ _) as [[i e]|] eqn:Hf; simpl.
  - apply list_find_Some in Hf as (Hi & Hm & _). apply list_elem_of_lookup_2 in Hi.
    destruct (proj1 (Hin e) (conj Hi Hm)) as [He _]. split; [eauto|].
    intros (e' & He' & Hm' & Hp). by rewrite (mark_unique j k op e e').
  - split; [done|]. intros (e & He & Hm & _). apply list_find_None in Hf.
    rewrite Forall_forall in Hf. destruct (proj2 (Hin e) (conj He Hm)) as [Hi _].
    by destruct (Hf e Hi).
Qed.

Lemma mark_decodes j k op e :
  marks_inv j → e ∈ entries j → is_mark k op e →
  ∃ rc : OperationReceipt, from_slice (je_payload e) = Some rc.
Proof.
  intros [_ Hes] He (_ & Ho & _). rewrite Forall_forall in Hes.
  by destruct (es_mark _ (Hes e He) k Ho) as (_ & _ & _ & ?).
Qed.

(** ** One execution *)

Context `{!SerdeLaws OperationRequest} `{!SerdeLaws OperationReceipt}.

Definition has_mark (k : mark) (op : string) (rc : OperationReceipt) (s : XState) : Prop :=
  ∃ e, e ∈ entries (x_journal s) ∧ is_mark k op e ∧ from_slice (je_payload e) = Some rc.
Definition no_mark (k : mark) (op : string) (s : XState) : Prop :=
  ∀ e, e ∈ entries (x_journal s) → ¬ is_mark k op e.
Definition has_intent (op : string) (s : XState) : Prop :=
  ∃ e, e ∈ entries (x_journal s) ∧ is_intent op e.

(** The journal of [s] is well formed and extends the one of [s0]. *)
Definition extends (s0 s : XState) : Prop :=
  exec_inv (x_journal s) ∧ entries (x_journal s0) `prefix_of` entries (x_journal s).

(** It keeps what the journal of [s0] had. *)
Definition grows (s0 s : XState) : Prop :=
  marks_inv (x_journal s) ∧
  (settled (entries (x_journal s0)) → settled (entries (x_journal s))) ∧
  entries (x_journal s0) `prefix_of` entries (x_journal s).

Lemma grows_refl s : marks_inv (x_journal s) → grows s s.
Proof. intros Hm. by split; [|split]. Qed.

Lemma grows_extends s0 s : exec_inv (x_journal s0) → grows s0 s → extends s0 s.
Proof. intros [_ Hs] (Hm & Hk & Hp). split; [split; auto|done]. Qed.

Lemma extends_refl s : exec_inv (x_journal s) → extends s s.
Proof. by split. Qed.

Lemma extends_trans s1 s2 s3 : extends s1 s2 → extends s2 s3 → extends s1 s3.
Proof. intros [_ ?] [? ?]. split; [done|by etrans]. Qed.

Lemma has_mark_extends k op rc s s' : extends s s' → has_mark k op rc s → has_mark k op rc s'.
Proof.
  intros [_ [l Hl]] (e & He & Hm). exists e. split; [|done]. rewrite Hl. by apply elem_of_app; left.
Qed.

Lemma has_mark_unique k op rc rc' s :
  marks_inv (x_journal s) → has_mark k op rc s → has_mark k op rc' s → rc = rc'.
Proof.
  intros Hinv (e & He & Hm & Hp) (e' & He' & Hm' & Hp').
  assert (e = e') as -> by (by eapply mark_unique). congruence.
Qed.

(** Both searches return the receipt under the mark, if there is one. *)
Lemma read_mark_wp io r k (s : XState) :
  marks_inv (x_journal s) → submitted r →
  ∀ o s', (map_err (λ e, Failed_ (journal_error e))
      (latest_receipt (is_mark k (rq_operation_id r))
         <$> read_workload io (x_journal s) (rq_workload_id r)), s) = (Ok o, s') →
  s' = s ∧ match o with
           | Some rc => has_mark k (rq_operation_id r) rc s
           | None => no_mark k (rq_operation_id r) s
           end.
Proof.
  intros Hinv [Hw _] o s' Hr. destruct (read_workload _ _ _) as [es|] eqn:Hes; [|done].
  simpl in Hr. injection Hr as Ho <-. split; [done|].
  apply read_workload_inv in Hes as ->; [|apply Hinv]. rewrite Hw in Ho.
  destruct o as [rc|].
  - by apply (latest_receipt_mark _ k _ rc Hinv) in Ho.
  - intros e He Hm. destruct (mark_decodes _ k _ e Hinv He Hm) as [rc Hrc].
    assert (latest_receipt (is_mark k (rq_operation_id r)) (filter
      (λ e, je_workload_id e = wl (rq_operation_id r)) (entries (x_journal s))) = Some rc)
      by (apply latest_receipt_mark; eauto). congruence.
Qed.

Lemma exec_append_cases `{Serde T} io r t obj ph (payload : T) key s res s' :
  exec_append io r t obj ph payload (Some key) s = (res, s') →
  (∃ e, res = Err (Failed_ e) ∧ s' = s) ∨
  (∃ b, to_vec payload = Some b ∧ res = Ok tt ∧
    ((s' = mkX (push io (operation_entry r t obj ph b (Some key)) (x_journal s)) (x_calls s) ∧
      next_seq (x_journal s) ≤ i64_max ∧ ¬ key_used (x_journal s) key) ∨
     (s' = s ∧ key_used (x_journal s) key))).
Proof.
  unfold exec_append. destruct (to_vec payload) as [b|] eqn:Hb; [|naive_solver].
  destruct (append _ _ _) as [ra ja] eqn:Ha. apply append_cases in Ha
    as [(e & -> & ->)|[(k & row & Hk & Hrow & Hkr & -> & ->)|(-> & -> & Hn & Hk)]];
    intros [= <- <-].
  - left. eexists. split; [done|]. by destruct s.
  - right. exists b. split_and!; [done..|]. right. split; [by destruct s|].
    injection Hk as <-. apply Exists_exists. eauto.
  - right. exists b. split_and!; [done..|]. left. split_and!; [done..|]. by apply Hk.
Qed.

(** Recording a mark that is not there yet leaves exactly that mark. *)
Lemma append_mark_wp io r k ph rc s :
  marks_inv (x_journal s) → submitted r →
  no_mark k (rq_operation_id r) s →
  wp (exec_append io r (mark_type k) (mark_object k) ph rc
        (Some (mark_key k (rq_operation_id r))))
     (λ _ s', grows s s' ∧ x_calls s' = x_calls s ∧ has_mark k (rq_operation_id r) rc s' ∧
        ∀ k' op, k' ≠ k → no_mark k' op s → no_mark k' op s')
     (λ h s', s' = s ∧ ∃ e, h = Failed_ e) s.
Proof.
  intros Hinv [Hw _] Hno. unfold wp.
  destruct (exec_append _ _ _ _ _ _ _ s) as [res s'] eqn:Ha.
  apply exec_append_cases in Ha
    as [(e & -> & ->)|(b & Hb & -> & [(-> & Hn & Hk)|(-> & Hk)])]; [eauto| |].
  - set (e := operation_entry _ _ _ _ _ _). set (s' := mkX (push io e _) _).
    assert (entries (x_journal s') = entries (x_journal s)
      ++ [finalize (next_seq (x_journal s)) (io_now io) e]) as Hent by apply entries_push.
    assert (from_slice b = Some rc) as Hfrom by (by apply from_to_vec).
    split_and!; [split_and!| | |].
    + apply marks_inv_push; try done.
      * split; simpl.
        -- intros k' Ho. destruct k, k'; try done; (split_and!; [done..|eauto]).
        -- intros k' op [= Hke]. apply mark_key_inj in Hke as [<- <-]. done.
        -- intros Hi. by destruct k.
        -- intros op [= Hke]. symmetry in Hke. by apply intent_key_not_mark in Hke.
      * intros k' [= <-]. done.
    + apply settled_push. intros op (Ht & _). by destruct k.
    + rewrite Hent. by apply prefix_app_r.
    + done.
    + exists (finalize (next_seq (x_journal s)) (io_now io) e). rewrite Hent.
      split_and!; [set_solver|done|done].
    + intros k' op Hne Hno' e' He'. rewrite Hent in He'.
      apply elem_of_app in He' as [He'| ->%list_elem_of_singleton]; [by apply Hno'|].
      intros (_ & Ho & _). by destruct k, k'.
  - apply key_used_entry in Hk as (e & He & Hke).
    pose proof (xi_entries _ Hinv) as Hes. rewrite Forall_forall in Hes.
    destruct (Hno e He). by apply (es_mark_key _ (Hes e He)).
Qed.

(** Recording the intent leaves an intent and no mark. *)
Lemma append_intent_wp io r s :
  marks_inv (x_journal s) → submitted r → no_mark MCommit (rq_operation_id r) s →
  wp (exec_append io r Intent "Operation" "PENDING" r (Some (intent_key (rq_operation_id r))))
     (λ _ s', grows s s' ∧ x_calls s' = x_calls s ∧ has_intent (rq_operation_id r) s' ∧
        ∀ k op, no_mark k op s → no_mark k op s')
     (λ h s', s' = s ∧ ∃ e, h = Failed_ e) s.
Proof.
  intros Hinv Hsub Hnc. unfold wp.
  destruct (exec_append _ _ _ _ _ _ _ s) as [res s'] eqn:Ha.
  apply exec_append_cases in Ha
    as [(e & -> & ->)|(b & Hb & -> & [(-> & Hn & Hk)|(-> & Hk)])]; [eauto| |].
  - set (e := operation_entry _ _ _ _ _ _). set (s' := mkX (push io e _) _).
    assert (entries (x_journal s') = entries (x_journal s)
      ++ [finalize (next_seq (x_journal s)) (io_now io) e]) as Hent by apply entries_push.
    assert (from_slice b = Some r) as Hfrom by (by apply from_to_vec).
    split_and!; [split_and!| | |].
    + apply marks_inv_push; try done.
      * split; simpl.
        -- intros k Ho. by destruct k.
        -- intros k op [= Hke]. by apply intent_key_not_mark in Hke.
        -- intros _ _. eauto.
        -- intros op Hke. apply Some_inj, intent_key_inj in Hke as <-. done.
      * intros k' [= <-]. done.
    + apply settled_push. intros op (_ & _ & <-). by apply Forall_forall.
    + rewrite Hent. by apply prefix_app_r.
    + done.
    + exists (finalize (next_seq (x_journal s)) (io_now io) e). rewrite Hent.
      split; [set_solver|done].
    + intros k op Hno' e' He'. rewrite Hent in He'.
      apply elem_of_app in He' as [He'| ->%list_elem_of_singleton]; [by apply Hno'|].
      intros (_ & Ho & _). by destruct k.
  - split_and!; [by apply grows_refl|done| |done].
    apply key_used_entry in Hk as (e & He & Hke).
    pose proof (xi_entries _ Hinv) as Hes. rewrite Forall_forall in Hes.
    exists e. split; [done|]. by apply (es_intent_key _ (Hes e He)).
Qed.

(** What holds at every exit of an execution of [op] from [s0]: the journal
    only grew, and the provider was called at most once, and only if neither
    receipt nor commit was on record. *)
Record progress (op : string) (s0 s : XState) : Prop := {
  pg_extends : extends s0 s;
  pg_calls : x_calls s = x_calls s0 ∨
    (x_calls s = op :: x_calls s0 ∧ no_mark MReceipt op s0 ∧ no_mark MCommit op s0)
}.

(** At an early exit, moreover: if the process died, the intent is on record,
    and the commit exactly if it died after it; if it did not, no commit was
    recorded. *)
Record stopped (op : string) (s0 : XState) (h : Halt) (s : XState) : Prop := {
  st_progress : progress op s0 s;
  st_intent : ∀ p, h = Crashed p → has_intent op s;
  st_open : ∀ p, h = Crashed p → p ≠ EffectAfterCommit → no_mark MCommit op s;
  st_done : h = Crashed EffectAfterCommit → ∃ rc, has_mark MCommit op rc s;
  st_failed : ∀ e, h = Failed_ e → no_mark MCommit op s0 → no_mark MCommit op s
}.

Lemma stopped_failed op s0 e s :
  progress op s0 s → no_mark MCommit op s → stopped op s0 (Failed_ e) s.
Proof. by split. Qed.

Lemma stopped_open op s0 p s :
  progress op s0 s → has_intent op s → no_mark MCommit op s → p ≠ EffectAfterCommit →
  stopped op s0 (Crashed p) s.
Proof. intros. split; naive_solver. Qed.

Lemma has_intent_extends op s s' : extends s s' → has_intent op s → has_intent op s'.
Proof.
  intros [_ [l Hl]] (e & He & Hm). exists e. split; [|done]. rewrite Hl. by apply elem_of_app; left.
Qed.

Lemma trigger_wp {S} crash p (Q : unit → S → Prop) (R : Halt → S → Prop) s :
  Q tt s → R (Crashed p) s → wp (trigger crash p) Q R s.
Proof. intros. unfold wp, trigger. by case_decide. Qed.

Lemma no_mark_before k op s s' : extends s s' → no_mark k op s' → no_mark k op s.
Proof. intros [_ [l Hl]] Hno e He. apply Hno. rewrite Hl. by apply elem_of_app; left. Qed.

Lemma obtain_receipt_wp x r s0 s :
  submitted r →
  extends s0 s → x_calls s = x_calls s0 → has_intent (rq_operation_id r) s →
  no_mark MCommit (rq_operation_id r) s →
  wp (obtain_receipt x r)
     (λ rc s', progress (rq_operation_id r) s0 s' ∧ no_mark MCommit (rq_operation_id r) s' ∧
        has_mark MReceipt (rq_operation_id r) rc s' ∧ extends s s')
     (stopped (rq_operation_id r) s0) s.
Proof.
  intros Hw Hext Hc Hi Hnc. apply wp_bind.
  assert (progress (rq_operation_id r) s0 s) as Hp by (split; [done|by left]).
  destruct (received_receipt (xio_received x) r s) as [res s'] eqn:Hr. unfold wp at 1. rewrite Hr.
  destruct res as [o|h].
  2:{ unfold received_receipt in Hr. destruct (read_workload _ _ _); simplify_eq/=.
      by apply stopped_failed. }
  apply (read_mark_wp _ _ MReceipt) in Hr as [-> Ho]; [|apply Hext|done].
  destruct o as [rc|].
  { apply wp_ret. split_and!; [done|done|done|apply extends_refl, Hext]. }
  apply wp_bind, trigger_wp; [|by apply stopped_open].
  apply wp_bind. unfold wp at 1, call_provider.
  set (s1 := mkX (x_journal s) (rq_operation_id r :: x_calls s)).
  assert (progress (rq_operation_id r) s0 s1) as Hp1.
  { split; [exact Hext|]. right. simpl. rewrite Hc.
    split_and!; [done|by eapply no_mark_before|by eapply no_mark_before]. }
  destruct (xio_provider x r) as [rc|e]; simpl; [|by apply stopped_failed].
  apply wp_bind, trigger_wp; [|by apply stopped_open].
  apply wp_bind. eapply wp_mono;
    [apply (append_mark_wp (xio_receipt x) r MReceipt "RECEIVED" rc s1);
       [apply Hext|done|done]|..].
  - intros _ s' (Hx%grows_extends & Hc' & Hm & Hkeep); [|apply Hext]. apply wp_ret. split_and!; [|by apply Hkeep|done|done].
    split; [by eapply (extends_trans s0 s1)|]. rewrite Hc'. apply Hp1.
  - intros h s' [-> [e ->]]. by apply stopped_failed.
Qed.

(** The whole execution. *)
Lemma execute_wp x r s :
  exec_inv (x_journal s) → submitted r →
  wp (execute_cancellable x r)
     (λ rc s', progress (rq_operation_id r) s s' ∧ has_mark MCommit (rq_operation_id r) rc s' ∧
        (has_mark MCommit (rq_operation_id r) rc s ∧ s' = s ∨
         no_mark MCommit (rq_operation_id r) s ∧ has_mark MReceipt (rq_operation_id r) rc s'))
     (stopped (rq_operation_id r) s) s.
Proof.
  intros Hinv Hw. set (op := rq_operation_id r) in *.
  assert (progress op s s) as Hself by (split; [by apply extends_refl|by left]).
  apply wp_bind.
  destruct (committed_receipt (xio_committed x) r s) as [res s'] eqn:Hr. unfold wp at 1. rewrite Hr.
  destruct res as [o|h].
  2:{ unfold committed_receipt in Hr. destruct (read_workload _ _ _); simplify_eq/=. by split. }
  apply (read_mark_wp _ _ MCommit) in Hr as [-> Ho]; [|apply Hinv|done].
  destruct o as [rc|]; [apply wp_ret; naive_solver|].
  apply wp_bind. eapply wp_mono;
    [apply (append_intent_wp (xio_intent x) r s Hinv Hw Ho)| |
     intros h s' [-> [e ->]]; by apply stopped_failed].
  intros _ s1 (Hx1%grows_extends & Hc1 & Hi1 & Hk1); [|done]. specialize (Hk1 MCommit op Ho).
  assert (progress op s s1) as Hp1 by (split; [done|by left]).
  apply wp_bind, trigger_wp; [|by apply stopped_open].
  destruct (xio_cancelled x); [by apply stopped_failed|].
  apply wp_bind. eapply wp_mono; [by apply (obtain_receipt_wp x r s s1)| |by intros].
  intros rc s2 (Hp2 & Hnc2 & Hm2 & Hx12).
  pose proof (has_intent_extends _ _ _ Hx12 Hi1) as Hi2.
  apply wp_bind, trigger_wp; [|by apply stopped_open].
  apply wp_bind. eapply wp_mono;
    [apply (append_mark_wp (xio_commit x) r MCommit "COMMITTED" rc s2); [apply Hp2|done..]| |
     intros h s' [-> [e ->]]; by apply stopped_failed].
  intros _ s3 (Hx3%grows_extends & Hc3 & Hm3 & Hk3); [|apply Hp2].
  assert (progress op s s3) as Hp3.
  { split; [by eapply (extends_trans s s2); [apply Hp2|]|]. rewrite Hc3. apply Hp2. }
  apply wp_bind, trigger_wp.
  - apply wp_ret. split_and!; [done|done|]. right. split; [done|]. by eapply has_mark_extends.
  - split; [done| |naive_solver|eauto|naive_solver]. intros. by eapply has_intent_extends.
Qed.

(** ** Any history *)

(** Executions of any operations in any environment, appends of other
    components, an intent recorded again for an operation that is not
    committed, and restarts on the database left behind. *)
Inductive estep : XState → XState → Prop :=
| EExec x r s :
    submitted r → estep s (execute_cancellable x r s).2
| EForeign io e s :
    foreign e → entry_wf e → estep s (mkX (append io e (x_journal s)).2 (x_calls s))
| ERebind io e s :
    rebinding e → entry_wf e → no_mark MCommit (je_object_id e) s →
    estep s (mkX (append io e (x_journal s)).2 (x_calls s))
| ERestart j s :
    open no_open_faults (inner (conn (x_journal s))) = Ok j → estep s (mkX j (x_calls s)).

Definition exec_init : XState := mkX fresh_journal [].

Lemma exec_inv_same j j' :
  exec_inv j → journal_ok j' → entries j' = entries j → exec_inv j'.
Proof. intros [[_ ?] ?] ? He. by split; [split|]; rewrite ?He. Qed.

(** An append of another component, or of an intent. *)
Lemma append_grows io e s :
  marks_inv (x_journal s) → entry_spec e → entry_wf e →
  marks_inv (append io e (x_journal s)).2 ∧
  entries (x_journal s) `prefix_of` entries (append io e (x_journal s)).2 ∧
  ((∀ op, is_intent op e → Forall (λ x, ¬ is_mark MCommit op x) (entries (x_journal s))) →
   settled (entries (x_journal s)) → settled (entries (append io e (x_journal s)).2)).
Proof.
  intros Hinv He Hwf. destruct (append io e (x_journal s)) as [res j'] eqn:Ha. simpl.
  apply append_cases in Ha
    as [(? & -> & ->)|[(? & ? & _ & _ & _ & -> & ->)|(-> & -> & Hn & Hk)]]; [done..|].
  split_and!; [by apply marks_inv_push|rewrite entries_push; by apply prefix_app_r|].
  by apply settled_push.
Qed.

Lemma append_extends io e s :
  exec_inv (x_journal s) → entry_spec e → entry_wf e →
  (∀ op, is_intent op e → Forall (λ x, ¬ is_mark MCommit op x) (entries (x_journal s))) →
  extends s (mkX (append io e (x_journal s)).2 (x_calls s)).
Proof.
  intros Hinv He Hwf Hm. destruct (append_grows io e s Hinv He Hwf) as (Ha & Hp & Hs).
  apply grows_extends; [done|]. split_and!; [done|by apply Hs|done].
Qed.

Lemma estep_extends s s' : estep s s' → exec_inv (x_journal s) → extends s s'.
Proof.
  intros [x r s0 Hw|io e s0 Hf Hwf|io e s0 Hb Hwf Hnc|j s0 Ho] Hinv; simpl.
  - pose proof (execute_wp x r s0 Hinv Hw) as He. unfold wp in He.
    destruct (execute_cancellable x r s0) as [[rc|h] s1]; simpl; apply He.
  - apply append_extends; [done|by apply foreign_spec|done|].
    intros op (Ht & Ho & _). by destruct Hf as (_ & [] & _).
  - apply append_extends; [done|by apply rebinding_spec|done|].
    intros op (_ & _ & <-). by apply Forall_forall.
  - destruct (reopen_ok _ _ (xi_ok _ Hinv) Ho) as [Hok He].
    split; simpl; [by eapply exec_inv_same|by rewrite He].
Qed.

Lemma esteps_extends s s' : rtc estep s s' → exec_inv (x_journal s) → extends s s'.
Proof.
  induction 1 as [s|s1 s2 s3 Hs _ IH]; intros Hinv; [by apply extends_refl|].
  pose proof (estep_extends _ _ Hs Hinv) as Hx. eapply extends_trans; [exact Hx|].
  apply IH, Hx.
Qed.

(** No step calls the provider for an operation that is committed. *)
Lemma estep_calls s s' op rc :
  estep s s' → exec_inv (x_journal s) → has_mark MCommit op rc s →
  ∃ l, x_calls s' = l ++ x_calls s ∧ op ∉ l.
Proof.
  intros [x r s0 Hw|io e s0 Hf Hwf|io e s0 Hb Hwf Hnc|j s0 Ho] Hinv (e' & He & Hm & _); simpl;
    try (exists []; split; [done|apply not_elem_of_nil]).
  assert (progress (rq_operation_id r) s0 (execute_cancellable x r s0).2) as [_ [Hc|(Hc & _ & Hno)]].
  { pose proof (execute_wp x r s0 Hinv Hw) as Hx. unfold wp in Hx.
    destruct (execute_cancellable x r s0) as [[rc'|h] s1]; apply Hx. }
  - exists []. split; [done|apply not_elem_of_nil].
  - exists [rq_operation_id r]. split; [done|]. intros ->%list_elem_of_singleton.
    by apply (Hno e').
Qed.

Lemma esteps_calls s s' op rc :
  rtc estep s s' → exec_inv (x_journal s) → has_mark MCommit op rc s →
  ∃ l, x_calls s' = l ++ x_calls s ∧ op ∉ l.
Proof.
  induction 1 as [s|s1 s2 s3 Hs _ IH]; intros Hi Hm.
  { exists []. split; [done|apply not_elem_of_nil]. }
  destruct (estep_calls _ _ _ _ Hs Hi Hm) as (l & Hl & Hn).
  pose proof (estep_extends _ _ Hs Hi) as Hx.
  destruct (IH (proj1 Hx) (has_mark_extends _ _ _ _ _ Hx Hm)) as (l' & Hl' & Hn').
  exists (l' ++ l). rewrite Hl', Hl, app_assoc. split; [done|]. rewrite elem_of_app. tauto.
Qed.

Lemma exec_init_inv : exec_inv (x_journal exec_init).
Proof.
  split; [split; [apply fresh_journal_ok|constructor]|]. by intros i e op Hi.
Qed.

Lemma exec_reachable_inv s : rtc estep exec_init s → exec_inv (x_journal s).
Proof. intros Hr. by apply (esteps_extends _ _ Hr exec_init_inv). Qed.

(** A committed operation is answered from the journal. *)
Lemma execute_committed x r s rc :
  exec_inv (x_journal s) → submitted r →
  available_db (xio_committed x) (x_journal s) → has_mark MCommit (rq_operation_id r) rc s →
  execute_cancellable x r s = (Ok rc, s).
Proof.
  intros Hinv [Hw _] Hav Hm. unfold execute_cancellable.
  assert (committed_receipt (xio_committed x) r s = (Ok (Some rc), s)) as Hc.
  { unfold committed_receipt. rewrite read_workload_ok by (done || apply Hinv). simpl.
    rewrite Hw. by rewrite (proj2 (latest_receipt_mark _ MCommit _ rc Hinv) Hm). }
  by rewrite (M_bind_ok _ _ _ _ _ Hc).
Qed.

(** C1: Exactly one outcome per operation, for callers that use each operation
    identifier under one workload only ([submitted wl]; the executor does not check
    it, and [shared_operation_id_unrecorded] shows what happens otherwise). Once an
    execution of an operation has returned a receipt, then after any further such
    history (other executions one after the other, failures and crashes at any fault
    point, appends of other components that do not use the executor's record types
    and keys, restarts) executing it again, with storage that answers the first
    read, returns the same receipt, calls no provider and leaves the journal as it
    is. *)
Theorem committed_operation_replayed x y r s0 s1 s2 rc :
  rtc estep exec_init s0 → submitted r →
  execute_cancellable x r s0 = (Ok rc, s1) → rtc estep s1 s2 →
  available_db (xio_committed y) (x_journal s2) →
  execute_cancellable y r s2 = (Ok rc, s2).
Proof.
  intros Hr Hw He Hs Hav. pose proof (exec_reachable_inv s0 Hr) as Hinv.
  destruct (wp_elim _ _ _ _ _ _ (execute_wp x r s0 Hinv Hw) He) as (Hp & Hm & _).
  pose proof (esteps_extends _ _ Hs (proj1 (pg_extends _ _ _ Hp))) as Hx.
  apply execute_committed; [apply Hx|done|done|by eapply has_mark_extends].
Qed.

(** No second effect after a recorded receipt. In any history, one execution
    calls the provider at most once; it does not call it at all when a receipt
    or a commit of the operation is on record; and if a receipt is on record and
    the operation not yet committed, the receipt returned is the recorded one. *)
Theorem recorded_receipt_not_repeated x r s res s' :
  rtc estep exec_init s → submitted r →
  execute_cancellable x r s = (res, s') →
  (x_calls s' = x_calls s ∨ x_calls s' = rq_operation_id r :: x_calls s) ∧
  (∀ k rc0, has_mark k (rq_operation_id r) rc0 s → x_calls s' = x_calls s) ∧
  (∀ rc0 rc, has_mark MReceipt (rq_operation_id r) rc0 s →
     no_mark MCommit (rq_operation_id r) s → res = Ok rc → rc = rc0).
Proof.
  intros Hr Hw He. pose proof (exec_reachable_inv s Hr) as Hinv.
  pose proof (wp_elim _ _ _ _ _ _ (execute_wp x r s Hinv Hw) He) as Hwp.
  assert (progress (rq_operation_id r) s s') as [Hx Hc] by (destruct res; apply Hwp).
  split_and!.
  - naive_solver.
  - intros k rc0 (e & He' & Hm & _). destruct Hc as [?|(_ & H1' & H2')]; [done|].
    destruct k; [by destruct (H1' e He')|by destruct (H2' e He')].
  - intros rc0 rc Hm0 Hnc ->. destruct Hwp as (_ & _ & [[(e & He' & Hm & _) _]|[_ Hm]]).
    + by destruct (Hnc e He').
    + eapply has_mark_unique; [apply Hx|done|]. by eapply has_mark_extends.
Qed.

(** ** Pending operations *)

Definition is_abort (op : string) (e : JournalEntry) : Prop :=
  je_entry_type e = Abort ∧ je_object_type e = "Operation" ∧ je_object_id e = op.

(** The request of the latest intent of the operation. *)
Definition last_intent (op : string) (es : list JournalEntry) : option OperationRequest :=
  e ← last (filter (is_intent op) es); from_slice (je_payload e).

Lemma last_intent_snoc op es e :
  last_intent op (es ++ [e]) =
  if decide (is_intent op e) then from_slice (je_payload e) else last_intent op es.
Proof.
  unfold last_intent. rewrite filter_app. case_decide.
  - rewrite filter_cons_True by done. rewrite filter_nil, last_snoc. done.
  - rewrite filter_cons_False by done. by rewrite filter_nil, app_nil_r.
Qed.

Lemma last_intent_Some op es e :
  Forall entry_spec es → e ∈ es → is_intent op e →
  ∃ q, last_intent op es = Some q ∧ rq_operation_id q = op.
Proof.
  intros Hes He Hi. rewrite Forall_forall in Hes. unfold last_intent.
  assert (e ∈ filter (is_intent op) es) as Hf by (by apply list_elem_of_filter).
  destruct (last (filter (is_intent op) es)) as [e'|] eqn:Hl; simpl.
  - apply last_Some_elem_of, list_elem_of_filter in Hl as [(Ht & Ho & <-) He'].
    destruct (es_intent _ (Hes e' He') Ht Ho) as (q & -> & Hq & _). eauto.
  - apply last_None in Hl. rewrite Hl in Hf. by apply not_elem_of_nil in Hf.
Qed.

Lemma pending_entry_other op e p :
  entry_spec e → ¬ is_intent op e → ¬ is_mark MCommit op e → ¬ is_abort op e →
  pending_entry p e !! op = p !! op.
Proof.
  intros Hes Hi Hm Ha. unfold pending_entry. case_decide as Hint.
  - destruct (es_intent _ Hes) as (r & -> & Hr & _); [apply Hint..|].
    rewrite lookup_insert_ne; [done|]. rewrite Hr. unfold is_intent in Hi. naive_solver.
  - case_decide as Hd; [|done]. rewrite lookup_delete_ne; [done|].
    unfold is_mark, is_abort in *. naive_solver.
Qed.

Lemma pending_entry_intent op e p r :
  is_intent op e → from_slice (je_payload e) = Some r → rq_operation_id r = op →
  pending_entry p e !! op = Some r.
Proof.
  intros (Ht & Ho & _) Hp <-. unfold pending_entry. rewrite decide_True by done. rewrite Hp.
  apply lookup_insert_eq.
Qed.

Lemma pending_entry_commit op e p :
  is_mark MCommit op e → pending_entry p e !! op = None.
Proof.
  intros (Ht & Ho & <-). unfold pending_entry. simpl in *.
  rewrite decide_False by (rewrite Ht; naive_solver). rewrite decide_True by naive_solver.
  apply lookup_delete_eq.
Qed.

(** Scanning the journal finds an operation pending exactly when its latest
    intent is recorded and no commit is. *)
Lemma pending_map_exact es op r :
  Forall entry_spec es → settled es → Forall (λ e, ¬ is_abort op e) es →
  pending_map es !! op = Some r ↔
  last_intent op es = Some r ∧ Forall (λ e, ¬ is_mark MCommit op e) es.
Proof.
  induction es as [|e es IH] using rev_ind; intros Hes Hord Hab; [naive_solver|].
  apply Forall_app in Hes as [Hes [He _]%Forall_cons].
  apply Forall_app in Hab as [Hab [Hae _]%Forall_cons].
  apply settled_snoc in Hord as [Hord Hnc]. specialize (IH Hes Hord Hab).
  unfold pending_map. rewrite foldl_app. simpl. fold (pending_map es).
  rewrite last_intent_snoc, Forall_app, Forall_singleton.
  destruct (decide (is_mark MCommit op e)) as [Hm|Hm].
  { rewrite pending_entry_commit by done. naive_solver. }
  destruct (decide (is_intent op e)) as [Hi|Hi].
  - pose proof Hi as (Ht & Ho & Hid). destruct (es_intent _ He Ht Ho) as (r' & Hp & Hr' & _).
    rewrite (pending_entry_intent op e _ r') by (done || congruence).
    rewrite Hp. specialize (Hnc op Hi). naive_solver.
  - rewrite pending_entry_other by done. rewrite IH. naive_solver.
Qed.

(** A committed operation is not pending, whatever aborts were recorded. *)
Lemma committed_not_pending es op :
  Forall entry_spec es → settled es → Exists (is_mark MCommit op) es →
  pending_map es !! op = None.
Proof.
  induction es as [|e es IH] using rev_ind; intros Hes Hord Hex.
  { by apply Exists_nil in Hex. }
  apply Forall_app in Hes as [Hes [He _]%Forall_cons].
  apply settled_snoc in Hord as [Hord Hnc].
  unfold pending_map. rewrite foldl_app. simpl. fold (pending_map es).
  destruct (decide (is_mark MCommit op e)) as [Hm|Hm]; [by apply pending_entry_commit|].
  apply Exists_app in Hex as [Hex|Hex]; [|apply Exists_cons in Hex as [?|?%Exists_nil]; done].
  specialize (IH Hes Hord Hex). unfold pending_entry.
  case_decide as Hint; [|case_decide; [|done]].
  - destruct (es_intent _ He) as (r & -> & Hr & _); [apply Hint..|].
    rewrite lookup_insert_ne; [done|]. rewrite Hr. intros Hid.
    apply Exists_exists in Hex as (x & Hx & Hmx).
    assert (is_intent op e) as Hi by (unfold is_intent; naive_solver).
    specialize (Hnc op Hi). rewrite Forall_forall in Hnc. by destruct (Hnc x Hx).
  - apply lookup_delete_None. by right.
Qed.

Lemma pending_map_keyed es k r : pending_map es !! k = Some r → rq_operation_id r = k.
Proof.
  revert k r. change (map_Forall (λ k r, rq_operation_id r = k) (pending_map es)).
  induction es as [|e es IH] using rev_ind; [done|].
  unfold pending_map. rewrite foldl_app. simpl. fold (pending_map es).
  unfold pending_entry. repeat case_match; try done.
  - by apply map_Forall_insert_2.
  - by apply map_Forall_delete.
Qed.

Lemma pending_operations_elem `{HashOrder} io j :
  journal_ok j → available_db io j →
  ∃ ps, pending_operations io j = Ok ps ∧
    ∀ r, r ∈ ps ↔ pending_map (entries j) !! rq_operation_id r = Some r.
Proof.
  intros Hok Hav. unfold pending_operations. rewrite read_from_0 by done. simpl.
  eexists. split; [done|]. intros r. rewrite list_elem_of_fmap. split.
  - intros ([k r'] & -> & Hin%elem_of_hash_iter). simpl.
    by rewrite (pending_map_keyed _ _ _ Hin).
  - intros Hr. exists (rq_operation_id r, r). split; [done|]. by apply elem_of_hash_iter.
Qed.

(** No operation is lost or repeated by recovery. In any history, as long as
    no abort of the operation was recorded, the scan made at recovery lists a
    request exactly when it is the latest recorded intent of an operation that has
    not committed. *)
Theorem pending_operations_exact `{HashOrder} io s r :
  rtc estep exec_init s → available_db io (x_journal s) →
  Forall (λ e, ¬ is_abort (rq_operation_id r) e) (entries (x_journal s)) →
  ∃ ps, pending_operations io (x_journal s) = Ok ps ∧
    (r ∈ ps ↔ last_intent (rq_operation_id r) (entries (x_journal s)) = Some r ∧
              no_mark MCommit (rq_operation_id r) s).
Proof.
  intros Hr Hav Hab. destruct (exec_reachable_inv s Hr) as [[Hok Hes] Hord].
  destruct (pending_operations_elem io _ Hok Hav) as (ps & Hps & Hin). exists ps.
  split; [done|]. rewrite Hin, pending_map_exact by done.
  by rewrite Forall_forall.
Qed.

(** C20: Crash at any fault point. If the process dies during an execution and no
    abort of the operation is on record, then the operation is found pending by
    recovery, unless it died after the commit, in which case it is not, and the
    receipt is on record. Each operation identifier is assumed to be used under one
    workload only. With an abort on record the conclusion fails:
    [retry_after_abort_not_recovered]. *)
Theorem crash_leaves_pending `{HashOrder} io x r s s' p :
  rtc estep exec_init s → submitted r →
  execute_cancellable x r s = (Err (Crashed p), s') → available_db io (x_journal s') →
  Forall (λ e, ¬ is_abort (rq_operation_id r) e) (entries (x_journal s')) →
  ∃ ps, pending_operations io (x_journal s') = Ok ps ∧
    if decide (p = EffectAfterCommit)
    then (∀ q, q ∈ ps → rq_operation_id q ≠ rq_operation_id r) ∧
         (∃ rc, has_mark MCommit (rq_operation_id r) rc s')
    else ∃ q, q ∈ ps ∧ rq_operation_id q = rq_operation_id r.
Proof.
  intros Hr Hw He Hav Hab.
  destruct (wp_elim _ _ _ _ _ _ (execute_wp x r s (exec_reachable_inv s Hr) Hw) He)
    as [[[[[Hok Hes] Hord] _] _] Hint Hopen Hdone _].
  destruct (pending_operations_elem io _ Hok Hav) as (ps & Hps & Hin). exists ps.
  split; [done|].
  pose proof (λ q, pending_map_exact _ (rq_operation_id r) q Hes Hord Hab) as Hex.
  case_decide as Hp.
  - subst p. destruct (Hdone eq_refl) as (rc & e & Hee & Hm & Hd). split; [|exists rc, e; done].
    intros q Hq Hop. apply Hin in Hq. rewrite Hop in Hq. apply Hex in Hq as [_ Hno].
    rewrite Forall_forall in Hno. by destruct (Hno e Hee).
  - destruct (Hint p eq_refl) as (e & Hee & Hi).
    destruct (last_intent_Some _ _ _ Hes Hee Hi) as (q & Hq & Hqid).
    exists q. split; [|done]. apply Hin. rewrite Hqid. apply Hex.
    split; [done|]. apply Forall_forall. by apply (Hopen p).
Qed.

(** ** Retries after an abort *)

Lemma pending_map_snoc es e : pending_map (es ++ [e]) = pending_entry (pending_map es) e.
Proof. unfold pending_map. by rewrite foldl_app. Qed.

(** An append makes an operation pending only if it records a new intent of it. *)
Lemma exec_append_not_pending `{Serde T} io r t obj ph (payload : T) key op s :
  ¬ (t = Intent ∧ obj = "Operation") ∨ key_used (x_journal s) key ∨
  (∀ b q, to_vec payload = Some b → from_slice b = Some q → rq_operation_id q ≠ op) →
  pending_map (entries (x_journal s)) !! op = None →
  pending_map (entries (x_journal (exec_append io r t obj ph payload (Some key) s).2)) !! op
    = None.
Proof.
  intros Hcond Hp. destruct (exec_append _ _ _ _ _ _ _ s) as [res s'] eqn:Ha. simpl.
  apply exec_append_cases in Ha
    as [(e & -> & ->)|(b & Hb & -> & [(-> & Hn & Hk)|(-> & Hk)])]; [done| |done].
  simpl. rewrite entries_push, pending_map_snoc. unfold pending_entry. simpl.
  case_decide as Hi.
  - destruct Hcond as [?|[?|Hq]]; [done|done|].
    destruct (from_slice b) as [q|] eqn:Hf; [|done].
    by rewrite lookup_insert_ne by (by apply (Hq b)).
  - case_decide; [|done]. by apply lookup_delete_None; right.
Qed.

Lemma key_used_extends s s' k :
  extends s s' → key_used (x_journal s) k → key_used (x_journal s') k.
Proof.
  rewrite !key_used_entry. intros [_ [l Hl]] (e & He & Hk). exists e. split; [|done].
  rewrite Hl. by apply elem_of_app; left.
Qed.

(** What every record of an execution preserves, the execution preserves. *)
Lemma execute_preserves (I : XState → Prop) x r s :
  let op := rq_operation_id r in
  (∀ io, I (exec_append io r Intent "Operation" "PENDING" r (Some (intent_key op)) s).2) →
  (∀ s1, I s1 → I (mkX (x_journal s1) (op :: x_calls s1))) →
  (∀ io k ph (rc : OperationReceipt) s1, I s1 →
     I (exec_append io r (mark_type k) (mark_object k) ph rc (Some (mark_key k op)) s1).2) →
  I s → I (execute_cancellable x r s).2.
Proof.
  intros op Hint Hcall Hmark Hs.
  assert (∀ {A} (m : M XState Halt A) s1, I (m s1).2 → wp m (λ _, I) (λ _, I) s1) as Hwp.
  { intros A m s1 Hm. unfold wp. by destruct (m s1) as [[?|?] ?]. }
  assert (∀ s1, I s1 → wp (obtain_receipt x r) (λ _, I) (λ _, I) s1) as Hobt.
  { intros s1 Hs1. apply wp_bind. unfold wp at 1, received_receipt.
    destruct (read_workload _ _ _) as [es|]; simpl; [|done].
    destruct (latest_receipt _ _); [done|].
    apply wp_bind, trigger_wp; [|done]. apply wp_bind. unfold wp at 1, call_provider.
    destruct (xio_provider x r); simpl; [|by apply Hcall].
    apply wp_bind, trigger_wp; [|by apply Hcall]. apply wp_bind.
    eapply wp_mono; [apply Hwp, (Hmark _ MReceipt), Hcall, Hs1|by intros|by intros]. }
  assert (wp (execute_cancellable x r) (λ _, I) (λ _, I) s) as Hx.
  { apply wp_bind. unfold wp at 1, committed_receipt.
    destruct (read_workload _ _ _) as [es|]; simpl; [|done].
    destruct (latest_receipt _ _); [done|].
    apply wp_bind. eapply wp_mono; [apply Hwp, Hint| |by intros].
    intros ? s1 Hs1. apply wp_bind, trigger_wp; [|done]. destruct (xio_cancelled x); [done|].
    apply wp_bind. eapply wp_mono; [by apply Hobt| |by intros].
    intros rc s2 Hs2. apply wp_bind, trigger_wp; [|done].
    apply wp_bind. eapply wp_mono; [apply Hwp, (Hmark _ MCommit), Hs2| |by intros].
    intros ? s3 Hs3. by apply wp_bind, trigger_wp. }
  unfold wp in Hx. by destruct (execute_cancellable x r s) as [[?|?] ?].
Qed.

Lemma execute_not_pending x r s op :
  key_used (x_journal s) (intent_key (rq_operation_id r)) ∨ rq_operation_id r ≠ op →
  pending_map (entries (x_journal s)) !! op = None →
  pending_map (entries (x_journal (execute_cancellable x r s).2)) !! op = None.
Proof.
  intros Hk Hp.
  apply (execute_preserves (λ s', pending_map (entries (x_journal s')) !! op = None)); try done.
  - intros io. apply exec_append_not_pending; [right|done].
    destruct Hk as [?|?]; [by left|right]. intros b q Hb Hq.
    rewrite (from_to_vec _ _ Hb) in Hq. by simplify_eq.
  - intros io k ph rc s1 Hs1. apply exec_append_not_pending; [left|done]. by destruct k; intros [].
Qed.

(** A record carries a mark only of its own operation and object. *)
Lemma exec_append_no_mark `{Serde T} io r t obj ph (payload : T) key k op s :
  obj ≠ mark_object k ∨ rq_operation_id r ≠ op → no_mark k op s →
  no_mark k op (exec_append io r t obj ph payload (Some key) s).2.
Proof.
  intros Hne Hs. destruct (exec_append _ _ _ _ _ _ _ s) as [res s'] eqn:Ha. simpl.
  apply exec_append_cases in Ha
    as [(e & -> & ->)|(b & Hb & -> & [(-> & Hn & Hk)|(-> & Hk)])]; [done| |done].
  intros e He. simpl in He. rewrite entries_push in He.
  apply elem_of_app in He as [He| ->%list_elem_of_singleton]; [by apply Hs|].
  intros (_ & Ho & Hid). by destruct Hne.
Qed.

(** An execution writes no mark of another operation. *)
Lemma execute_no_mark_other x r s k op :
  rq_operation_id r ≠ op → no_mark k op s → no_mark k op (execute_cancellable x r s).2.
Proof.
  intros Hne Hno. apply (execute_preserves (no_mark k op)); [| |intros|]; try done;
    intros; apply exec_append_no_mark; auto.
Qed.

(** A retry after an abort is invisible to recovery. Once an operation whose
    intent is on record is no longer pending (because a failed attempt recorded
    an abort), executing it again records no new intent: wherever that attempt
    stops or crashes, even after the provider was called, the recovery scan does
    not list the operation. *)
Theorem retry_after_abort_not_recovered `{HashOrder} io x r s s' res :
  rtc estep exec_init s → submitted r →
  key_used (x_journal s) (intent_key (rq_operation_id r)) →
  pending_map (entries (x_journal s)) !! rq_operation_id r = None →
  execute_cancellable x r s = (res, s') → available_db io (x_journal s') →
  ∃ ps, pending_operations io (x_journal s') = Ok ps ∧
    ∀ q, q ∈ ps → rq_operation_id q ≠ rq_operation_id r.
Proof.
  intros Hr Hw Hk Hp He Hav. pose proof (exec_reachable_inv s Hr) as Hinv.
  assert (journal_ok (x_journal s')) as Hok.
  { pose proof (wp_elim _ _ _ _ _ _ (execute_wp x r s Hinv Hw) He) as Hwp.
    destruct res; apply Hwp. }
  destruct (pending_operations_elem io _ Hok Hav) as (ps & Hps & Hin). exists ps.
  split; [done|]. intros q Hq Hop. apply Hin in Hq. rewrite Hop in Hq.
  pose proof (execute_not_pending x r s (rq_operation_id r) (or_introl Hk) Hp) as Hn.
  rewrite He in Hn. simpl in Hn. congruence.
Qed.

(** ** Completion *)

(** Storage works, and there is room for [n] more records. *)
Definition healthy (n : Z) (j : Journal) : Prop :=
  journal_ok j ∧ poisoned (conn j) = false ∧ poisoned (next_sequence j) = false ∧
  next_seq j + n ≤ i64_max + 1.
Definition calm (io : Io) : Prop := io_query io = None ∧ io_insert io = None.

Lemma exec_append_total `{Serde T} io r t obj ph (payload : T) key n s :
  healthy (n + 1) (x_journal s) → 0 ≤ n → calm io → is_Some (to_vec payload) →
  wp (exec_append io r t obj ph payload (Some key)) (λ _ s', healthy n (x_journal s'))
     (λ _ _, False) s.
Proof.
  intros (Hok & Hc & Hs & Hn) Hpos [Hq Hi] [b Hb]. unfold wp, exec_append. rewrite Hb.
  set (e := operation_entry _ _ _ _ _ _).
  destruct (decide (key_used (x_journal s) key)) as [Hu|Hu].
  - apply Exists_exists in Hu as (row & Hrow & Hk).
    rewrite (append_replay io e (x_journal s) key row) by done.
    split_and!; [done|done|done|simpl; lia].
  - rewrite append_commits.
    + assert (next_seq (push io e (x_journal s)) = next_seq (x_journal s) + 1) as Hnext.
      { apply wrap64_succ. rewrite (ok_next _ Hok) in *. unfold i64_max, u64_max in *. lia. }
      split_and!; [|done|done|simpl; rewrite Hnext; lia].
      apply push_ok; [done|by apply (bool_decide_unpack _)|lia|]. intros k [= <-]. done.
    + done.
    + done.
    + done.
    + lia.
    + intros k [= <-]. done.
Qed.

(** C21: Progress. Whatever happened before, when storage works, the token is not
    set, the provider answers and nothing crashes, an execution returns a
    receipt: every operation that was interrupted can be completed. *)
Theorem execute_completes x r s rc :
  rtc estep exec_init s → healthy 3 (x_journal s) →
  calm (xio_committed x) → calm (xio_intent x) → calm (xio_received x) → calm (xio_receipt x) →
  calm (xio_commit x) → xio_cancelled x = false → xio_crash x = None →
  xio_provider x r = Ok rc → is_Some (to_vec r) → (∀ c : OperationReceipt, is_Some (to_vec c)) →
  ∃ rc' s', execute_cancellable x r s = (Ok rc', s').
Proof.
  intros Hr Hh Hio1 Hio2 Hio3 Hio4 Hio5 Hcan Hcr Hprov Hsr Hsc.
  assert (∀ p (Q : unit → XState → Prop) s1, Q tt s1 →
    wp (trigger (xio_crash x) p) Q (λ _ _, False) s1) as Htr.
  { intros p Q s1 HQ. unfold wp, trigger. by rewrite Hcr. }
  assert (∀ n s1, 0 ≤ n → healthy (n + 1) (x_journal s1) →
    wp (obtain_receipt x r) (λ _ s', healthy n (x_journal s')) (λ _ _, False) s1) as Hobt.
  { intros n s1 Hn Hs1. apply wp_bind. unfold wp at 1, received_receipt.
    rewrite read_workload_ok by (apply Hs1 || (split; [apply Hs1|apply Hio3])). simpl.
    destruct (latest_receipt _ _).
    { apply wp_ret. destruct Hs1 as (? & ? & ? & ?). split_and!; [done..|lia]. }
    apply wp_bind, Htr, wp_bind. unfold wp at 1, call_provider. rewrite Hprov. simpl.
    apply wp_bind, Htr, wp_bind. eapply wp_mono; [by eapply exec_append_total|by intros|done]. }
  assert (wp (execute_cancellable x r) (λ _ _, True) (λ _ _, False) s) as Hwp.
  { apply wp_bind. unfold wp at 1, committed_receipt.
    rewrite read_workload_ok by (apply Hh || (split; [apply Hh|apply Hio1])). simpl.
    destruct (latest_receipt _ _); [done|].
    apply wp_bind. eapply wp_mono; [apply (exec_append_total _ _ _ _ _ _ _ 2); done| |done].
    intros ? s1 Hs1. apply wp_bind, Htr. rewrite Hcan.
    apply wp_bind. eapply wp_mono; [by apply (Hobt 1)| |done].
    intros rc' s2 Hs2. apply wp_bind, Htr, wp_bind.
    eapply wp_mono; [apply (exec_append_total _ _ _ _ _ _ _ 0); done| |done].
    intros ? s3 Hs3. by apply wp_bind, Htr. }
  unfold wp in Hwp. destruct (execute_cancellable x r s) as [[rc'|?] s']; [eauto|done].
Qed.

(** ** Operation identifiers shared between workloads *)

Lemma exec_append_used `{Serde T} io r t obj ph (payload : T) key s :
  journal_ok (x_journal s) → available_db io (x_journal s) → is_Some (to_vec payload) →
  key_used (x_journal s) key →
  exec_append io r t obj ph payload (Some key) s = (Ok tt, s).
Proof.
  intros Hok Hav [b Hb] (row & Hrow & Hk)%Exists_exists. unfold exec_append. rewrite Hb.
  rewrite (append_replay io _ (x_journal s) key row) by done. by destruct s.
Qed.

(** Receipts are looked up per workload but keyed by operation alone. If an
    operation identifier was used by one workload, then the same identifier
    under another workload runs the provider and reports success, every time it
    is executed, while the journal records nothing: not the intent, not the
    receipt, not the commit. *)
Theorem shared_operation_id_unrecorded x r s rc :
  let op := rq_operation_id r in
  journal_ok (x_journal s) →
  key_used (x_journal s) (intent_key op) → key_used (x_journal s) (receipt_key op) →
  key_used (x_journal s) (commit_key op) →
  (∀ e k, e ∈ entries (x_journal s) → je_workload_id e = rq_workload_id r → ¬ is_mark k op e) →
  available_db (xio_committed x) (x_journal s) → available_db (xio_intent x) (x_journal s) →
  available_db (xio_received x) (x_journal s) → available_db (xio_receipt x) (x_journal s) →
  available_db (xio_commit x) (x_journal s) →
  xio_cancelled x = false → xio_crash x = None → xio_provider x r = Ok rc →
  is_Some (to_vec r) → is_Some (to_vec rc) →
  execute_cancellable x r s = (Ok rc, mkX (x_journal s) (op :: x_calls s)).
Proof.
  intros op Hok Ki Kr Kc Hno A1 A2 A3 A4 A5 Hcan Hcr Hp Hsr Hsc.
  assert (∀ k, latest_receipt (is_mark k op)
    (filter (λ e, je_workload_id e = rq_workload_id r) (entries (x_journal s))) = None) as Hnone.
  { intros k. unfold latest_receipt. destruct (list_find _ _) as [[i e]|] eqn:Hf; [|done].
    exfalso. apply list_find_Some in Hf as (Hi & Hm & _). apply list_elem_of_lookup_2 in Hi.
    rewrite elem_of_reverse, list_elem_of_filter in Hi. destruct Hi. by eapply Hno. }
  assert (∀ p (s1 : XState), trigger (xio_crash x) p s1 = (Ok tt, s1)) as Htr.
  { intros p s1. unfold trigger. by rewrite Hcr. }
  assert (committed_receipt (xio_committed x) r s = (Ok None, s)) as Hcom.
  { unfold committed_receipt. rewrite read_workload_ok by done. simpl. fold op. by rewrite Hnone. }
  assert (received_receipt (xio_received x) r s = (Ok None, s)) as Hrec.
  { unfold received_receipt. rewrite read_workload_ok by done. simpl. fold op. by rewrite Hnone. }
  set (s1 := mkX (x_journal s) (op :: x_calls s)).
  assert (obtain_receipt x r s = (Ok rc, s1)) as Hobt.
  { unfold obtain_receipt. rewrite (M_bind_ok _ _ _ _ _ Hrec), (M_bind_ok _ _ _ _ _ (Htr _ _)).
    rewrite (M_bind_ok _ _ _ rc s1) by (unfold call_provider; by rewrite Hp).
    rewrite (M_bind_ok _ _ _ _ _ (Htr _ _)). erewrite M_bind_ok; [done|]. by apply exec_append_used. }
  unfold execute_cancellable. rewrite (M_bind_ok _ _ _ _ _ Hcom).
  erewrite M_bind_ok; [|by apply exec_append_used]. rewrite (M_bind_ok _ _ _ _ _ (Htr _ _)), Hcan.
  rewrite (M_bind_ok _ _ _ _ _ Hobt), (M_bind_ok _ _ _ _ _ (Htr _ _)).
  erewrite M_bind_ok; [|by apply exec_append_used]. by rewrite (M_bind_ok _ _ _ _ _ (Htr _ _)).
Qed.
End ExecutorProofs.

(** ** Boot *)

Section BootProofs.
Context `{JournalEnv}.

(** Boot verifies. A kernel started on the database an earlier kernel wrote is
    [Ready] with the same journal and no integrity failures; started on the same
    database with one record altered (so that its digest changes, sequence
    number and stored checksum kept) it is [Degraded] and reports exactly that
    record. *)
Theorem boot_detects_tampering io j i r r' e' :
  journal_ok j → db_metadata (inner (conn j)) !! "format_version" = Some "2" →
  io_query io = None → rows j !! i = Some r →
  je_sequence r' = je_sequence r → je_checksum r' = je_checksum r →
  decode_entry r' = Ok e' → compute_checksum e' ≠ compute_checksum (typed r) →
  (∃ c, boot_open no_open_faults io (Ok "ok") (inner (conn j)) = Ok c ∧ boot_state c = Ready ∧
     entries (bc_journal c) = entries j ∧ bc_integrity_failures c = mutex_new []) ∧
  (∃ c, boot_open no_open_faults io (Ok "ok") (inner (conn (tamper i r' j))) = Ok c ∧
     boot_state c = KDegraded ∧ bc_integrity_failures c = mutex_new [je_sequence r]).
Proof.
  intros Hok Hv Hq Hi Hseq Hck Hdec Hne.
  set (j0 := mkJournal (mutex_new (inner (conn j))) (mutex_new (next_seq j))).
  assert (journal_ok j0) as Hok0 by (by destruct Hok; split).
  assert (available_db io j0) as Hav by done.
  assert (row_ok r) as Hrow.
  { eapply Forall_forall; [apply Hok|]. by eapply list_elem_of_lookup_2. }
  split; unfold boot_open.
  - rewrite reopen_versioned by done. change (mkJournal _ _) with j0.
    cbn [map_err mbind result_bind]. rewrite verify_clean by done. simpl. eauto.
  - rewrite (open_tampered j i r r') by done. fold j0. cbn [map_err mbind result_bind].
    rewrite (verify_tampered io j0 i r r' e') by done. rewrite decide_False; [simpl; eauto|].
    intros Heq. apply Hne. rewrite Heq. rewrite row_ok_typed_checksum by done. simpl.
    rewrite <- Hck. by rewrite (decode_entry_inv _ _ Hdec).
Qed.
End BootProofs.

(** ** Concrete executions *)

#[global] Instance ProviderRuntimeClass_countable : Countable ProviderRuntimeClass.
Proof.
  refine (inj_countable'
    (λ c, match c with PRC_Remote => 0 | PRC_Local => 1 | PRC_Edge => 2 | PRC_Reference => 3
          | PRC_Unknown => 4 end)%nat
    (λ n, match n with 0 => PRC_Remote | 1 => PRC_Local | 2 => PRC_Edge | 3 => PRC_Reference
          | _ => PRC_Unknown end)%nat _).
  by intros [].
Defined.

#[global] Instance DeliverySemantics_countable : Countable DeliverySemantics.
Proof.
  refine (inj_countable'
    (λ d, match d with AtMostOnce => 0 | AtLeastOnce => 1 | Idempotent => 2 | Compensatable => 3
          | ExternalCommit => 4 | Reconcilable => 5 | DeliveryUnknown => 6 end)%nat
    (λ n, match n with 0 => AtMostOnce | 1 => AtLeastOnce | 2 => Idempotent | 3 => Compensatable
          | 4 => ExternalCommit | 5 => Reconcilable | _ => DeliveryUnknown end)%nat _).
  by intros [].
Defined.

#[global] Instance SemanticExecutionSnapshot_countable : Countable SemanticExecutionSnapshot.
Proof.
  refine (inj_countable
    (λ s, [sn_model_revision s; sn_provider_revision s; sn_prompt_revision s; sn_tool_revision s;
           sn_knowledge_revision s; sn_policy_revision s; sn_capability_revision s;
           sn_context_revision s])
    (λ l, match l with [a; b; c; d; e; f; g; h] => Some (mkSnapshot a b c d e f g h)
          | _ => None end) _).
  by intros [].
Defined.

#[global] Instance OperationRequest_countable : Countable OperationRequest.
Proof.
  refine (inj_countable
    (λ r, ([rq_operation_id r; rq_workload_id r; rq_step_id r; rq_backend r; rq_model r;
            rq_endpoint r; rq_credential_env r; rq_provider_entrypoint r; rq_input r],
           (rq_execution_domain r, rq_delivery r, rq_snapshot r, rq_timeout_ms r)))
    (λ '(l, (c, d, s, t)), match l with
       | [a; b; e; f; g; h; i; j; k] => Some (mkRequest a b e f c g h i j k d s t)
       | _ => None end) _).
  by intros [].
Defined.

#[global] Instance OperationReceipt_countable : Countable OperationReceipt.
Proof.
  refine (inj_countable
    (λ r, ([or_operation_id r; or_input_digest r; or_output_digest r; or_snapshot_digest r;
            or_provider_revision r; or_result r], or_completed_at_us r))
    (λ '(l, t), match l with [a; b; c; d; e; f] => Some (mkOpReceipt a b c d e f t)
                | _ => None end) _).
  by intros [].
Defined.

Definition ex_snapshot : SemanticExecutionSnapshot := mkSnapshot "" "p1" "" "" "" "" "" "".
Definition ex_req (op w : string) : OperationRequest :=
  mkRequest op w "s" "reference" PRC_Reference "m" "" "" "" "in" Idempotent ex_snapshot 10.
Definition ex_rc (op : string) : OperationReceipt := mkOpReceipt op "" "" "" "p1" "out" 5.

Definition ex_xio (crash : option FaultPoint) : ExecIo :=
  mkExecIo ex_io ex_io ex_io ex_io ex_io false (λ r, Ok (ex_rc (rq_operation_id r))) crash.

#[local] Instance rq_serde : Serde OperationRequest := countable_serde _.
#[local] Instance rc_serde : Serde OperationReceipt := countable_serde _.
#[local] Instance rq_serde_laws : SerdeLaws OperationRequest := countable_serde_laws _.
#[local] Instance rc_serde_laws : SerdeLaws OperationReceipt := countable_serde_laws _.
#[local] Existing Instance ex_env.

Definition ex_wl (op : string) : string := "w".
Definition ex_ok (r : OperationRequest) : Prop := True.
Definition ex_x1 : XState := (execute_cancellable (ex_xio None) (ex_req "op" "w") exec_init).2.
Definition ex_x2 : XState :=
  (execute_cancellable (ex_xio (Some EffectAfterReceipt)) (ex_req "op" "w") exec_init).2.

Lemma committed_operation_replayed_witness :
  execute_cancellable (ex_xio None) (ex_req "op" "w") ex_x1 = (Ok (ex_rc "op"), ex_x1).
Proof.
  apply (committed_operation_replayed ex_wl ex_ok (ex_xio None) (ex_xio None) (ex_req "op" "w")
    exec_init ex_x1 ex_x1 (ex_rc "op")).
  - apply rtc_refl.
  - by split.
  - vm_compute. reflexivity.
  - apply rtc_refl.
  - vm_compute. split; reflexivity.
Defined.

Lemma ex_x2_reachable : rtc (estep ex_wl ex_ok) exec_init ex_x2.
Proof. apply rtc_once. by apply (EExec ex_wl ex_ok). Qed.

Lemma recorded_receipt_not_repeated_witness :
  x_calls ex_x2 = ["op"] ∧
  x_calls (execute_cancellable (ex_xio None) (ex_req "op" "w") ex_x2).2 = ["op"].
Proof.
  split; [vm_compute; reflexivity|].
  destruct (recorded_receipt_not_repeated ex_wl ex_ok (ex_xio None) (ex_req "op" "w") ex_x2
    (execute_cancellable (ex_xio None) (ex_req "op" "w") ex_x2).1
    (execute_cancellable (ex_xio None) (ex_req "op" "w") ex_x2).2) as (_ & H2 & _).
  - apply ex_x2_reachable.
  - by split.
  - by destruct (execute_cancellable _ _ _).
  - rewrite (H2 MReceipt (ex_rc "op")); [vm_compute; reflexivity|].
    eexists. split; [right; left|]. split; [repeat split|vm_compute; reflexivity].
Defined.

Lemma pending_operations_exact_witness :
  ∃ ps, @pending_operations _ _ key_order ex_io (x_journal ex_x2) = Ok ps ∧
    (ex_req "op" "w" ∈ ps ↔ last_intent "op" (entries (x_journal ex_x2)) = Some (ex_req "op" "w") ∧
       no_mark MCommit "op" ex_x2).
Proof.
  apply (@pending_operations_exact _ _ _ ex_wl ex_ok _ _ key_order ex_io ex_x2 (ex_req "op" "w")).
  - apply ex_x2_reachable.
  - vm_compute. split; reflexivity.
  - repeat constructor; intros (Ht & _); vm_compute in Ht; discriminate Ht.
Defined.

Lemma crash_leaves_pending_witness :
  ∃ ps, @pending_operations _ _ key_order ex_io (x_journal ex_x2) = Ok ps ∧
    ∃ q, q ∈ ps ∧ rq_operation_id q = "op".
Proof.
  apply (@crash_leaves_pending _ _ _ ex_wl ex_ok _ _ key_order ex_io (ex_xio (Some EffectAfterReceipt))
    (ex_req "op" "w") exec_init ex_x2 EffectAfterReceipt).
  - apply rtc_refl.
  - by split.
  - vm_compute. reflexivity.
  - vm_compute. split; reflexivity.
  - repeat constructor; intros (Ht & _); vm_compute in Ht; discriminate Ht.
Defined.

(** A failed attempt, the abort the runtime records for it, and a retry that
    dies after the provider was called. *)
Definition ex_fail : ExecIo :=
  mkExecIo ex_io ex_io ex_io ex_io ex_io false (λ _, Err (KProvider "down")) None.
Definition ex_abort : JournalEntry :=
  operation_entry (ex_req "op" "w") Abort "Operation" "PROVIDER_ERROR" [] (Some "operation:op:abort:p1").
Definition ex_a1 : XState := (execute_cancellable ex_fail (ex_req "op" "w") exec_init).2.
Definition ex_a2 : XState := mkX (append ex_io ex_abort (x_journal ex_a1)).2 (x_calls ex_a1).
Definition ex_a3 : XState :=
  (execute_cancellable (ex_xio (Some EffectAfterExecute)) (ex_req "op" "w") ex_a2).2.

Lemma ex_abort_foreign : foreign ex_abort.
Proof.
  split_and!.
  - by intros [].
  - by intros [? _].
  - intros k op Hk. apply Some_inj in Hk.
    destruct k; simpl in Hk; rewrite ?receipt_key_alt in Hk;
      change "operation:op:abort:p1" with ("operation:" +:+ "op:a" +:+ "bort:p1") in Hk;
      by apply op_key_inj in Hk as [_ ?].
  - intros op Hk. apply Some_inj in Hk.
    change "operation:op:abort:p1" with ("operation:" +:+ "op:a" +:+ "bort:p1") in Hk.
    by apply op_key_inj in Hk as [_ ?].
Qed.

Lemma ex_a2_reachable : rtc (estep ex_wl ex_ok) exec_init ex_a2.
Proof.
  eapply rtc_l; [by apply (EExec ex_wl ex_ok ex_fail (ex_req "op" "w"))|].
  eapply rtc_l; [apply (EForeign ex_wl ex_ok ex_io ex_abort); [apply ex_abort_foreign|]|apply rtc_refl].
  by apply (bool_decide_unpack _).
Qed.

Lemma retry_after_abort_not_recovered_witness :
  x_calls ex_a3 = ["op"; "op"] ∧
  ∃ ps, @pending_operations _ _ key_order ex_io (x_journal ex_a3) = Ok ps ∧
    ∀ q, q ∈ ps → rq_operation_id q ≠ "op".
Proof.
  split; [vm_compute; reflexivity|].
  apply (@retry_after_abort_not_recovered _ _ _ ex_wl ex_ok _ _ key_order ex_io
    (ex_xio (Some EffectAfterExecute)) (ex_req "op" "w") ex_a2 ex_a3
    (Err (Crashed EffectAfterExecute))).
  - apply ex_a2_reachable.
  - by split.
  - apply (bool_decide_unpack _). vm_compute. reflexivity.
  - vm_compute. reflexivity.
  - vm_compute. reflexivity.
  - vm_compute. split; reflexivity.
Defined.

Lemma execute_completes_witness :
  ∃ rc' s', execute_cancellable (ex_xio None) (ex_req "op" "w") ex_x2 = (Ok rc', s').
Proof.
  apply (execute_completes ex_wl ex_ok (ex_xio None) (ex_req "op" "w") ex_x2 (ex_rc "op")).
  - apply ex_x2_reachable.
  - split_and!; [|reflexivity|reflexivity|vm_compute; congruence].
    apply (exec_reachable_inv ex_wl ex_ok), ex_x2_reachable.
  - split; reflexivity.
  - split; reflexivity.
  - split; reflexivity.
  - split; reflexivity.
  - split; reflexivity.
  - reflexivity.
  - reflexivity.
  - reflexivity.
  - eexists. reflexivity.
  - intros c. eexists. reflexivity.
Defined.

Lemma shared_operation_id_unrecorded_witness :
  execute_cancellable (ex_xio None) (ex_req "op" "other") ex_x1 =
  (Ok (ex_rc "op"), mkX (x_journal ex_x1) ["op"; "op"]).
Proof.
  apply (shared_operation_id_unrecorded (ex_xio None) (ex_req "op" "other") ex_x1 (ex_rc "op")).
  - eapply (exec_reachable_inv ex_wl ex_ok). apply rtc_once. by apply (EExec ex_wl ex_ok).
  - apply (bool_decide_unpack _). vm_compute. reflexivity.
  - apply (bool_decide_unpack _). vm_compute. reflexivity.
  - apply (bool_decide_unpack _). vm_compute. reflexivity.
  - intros e k He Hw. exfalso. revert He Hw. apply (Forall_forall (λ e, je_workload_id e ≠ "other")).
    repeat constructor; vm_compute; discriminate.
  - vm_compute. split; reflexivity.
  - vm_compute. split; reflexivity.
  - vm_compute. split; reflexivity.
  - vm_compute. split; reflexivity.
  - vm_compute. split; reflexivity.
  - reflexivity.
  - reflexivity.
  - reflexivity.
  - eexists. reflexivity.
  - eexists. reflexivity.
Defined.

Lemma boot_detects_tampering_witness :
  (∃ c, boot_open no_open_faults ex_io (Ok "ok") (inner (conn ex_j2)) = Ok c ∧
     boot_state c = Ready ∧ entries (bc_journal c) = entries ex_j2 ∧
     bc_integrity_failures c = mutex_new []) ∧
  (∃ c, boot_open no_open_faults ex_io (Ok "ok") (inner (conn
      (tamper 0 (set_phases (Some "CREATED") "COMMITTED" ex_r1) ex_j2))) = Ok c ∧
     boot_state c = KDegraded ∧ bc_integrity_failures c = mutex_new [1]).
Proof.
  apply (boot_detects_tampering ex_io ex_j2 0 ex_r1
    (set_phases (Some "CREATED") "COMMITTED" ex_r1)
    (set_phases (Some "CREATED") "COMMITTED" (typed ex_r1))).
  - apply ex_j2_ok.
  - reflexivity.
  - reflexivity.
  - reflexivity.
  - reflexivity.
  - reflexivity.
  - reflexivity.
  - vm_compute. congruence.
Defined.
