(* ===== verification/Coordinator.v ===== *)
(** * The kernel runtime

    [crates/nous-kernel-core/src/coordinator.rs] ([KernelRuntime]): how one
    operation passes validation, replay, admission, placement, lease and durable
    execution, what is recorded on each path, how plans fail over between
    providers, and how cancellation, recovery and shutdown act on the same state. A call is a sequence of the handlers below;
    what the environment does during it is the argument [RunIo]. *)

From S2P Require Import Prelude Errors Float64 Resource Fencing Workload Journal Semantic Lease.
From S2P Require Import Admission Policy Placement Provider Executor.
Local Open Scope Z_scope.

(** ** Documents

    The documents built with [json!] are objects of strings and booleans; what
    else a decoded document may hold is not distinguished. *)

Inductive JsonField : Type := JStr (s : string) | JBool (b : bool) | JOther.
Inductive Json : Type := JObj (fields : list (string * JsonField)) | JNotObject.
#[global] Instance JsonField_eq_dec : EqDecision JsonField.
Proof. solve_decision. Defined.
#[global] Instance Json_eq_dec : EqDecision Json.
Proof. solve_decision. Defined.

(** [payload["key"].as_str()]. *)
Definition json_str_field (key : string) (j : Json) : option string :=
  match j with
  | JObj fs =>
      '(_, (_, v)) ← list_find (λ f, f.1 = key) fs;
      match v with JStr s => Some s | _ => None end
  | JNotObject => None
  end.

(** ** State *)

Record ActiveOperation : Type := mkActive {
  ao_operation_id : string;
  ao_request : OperationRequest;
  ao_cancelled : bool
}.

Record Runtime : Type := mkRuntime {
  rt_state : Mutex KernelState;
  rt_x : XState;
  rt_leases : LeaseManager;
  rt_active : Mutex (gmap string ActiveOperation)
}.

Definition set_rt_state (k : Mutex KernelState) (s : Runtime) : Runtime :=
  mkRuntime k (rt_x s) (rt_leases s) (rt_active s).
Definition set_rt_x (x : XState) (s : Runtime) : Runtime :=
  mkRuntime (rt_state s) x (rt_leases s) (rt_active s).
Definition set_rt_leases (m : LeaseManager) (s : Runtime) : Runtime :=
  mkRuntime (rt_state s) (rt_x s) m (rt_active s).
Definition set_rt_active (a : Mutex (gmap string ActiveOperation)) (s : Runtime) : Runtime :=
  mkRuntime (rt_state s) (rt_x s) (rt_leases s) a.

(** [BootCore::state] of the shared core. *)
Definition runtime_state (s : Runtime) : KernelState := default KFailed (lock (rt_state s)).

(** A duration in the clock's unit, one nanosecond. *)
Definition seconds (n : Z) : Z := n * 1000000000.

(** [KernelRuntime::new]. *)
Definition runtime_new (uuid : string) (k : KernelState) (j : Journal) (calls : list string) :
    Runtime :=
  mkRuntime (mutex_new k) (mkX j calls) (lease_manager_new uuid (seconds 30)) (mutex_new ∅).

(** The runtime of a kernel started on an empty database file. *)
Definition runtime_init `{JournalEnv} (uuid : string) (k : KernelState) : Runtime :=
  runtime_new uuid k fresh_journal [].

Definition runtime_capacity : ResourceVector :=
  mkRV 4000 0 (8 * 1024 * 1024 * 1024) 0 0 0 0 0 0 u64_max 0 0 0.
Definition runtime_admission : AdmissionController :=
  mkAdmission (mkDomain "local-kernel" None runtime_capacity rv_zero rv_zero limits_default limits_default).

Record RuntimeExecution : Type := mkExecution {
  re_workload_id : string;
  re_receipt : OperationReceipt;
  re_decision_trace : DecisionTrace
}.

(** [std::env::consts]. *)
Class HostPlatform : Type := { host_arch : string; host_os : string }.

(** ** The workload and node of a request *)

(** [workload_for]. *)
Definition workload_for (r : OperationRequest) : WorkloadSpec := {|
  ws_workload_id := rq_workload_id r; ws_idempotency_key := rq_operation_id r;
  ws_schema_version := 1;
  ws_principal_id := "kernel-runtime"; ws_namespace := "default"; ws_goal := rq_input r;
  ws_workload_type := WT_Unspecified;
  ws_execution_graph := ExecutionGraph_default;
  ws_model_requirements :=
    mkModelRequirements (if decide (rq_model r = "") then [] else [rq_model r])
      [] [] "" 0 0 0 (f64_of_Z 0) false 0 [] [] QT_FullPrecisionOnly (f64_of_Z 0) Route_Any;
  ws_capability_requirements := CapabilityRequirements_default;
  ws_device_requirements := DeviceRequirements_default;
  ws_quality_requirements := QualityRequirements_default;
  ws_security_requirements := SecurityRequirements_default;
  ws_resource_requirements :=
    mkResourceRequirements (mkRV 1 0 (1024 * 1024) 0 0 0 0 0 0 0 0 0 0) rv_zero rv_zero
      PC_Interactive PP_Never;
  ws_scheduling_class := SC_Interactive;
  ws_latency_slo := mkLatencySLO 0 0 0 0;
  ws_deadline_us := 0;
  ws_energy_budget := mkEnergyBudget 0 false;
  ws_cost_budget := mkCostBudget 0 "" CM_PerToken;
  ws_checkpoint_policy := CheckpointPolicy_default;
  ws_cancellation_policy := CancellationPolicy_default;
  ws_retry_policy := RetryPolicy_default;
  ws_fallback_policy := mkFallbackPolicy false [];
  ws_output_contract := OutputContract_default
|}.

(** [reference_node]. *)
Definition reference_node `{HostPlatform} (r : OperationRequest) : NodeInfo :=
  mkNode "local-reference" "localhost" host_arch host_os runtime_capacity runtime_capacity
    [mkDevice "host-cpu" "cpu" "host" 0 0 (f64_of_Z 0) (f64_of_Z 0) false]
    [mkEngine (rq_backend r) "provider-worker"
       [if decide (rq_model r = "") then rq_backend r else rq_model r]
       0 1 false ["chat"] true 0 0 0 1 (f64_of_Z 1) (f64_of_Z 0)]
    0 true Connected.

(** [replay_trace]. *)
Definition replay_trace : DecisionTrace :=
  mkTrace "JournalReplay" [] [] None None None None "replayed from durable committed receipt"
    "returned a previously committed operation receipt" None None rv_zero.

Definition scheduling_class_debug (c : SchedulingClass) : string :=
  match c with
  | SC_System => "System" | SC_Deadline => "Deadline" | SC_Interactive => "Interactive"
  | SC_Batch => "Batch" | SC_Background => "Background" | SC_Maintenance => "Maintenance"
  end.
Definition runtime_class_debug (c : ProviderRuntimeClass) : string :=
  match c with
  | PRC_Remote => "Remote" | PRC_Local => "Local" | PRC_Edge => "Edge"
  | PRC_Reference => "Reference" | PRC_Unknown => "Unknown"
  end.

(** ** What the environment does during one call *)

Record RunIo : Type := mkRunIo {
  ri_committed : Io;
  ri_trace : Io;
  ri_admit_now : Z;
  ri_schedule : Io;
  ri_grant : GrantIo;
  ri_lease : Io;
  ri_authorize_now : Z;
  ri_exec : ExecIo;
  ri_queue_ms : Z;
  ri_latency_ms : Z;
  ri_profile : Io;
  ri_profile_now : Z;
  ri_abort : Io;
  ri_failure : Io;
  ri_workload : Io;
  ri_released : Io
}.

(** ** Keys of the records the runtime writes *)

Definition op_key (op suffix : string) : string := "operation:" +:+ op +:+ suffix.
Definition schedule_key (op : string) : string := op_key op ":schedule".
Definition lease_grant_key (op id : string) : string := op_key op (":lease:" +:+ id +:+ ":grant").
Definition lease_release_key (op id : string) : string :=
  op_key op (":lease:" +:+ id +:+ ":release").
Definition lease_revoke_key (op id : string) : string :=
  op_key op (":lease:" +:+ id +:+ ":recovery-revoke").
Definition abort_key (op rev : string) : string := op_key op (":abort:" +:+ rev).
Definition failure_key (op : string) : string := op_key op ":failure".
Definition workload_key (op phase : string) : string := op_key op (":workload:" +:+ phase).
Definition cancel_key (op : string) : string := op_key op ":cancellation-requested".
Definition candidate_outcome_key (op provider phase : string) : string :=
  op_key op (":candidate:" +:+ provider +:+ ":" +:+ phase).
Definition rebind_key (op rev : string) : string := op_key op (":rebind:" +:+ rev).
Definition provider_rebind_key (op rev : string) : string := op_key op (":provider-rebind:" +:+ rev).

(** ** Continuity plans: data *)

Record ProviderProbeReport : Type := mkProbeReport {
  pp_reachable : bool;
  pp_latency_ms : Z;
  pp_available_models : list string;
  pp_capabilities : ModelCapabilityManifest;
  pp_warnings : list string
}.

Record FailoverCandidate : Type := mkFailover {
  fc_request : OperationRequest;
  fc_capabilities : ModelCapabilityManifest
}.

Record ContinuityStep : Type := mkStep {
  cs_step_id : string;
  cs_requirements : ModelCompatibilityRequirements;
  cs_allow_degraded : bool;
  cs_candidates : list FailoverCandidate
}.

Record ContinuityPlan : Type := mkPlan {
  cpl_workload_id : string;
  cpl_process_identity : string;
  cpl_steps : list ContinuityStep
}.

Record FailoverRecord : Type := mkFailoverRecord {
  fr_step_id : string;
  fr_from_provider : string;
  fr_to_provider : string;
  fr_failure_code : string;
  fr_compatibility : CompatibilityReport
}.

Record ContinuityExecution : Type := mkContinuityExecution {
  ce_workload_id : string;
  ce_process_identity : string;
  ce_completed_steps : list RuntimeExecution;
  ce_failovers : list FailoverRecord
}.

(** [validate_continuity_candidate]. *)
Definition validate_continuity_candidate (plan : ContinuityPlan) (step_id operation_id : string)
    (r : OperationRequest) (m : ModelCapabilityManifest) : result KernelError unit :=
  if decide (rq_workload_id r ≠ cpl_workload_id plan ∨ rq_step_id r ≠ step_id ∨
             rq_operation_id r ≠ operation_id) then
    Err (KAdmission "failover candidates must preserve workload, step, and operation identities")
  else if decide (mm_backend m ≠ rq_backend r ∨ (rq_model r ≠ "" ∧ mm_model m ≠ rq_model r)) then
    Err (KAdmission "candidate request does not match its capability manifest")
  else Ok tt.

(** The mutable locals of a step: the last failure with its provider, the last
    rejection, which of the two came last, and the failovers so far. *)
Record Attempt : Type := mkAttempt {
  at_failure : option (string * KernelError);
  at_rejection : option KernelError;
  at_rejected_last : bool;
  at_failovers : list FailoverRecord
}.

(** What the environment does for one candidate and for one step. *)
Record CandidateIo : Type := mkCandidateIo {
  ci_evaluating : Io;
  ci_probe : ProviderProbeRequest → result KernelError ProviderProbeReport;
  ci_unavailable : Io;
  ci_incompatible : Io;
  ci_rebind_intent : Io;
  ci_rebind_observation : Io;
  ci_run : RunIo;
  ci_failed : Io
}.
Record StepIo : Type := mkStepIo { si_committed : Io; si_candidate : nat → CandidateIo }.


Section Runtime.
Context `{JournalEnv} `{TextPlatform} `{FloatPlatform} `{HostPlatform} `{HashOrder}.
Context `{Serde OperationRequest} `{Serde OperationReceipt} `{Serde DecisionTrace}.
Context `{Serde FencedLease} `{Serde ExecutionProfile} `{Serde Json}.

Definition on_x {A} (m : M XState Halt A) : M Runtime Halt A := zoom rt_x set_rt_x m.
Definition on_leases {A} (m : M LeaseManager NousError A) : M Runtime Halt A :=
  zoom rt_leases set_rt_leases (map_err_M (λ e, Failed_ (resource_error e)) m).

(** A [Result] the code looks at instead of returning it: failures become
    values, the death of the process does not. *)
Definition settle {S A} (m : M S Halt A) : M S Halt (result KernelError A) := λ s,
  match m s with
  | (Ok a, s') => (Ok (Ok a), s')
  | (Err (Failed_ e), s') => (Ok (Err e), s')
  | (Err (Crashed p), s') => (Err (Crashed p), s')
  end.

(** The reverse search of the three [latest_decision_trace] functions. *)
Definition latest_trace (p : JournalEntry → Prop) `{∀ e, Decision (p e)}
    (es : list JournalEntry) : option DecisionTrace :=
  '(_, e) ← list_find p (reverse es); from_slice (je_payload e).
Definition latest_decision_trace (io : Io) (op : string) :
    M Runtime Halt (option DecisionTrace) := λ s,
  (map_err (λ e, Failed_ (journal_error e))
     (latest_trace (λ e, je_object_type e = "SchedulerDecision" ∧ je_object_id e = op)
        <$> read_from io (x_journal (rt_x s)) 0), s).
Definition latest_decision_trace_any (io : Io) : M Runtime Halt (option DecisionTrace) := λ s,
  (map_err (λ e, Failed_ (journal_error e))
     (latest_trace (λ e, je_object_type e = "SchedulerDecision")
        <$> read_from io (x_journal (rt_x s)) 0), s).
Definition latest_decision_trace_for_workload (io : Io) (w : string) :
    M Runtime Halt (option DecisionTrace) := λ s,
  (map_err (λ e, Failed_ (journal_error e))
     (latest_trace (λ e, je_object_type e = "SchedulerDecision")
        <$> read_workload io (x_journal (rt_x s)) w), s).

(** [let _ = self.leases.release(..)]. *)
Definition drop_lease (id : string) : M Runtime Halt unit :=
  _ ← settle (on_leases (release id)); mret tt.

(** [active.insert(..)]. *)
Definition active_insert (r : OperationRequest) : M Runtime Halt unit := λ s,
  match lock (rt_active s) with
  | None => (Err (Failed_ (KResource "active operation lock is poisoned")), s)
  | Some a =>
      (Ok tt, set_rt_active (mutex_set (<[rq_workload_id r :=
                mkActive (rq_operation_id r) r false]> a) (rt_active s)) s)
  end.

(** [execute_internal] from admission to the entry in [active]: the lease, the
    trace and the device. *)
Definition acquire (x : RunIo) (r : OperationRequest) :
    M Runtime Halt (FencedLease * DecisionTrace * string) :=
  let op := rq_operation_id r in
  let workload := workload_for r in
  match admit_workload runtime_admission (ri_admit_now x) workload with
  | DecisionRejected reason _ | DecisionInfeasible reason _ _ =>
      throw (Failed_ (KAdmission reason))
  | DecisionAdmitted =>
      let '(placed, trace) :=
        place_with_trace SchedulerCoreConfig_default workload [reference_node r] in
      placement ← lift (ok_or placed
        (Failed_ (KScheduling "no provider placement passed hard constraints")));
      _ ← on_x (exec_append (ri_schedule x) r Observation "SchedulerDecision" "SELECTED" trace
                  (Some (schedule_key op)));
      fenced ← on_leases (grant_fenced (ri_grant x)
        (mkLeaseRequest (rq_workload_id r) "kernel-runtime" (pd_resources_reserved placement)
           (pd_node_id placement) (pd_device_id placement) true));
      let id := rl_lease_id (fl_lease fenced) in
      recorded ← settle (on_x (exec_append (ri_lease x) r Commit "ResourceLease" "ACTIVE" fenced
                                 (Some (lease_grant_key op id))));
      match recorded with
      | Err e => _ ← drop_lease id; throw (Failed_ e)
      | Ok _ =>
          m ← gets rt_leases;
          if negb (authorize (ri_authorize_now x) m id (fl_fencing_token fenced)) then
            _ ← drop_lease id;
            throw (Failed_ (KResource "new resource lease failed fencing validation"))
          else
            inserted ← settle (active_insert r);
            match inserted with
            | Err e => _ ← drop_lease id; throw (Failed_ e)
            | Ok _ => mret (fenced, trace, pd_device_id placement)
            end
      end
  end.

(** [bookkeeping_error = Some(..)] and [bookkeeping_error.get_or_insert(..)]. *)
Definition overwrite {A} (b : option KernelError) (r : result KernelError A) :
    option KernelError := match r with Err e => Some e | Ok _ => b end.
Definition get_or_insert {A} (b : option KernelError) (r : result KernelError A) :
    option KernelError := match b with Some e => Some e | None => overwrite None r end.

Definition profile_of (x : RunIo) (r : OperationRequest) (recovered : bool) (device : string)
    (failure : option KernelError) : ExecutionProfile :=
  mkProfile (rq_operation_id r) (rq_workload_id r) "operation"
    (to_lowercase (scheduling_class_debug (ws_scheduling_class (workload_for r))))
    (rq_model r) (sn_provider_revision (rq_snapshot r))
    (to_lowercase (runtime_class_debug (rq_execution_domain r))) device
    (ri_latency_ms x) (ri_queue_ms x) None
    (if recovered then Some (ri_queue_ms x) else None) None
    (kernel_error_code <$> failure) 0 recovered None 0.

Definition record_profile_rt (x : RunIo) (p : ExecutionProfile) : M Runtime Halt Z :=
  on_x (zoom x_journal (λ j s, mkX j (x_calls s))
          (map_err_M (λ e, Failed_ (journal_error e))
             (record_profile (ri_profile x) (ri_profile_now x) p))).

(** [active.remove(..)]. *)
Definition active_remove (w : string) : M Runtime Halt unit := λ s,
  match lock (rt_active s) with
  | None => (Err (Failed_ (KResource "active operation lock is poisoned")), s)
  | Some a => (Ok tt, set_rt_active (mutex_set (delete w a) (rt_active s)) s)
  end.

Definition failure_doc (e : KernelError) : Json :=
  JObj [("code", JStr (kernel_error_code e)); ("category", JStr (kernel_error_category e));
        ("retryable", JBool (kernel_error_retryable e)); ("source", JStr (source_component e))].

(** The records of a failed execution. *)
Definition record_failure (x : RunIo) (r : OperationRequest) (e : KernelError)
    (b : option KernelError) : M Runtime Halt (option KernelError) :=
  let op := rq_operation_id r in
  a1 ← settle (on_x (exec_append (ri_abort x) r Abort "Operation" (kernel_error_code e)
        (failure_doc e) (Some (abort_key op (sn_provider_revision (rq_snapshot r))))));
  a2 ← settle (on_x (exec_append (ri_failure x) r Observation "OperationFailure"
        (kernel_error_code e) (failure_doc e) (Some (failure_key op))));
  mret (overwrite (overwrite b a1) a2).

(** The phase the workload is recorded in. *)
Definition final_phase (execution : result KernelError OperationReceipt) : EntryType * string :=
  match execution with
  | Ok _ => (Commit, "COMPLETED")
  | Err (KCancelled _) => (Commit, "CANCELLED")
  | Err _ => (Transition, "FAILED")
  end.

(** The rest of [execute_internal] after the executor returned. *)
Definition finish (x : RunIo) (r : OperationRequest) (recovered : bool) (fenced : FencedLease)
    (trace : DecisionTrace) (device : string) (execution : result KernelError OperationReceipt) :
    M Runtime Halt RuntimeExecution :=
  let op := rq_operation_id r in
  let id := rl_lease_id (fl_lease fenced) in
  let failure := match execution with Err e => Some e | Ok _ => None end in
  p ← settle (record_profile_rt x (profile_of x r recovered device failure));
  a ← settle (active_remove (rq_workload_id r));
  let b0 := overwrite (overwrite None p) a in
  b1 ← match failure with Some e => record_failure x r e b0 | None => mret b0 end;
  let '(entry_type, phase) := final_phase execution in
  w ← settle (on_x (exec_append (ri_workload x) r entry_type "Workload" phase
        (JObj [("workload_id", JStr (rq_workload_id r)); ("phase", JStr phase)])
        (Some (workload_key op phase))));
  l ← settle (on_leases (release id));
  _ ← trigger (xio_crash (ri_exec x)) ResourceAfterRelease;
  d ← settle (on_x (exec_append (ri_released x) r Commit "ResourceLease" "RELEASED"
        (JObj [("lease_id", JStr id)]) (Some (lease_release_key op id))));
  match get_or_insert (get_or_insert (get_or_insert b1 w) l) d with
  | Some e => throw (Failed_ e)
  | None =>
      receipt ← lift (map_err Failed_ execution);
      mret (mkExecution (rq_workload_id r) receipt trace)
  end.

(** [KernelRuntime::execute_internal]. *)
Definition execute_internal (x : RunIo) (recovered : bool) (r : OperationRequest) :
    M Runtime Halt RuntimeExecution :=
  _ ← lift (map_err (λ m, Failed_ (KAdmission m)) (validate_sensitive_references r));
  st ← gets runtime_state;
  if decide (st = ShuttingDown) then throw (Failed_ KShuttingDown)
  else
    committed ← on_x (committed_receipt (ri_committed x) r);
    match committed with
    | Some receipt =>
        trace ← latest_decision_trace (ri_trace x) (rq_operation_id r);
        mret (mkExecution (rq_workload_id r) receipt (default replay_trace trace))
    | None =>
        '(fenced, trace, device) ← acquire x r;
        execution ← settle (on_x (execute_cancellable (ri_exec x) r));
        finish x r recovered fenced trace device execution
    end.

(** [KernelRuntime::execute]. *)
Definition execute_request (x : RunIo) (r : OperationRequest) : M Runtime Halt RuntimeExecution :=
  execute_internal x false r.

(** ** Cancellation and shutdown *)

(** [KernelRuntime::cancel]. *)
Definition cancel (io : Io) (w : string) : M Runtime Halt string := λ s,
  match lock (rt_active s) with
  | None => (Err (Failed_ (KResource "active operation lock is poisoned")), s)
  | Some a =>
      match a !! w with
      | None => (Err (Failed_ (KCancelled (w +:+ " is not active"))), s)
      | Some ao =>
          let op := ao_operation_id ao in
          match on_x (exec_append io (ao_request ao) Transition "Workload"
                  "CANCELLATION_REQUESTED"
                  (JObj [("workload_id", JStr w); ("operation_id", JStr op)])
                  (Some (cancel_key op))) s with
          | (Err h, s') => (Err h, s')
          | (Ok _, s') =>
              (Ok op, set_rt_active
                        (mutex_set (<[w := mkActive op (ao_request ao) true]> a) (rt_active s')) s')
          end
      end
  end.

(** [KernelRuntime::shutdown]: its first block, and one iteration of its loop,
    [None] when it goes on waiting. *)
Definition shutdown_begin : M Runtime Halt unit := λ s,
  let s1 := match lock (rt_state s) with
            | Some _ => set_rt_state (mutex_set ShuttingDown (rt_state s)) s
            | None => s
            end in
  match lock (rt_active s1) with
  | None => (Err (Failed_ (KResource "active operation lock is poisoned")), s1)
  | Some a =>
      (Ok tt, set_rt_active
                (mutex_set ((λ ao, mkActive (ao_operation_id ao) (ao_request ao) true) <$> a)
                   (rt_active s1)) s1)
  end.
Definition shutdown_poll (past_deadline : bool) (s : Runtime) : option (result KernelError unit) :=
  match lock (rt_active s) with
  | None => Some (Err (KResource "active operation lock is poisoned"))
  | Some a =>
      if decide (a = ∅) then Some (Ok tt)
      else if past_deadline then Some (Err KShuttingDown) else None
  end.

(** [KernelRuntime::active_count]. *)
Definition runtime_active_count (s : Runtime) : result KernelError Z :=
  match lock (rt_active s) with
  | None => Err (KResource "active operation lock is poisoned")
  | Some a => Ok (Z.of_nat (size a))
  end.

(** ** Recovery *)

(** One iteration of the scan of [revoke_orphaned_leases]: the last request of
    each workload, and the leases recorded as active with their workloads. *)
Definition LeaseScan : Type := gmap string OperationRequest * gmap string (string * FencedLease).
Definition lease_scan_entry (st : LeaseScan) (e : JournalEntry) : LeaseScan :=
  let '(requests, active) := st in
  if decide (je_object_type e = "Operation" ∧ je_entry_type e = Intent) then
    match from_slice (T := OperationRequest) (je_payload e) with
    | Some r => (<[rq_workload_id r := r]> requests, active)
    | None => (requests, active)
    end
  else if decide (je_object_type e ≠ "ResourceLease") then (requests, active)
  else if decide (je_new_phase e = "ACTIVE") then
    match from_slice (T := FencedLease) (je_payload e) with
    | Some l => (requests, <[rl_lease_id (fl_lease l) := (je_workload_id e, l)]> active)
    | None => (requests, active)
    end
  else if decide (je_new_phase e ∈ ["RELEASED"; "REVOKED"; "EXPIRED"]) then
    match from_slice (T := Json) (je_payload e) ≫= json_str_field "lease_id" with
    | Some id => (requests, delete id active)
    | None => (requests, active)
    end
  else (requests, active).
Definition lease_scan (es : list JournalEntry) : LeaseScan := foldl lease_scan_entry (∅, ∅) es.

(** The loop over the orphaned leases; storage during each append is [io]. *)
Fixpoint revoke_loop (io : string → Io) (requests : gmap string OperationRequest)
    (orphans : list (string * (string * FencedLease))) : M Runtime Halt unit :=
  match orphans with
  | [] => mret tt
  | (id, (w, l)) :: rest =>
      r ← lift (ok_or (requests !! w)
        (Failed_ (KJournal ("orphaned lease " +:+ id +:+ " has no durable operation intent"))));
      _ ← on_x (exec_append (io id) r Commit "ResourceLease" "REVOKED"
            (JObj [("lease_id", JStr id); ("fencing_token", JStr (fl_fencing_token l));
                   ("reason", JStr "runtime recovery invalidated an orphaned lease")])
            (Some (lease_revoke_key (rq_operation_id r) (rl_lease_id (fl_lease l)))));
      revoke_loop io requests rest
  end.

(** [KernelRuntime::revoke_orphaned_leases]. *)
Definition revoke_orphaned_leases (read : Io) (io : string → Io) : M Runtime Halt unit := λ s,
  match read_from read (x_journal (rt_x s)) 0 with
  | Err e => (Err (Failed_ (journal_error e)), s)
  | Ok es =>
      let '(requests, active) := lease_scan es in
      revoke_loop io requests (hash_iter active) s
  end.

(** The environment of a recovery: storage at its two scans, at each
    revocation, and during each execution. *)
Record RecoverIo : Type := mkRecoverIo {
  rv_lease_scan : Io;
  rv_revoke : string → Io;
  rv_pending_scan : Io;
  rv_run : string → RunIo
}.

Fixpoint recover_loop (run : string → RunIo) (rs : list OperationRequest) :
    M Runtime Halt (list RuntimeExecution) :=
  match rs with
  | [] => mret []
  | r :: rest =>
      match rq_delivery r with
      | Idempotent | Reconcilable =>
          ex ← execute_internal (run (rq_operation_id r)) true r;
          exs ← recover_loop run rest;
          mret (ex :: exs)
      | _ => throw (Failed_ (KUnsafeRecovery (rq_operation_id r)))
      end
  end.

(** [KernelRuntime::recover]. *)
Definition runtime_recover (y : RecoverIo) : M Runtime Halt (list RuntimeExecution) :=
  _ ← revoke_orphaned_leases (rv_lease_scan y) (rv_revoke y);
  rs ← (λ s, (map_err Failed_ (pending_operations (rv_pending_scan y) (x_journal (rt_x s))), s));
  recover_loop (rv_run y) rs.

(** [KernelRuntime::probe_provider]; [answer] is the provider's. *)
Definition probe_provider {A} (answer : ProviderProbeRequest → result KernelError A)
    (q : ProviderProbeRequest) : result KernelError A :=
  _ ← map_err KAdmission (validate_probe_references q); answer q.

(** ** Continuity plans *)

(** [KernelRuntime::record_candidate_outcome] and [record_rebind]. *)
Definition record_candidate_outcome (io : Io) (r : OperationRequest)
    (provider phase reason : string) : M Runtime Halt unit :=
  on_x (exec_append io r Observation "ProviderCandidate" phase
          (JObj [("provider", JStr provider); ("reason", JStr reason)])
          (Some (candidate_outcome_key (rq_operation_id r) provider phase))).
Definition record_rebind (io1 io2 : Io) (r : OperationRequest) (from_provider : string)
    (failure : KernelError) : M Runtime Halt unit :=
  let rev := sn_provider_revision (rq_snapshot r) in
  _ ← on_x (exec_append io1 r Intent "Operation" "REBOUND" r
              (Some (rebind_key (rq_operation_id r) rev)));
  on_x (exec_append io2 r Observation "ProviderRebind" "SELECTED"
          (JObj [("from_provider", JStr from_provider); ("to_provider", JStr rev);
                 ("failure_code", JStr (kernel_error_code failure)); ("compatibility", JOther)])
          (Some (provider_rebind_key (rq_operation_id r) rev))).

(** The manifest a candidate is judged by: its own for the reference runtime,
    otherwise what a probe reports. *)
Definition probe_request_of (c : FailoverCandidate) : ProviderProbeRequest :=
  let r := fc_request c in
  mkProbeRequest (mm_provider (fc_capabilities c)) (rq_backend r) (rq_execution_domain r)
    (rq_model r) (rq_endpoint r) (rq_credential_env r) (rq_provider_entrypoint r)
    (rq_timeout_ms r).
Definition effective_capabilities (c : CandidateIo) (cand : FailoverCandidate) :
    result KernelError ModelCapabilityManifest :=
  if decide (mm_runtime_class (fc_capabilities cand) = PRC_Reference)
  then Ok (fc_capabilities cand)
  else pp_capabilities <$> probe_provider (ci_probe c) (probe_request_of cand).

(** [last_failure = Some(..)] and [last_rejection = Some(..)]. *)
Definition note_failure (provider : string) (e : KernelError) (st : Attempt) : Attempt :=
  mkAttempt (Some (provider, e)) (at_rejection st) false (at_failovers st).
Definition note_rejection (e : KernelError) (st : Attempt) : Attempt :=
  mkAttempt (at_failure st) (Some e) true (at_failovers st).

Definition gate_closed (step : ContinuityStep) (report : CompatibilityReport) : bool :=
  bool_decide (cp_classification report = Incompatible)
  || (bool_decide (cp_classification report = Degraded) && negb (cs_allow_degraded step)).

(** The relabelling of a compatible provider after a failure. *)
Definition rebound_report (st : Attempt) (report : CompatibilityReport) : CompatibilityReport :=
  match at_failure st with
  | Some _ =>
      if decide (cp_classification report = Compatible)
      then mkReport Rebindable
             (cp_reasons report
              ++ ["provider rebind required; kernel state remains authoritative"])
      else report
  | None => report
  end.

(** The rebind records and the failover noted for a candidate tried after a
    failure. *)
Definition rebind_if_failed (c : CandidateIo) (step : ContinuityStep) (r : OperationRequest)
    (to_provider : string) (report : CompatibilityReport) (st : Attempt) :
    M Runtime Halt Attempt :=
  match at_failure st with
  | None => mret st
  | Some (from, e) =>
      _ ← record_rebind (ci_rebind_intent c) (ci_rebind_observation c) r from e;
      mret (mkAttempt (at_failure st) (at_rejection st) (at_rejected_last st)
              (at_failovers st ++ [mkFailoverRecord (cs_step_id step) from to_provider
                                     (kernel_error_code e) report]))
  end.

(** One iteration over the candidates of a step: go on with what was noted, or
    stop with an execution. *)
Definition try_candidate (c : CandidateIo) (plan : ContinuityPlan) (step : ContinuityStep)
    (op : string) (cand : FailoverCandidate) (st : Attempt) :
    M Runtime Halt (Attempt + RuntimeExecution * Attempt) :=
  let r := fc_request cand in
  let provider := mm_provider (fc_capabilities cand) in
  _ ← record_candidate_outcome (ci_evaluating c) r provider "EVALUATING"
        "candidate entered compatibility pipeline";
  _ ← lift (map_err Failed_
        (validate_continuity_candidate plan (cs_step_id step) op r (fc_capabilities cand)));
  match effective_capabilities c cand with
  | Err e =>
      if kernel_error_retryable e then
        _ ← record_candidate_outcome (ci_unavailable c) r provider "UNAVAILABLE"
              (kernel_error_code e);
        mret (inl (note_failure provider e st))
      else throw (Failed_ e)
  | Ok caps =>
      let report := assess_compatibility (cs_requirements step) caps in
      let reasons := join ", " (cp_reasons report) in
      if gate_closed step report then
        _ ← record_candidate_outcome (ci_incompatible c) r (mm_provider caps) "INCOMPATIBLE"
              reasons;
        mret (inl (note_rejection (KScheduling ("provider '" +:+ mm_provider caps
                 +:+ "' failed compatibility gate: " +:+ reasons)) st))
      else
        st1 ← rebind_if_failed c step r (mm_provider caps) (rebound_report st report) st;
        outcome ← settle (execute_request (ci_run c) r);
        match outcome with
        | Ok ex => mret (inr (ex, st1))
        | Err e =>
            if kernel_error_retryable e then
              _ ← record_candidate_outcome (ci_failed c) r provider "EXECUTION_FAILED"
                    (kernel_error_code e);
              mret (inl (note_failure provider e st1))
            else throw (Failed_ e)
        end
  end.

Fixpoint candidates_loop (c : nat → CandidateIo) (plan : ContinuityPlan) (step : ContinuityStep)
    (op : string) (i : nat) (cands : list FailoverCandidate) (st : Attempt) :
    M Runtime Halt (option RuntimeExecution * Attempt) :=
  match cands with
  | [] => mret (None, st)
  | cand :: rest =>
      next ← try_candidate (c i) plan step op cand st;
      match next with
      | inl st1 => candidates_loop c plan step op (S i) rest st1
      | inr (ex, st1) => mret (Some ex, st1)
      end
  end.

(** The error of a step none of whose candidates completed. *)
Definition step_error (step : ContinuityStep) (st : Attempt) : KernelError :=
  let failure := snd <$> at_failure st in
  default (KScheduling ("step '" +:+ cs_step_id step
             +:+ "' has no compatible provider after evaluating "
             +:+ show_u (Z.of_nat (length (cs_candidates step))) +:+ " candidates"))
    (if at_rejected_last st
     then match at_rejection st with Some e => Some e | None => failure end
     else match failure with Some e => Some e | None => at_rejection st end).

(** One step of a plan. *)
Definition run_step (y : StepIo) (plan : ContinuityPlan) (step : ContinuityStep)
    (failovers : list FailoverRecord) :
    M Runtime Halt (RuntimeExecution * list FailoverRecord) :=
  match cs_candidates step with
  | [] => throw (Failed_ (KScheduling ("step '" +:+ cs_step_id step
            +:+ "' has no provider candidate")))
  | first :: _ =>
      let op := rq_operation_id (fc_request first) in
      committed ← on_x (committed_receipt (si_committed y) (fc_request first));
      match committed with
      | Some receipt => mret (mkExecution (cpl_workload_id plan) receipt replay_trace, failovers)
      | None =>
          '(completed, st) ← candidates_loop (si_candidate y) plan step op 0 (cs_candidates step)
                               (mkAttempt None None false failovers);
          match completed with
          | Some ex => mret (ex, at_failovers st)
          | None => throw (Failed_ (step_error step st))
          end
      end
  end.

Fixpoint steps_loop (y : nat → StepIo) (plan : ContinuityPlan) (i : nat)
    (steps : list ContinuityStep) (completed : list RuntimeExecution)
    (failovers : list FailoverRecord) :
    M Runtime Halt (list RuntimeExecution * list FailoverRecord) :=
  match steps with
  | [] => mret (completed, failovers)
  | step :: rest =>
      '(ex, failovers1) ← run_step (y i) plan step failovers;
      steps_loop y plan (S i) rest (completed ++ [ex]) failovers1
  end.

(** [KernelRuntime::execute_continuously]. *)
Definition execute_continuously (y : nat → StepIo) (plan : ContinuityPlan) :
    M Runtime Halt ContinuityExecution :=
  if decide (cpl_workload_id plan = "" ∨ cpl_process_identity plan = "") then
    throw (Failed_ (KAdmission "continuity plan requires workload and process identities"))
  else
    '(completed, failovers) ← steps_loop y plan 0 (cpl_steps plan) [] [];
    mret (mkContinuityExecution (cpl_workload_id plan) (cpl_process_identity plan)
            completed failovers).
End Runtime.

Lemma set_rt_x_id s : set_rt_x (rt_x s) s = s.
Proof. by destruct s. Qed.

Lemma settle_Ok {S A} (m : M S Halt A) s a s' : settle m s = (Ok (Ok a), s') ↔ m s = (Ok a, s').
Proof. unfold settle. destruct (m s) as [[?|[]] ?]; naive_solver. Qed.

(** ** Leases held by the runtime *)

Section Leases.
Context `{JournalEnv} `{TextPlatform} `{FloatPlatform} `{HostPlatform} `{HashOrder}.
Context `{Serde OperationRequest} `{Serde OperationReceipt} `{Serde DecisionTrace}.
Context `{Serde FencedLease} `{Serde ExecutionProfile} `{Serde Json}.

Lemma wp_settle {S A} (m : M S Halt A) (Q : result KernelError A → S → Prop) R s :
  wp m (λ a, Q (Ok a))
    (λ h s', match h with Failed_ e => Q (Err e) s' | Crashed p => R (Crashed p) s' end) s →
  wp (settle m) Q R s.
Proof. unfold wp, settle. by destruct (m s) as [[a|[e|p]] s']. Qed.

Lemma wp_on_x {A} (m : M XState Halt A) (Q : A → Runtime → Prop) R s :
  (∀ a x', Q a (set_rt_x x' s)) → (∀ h x', R h (set_rt_x x' s)) → wp (on_x m) Q R s.
Proof. intros HQ HR. unfold wp, on_x, zoom. by destruct (m (rt_x s)) as [[a|h] x']. Qed.

(** What an outcome the code looks at leaves, when the journal is all it
    touched. *)
Lemma wp_settle_on_x {A} (m : M XState Halt A) (Q : result KernelError A → Runtime → Prop) R s :
  (∀ a x', Q a (set_rt_x x' s)) → (∀ p x', R (Crashed p) (set_rt_x x' s)) →
  wp (settle (on_x m)) Q R s.
Proof. intros HQ HR. apply wp_settle, wp_on_x; [auto|]. intros [e|p] x'; auto. Qed.

Definition locks_ok (m : LeaseManager) : Prop :=
  poisoned (lm_leases m) = false ∧ poisoned (lm_lease_tokens m) = false ∧
  poisoned (lm_resource_tokens m) = false.

Lemma grant_fenced_Err g q m e m' :
  locks_ok m → grant_fenced g q m = (Err e, m') → m' = m.
Proof.
  intros (H1' & H2' & H3'). unfold grant_fenced, grant_internal, grant_check, grant_insert,
    draw_token, store_lease_token, store_resource_token, lock_or_error, lock, mbind, M_bind.
  rewrite H1'. simpl. destruct (has_active_lease _ _ _); simpl; [naive_solver|].
  rewrite H1'. simpl. destruct (has_active_lease _ _ _); simpl; [naive_solver|].
  rewrite H2'. simpl. rewrite H3'. done.
Qed.

(** The leases and tokens as they are, and with one more. *)
Definition kept (s s' : Runtime) : Prop :=
  leases (rt_leases s') = leases (rt_leases s) ∧
  lease_tokens (rt_leases s') = lease_tokens (rt_leases s) ∧ locks_ok (rt_leases s').
Definition granted (id : string) (s s' : Runtime) : Prop :=
  (∃ l, leases (rt_leases s') = <[id := l]> (leases (rt_leases s))) ∧
  (∃ t, lease_tokens (rt_leases s') = <[id := t]> (lease_tokens (rt_leases s))) ∧
  locks_ok (rt_leases s').
Definition fresh_id (id : string) (s : Runtime) : Prop :=
  leases (rt_leases s) !! id = None ∧ lease_tokens (rt_leases s) !! id = None.

Lemma release_granted id s s1 (Q : unit → Runtime → Prop) R :
  fresh_id id s → granted id s s1 →
  (∀ m', kept s (set_rt_leases m' s1) → Q tt (set_rt_leases m' s1)) →
  wp (on_leases (release id)) Q R s1.
Proof.
  intros [Hf1 Hf2] ((l & Hl) & (t & Ht) & (H1' & H2' & H3')) HQ.
  unfold wp, on_leases, zoom, map_err_M, release, lock_or_error, lock. rewrite H1'. simpl.
  fold (leases (rt_leases s1)). rewrite Hl, lookup_insert_eq. simpl. rewrite H2'. simpl.
  fold (lease_tokens (rt_leases s1)). rewrite Ht. apply HQ. unfold kept, leases, lease_tokens. simpl.
  rewrite !delete_insert_id by done. split_and!; done.
Qed.

Lemma drop_granted id s s1 (Q : unit → Runtime → Prop) R :
  fresh_id id s → granted id s s1 →
  (∀ m', kept s (set_rt_leases m' s1) → Q tt (set_rt_leases m' s1)) →
  wp (drop_lease id) Q R s1.
Proof.
  intros Hf Hg HQ. apply wp_bind, wp_settle. eapply release_granted; [done|done|].
  intros m' Hk. by apply wp_ret, HQ.
Qed.

Lemma wp_throw {S A} h (Q : A → S → Prop) (R : Halt → S → Prop) s : R h s → wp (throw h) Q R s.
Proof. done. Qed.

(** The process goes on only after a failure. *)
Definition alive (h : Halt) : Prop := match h with Failed_ _ => True | Crashed _ => False end.

(** Acquiring either leaves the leases as they were or holds exactly one more,
    under an entry in [active]. *)
Lemma acquire_wp x r s :
  let id := gi_uuid (ri_grant x) in
  locks_ok (rt_leases s) → fresh_id id s →
  wp (acquire x r)
     (λ res s', rl_lease_id (fl_lease res.1.1) = id ∧ granted id s s' ∧
        poisoned (rt_active s') = false ∧
        ∃ ao, inner (rt_active s') = <[rq_workload_id r := ao]> (inner (rt_active s)))
     (λ h s', alive h → kept s s' ∧ rt_active s' = rt_active s) s.
Proof.
  intros id Hlk Hf. unfold acquire.
  destruct (admit_workload _ _ _); [|by apply wp_throw..].
  destruct (place_with_trace _ _ _) as [[d|] trace]; apply wp_bind; [|by apply wp_throw].
  unfold wp at 1, lift. simpl. apply wp_bind, wp_on_x; [intros _ x1|by intros]. apply wp_bind.
  unfold wp at 1, on_leases, zoom, map_err_M. simpl.
  destruct (grant_fenced _ _ _) as [[fenced|e] m'] eqn:Hg; simpl.
  2:{ apply grant_fenced_Err in Hg as ->; [|done]. by destruct s. }
  apply grant_fenced_Ok in Hg as (-> & m1 & Hins & -> & _).
  apply grant_insert_Ok in Hins as (_ & -> & _).
  match goal with |- context [set_rt_leases ?m ?s1] => set (sg := set_rt_leases m s1) end.
  assert (granted id s sg) as Hgr.
  { split_and!; [by eexists|by eexists|exact Hlk]. }
  assert (rt_active sg = rt_active s) as Hact by done. clearbody sg. simpl.
  assert (∀ (e : KernelError) x2 (Q : FencedLease * DecisionTrace * string → Runtime → Prop),
    wp (_ ← drop_lease id; throw (Failed_ e)) Q
      (λ h s', alive h → kept s s' ∧ rt_active s' = rt_active s) (set_rt_x x2 sg)) as Hdrop.
  { intros e x2 Q. apply wp_bind. eapply drop_granted; [done|exact Hgr|].
    intros m' Hk. by apply wp_throw. }
  apply wp_bind, wp_settle_on_x; [intros [[]|e] x2|done]; [|apply Hdrop].
  apply wp_bind. unfold wp at 1, gets. case_match; [apply Hdrop|].
  apply wp_bind, wp_settle. unfold wp, active_insert. simpl. rewrite Hact.
  destruct (lock (rt_active s)) as [a|] eqn:Hlock; simpl.
  - apply lock_Some in Hlock as [Hpo <-]. split_and!; [done|exact Hgr|done|by eexists].
  - pose proof (Hdrop (KResource "active operation lock is poisoned") x2
      (λ _ _, False)) as Hd. unfold wp in Hd.
    by destruct ((_ ← drop_lease _; throw _) _) as [[?|?] ?].
Qed.

(** Finishing gives the lease and the entry back. *)
Lemma finish_wp x r b fenced trace device execution s s1 :
  let id := rl_lease_id (fl_lease fenced) in
  fresh_id id s → granted id s s1 → poisoned (rt_active s1) = false →
  wp (finish x r b fenced trace device execution)
     (λ _ s', kept s s' ∧ inner (rt_active s') = delete (rq_workload_id r) (inner (rt_active s1)))
     (λ h s', alive h →
        kept s s' ∧ inner (rt_active s') = delete (rq_workload_id r) (inner (rt_active s1))) s1.
Proof.
  intros id Hf Hg Hpo. unfold finish. apply wp_bind, wp_settle_on_x; [intros p x2|done].
  apply wp_bind, wp_settle. unfold wp at 1, active_remove, lock. simpl. rewrite Hpo.
  match goal with |- wp _ _ _ ?st => set (s2 := st) end.
  assert (granted id s s2) as Hg2 by exact Hg.
  set (act := delete (rq_workload_id r) (inner (rt_active s1))).
  assert (inner (rt_active s2) = act) as Hact by done. clearbody s2.
  set (Q := λ s', granted id s s' ∧ inner (rt_active s') = act).
  apply wp_bind. apply (wp_mono _ (λ _, Q) _ (λ h _, ¬ alive h)).
  { destruct execution as [rc|e]; [by apply wp_ret|].
    apply wp_bind, wp_settle_on_x; [intros a1 x3|by intros ? ? []].
    apply wp_bind, wp_settle_on_x; [intros a2 x4|by intros ? ? []]. by apply wp_ret. }
  2:{ intros h s' Hna Hal. done. }
  intros b1 s3 [Hg3 Hact3]. destruct (final_phase execution) as [t phase].
  apply wp_bind, wp_settle_on_x; [intros w x4|done].
  apply wp_bind, wp_settle. eapply release_granted; [done|exact Hg3|]. intros m' Hk.
  apply wp_bind, trigger_wp; [|done].
  apply wp_bind, wp_settle_on_x; [intros d x5|done].
  destruct (get_or_insert _ _); [by apply wp_throw|].
  apply wp_bind. unfold wp at 1, lift. by destruct execution.
Qed.

(** No lease outlives its call. Whatever happens during an execution short of
    the process dying (rejection, storage failures at any point, a failed,
    cancelled or successful provider call), when it returns the lease table and
    the tokens are exactly what they were before, and no other entry of the
    active operations was touched; an operation that was not active before is
    not active after. *)
Theorem no_lease_leaks x b r s res s' :
  locks_ok (rt_leases s) → fresh_id (gi_uuid (ri_grant x)) s →
  execute_internal x b r s = (res, s') → (∀ p, res ≠ Err (Crashed p)) →
  leases (rt_leases s') = leases (rt_leases s) ∧
  lease_tokens (rt_leases s') = lease_tokens (rt_leases s) ∧
  (inner (rt_active s') = inner (rt_active s) ∨
   inner (rt_active s') = delete (rq_workload_id r) (inner (rt_active s))).
Proof.
  intros Hlk Hf He Hnc. assert (kept s s) as Hself by done.
  assert (wp (execute_internal x b r)
    (λ _ s', kept s s' ∧ (inner (rt_active s') = inner (rt_active s) ∨
       inner (rt_active s') = delete (rq_workload_id r) (inner (rt_active s))))
    (λ h s', alive h → kept s s' ∧ (inner (rt_active s') = inner (rt_active s) ∨
       inner (rt_active s') = delete (rq_workload_id r) (inner (rt_active s)))) s) as Hwp.
  { unfold execute_internal. apply wp_bind. unfold wp at 1, lift.
    destruct (validate_sensitive_references r); simpl; [|by auto].
    apply wp_bind. unfold wp at 1, gets. case_decide; [by intros _; auto|].
    apply wp_bind, wp_on_x; [intros o x1|by intros; auto].
    destruct o as [rc|].
    { apply wp_bind. unfold wp at 1, latest_decision_trace.
      destruct (read_from _ _ _); simpl; [apply wp_ret|]; auto. }
    apply wp_bind. eapply wp_mono; [apply (acquire_wp x r (set_rt_x x1 s)); done| |].
    2:{ intros h s1 Hk [Hkept Hact]%Hk. split; [exact Hkept|]. left. by rewrite Hact. }
    intros [[fenced trace] device] s1 (Hid & Hg & Hpo & ao & Hact). simpl in Hid.
    apply wp_bind, wp_settle_on_x; [intros execution x2|done].
    eapply wp_mono; [apply (finish_wp x r b fenced trace device execution s);
      [by rewrite Hid|by rewrite Hid|done]| |].
    - intros _ s2 [Hk Ha]. split; [done|]. right. rewrite Ha. simpl. rewrite Hact.
      by rewrite delete_insert_eq.
    - intros h s2 Hk [Hkept Ha]%Hk. split; [done|]. right. rewrite Ha. simpl. rewrite Hact.
      by rewrite delete_insert_eq. }
  pose proof (wp_elim _ _ _ _ _ _ Hwp He) as Hres.
  destruct res as [ex|h]; [|destruct h as [e|p]; [|by destruct (Hnc p)]].
  - destruct Hres as ((? & ? & _) & ?). done.
  - destruct (Hres I) as ((? & ? & _) & ?). done.
Qed.
End Leases.

(** ** Concrete runs *)

#[global] Instance ResourceVector_countable : Countable ResourceVector.
Proof.
  refine (inj_countable rv_dims
    (λ l, match l with
          | [a; b; c; d; e; f; g; h; i; j; k; m; n] => Some (mkRV a b c d e f g h i j k m n)
          | _ => None end) _).
  by intros [].
Defined.
#[global] Instance ResourceLease_eq_dec : EqDecision ResourceLease.
Proof. solve_decision. Defined.
#[global] Instance ResourceLease_countable : Countable ResourceLease.
Proof.
  refine (inj_countable'
    (λ l, (rl_lease_id l, rl_workload_id l, rl_principal_id l, rl_reserved l, rl_node_id l,
           (rl_device_id l, rl_granted_at l, rl_expires_at l, rl_generation l, rl_renewable l)))
    (λ '(a, b, c, d, e, (f, g, h, i, j)), mkLease a b c d e f g h i j) _).
  by intros [].
Defined.
#[global] Instance FencedLease_eq_dec : EqDecision FencedLease.
Proof. solve_decision. Defined.
#[global] Instance FencedLease_countable : Countable FencedLease.
Proof.
  refine (inj_countable' (λ l, (fl_lease l, fl_fencing_token l, fl_resource_key l))
    (λ '(a, b, c), mkFenced a b c) _).
  by intros [].
Defined.
#[global] Instance JsonField_countable : Countable JsonField.
Proof.
  refine (inj_countable'
    (λ f, match f with JStr s => inl s | JBool b => inr (Some b) | JOther => inr None end)
    (λ x, match x with inl s => JStr s | inr (Some b) => JBool b | inr None => JOther end) _).
  by intros [].
Defined.
#[global] Instance Json_countable : Countable Json.
Proof.
  refine (inj_countable' (λ j, match j with JObj fs => Some fs | JNotObject => None end)
    (λ o, match o with Some fs => JObj fs | None => JNotObject end) _).
  by intros [].
Defined.

#[local] Instance rq_serde : Serde OperationRequest := countable_serde _.
#[local] Instance rc_serde : Serde OperationReceipt := countable_serde _.
#[local] Instance fl_serde : Serde FencedLease := countable_serde _.
#[local] Instance json_serde : Serde Json := countable_serde _.
#[local] Instance rq_serde_laws : SerdeLaws OperationRequest := countable_serde_laws _.
#[local] Instance rc_serde_laws : SerdeLaws OperationReceipt := countable_serde_laws _.
#[local] Instance fl_serde_laws : SerdeLaws FencedLease := countable_serde_laws _.
#[local] Instance json_serde_laws : SerdeLaws Json := countable_serde_laws _.
#[local] Instance trace_serde : Serde DecisionTrace :=
  {| to_vec := λ _, Some []; from_slice := λ _, None; to_vec_text := λ _, "";
     from_slice_text := λ _, "" |}.
#[local] Instance profile_serde : Serde ExecutionProfile :=
  {| to_vec := λ _, Some []; from_slice := λ _, None; to_vec_text := λ _, "";
     from_slice_text := λ _, "" |}.
#[local] Instance ex_host : HostPlatform := {| host_arch := "x86_64"; host_os := "linux" |}.
#[local] Existing Instance ex_env.
#[local] Existing Instance ex_text.
#[local] Existing Instance ex_platform.
#[local] Existing Instance key_order.

(** A run at time [t] that draws the lease [id] and dies at [crash]. *)
Definition ex_run (t : Z) (id : string) (crash : option FaultPoint) : RunIo :=
  mkRunIo ex_io ex_io 0 ex_io (mkGrantIo t t t id) ex_io t (ex_xio crash) 0 0 ex_io 0
    ex_io ex_io ex_io ex_io.
Definition ex_recover : RecoverIo :=
  mkRecoverIo ex_io (λ _, ex_io) ex_io (λ op, ex_run 50 ("r-" +:+ op) None).
Definition ex_rt0 : Runtime := runtime_init "u" Ready.
Definition ex_rt1 : Runtime := (execute_request (ex_run 1 "l1" None) (ex_req "op" "w") ex_rt0).2.

Lemma no_lease_leaks_witness :
  leases (rt_leases ex_rt1) = ∅ ∧ inner (rt_active ex_rt1) = ∅.
Proof.
  destruct (no_lease_leaks (ex_run 1 "l1" None) false (ex_req "op" "w") ex_rt0
    (execute_request (ex_run 1 "l1" None) (ex_req "op" "w") ex_rt0).1 ex_rt1)
    as (Hl & _ & Ha).
  - split_and!; reflexivity.
  - split; reflexivity.
  - unfold ex_rt1, execute_request. by destruct (execute_internal _ _ _ _).
  - intros p. vm_compute. discriminate.
  - rewrite Hl. split; [reflexivity|]. destruct Ha as [->| ->]; reflexivity.
Defined.

(** A lease lasts thirty seconds and is never renewed: while the first execution
    of an operation is still running, a second one of the same operation is
    granted a lease and runs as well, and the entry of the first in [active] is
    replaced. *)
Example expired_lease_admits_second_execution :
  let '(first, s1) := acquire (ex_run 0 "l1" None) (ex_req "op" "w") ex_rt0 in
  let '(second, s2) := acquire (ex_run (seconds 31) "l2" None) (ex_req "op" "w") s1 in
  is_ok first = true ∧ is_ok second = true ∧ size (leases (rt_leases s2)) = 2%nat ∧
  size (inner (rt_active s2)) = 1%nat.
Proof. vm_compute. done. Qed.
