(* ===== verification/Process.v ===== *)
(** * Provider processes

    [ProcessProvider] of [crates/nous-kernel-core/src/lib.rs]: how the kernel
    starts a provider as a child process with a reduced environment, hands it one
    command over its standard input, waits for it under a timeout and a
    cancellation, and reads its answer; and the protocol of external providers. *)

From S2P Require Import Prelude Errors Journal Provider Contracts Executor Coordinator.
Local Open Scope Z_scope.

(** ** Text *)

(** [str::trim]. *)
Fixpoint trim_start (s : string) : string :=
  match s with
  | EmptyString => EmptyString
  | String a s1 =>
      if whitespace1 (byte_of a) then trim_start s1
      else match s1 with
      | String b s2 =>
          if whitespace2 (byte_of a) (byte_of b) then trim_start s2
          else match s2 with
          | String c s3 =>
              if whitespace3 (byte_of a) (byte_of b) (byte_of c) then trim_start s3 else s
          | EmptyString => s
          end
      | EmptyString => s
      end
  end.
Fixpoint trim_end (s : string) : string :=
  if blank s then EmptyString
  else match s with EmptyString => EmptyString | String c s' => String c (trim_end s') end.
Definition trim (s : string) : string := trim_end (trim_start s).

(** [String::from_utf8_lossy]: each maximal prefix of a character that is not
    completed becomes one replacement character. *)
Definition char_of (b : Z) : ascii := ascii_of_N (Z.to_N b).
Definition continuation (b : Z) : bool := (128 <=? b) && (b <=? 191).
Definition second_byte (a b : Z) : bool :=
  if a =? 224 then (160 <=? b) && (b <=? 191)
  else if a =? 237 then (128 <=? b) && (b <=? 159)
  else if a =? 240 then (144 <=? b) && (b <=? 191)
  else if a =? 244 then (128 <=? b) && (b <=? 143)
  else continuation b.
Definition replacement : string :=
  String (char_of 239) (String (char_of 191) (String (char_of 189) EmptyString)).
Fixpoint from_utf8_lossy (l : bytes) : string :=
  match l with
  | [] => ""
  | a :: l1 =>
      if a <? 128 then String (char_of a) (from_utf8_lossy l1)
      else if negb ((194 <=? a) && (a <=? 244)) then replacement +:+ from_utf8_lossy l1
      else match l1 with
      | [] => replacement
      | b :: l2 =>
          if negb (second_byte a b) then replacement +:+ from_utf8_lossy l1
          else if a <? 224 then String (char_of a) (String (char_of b) (from_utf8_lossy l2))
          else match l2 with
          | [] => replacement
          | c :: l3 =>
              if negb (continuation c) then replacement +:+ from_utf8_lossy l2
              else if a <? 240 then
                String (char_of a) (String (char_of b) (String (char_of c) (from_utf8_lossy l3)))
              else match l3 with
              | [] => replacement
              | d :: l4 =>
                  if negb (continuation d) then replacement +:+ from_utf8_lossy l3
                  else String (char_of a) (String (char_of b) (String (char_of c)
                         (String (char_of d) (from_utf8_lossy l4))))
              end
          end
      end
  end.

(** [Value::pointer], the tokens already split. *)
Definition array_index (token : string) : option nat :=
  if starts_with "+" token || starts_with "0" token && negb (bool_decide (token = "0"))
  then None else Z.to_nat <$> parse_u64 token.
Fixpoint value_pointer (v : Value) (tokens : list string) : option Value :=
  match tokens with
  | [] => Some v
  | t :: ts =>
      match (match v with
             | VObject _ => value_get v t
             | VArray l => array_index t ≫= λ i, l !! i
             | _ => None
             end) with
      | Some w => value_pointer w ts
      | None => None
      end
  end.

(** ** The protocol *)

Inductive ProviderCommand : Type :=
| CmdHealth
| CmdProbe (request : ProviderProbeRequest)
| CmdExecute (request : OperationRequest).

Record ProviderResponse : Type := mkProviderResponse {
  ps_ok : bool;
  ps_receipt : option OperationReceipt;
  ps_probe : option ProviderProbeReport;
  ps_error_code : string;
  ps_error_message : string
}.

(** ** The operating system *)

(** The environment of a process; [var] is [std::env::var(..).ok()]. *)
Inductive OsString : Type := Unicode (s : string) | NotUnicode (b : bytes).
Definition Environment : Type := string → option OsString.
Definition env_var (env : Environment) (name : string) : option string :=
  match env name with Some (Unicode s) => Some s | _ => None end.

Record Command : Type := mkCommand {
  cm_program : string;
  cm_args : list string;
  cm_env : gmap string OsString
}.

Record Output : Type := mkOutput {
  out_success : bool;
  out_status : string;
  out_stdout : bytes;
  out_stderr : bytes
}.

(** How the race between the child, the cancellation and the timeout ends. *)
Inductive WaitEnd : Type :=
| Exits (o : Output)
| JoinFails (text : string)
| WaitFails (text : string)
| CancelledFirst
| TimeoutFirst.

(** What the system does during one invocation: the environment of the kernel,
    whether the child can be started, whether its standard input is there and
    can be written, how the wait ends, and the clock. *)
Record ProcessIo : Type := mkProcessIo {
  pi_env : Environment;
  pi_spawn : option string;
  pi_stdin : bool;
  pi_write : option string;
  pi_wait : Command → bytes → Z → WaitEnd;
  pi_now : Z
}.

(** What the kernel does to processes, in order. *)
Inductive ProcessEvent : Type :=
| Spawned (c : Command)
| Wrote (body : bytes)
| Exited
| Killed.

(** ** [ProcessProvider::invoke] *)

Definition external_entrypoint (c : ProviderCommand) : option string :=
  match c with
  | CmdExecute r =>
      if decide (rq_backend r = "external-process") then Some (rq_provider_entrypoint r) else None
  | CmdProbe r =>
      if decide (pr_backend r = "external-process") then Some (pr_provider_entrypoint r) else None
  | CmdHealth => None
  end.

Definition program_and_args (program : string) (entrypoint : option string) :
    string * list string :=
  match entrypoint with
  | Some e => if ends_with ".py" e then ("python", [e]) else (e, [])
  | None => (program, ["--stdio-once"])
  end.

Definition inherited_names : list string :=
  ["PATH"; "SystemRoot"; "WINDIR"; "HOME"; "TMP"; "TEMP"; "LOCALAPPDATA"; "APPDATA"; "USERPROFILE"].
Definition inherit (env : Environment) (m : gmap string OsString) (name : string) :
    gmap string OsString :=
  match env name with Some value => <[name := value]> m | None => m end.

Definition allowed_credentials (env : Environment) : list string :=
  trim <$> split_on "," (default "" (env_var env "NOUS_ALLOWED_CREDENTIALS")).

Definition child_environment (env : Environment) (credential_env : string) :
    result KernelError (gmap string OsString) :=
  let base := foldl (inherit env) ∅ inherited_names in
  if decide (credential_env = "") then Ok base
  else
    _ ← map_err KAdmission (validate_credential_reference credential_env);
    if decide (credential_env ∈ allowed_credentials env) then
      value ← ok_or (env credential_env) (KProvider "credential reference is unavailable");
      Ok (<[credential_env := value]> base)
    else Err (KProvider "credential reference is not authorized for provider use").

(** [external_provider_request]. *)
Definition external_provider_request (c : ProviderCommand) : result KernelError Value :=
  match c with
  | CmdExecute r => Ok (VObject
      [("input", VString (rq_input r)); ("model", VString (rq_model r));
       ("operation_id", VString (rq_operation_id r)); ("schema_version", VNumber (PosInt 1));
       ("type", VString "execute")])
  | CmdProbe _ => Ok (VObject [("schema_version", VNumber (PosInt 1)); ("type", VString "probe")])
  | CmdHealth => Ok (VObject [("schema_version", VNumber (PosInt 1)); ("type", VString "health")])
  end.

Definition response_error (r : ProviderResponse) : KernelError :=
  KProvider (ps_error_code r +:+ ": " +:+ ps_error_message r).

Section Invoke.
Context `{JournalEnv} `{Serde ProviderCommand} `{Serde ProviderResponse} `{Serde Value}
  `{Serde SemanticExecutionSnapshot}.

(** [digest_json]. *)
Definition digest_json `{Serde T} (x : T) : result KernelError string :=
  body ← ok_or (to_vec x) (KSerialization (to_vec_text x));
  Ok (digest_bytes body).

Definition receipt_for (now : Z) (r : OperationRequest) (output : string) :
    result KernelError OperationReceipt :=
  snapshot ← digest_json (rq_snapshot r);
  Ok (mkOpReceipt (rq_operation_id r) (input_digest r) (digest_bytes (string_bytes output)) snapshot
        (sn_provider_revision (rq_snapshot r)) output now).

Definition external_probe (now : Z) (r : ProviderProbeRequest) : ProviderProbeReport :=
  mkProbeReport true 0 []
    (mkManifest 1 (pr_provider r) (pr_backend r) (pr_model r) (pr_execution_domain r)
       SupportUnknown SupportUnknown SupportUnknown SupportUnknown SupportUnknown SupportUnknown
       SupportUnknown Supported Unsupported None true LocalOnly None None now)
    ["generic capabilities are declared by ProviderManifest v1"].

(** [normalize_external_provider_response]. *)
Definition normalize_external_provider_response (now : Z) (c : ProviderCommand) (output : bytes) :
    result KernelError ProviderResponse :=
  body ← ok_or (from_slice (T := Value) output)
           (KProvider ("malformed provider response: " +:+ from_slice_text (T := Value) output));
  if decide (value_get body "ok" ≫= value_as_bool ≠ Some true) then
    Ok (mkProviderResponse false None None
          (default "PROVIDER_EXECUTION_FAILED" (value_pointer body ["error"; "code"] ≫= value_as_str))
          (default "external provider rejected the request"
             (value_pointer body ["error"; "message"] ≫= value_as_str)))
  else match c with
  | CmdExecute r =>
      output ← ok_or (value_get body "output" ≫= value_as_str)
                 (KProvider "external provider returned no string output");
      receipt ← receipt_for now r output;
      Ok (mkProviderResponse true (Some receipt) None "" "")
  | CmdProbe r => Ok (mkProviderResponse true None (Some (external_probe now r)) "" "")
  | CmdHealth => Ok (mkProviderResponse true None None "" "")
  end.

Definition command_body (c : ProviderCommand) : result KernelError bytes :=
  match external_entrypoint c with
  | Some _ =>
      v ← external_provider_request c;
      ok_or (to_vec v) (KSerialization (to_vec_text v))
  | None => ok_or (to_vec c) (KSerialization (to_vec_text c))
  end.

(** From the start of the child to its end. The child is killed when it is
    dropped, which every early return does. *)
Definition run_child (io : ProcessIo) (command : Command) (c : ProviderCommand) (timeout_ms : Z)
    (operation_id : string) : M (list ProcessEvent) KernelError Output := λ log,
  let killed log e := (Err e, log ++ [Killed]) in
  match pi_spawn io with
  | Some e => (Err (KProvider e), log)
  | None =>
      let log := log ++ [Spawned command] in
      match command_body c with
      | Err e => killed log e
      | Ok body =>
          if negb (pi_stdin io) then killed log (KProvider "provider stdin unavailable")
          else match pi_write io with
          | Some e => killed log (KProvider e)
          | None =>
              let log := log ++ [Wrote body] in
              match pi_wait io command body (Z.max timeout_ms 1) with
              | Exits o => (Ok o, log ++ [Exited])
              | JoinFails e | WaitFails e => killed log (KProvider e)
              | CancelledFirst => killed log (KCancelled operation_id)
              | TimeoutFirst => killed log (KDeadlineExceeded operation_id)
              end
          end
      end
  end.

Definition read_response (io : ProcessIo) (c : ProviderCommand) (o : Output) :
    result KernelError ProviderResponse :=
  match external_entrypoint c with
  | Some _ => normalize_external_provider_response (pi_now io) c (out_stdout o)
  | None => ok_or (from_slice (out_stdout o))
              (KSerialization (from_slice_text (T := ProviderResponse) (out_stdout o)))
  end.

Definition exit_error (o : Output) : KernelError :=
  let stderr := trim (from_utf8_lossy (out_stderr o)) in
  KProvider (if decide (stderr = "")
             then "provider process exited with status " +:+ out_status o else stderr).

Definition judge_output (o : Output) (response : result KernelError ProviderResponse) :
    result KernelError ProviderResponse :=
  if negb (out_success o) then
    match response with
    | Ok r => Err (if ps_ok r then exit_error o else response_error r)
    | Err _ => Err (exit_error o)
    end
  else
    r ← response;
    if ps_ok r then Ok r else Err (response_error r).

Definition invoke (io : ProcessIo) (program : string) (c : ProviderCommand)
    (credential_env : string) (timeout_ms : Z) (operation_id : string) :
    M (list ProcessEvent) KernelError ProviderResponse :=
  let '(prog, args) := program_and_args program (external_entrypoint c) in
  env ← lift (child_environment (pi_env io) credential_env);
  o ← run_child io (mkCommand prog args env) c timeout_ms operation_id;
  lift (judge_output o (read_response io c o)).

(** [Provider for ProcessProvider]. *)
Definition provider_execute (io : ProcessIo) (program : string) (r : OperationRequest) :
    M (list ProcessEvent) KernelError OperationReceipt :=
  response ← invoke io program (CmdExecute r) (rq_credential_env r) (rq_timeout_ms r)
               (rq_operation_id r);
  lift (ok_or (ps_receipt response) (KProvider "provider returned no receipt")).
Definition provider_probe (io : ProcessIo) (program : string) (r : ProviderProbeRequest) :
    M (list ProcessEvent) KernelError ProviderProbeReport :=
  response ← invoke io program (CmdProbe r) (pr_credential_env r) (pr_timeout_ms r)
               "provider-probe";
  lift (ok_or (ps_probe response) (KProvider "provider returned no capability report")).
End Invoke.

(** ** What a child is given *)

(** A variable of a child comes from the kernel's own environment, and is one of
    the few every child gets or the credential, which the operator allowed. *)
Definition confined (env : Environment) (credential_env : string) (c : Command) : Prop :=
  (credential_env = "" ∨
   credential_env ∈ allowed_credentials env ∧ validate_credential_reference credential_env = Ok tt) ∧
  ∀ name value, cm_env c !! name = Some value →
    env name = Some value ∧ (name ∈ inherited_names ∨ name = credential_env).

Lemma inherit_all env names m name value :
  foldl (inherit env) m names !! name = Some value →
  m !! name = Some value ∨ env name = Some value ∧ name ∈ names.
Proof.
  revert m. induction names as [|n names IH]; simpl; intros m Hl; [by left|].
  destruct (IH _ Hl) as [Hm|[He Hn]]; [|right; split; [done|by apply list_elem_of_further]].
  unfold inherit in Hm. destruct (env n) as [v|] eqn:Hv; [|by left].
  destruct (decide (n = name)) as [->|Hne].
  - rewrite lookup_insert_eq in Hm. injection Hm as ->. right. split; [done|apply list_elem_of_here].
  - rewrite lookup_insert_ne in Hm by done. by left.
Qed.

Lemma child_environment_confined env credential_env m prog args :
  child_environment env credential_env = Ok m → confined env credential_env (mkCommand prog args m).
Proof.
  assert (∀ name value, foldl (inherit env) ∅ inherited_names !! name = Some value →
            env name = Some value ∧ name ∈ inherited_names) as Hbase.
  { intros name value Hl. destruct (inherit_all _ _ _ _ _ Hl) as [Hm|?]; [|done].
    by rewrite lookup_empty in Hm. }
  unfold child_environment, confined. cbv zeta. destruct (decide (credential_env = "")).
  { intros [= <-]. split; [by left|]. intros name value Hl. apply Hbase in Hl as [??]. eauto. }
  destruct (validate_credential_reference credential_env) as [[]|e] eqn:Hv; [|done]. simpl.
  destruct (decide (credential_env ∈ allowed_credentials env)) as [Ha|]; [|done].
  destruct (env credential_env) as [v|] eqn:He; simpl; [|done].
  intros [= <-]. split; [by right|]. intros name value.
  simpl. destruct (decide (credential_env = name)) as [->|Hne].
  - rewrite lookup_insert_eq. intros [= ->]. eauto.
  - rewrite lookup_insert_ne by done. intros Hl. apply Hbase in Hl as [??]. eauto.
Qed.

(** ** What an invocation leaves behind *)

(** Nothing was started, or one child was, was given at most one document, and is
    gone. *)
Inductive supervised (ok : Command → Prop) (given : bytes → Prop) : list ProcessEvent → Prop :=
| SupNone : supervised ok given []
| SupKilled c : ok c → supervised ok given [Spawned c; Killed]
| SupStopped c body : ok c → given body → supervised ok given [Spawned c; Wrote body; Killed]
| SupExited c body : ok c → given body → supervised ok given [Spawned c; Wrote body; Exited].
#[local] Hint Constructors supervised : apeir.

Section Invocation.
Context `{JournalEnv} `{Serde ProviderCommand} `{Serde ProviderResponse} `{Serde Value}
  `{Serde SemanticExecutionSnapshot}.

Lemma run_child_supervised io command c timeout op log :
  ∃ evs, (run_child io command c timeout op log).2 = log ++ evs ∧
    supervised (λ d, d = command) (λ b, command_body c = Ok b) evs.
Proof.
  unfold run_child. destruct (pi_spawn io); [exists []; rewrite app_nil_r; auto with apeir|].
  destruct (command_body c) as [body|e] eqn:Hb;
    [|exists [Spawned command; Killed]; rewrite <-app_assoc; auto with apeir].
  destruct (pi_stdin io); simpl;
    [|exists [Spawned command; Killed]; rewrite <-app_assoc; auto with apeir].
  destruct (pi_write io);
    [exists [Spawned command; Killed]; rewrite <-app_assoc; auto with apeir|].
  destruct (pi_wait io command body _);
    [exists [Spawned command; Wrote body; Exited]|exists [Spawned command; Wrote body; Killed]..];
    rewrite <-!app_assoc; auto with apeir.
Qed.

(** Whatever command the kernel gives to a provider, it starts at most one
    process and, whether the call succeeds, fails, is cancelled or times out,
    that process has exited or was killed when the call returns. It runs the
    configured provider program, or the entry point the request names when its
    backend is an external process, and its environment holds nothing but
    variables of the kernel's own: the nine every child gets and the credential the
    request refers to, which the operator must have allowed. All it is given is the
    encoding of the command. *)
Theorem provider_confined io program c credential_env timeout_ms op log :
  ∃ evs, (invoke io program c credential_env timeout_ms op log).2 = log ++ evs ∧
    supervised (λ d, confined (pi_env io) credential_env d ∧
      (cm_program d, cm_args d) = program_and_args program (external_entrypoint c))
      (λ b, command_body c = Ok b) evs.
Proof.
  unfold invoke. destruct (program_and_args _ _) as [prog args].
  unfold mbind, M_bind, lift. destruct (child_environment _ _) as [env|e] eqn:He.
  2:{ exists []. rewrite app_nil_r. auto with apeir. }
  destruct (run_child_supervised io (mkCommand prog args env) c timeout_ms op log)
    as (evs & Hevs & Hs).
  exists evs. split.
  { destruct (run_child _ _ _ _ _ _) as [[o|e] log']; done. }
  pose proof (child_environment_confined _ _ _ prog args He).
  destruct Hs as [|d ->|d body -> Hb|d body -> Hb]; auto with apeir.
Qed.

(** An answer is the child's own: it was started, was given the command, exited
    with success and printed an answer that says so. *)
Lemma invoke_Ok io program c credential_env timeout_ms op log r log' :
  invoke io program c credential_env timeout_ms op log = (Ok r, log') ↔
  ∃ prog args env body o,
    program_and_args program (external_entrypoint c) = (prog, args) ∧
    child_environment (pi_env io) credential_env = Ok env ∧
    pi_spawn io = None ∧ command_body c = Ok body ∧ pi_stdin io = true ∧ pi_write io = None ∧
    pi_wait io (mkCommand prog args env) body (Z.max timeout_ms 1) = Exits o ∧
    out_success o = true ∧ read_response io c o = Ok r ∧ ps_ok r = true ∧
    log' = log ++ [Spawned (mkCommand prog args env); Wrote body; Exited].
Proof.
  unfold invoke. destruct (program_and_args _ _) as [prog args].
  unfold mbind, M_bind, lift. split.
  - destruct (child_environment _ _) as [env|e] eqn:He; [|done]. unfold run_child.
    destruct (pi_spawn io); [done|]. destruct (command_body c) as [body|]; [|done].
    destruct (pi_stdin io); simpl; [|done]. destruct (pi_write io); [done|].
    destruct (pi_wait _ _ _ _) as [o| | | |] eqn:Hw; [|done..].
    unfold judge_output. destruct (out_success o) eqn:Hs; simpl.
    2:{ destruct (read_response io c o) as [[[] ? ? ? ?]|]; done. }
    destruct (read_response io c o) as [r'|] eqn:Hr; simpl; [|done].
    destruct (ps_ok r') eqn:Hok; [|done]. intros [= <- <-].
    exists prog, args, env, body, o. rewrite <-!app_assoc. split_and!; done.
  - intros (prog' & args' & env & body & o & [= <- <-] & -> & Hsp & Hb & Hin & Hwr & Hw & Hs & Hr & Hok & ->).
    unfold run_child. rewrite Hsp, Hb, Hin, Hwr, Hw. simpl. unfold judge_output.
    rewrite Hs, Hr. simpl. rewrite Hok. rewrite <-!app_assoc. done.
Qed.

(** A receipt that is about the request: its identity, its input and the revisions
    it was to run under, with the digest of the result it carries. *)
Definition bound_receipt (r : OperationRequest) (rc : OperationReceipt) : Prop :=
  or_operation_id rc = rq_operation_id r ∧ or_input_digest rc = input_digest r ∧
  or_output_digest rc = digest_bytes (string_bytes (or_result rc)) ∧
  digest_json (rq_snapshot r) = Ok (or_snapshot_digest rc) ∧
  or_provider_revision rc = sn_provider_revision (rq_snapshot r).

Lemma receipt_for_bound now r output rc : receipt_for now r output = Ok rc → bound_receipt r rc.
Proof.
  unfold receipt_for. destruct (digest_json _) as [d|] eqn:Hd; simpl; [|done].
  intros [= <-]. done.
Qed.

(** An external provider cannot answer for another operation: the kernel makes
    the receipt itself, from the request and the text the provider returned. *)
Lemma external_receipt_bound io program r log rc log' :
  rq_backend r = "external-process" →
  provider_execute io program r log = (Ok rc, log') → bound_receipt r rc.
Proof.
  intros Hb. unfold provider_execute, mbind, M_bind at 1.
  destruct (invoke _ _ _ _ _ _ _) as [[resp|] l] eqn:Hi; [|done]. unfold lift.
  apply invoke_Ok in Hi as (prog & args & env & body & o & _ & _ & _ & _ & _ & _ & _ & _ & Hr & Hok & _).
  unfold read_response, external_entrypoint in Hr. rewrite decide_True in Hr by done.
  unfold normalize_external_provider_response in Hr.
  destruct (from_slice _) as [v|]; simpl in Hr; [|done].
  destruct (decide (_ ≠ Some true)) as [|]; [by injection Hr as <-|].
  destruct (value_get v "output" ≫= value_as_str) as [out|]; simpl in Hr; [|done].
  destruct (receipt_for _ _ _) as [rc'|] eqn:Hrc; simpl in Hr; [|done].
  injection Hr as <-. simpl. intros [= -> ->]. by eapply receipt_for_bound.
Qed.
End Invocation.
