(* ===== verification/Worker.v ===== *)
(** * The reference provider

    [providers/worker/src/main.rs]: the program the kernel starts for every
    provider that is not external. It reads one command, runs the backend the
    request names (deterministic ones, or model servers over HTTP) and prints one
    response; and its composition with the kernel's side in [Process]. *)

From S2P Require Import Prelude Errors Float64 Journal Provider Contracts ControlPlane Executor.
From S2P Require Import Coordinator Process.
Local Open Scope Z_scope.

(** ** JSON *)

Definition value_as_array (v : Value) : option (list Value) :=
  match v with VArray l => Some l | _ => None end.
Definition value_as_f64 (v : Value) : option f64 :=
  match v with
  | VNumber (PosInt n) | VNumber (NegInt n) => Some (f64_of_Z n)
  | VNumber (Float x) => Some x
  | _ => None
  end.
(** [json!] of a float: what is no number becomes null. *)
Definition json_f64 (x : f64) : Value := if f64_is_finite x then VNumber (Float x) else VNull.
(** [json!] of an object: its members in key order. *)
Definition json_object (l : list (string * Value)) : Value :=
  VObject (sort_by (λ a b, String.compare a.1 b.1) l).

Fixpoint string_of_bytes (b : bytes) : string :=
  match b with [] => "" | x :: b' => String (char_of x) (string_of_bytes b') end.

Record ModelInvocationOutput : Type := mkInvocationOutput {
  mo_schema_version : Z;
  mo_content : Value;
  mo_usage : Value;
  mo_finish_reason : string;
  mo_metadata : Value
}.

(** [str::trim_end_matches('/')]. *)
Fixpoint trim_end_slashes (s : string) : string :=
  match s with
  | EmptyString => EmptyString
  | String c s' =>
      let t := trim_end_slashes s' in
      if decide (c = "/"%char ∧ t = "") then "" else String c t
  end.

(** ** HTTP *)

(** [reqwest::Url], by what is read of it. *)
Record Url : Type := mkUrl {
  u_text : string;
  u_scheme : string;
  u_username : string;
  u_password : option string;
  u_host : option string;
  u_query : option string;
  u_fragment : option string
}.

Record HttpRequest : Type := mkHttp {
  hq_post : bool;
  hq_url : Url;
  hq_bearer : option string;
  hq_body : option Value;
  hq_timeout_ms : Z
}.

(** A reply: status, its text, the error [error_for_status] makes of it, and the
    body as JSON or the reason it is none. *)
Record HttpReply : Type := mkReply {
  hp_status : Z;
  hp_status_text : string;
  hp_error_text : string;
  hp_json : result string Value
}.

(** What became of a request handed to the HTTP client: the requests the client
    made of itself, following redirects, and how it ended. The worker leaves the
    client's redirect policy as it is: up to ten redirects are followed, to wherever
    they lead. *)
Record Exchange : Type := mkExchange {
  xc_followed : list HttpRequest;
  xc_reply : result string HttpReply
}.

Inductive WorkerEvent : Type :=
| Sent (q : HttpRequest)
| Followed (q : HttpRequest)
| Slept (ms : Z).

(** How the worker stops short of a result: with an error, or with
    [std::process::exit(70)]. *)
Inductive WorkerHalt : Type := WFailed (e : KernelError) | WExit70.

(** What the worker finds: arguments, standard input, environment, the URL parser
    and HTTP client of its library, the elapsed times, the clock, and what reached
    standard output if it broke. *)
Record WorkerIo : Type := mkWorkerIo {
  wi_args : list string;
  wi_stdin : result string bytes;
  wi_env : Environment;
  wi_url : string → option Url;
  wi_client : option string;
  wi_http : HttpRequest → Exchange;
  wi_elapsed : Z;
  wi_elapsed_later : Z;
  wi_now : Z;
  wi_stdout : option bytes
}.

Abbreviation W := (M (list WorkerEvent) WorkerHalt).
Definition wfail {A} (message : string) : W A := throw (WFailed (KProvider message)).
Definition wlift {A} (r : result KernelError A) : W A := lift (map_err WFailed r).

(** [checked_endpoint]. *)
Definition loopback (u : Url) : bool :=
  match u_host u with
  | Some h => bool_decide (h ∈ ["localhost"; "127.0.0.1"; "::1"])
  | None => false
  end.
Definition checked_endpoint (io : WorkerIo) (value : string) (allow_loopback_http : bool) :
    result KernelError Url :=
  match wi_url io value with
  | None => Err (KProvider "provider endpoint is invalid")
  | Some url =>
      if negb (bool_decide (u_username url = "")) || bool_decide (is_Some (u_password url))
         || bool_decide (is_Some (u_query url)) || bool_decide (is_Some (u_fragment url))
      then Err (KProvider
        "provider endpoint must not contain credentials, query parameters, or fragments")
      else if negb (bool_decide (u_scheme url = "https"))
              && negb (allow_loopback_http && loopback url)
      then Err (KProvider "provider endpoint must use HTTPS (HTTP is allowed only on loopback)")
      else Ok url
  end.

(** [credential] and [probe_credential]. *)
Definition credential (io : WorkerIo) (credential_env : string) : result KernelError string :=
  if decide (credential_env = "") then Err (KProvider "credential reference is required")
  else ok_or (env_var (wi_env io) credential_env) (KProvider "credential reference is unavailable").

(** [Client::builder()...build()] and [send]. *)
Definition build_client (io : WorkerIo) : W unit :=
  match wi_client io with Some e => wfail e | None => mret tt end.
Definition send (io : WorkerIo) (q : HttpRequest) : W HttpReply := λ log,
  let x := wi_http io q in
  let log' := log ++ Sent q :: (Followed <$> xc_followed x) in
  match xc_reply x with
  | Err e => (Err (WFailed (KProvider e)), log')
  | Ok reply => (Ok reply, log')
  end.
(** [error_for_status], then the body. *)
Definition checked_json (reply : HttpReply) : result KernelError Value :=
  if (400 <=? hp_status reply) && (hp_status reply <=? 599)
  then Err (KProvider (hp_error_text reply)) else map_err KProvider (hp_json reply).

(** [ensure_provider_http_success]. *)
Definition ensure_provider_http_success (reply : HttpReply) : result KernelError unit :=
  if (200 <=? hp_status reply) && (hp_status reply <=? 299) then Ok tt
  else Err (KProvider ((if hp_status reply =? 402 then "NOUS_PROVIDER_BALANCE_EXHAUSTED"
                        else "NOUS_PROVIDER_HTTP_ERROR")
                       +:+ ": HTTP " +:+ hp_status_text reply)).

(** [model_messages] and [openai_request_body]. *)
Definition user_message (content : Value) : Value :=
  json_object [("role", VString "user"); ("content", content)].
Definition model_messages (i : ModelInvocationInput Value) : list Value :=
  match mi_messages i with [] => [user_message (mi_input i)] | messages => messages end.
Definition openai_request_body (r : OperationRequest) (i : option (ModelInvocationInput Value)) :
    Value :=
  match i with
  | None => json_object [("model", VString (rq_model r));
                         ("messages", VArray [user_message (VString (rq_input r))])]
  | Some i =>
      if decide (mi_capability _ i = "embedding")
      then json_object [("model", VString (rq_model r)); ("input", mi_input i)]
      else json_object
        ([("model", VString (rq_model r)); ("messages", VArray (model_messages i))]
         ++ match mi_tools _ i with [] => [] | tools => [("tools", VArray tools)] end
         ++ match mi_response_format _ i with Some f => [("response_format", f)] | None => [] end
         ++ match mi_max_output_tokens i with
            | Some n => [("max_tokens", VNumber (PosInt n))] | None => [] end
         ++ match mi_temperature i with
            | Some t => [("temperature", json_f64 t)] | None => [] end)
  end.

(** [ollama]'s request. *)
Definition ollama_request_body (r : OperationRequest) (i : option (ModelInvocationInput Value)) :
    Value :=
  match i with
  | None => json_object [("model", VString (rq_model r)); ("prompt", VString (rq_input r));
                         ("stream", VBool false)]
  | Some i => json_object
      ([("model", VString (rq_model r)); ("messages", VArray (model_messages i));
        ("stream", VBool false)]
       ++ match mi_temperature i with
          | Some t => [("options", json_object [("temperature", json_f64 t)])] | None => [] end)
  end.

(** ** Backends *)

Section Worker.
Context `{JournalEnv} `{Serde Value} `{Serde SemanticExecutionSnapshot} `{Serde ProviderCommand}
  `{Serde ProviderResponse} `{Serde ModelInvocationOutput} `{FromValue (ModelInvocationInput Value)}.

(** [serde_json::to_string]. *)
Definition to_text `{Serde T} (x : T) : result KernelError string :=
  match to_vec x with
  | Some b => Ok (string_of_bytes b)
  | None => Err (KSerialization (to_vec_text x))
  end.

(** [number_array] and [reference_math]. *)
Fixpoint numbers_of (field : string) (l : list Value) : result KernelError (list f64) :=
  match l with
  | [] => Ok []
  | v :: l' =>
      x ← ok_or (value_as_f64 v) (KProvider ("'" +:+ field +:+ "' must be numeric"));
      xs ← numbers_of field l';
      Ok (x :: xs)
  end.
Definition number_array (v : Value) (field : string) : result KernelError (list f64) :=
  l ← ok_or (value_get v field ≫= value_as_array)
        (KProvider ("numeric array '" +:+ field +:+ "' is required"));
  numbers_of field l.

Definition linear (bias : f64) (coefficients values : list f64) : f64 :=
  foldl (λ sum '(c, v), f64_add sum (f64_mul c v)) bias (zip coefficients values).
Definition polynomial (value : f64) (coefficients : list f64) : f64 :=
  foldl (λ result c, f64_add (f64_mul result value) c) (f64_of_Z 0) (reverse coefficients).

Definition reference_math (input : string) : result KernelError string :=
  request ← ok_or (from_slice (T := Value) (string_bytes input))
              (KProvider ("invalid mathematical input: "
                          +:+ from_slice_text (T := Value) (string_bytes input)));
  operation ← ok_or (value_get request "operation" ≫= value_as_str)
                (KProvider "mathematical operation is required");
  result ←
    (if decide (operation = "linear") then
       coefficients ← number_array request "coefficients";
       values ← number_array request "input";
       if decide (length coefficients ≠ length values)
       then Err (KProvider "coefficients and input must have equal length")
       else Ok (linear (default (f64_of_Z 0) (value_get request "bias" ≫= value_as_f64))
                  coefficients values)
     else if decide (operation = "polynomial") then
       coefficients ← number_array request "coefficients";
       value ← ok_or (value_get request "input" ≫= value_as_f64)
                 (KProvider "numeric input is required");
       Ok (polynomial value coefficients)
     else Err (KProvider ("unsupported mathematical operation: " +:+ operation)));
  to_text (json_object [("operation", VString operation); ("result", json_f64 result)]).

(** [decode_model_input]. *)
Definition decode_model_input (input : string) :
    result KernelError (option (ModelInvocationInput Value)) :=
  match from_slice (T := Value) (string_bytes input) with
  | None => Ok None
  | Some v =>
      if decide (value_get v "schema_version" = None ∨
                 value_get v "messages" = None ∧ value_get v "input" = None)
      then Ok None
      else
        i ← ok_or (from_value v)
              (KProvider ("invalid model invocation: "
                 +:+ from_value_text (T := ModelInvocationInput Value) v));
        _ ← map_err (λ e, KProvider ("invalid model invocation: " +:+ e))
              (validate_invocation value_is_null i);
        Ok (Some i)
  end.

(** [encode_openai_output]. *)
Definition encode_openai_output (body : Value) (i : ModelInvocationInput Value) :
    result KernelError string :=
  parts ←
    (if decide (mi_capability _ i = "embedding") then
       embedding ← ok_or (value_pointer body ["data"; "0"; "embedding"])
                     (KProvider "response contains no embedding");
       Ok (embedding, "completed", json_object [("backend", VString "openai-compatible")])
     else
       message ← ok_or (value_pointer body ["choices"; "0"; "message"])
                   (KProvider "response contains no message");
       Ok (default VNull (value_get message "content"),
           default "completed"
             (value_pointer body ["choices"; "0"; "finish_reason"] ≫= value_as_str),
           json_object [("backend", VString "openai-compatible");
                        ("tool_calls", default VNull (value_get message "tool_calls"))]));
  let '(content, finish_reason, metadata) := parts in
  to_text (mkInvocationOutput 1 content (default VNull (value_get body "usage")) finish_reason
             metadata).

(** [openai_compatible]. *)
Definition openai_compatible (io : WorkerIo) (r : OperationRequest) : W string :=
  let allow_loopback_http := bool_decide (rq_backend r = "edge-openai-compatible") in
  invocation ← wlift (decode_model_input (rq_input r));
  let capability := default "chat" (mi_capability _ <$> invocation) in
  let path := if decide (capability = "embedding") then "embeddings" else "chat/completions" in
  url ← wlift (checked_endpoint io (trim_end_slashes (rq_endpoint r) +:+ "/" +:+ path)
                 allow_loopback_http);
  _ ← build_client io;
  bearer ← wlift (if bool_decide (rq_credential_env r = "") && allow_loopback_http then Ok None
                  else Some <$> credential io (rq_credential_env r));
  reply ← send io (mkHttp true url bearer (Some (openai_request_body r invocation))
                     (Z.max (rq_timeout_ms r) 1));
  _ ← wlift (ensure_provider_http_success reply);
  body ← wlift (map_err KProvider (hp_json reply));
  wlift (match invocation with
         | Some i => encode_openai_output body i
         | None => ok_or (value_pointer body ["choices"; "0"; "message"; "content"] ≫= value_as_str)
                     (KProvider "response contains no message content")
         end).

(** [ollama]. *)
Definition encode_ollama_output (body : Value) : result KernelError string :=
  content ← ok_or (value_pointer body ["message"; "content"])
              (KProvider "response contains no message content");
  to_text (mkInvocationOutput 1 content
    (json_object [("prompt_tokens", default VNull (value_get body "prompt_eval_count"));
                  ("completion_tokens", default VNull (value_get body "eval_count"))])
    (default "completed" (value_get body "done_reason" ≫= value_as_str))
    (json_object [("backend", VString "ollama")])).
Definition ollama (io : WorkerIo) (r : OperationRequest) : W string :=
  invocation ← wlift (decode_model_input (rq_input r));
  let path := match invocation with Some _ => "api/chat" | None => "api/generate" end in
  url ← wlift (checked_endpoint io (trim_end_slashes (rq_endpoint r) +:+ "/" +:+ path) true);
  _ ← build_client io;
  reply ← send io (mkHttp true url None (Some (ollama_request_body r invocation))
                     (Z.max (rq_timeout_ms r) 1));
  body ← wlift (checked_json reply);
  wlift (match invocation with
         | Some _ => encode_ollama_output body
         | None => ok_or (value_get body "response" ≫= value_as_str)
                     (KProvider "response contains no generated text")
         end).

(** [execute_backend]. *)
Definition execute_backend (io : WorkerIo) (r : OperationRequest) : W string :=
  let digest := digest_bytes (string_bytes (rq_input r)) in
  if decide (rq_backend r = "reference") then mret digest
  else if decide (rq_backend r = "reference-crash") then throw WExit70
  else if decide (rq_backend r = "reference-delay") then
    _ ← modify (λ log, log ++ [Slept (Z.min (default 1000 (parse_u64 (rq_model r))) 30000)]);
    mret digest
  else if decide (rq_backend r = "reference-math") then wlift (reference_math (rq_input r))
  else if decide (rq_backend r = "openai-compatible" ∨ rq_backend r = "edge-openai-compatible")
  then openai_compatible io r
  else if decide (rq_backend r = "ollama") then ollama io r
  else wfail ("unsupported backend: " +:+ rq_backend r).

(** ** Probes *)

Definition model_names (body : Value) (list_field name_field : string) : list string :=
  omap (λ m, value_get m name_field ≫= value_as_str)
    (default [] (value_get body list_field ≫= value_as_array)).

Definition probe_get (io : WorkerIo) (r : ProviderProbeRequest) (url : Url)
    (bearer : W (option string)) : W Value :=
  _ ← build_client io;
  bearer ← bearer;
  reply ← send io (mkHttp false url bearer None (Z.max (pr_timeout_ms r) 1));
  wlift (checked_json reply).

(** The class, the models and the warnings of a backend. *)
Definition discover (io : WorkerIo) (r : ProviderProbeRequest) :
    W (ProviderRuntimeClass * list string * list string) :=
  let endpoint path := trim_end_slashes (pr_endpoint r) +:+ path in
  if decide (pr_backend r ∈ ["reference"; "reference-delay"; "reference-crash"; "reference-math"])
  then mret (PRC_Reference, ["reference"], ["deterministic conformance backend; not a real model"])
  else if decide (pr_backend r = "openai-compatible") then
    secret ← wlift (credential io (pr_credential_env r));
    url ← wlift (checked_endpoint io (endpoint "/models") false);
    body ← probe_get io r url (mret (Some secret));
    mret (PRC_Remote, model_names body "data" "id", [])
  else if decide (pr_backend r = "ollama") then
    url ← wlift (checked_endpoint io (endpoint "/api/tags") true);
    body ← probe_get io r url (mret None);
    mret (PRC_Local, model_names body "models" "name", [])
  else if decide (pr_backend r = "edge-openai-compatible") then
    url ← wlift (checked_endpoint io (endpoint "/models") true);
    body ← probe_get io r url
             (if decide (pr_credential_env r = "") then mret None
              else wlift (Some <$> credential io (pr_credential_env r)));
    mret (PRC_Edge, model_names body "data" "id",
          ["capabilities not returned by the endpoint remain UNKNOWN"])
  else wfail ("unsupported backend: " +:+ pr_backend r).

(** [Debug] of [ProviderRuntimeClass]. *)
Definition class_name (c : ProviderRuntimeClass) : string :=
  match c with
  | PRC_Remote => "Remote" | PRC_Local => "Local" | PRC_Edge => "Edge"
  | PRC_Reference => "Reference" | PRC_Unknown => "Unknown"
  end.

Definition probe_warnings (r : ProviderProbeRequest) (c : ProviderRuntimeClass)
    (models : list string) : list string :=
  (if decide (pr_model r ≠ "" ∧ models ≠ [] ∧ pr_model r ∉ models)
   then ["configured model '" +:+ pr_model r +:+ "' was not reported by the provider"] else [])
  ++ (if decide (pr_execution_domain r ≠ PRC_Unknown ∧ pr_execution_domain r ≠ c)
      then ["configured execution domain '" +:+ class_name (pr_execution_domain r)
            +:+ "' differs from probed domain '" +:+ class_name c +:+ "'"] else []).

Definition probed_capabilities (io : WorkerIo) (r : ProviderProbeRequest)
    (c : ProviderRuntimeClass) : ModelCapabilityManifest :=
  let is_reference := bool_decide (c = PRC_Reference) in
  let is_local := bool_decide (c ∈ [PRC_Local; PRC_Edge; PRC_Reference]) in
  mkManifest 1 (pr_provider r) (pr_backend r) (pr_model r) c
    (if is_reference then Supported else SupportUnknown)
    (if is_reference then Unsupported else SupportUnknown)
    SupportUnknown SupportUnknown SupportUnknown SupportUnknown SupportUnknown
    (if is_local then Supported else Unsupported)
    (if bool_decide (c = PRC_Remote) then Supported else Unsupported)
    None is_local (if is_local then LocalOnly else ProviderManaged)
    (Some (Z.min (wi_elapsed_later io) u64_max)) None (wi_now io).

(** [probe_backend]. *)
Definition probe_backend (io : WorkerIo) (r : ProviderProbeRequest) : W ProviderProbeReport :=
  found ← discover io r;
  let '(c, models, warnings) := found in
  mret (mkProbeReport true (Z.min (wi_elapsed io) u64_max) models (probed_capabilities io r c)
          (warnings ++ probe_warnings r c models)).

(** ** The process *)

(** [run]. *)
Definition plain_response : ProviderResponse := mkProviderResponse true None None "" "".
Definition worker_run (io : WorkerIo) : W ProviderResponse :=
  if decide (wi_args io !! 0%nat ≠ Some "--stdio-once") then wfail "expected --stdio-once"
  else
    body ← wlift (map_err KProvider (wi_stdin io));
    command ← wlift (ok_or (from_slice (T := ProviderCommand) body)
                       (KSerialization (from_slice_text (T := ProviderCommand) body)));
    match command with
    | CmdHealth => mret plain_response
    | CmdProbe r =>
        report ← probe_backend io r;
        mret (mkProviderResponse true None (Some report) "" "")
    | CmdExecute r =>
        output ← execute_backend io r;
        receipt ← wlift (receipt_for (wi_now io) r output);
        mret (mkProviderResponse true (Some receipt) None "" "")
    end.

(** [main]: what is printed, and the exit code. *)
Definition print_response (io : WorkerIo) (r : ProviderResponse) : bytes * Z :=
  match to_vec r, wi_stdout io with
  | Some b, None => (b, if ps_ok r then 0 else 1)
  | _, Some b => (b, 2)
  | None, None => ([], 2)
  end.
Definition worker_main (io : WorkerIo) : (bytes * Z) * list WorkerEvent :=
  match worker_run io [] with
  | (Ok r, log) => (print_response io r, log)
  | (Err (WFailed e), log) =>
      (print_response io (mkProviderResponse false None None "PROVIDER_EXECUTION_FAILED"
                            (kernel_error_text e)), log)
  | (Err WExit70, log) => (([], 70), log)
  end.
End Worker.

(** ** What a computation of the worker sends *)

(** What the worker does itself, as opposed to its HTTP client. *)
Definition followed (e : WorkerEvent) : bool := match e with Followed _ => true | _ => false end.
Definition initiated (evs : list WorkerEvent) : list WorkerEvent :=
  filter (λ e, followed e = false) evs.
Lemma initiated_followed qs : initiated (Followed <$> qs) = [].
Proof. induction qs as [|q qs IH]; [done|]. unfold initiated. rewrite fmap_cons, filter_cons_False; done. Qed.

(** [emits n P m]: whatever it returns, [m] does at most [n] things, each with
    [P]. *)
Definition emits {A} (n : nat) (P : WorkerEvent → Prop) (m : W A) : Prop :=
  ∀ log, ∃ evs, (m log).2 = log ++ evs ∧ Forall P (initiated evs) ∧ (length (initiated evs) ≤ n)%nat.

Section Emits.
Context (P : WorkerEvent → Prop).

Lemma emits_quiet {A} n (m : W A) : (∀ log, (m log).2 = log) → emits n P m.
Proof. intros Hm log. exists []. rewrite Hm, app_nil_r. split_and!; [done..|simpl; lia]. Qed.

Lemma emits_bind {A B} n k (m : W A) (f : A → W B) :
  emits n P m → (∀ a, emits k P (f a)) → emits (n + k) P (m ≫= f).
Proof.
  intros Hm Hf log. unfold mbind, M_bind. destruct (Hm log) as (evs & He & HP & Hl).
  destruct (m log) as [[a|e] log']; simpl in *; subst log'.
  - destruct (Hf a (log ++ evs)) as (evs' & He' & HP' & Hl'). exists (evs ++ evs').
    unfold initiated. rewrite He', app_assoc, filter_app, Forall_app, length_app.
    split_and!; [done..|]. unfold initiated in *. lia.
  - exists evs. split_and!; [done..|lia].
Qed.

Lemma emits_lift {A B} n (r : result KernelError A) (f : A → W B) :
  (∀ a, r = Ok a → emits n P (f a)) → emits n P (wlift r ≫= f).
Proof.
  intros Hf. unfold wlift, lift, mbind, M_bind. destruct r as [a|e]; simpl; [|by apply emits_quiet].
  intros log. by apply Hf.
Qed.

Lemma emits_build {B} n io (f : unit → W B) :
  emits n P (f tt) → emits n P (build_client io ≫= f).
Proof.
  intros Hf. unfold build_client. destruct (wi_client io); [by apply emits_quiet|].
  intros log. apply Hf.
Qed.

Lemma emits_send {B} io q (f : HttpReply → W B) :
  P (Sent q) → (∀ reply log, (f reply log).2 = log) → emits 1 P (send io q ≫= f).
Proof.
  intros HP Hf log. exists (Sent q :: (Followed <$> xc_followed (wi_http io q))).
  assert (initiated (Sent q :: (Followed <$> xc_followed (wi_http io q))) = [Sent q]) as ->.
  { pose proof (initiated_followed (xc_followed (wi_http io q))) as Hi. unfold initiated in *.
    by rewrite filter_cons_True, Hi. }
  unfold mbind, M_bind, send. destruct (xc_reply (wi_http io q)); rewrite ?Hf; split_and!; auto.
Qed.

Lemma emits_if {A} n Q `{Decision Q} (m1 m2 : W A) :
  (Q → emits n P m1) → (¬ Q → emits n P m2) → emits n P (if decide Q then m1 else m2).
Proof. destruct (decide Q); auto. Qed.
End Emits.

Lemma lift_quiet {A} (r : result KernelError A) log : (wlift r log).2 = log.
Proof. done. Qed.

(** A request is safe: the address carries no secret, the connection is encrypted
    or stays on the machine, and the credential sent is the one referred to. *)
Definition safe_url (u : Url) : Prop :=
  u_username u = "" ∧ u_password u = None ∧ u_query u = None ∧ u_fragment u = None ∧
  (u_scheme u = "https" ∨ loopback u = true).
Definition safe_bearer (env : Environment) (credential_env : string) (o : option string) : Prop :=
  ∀ secret, o = Some secret → credential_env ≠ "" ∧ env_var env credential_env = Some secret.
Definition safe_event (env : Environment) (credential_env : string) (e : WorkerEvent) : Prop :=
  match e with
  | Sent q => safe_url (hq_url q) ∧ safe_bearer env credential_env (hq_bearer q) ∧
              1 ≤ hq_timeout_ms q
  | Followed _ => True
  | Slept ms => ms ≤ 30000
  end.

Lemma checked_endpoint_safe io value allow u : checked_endpoint io value allow = Ok u → safe_url u.
Proof.
  unfold checked_endpoint, safe_url. destruct (wi_url io value) as [v|]; [|done].
  destruct (negb _ || _ || _ || _) eqn:H1; [done|]. destruct (negb _ && _) eqn:H2; [done|].
  intros [= <-]. rewrite !orb_false_iff, negb_false_iff, bool_decide_eq_true, !bool_decide_eq_false in H1.
  rewrite andb_false_iff, !negb_false_iff, bool_decide_eq_true in H2.
  destruct H1 as (((Hu & Hp) & Hq) & Hf). rewrite <-!eq_None_not_Some in *.
  split_and!; [done..|]. destruct H2 as [H2|H2]; [by left|].
  apply andb_true_iff in H2 as [_ H2]. by right.
Qed.

Lemma credential_safe io name secret :
  credential io name = Ok secret → safe_bearer (wi_env io) name (Some secret).
Proof.
  unfold credential, safe_bearer. destruct (decide (name = "")); [done|].
  destruct (env_var _ _) as [s|]; simpl; [|done]. intros [= ->] ? [= <-]. done.
Qed.
Lemma some_credential_safe io name o :
  Some <$> credential io name = Ok o → safe_bearer (wi_env io) name o.
Proof.
  destruct (credential io name) as [s|] eqn:Hc; [|done]. intros [= <-]. by apply credential_safe.
Qed.
Lemma no_bearer_safe env name : safe_bearer env name None.
Proof. done. Qed.
#[local] Hint Resolve credential_safe some_credential_safe no_bearer_safe checked_endpoint_safe : apeir.

Section Safety.
Context `{JournalEnv} `{Serde Value} `{Serde SemanticExecutionSnapshot} `{Serde ProviderCommand}
  `{Serde ProviderResponse} `{Serde ModelInvocationOutput} `{FromValue (ModelInvocationInput Value)}.

Ltac sent := split; [eauto with apeir|split; [eauto with apeir|simpl; lia]].

Lemma openai_safe io r :
  emits 1 (safe_event (wi_env io) (rq_credential_env r)) (openai_compatible io r).
Proof.
  unfold openai_compatible. apply emits_lift. intros i _. apply emits_lift. intros url Hu.
  apply emits_build, emits_lift. intros bearer Hb. apply emits_send.
  - sent. simpl. destruct (bool_decide _ && _); [injection Hb as <-; done|eauto with apeir].
  - intros reply log. unfold mbind, M_bind, wlift, lift.
    destruct (ensure_provider_http_success reply); [|done]. by destruct (hp_json reply).
Qed.

Lemma ollama_safe io r : emits 1 (safe_event (wi_env io) (rq_credential_env r)) (ollama io r).
Proof.
  unfold ollama. apply emits_lift. intros i _. apply emits_lift. intros url Hu.
  apply emits_build, emits_send; [sent|]. intros reply log.
  unfold mbind, M_bind, wlift, lift. by destruct (checked_json reply).
Qed.

Lemma execute_backend_safe io r :
  emits 1 (safe_event (wi_env io) (rq_credential_env r)) (execute_backend io r).
Proof.
  unfold execute_backend. repeat (apply emits_if; intros ?); try (by apply emits_quiet).
  - intros log. eexists [_]. unfold mbind, M_bind, modify, mret, M_ret. simpl.
    split_and!; [done| |done]. apply Forall_singleton. simpl. lia.
  - apply openai_safe.
  - apply ollama_safe.
Qed.

Lemma probe_get_safe {B} io r url bearer (f : Value → W B) :
  safe_url url →
  (∀ log, (bearer log).2 = log) →
  (∀ log o, (bearer log).1 = Ok o → safe_bearer (wi_env io) (pr_credential_env r) o) →
  (∀ v log, (f v log).2 = log) →
  emits 1 (safe_event (wi_env io) (pr_credential_env r)) (probe_get io r url bearer ≫= f).
Proof.
  intros Hu Hq Hb Hf. change 1%nat with (1 + 0)%nat.
  apply emits_bind; [|intros v; by apply emits_quiet].
  unfold probe_get. apply emits_build. intros log.
  specialize (Hq log). pose proof (Hb log) as Hb'. unfold mbind, M_bind at 1.
  destruct (bearer log) as [[o|e] log'] eqn:E; simpl in Hq, Hb'; subst log'.
  2:{ exists []. rewrite app_nil_r. auto. }
  apply emits_send; [sent|]. intros reply log'. by apply lift_quiet.
Qed.

Lemma probe_backend_safe io r :
  emits 1 (safe_event (wi_env io) (pr_credential_env r)) (probe_backend io r).
Proof.
  unfold probe_backend. change 1%nat with (1 + 0)%nat.
  apply emits_bind; [|intros [[c ms] ws]; by apply emits_quiet].
  unfold discover. repeat (apply emits_if; intros ?); try (by apply emits_quiet).
  - apply emits_lift. intros s Hs. apply emits_lift. intros u Hu.
    apply probe_get_safe; eauto with apeir. intros log o [= <-]. by eapply credential_safe.
  - apply emits_lift. intros u Hu. apply probe_get_safe; eauto with apeir. intros log o [= <-]. done.
  - apply emits_lift. intros u Hu. apply probe_get_safe; eauto with apeir.
    + intros log. by destruct (decide _).
    + intros log o. destruct (decide _); [by intros [= <-]|]. unfold wlift, lift. simpl.
      destruct (Some <$> credential _ _) as [o'|] eqn:Hc; simpl; [|done]. intros [= <-].
      by apply some_credential_safe.
Qed.
End Safety.

(** ** The worker as the kernel's child *)

Definition command_credential (c : ProviderCommand) : string :=
  match c with
  | CmdHealth => ""
  | CmdProbe r => pr_credential_env r
  | CmdExecute r => rq_credential_env r
  end.

(** The worker started as [c] with [body] on its standard input; the rest of its
    surroundings are those of [w]. *)
Definition worker_as_child (w : WorkerIo) (c : Command) (body : bytes) : WorkerIo :=
  mkWorkerIo (cm_args c) (Ok body) (λ name, cm_env c !! name) (wi_url w) (wi_client w) (wi_http w)
    (wi_elapsed w) (wi_elapsed_later w) (wi_now w) (wi_stdout w).

Section Composition.
Context `{JournalEnv} `{Serde Value} `{Serde SemanticExecutionSnapshot} `{Serde ProviderCommand}
  `{Serde ProviderResponse} `{Serde ModelInvocationOutput} `{FromValue (ModelInvocationInput Value)}.
Context `{!SerdeLaws ProviderCommand} `{!SerdeLaws ProviderResponse}.

Definition worker_output (w : WorkerIo) (c : Command) (body : bytes) : Output :=
  let p := (worker_main (worker_as_child w c body)).1 in
  mkOutput (bool_decide (p.2 = 0)) ("exit status: " +:+ show_i p.2) p.1 [].

Lemma worker_run_safe io body c :
  wi_stdin io = Ok body → from_slice body = Some c →
  emits 1 (safe_event (wi_env io) (command_credential c)) (worker_run io).
Proof.
  intros Hin Hc. unfold worker_run. apply emits_if; intros _; [by apply emits_quiet|].
  rewrite Hin. apply emits_lift. intros ? [= <-]. apply emits_lift. rewrite Hc. intros ? [= <-].
  change 1%nat with (1 + 0)%nat. destruct c as [|r|r]; [by apply emits_quiet| |].
  - apply emits_bind; [apply probe_backend_safe|]. intros report. by apply emits_quiet.
  - apply emits_bind; [apply execute_backend_safe|]. intros out.
    apply emits_lift. intros rc _. by apply emits_quiet.
Qed.

Lemma worker_main_safe io body c :
  wi_stdin io = Ok body → from_slice body = Some c →
  Forall (safe_event (wi_env io) (command_credential c)) (initiated (worker_main io).2) ∧
  (length (initiated (worker_main io).2) ≤ 1)%nat.
Proof.
  intros Hin Hc. destruct (worker_run_safe io body c Hin Hc []) as (evs & He & HP & Hl).
  unfold worker_main. destruct (worker_run io []) as [[r|[e|]] log]; simpl in *; by subst.
Qed.

(** C11: From the kernel to the network. When the kernel hands a command to the
    worker, the worker hands its HTTP client at most one request; it goes to an
    address that carries no secret and is encrypted or on this machine, under a
    timeout of at least a millisecond; and a credential in it is the value, in the
    kernel's own environment, of the variable the command refers to, which the
    operator put on the list of allowed credentials. Nothing is said of the requests
    the client makes of itself when it follows redirects ([Followed]). *)
Theorem credentials_stay_authorized io program cmd timeout_ms op w c body :
  external_entrypoint cmd = None →
  Spawned c ∈ (invoke io program cmd (command_credential cmd) timeout_ms op []).2 →
  Wrote body ∈ (invoke io program cmd (command_credential cmd) timeout_ms op []).2 →
  let events := (worker_main (worker_as_child w c body)).2 in
  (length (initiated events) ≤ 1)%nat ∧
  ∀ q, Sent q ∈ events →
    safe_url (hq_url q) ∧ 1 ≤ hq_timeout_ms q ∧
    ∀ secret, hq_bearer q = Some secret →
      command_credential cmd ∈ allowed_credentials (pi_env io) ∧
      env_var (pi_env io) (command_credential cmd) = Some secret.
Proof.
  intros Hext Hc Hb events.
  destruct (provider_confined io program cmd (command_credential cmd) timeout_ms op [])
    as (evs & Hevs & Hs). rewrite Hevs in Hc, Hb. simpl in Hc, Hb.
  assert (confined (pi_env io) (command_credential cmd) c ∧ command_body cmd = Ok body)
    as [[Hcred Hconf] Hbody].
  { destruct Hs as [|d [Hd _]|d b [Hd _] Hg|d b [Hd _] Hg]; set_solver. }
  assert (from_slice body = Some cmd) as Hcmd.
  { unfold command_body in Hbody. rewrite Hext in Hbody.
    destruct (to_vec cmd) as [b|] eqn:E; [|done]. injection Hbody as ->. by apply from_to_vec. }
  destruct (worker_main_safe (worker_as_child w c body) body cmd eq_refl Hcmd) as [HF Hlen].
  split; [done|]. intros q Hq. rewrite Forall_forall in HF.
  assert (Sent q ∈ initiated events) as Hq' by (unfold initiated; by apply list_elem_of_filter).
  destruct (HF _ Hq') as (Hu & Hbear & Ht). split_and!; [done..|]. intros secret Hsec.
  destruct (Hbear secret Hsec) as [Hne Hvar]. destruct Hcred as [|[Ha _]]; [done|].
  split; [done|]. unfold env_var in *. simpl in Hvar.
  destruct (cm_env c !! command_credential cmd) as [o|] eqn:Ho; [|done].
  destruct (Hconf _ _ Ho) as [-> _]. done.
Qed.

(** What the worker prints with success is the answer to the command it read. *)
Lemma worker_answers w c body r rc :
  from_slice body = Some (CmdExecute r) → out_success (worker_output w c body) = true →
  from_slice (out_stdout (worker_output w c body)) = Some rc → ps_ok rc = true →
  ∃ receipt, rc = mkProviderResponse true (Some receipt) None "" "" ∧ bound_receipt r receipt.
Proof.
  intros Hr. unfold worker_output, worker_main. simpl. set (io := worker_as_child w c body).
  assert (∀ x, bool_decide ((print_response io x).2 = 0) = true →
            from_slice (print_response io x).1 = Some rc → rc = x) as Hprint.
  { intros x. unfold print_response.
    destruct (to_vec x) as [b|] eqn:Hx, (wi_stdout io) as [b'|]; simpl; try done.
    intros _. rewrite (from_to_vec x b Hx). congruence. }
  destruct (worker_run io []) as [[x|[e|]] log] eqn:Hrun; simpl; [| |done].
  - intros Hs Hp _. rewrite (Hprint _ Hs Hp). revert Hrun. unfold worker_run.
    destruct (decide _); [done|]. unfold wlift, lift, mbind, M_bind. simpl. rewrite Hr. simpl.
    destruct (execute_backend io r []) as [[out|e] log']; [|done].
    destruct (receipt_for _ r out) as [receipt|] eqn:Hrc; [|done]. intros [= <- <-].
    exists receipt. split; [done|]. by eapply receipt_for_bound.
  - intros Hs Hp Hok. by rewrite (Hprint _ Hs Hp) in Hok.
Qed.

(** C12: No provider answers for another operation. Whatever the environment does,
    when the kernel executes a request through the worker or an external process
    and returns a receipt, the receipt is about that request: it carries its
    operation id, the digest of its input, the digest of the revisions it names and
    its provider revision, and the output digest is that of the result. *)
Theorem provider_receipts_bound io program w r log rc log' :
  (∀ c body t o, rq_backend r ≠ "external-process" → pi_wait io c body t = Exits o →
     o = worker_output w c body) →
  provider_execute io program r log = (Ok rc, log') → bound_receipt r rc.
Proof.
  intros Hw Hex. destruct (decide (rq_backend r = "external-process")) as [Hb|Hb].
  { by eapply external_receipt_bound. }
  revert Hex. unfold provider_execute, mbind, M_bind at 1.
  destruct (invoke _ _ _ _ _ _ _) as [[resp|] l] eqn:Hi; [|done]. unfold lift.
  apply invoke_Ok in Hi as (prog & args & env & body & o & _ & _ & _ & Hbody & _ & _ & Hwait & Hs & Hr & Hok & _).
  apply Hw in Hwait; [|done]. subst o.
  assert (external_entrypoint (CmdExecute r) = None) as Hext by (simpl; by rewrite decide_False).
  unfold command_body in Hbody. unfold read_response in Hr. rewrite Hext in *.
  destruct (to_vec (CmdExecute r)) as [b|] eqn:E; [|done]. injection Hbody as ->.
  destruct (from_slice (out_stdout _)) as [rs|] eqn:Hrs; [|done]. injection Hr as ->.
  destruct (worker_answers w _ body r resp (from_to_vec _ _ E) Hs Hrs Hok) as (receipt & -> & Hbound).
  simpl. by intros [= -> ->].
Qed.
End Composition.

(** ** Concrete runs *)

#[local] Instance wk_env : JournalEnv := {| sha256 b := b; sql_text _ := "" |}.
#[local] Instance wk_snapshot : Serde SemanticExecutionSnapshot := countable_serde _.
(** Execute commands, and responses that carry no probe, can be written. *)
#[local] Instance wk_command : Serde ProviderCommand := {|
  to_vec c := match c with CmdExecute r => Some (bits_of_pos (encode r)) | _ => None end;
  from_slice b := CmdExecute <$> decode (pos_of_bits b);
  to_vec_text _ := "";
  from_slice_text _ := ""
|}.
#[local] Instance wk_response : Serde ProviderResponse := {|
  to_vec r :=
    match ps_probe r with
    | None => Some (bits_of_pos (encode (ps_ok r, ps_receipt r, ps_error_code r, ps_error_message r)))
    | Some _ => None
    end;
  from_slice b :=
    '(ok, receipt, code, message) ← decode (pos_of_bits b);
    Some (mkProviderResponse ok receipt None code message);
  to_vec_text _ := "";
  from_slice_text _ := ""
|}.
#[local] Instance wk_command_laws : SerdeLaws ProviderCommand.
Proof.
  intros [|r|r] b; [done..|]. intros [= <-]. simpl. by rewrite pos_of_bits_of_pos, decode_encode.
Qed.
#[local] Instance wk_response_laws : SerdeLaws ProviderResponse.
Proof.
  intros [ok rc [p|] code message] b; [done|]. intros [= <-]. cbn [from_slice wk_response].
  by rewrite pos_of_bits_of_pos, decode_encode.
Qed.
#[local] Instance wk_value : Serde Value := {|
  to_vec _ := Some [];
  from_slice _ := None;
  to_vec_text _ := "";
  from_slice_text _ := "no JSON"
|}.
#[local] Instance wk_output : Serde ModelInvocationOutput := {|
  to_vec _ := Some [];
  from_slice _ := None;
  to_vec_text _ := "";
  from_slice_text _ := ""
|}.
#[local] Instance wk_invocation : FromValue (ModelInvocationInput Value) :=
  {| from_value _ := None; from_value_text _ := "" |}.

(** A parser that knows two addresses, and a server that answers. *)
Definition wk_urls (text : string) : option Url :=
  if decide (text = "https://api.example/chat/completions" ∨ text = "https://api.example/api/tags")
  then Some (mkUrl text "https" "" None (Some "api.example") None None) else None.
Definition wk_reply : HttpReply :=
  mkReply 200 "200 OK" "" (Ok (VObject [("choices", VArray [VObject [("message",
    VObject [("content", VString "hi")])]])])).
Definition wk_io : WorkerIo :=
  mkWorkerIo [] (Ok []) (λ _, None) wk_urls None (λ _, mkExchange [] (Ok wk_reply)) 5 6 7 None.
Definition wk_kernel (w : WorkerIo) : ProcessIo :=
  mkProcessIo
    (λ name, if decide (name = "KEY") then Some (Unicode "secret")
             else if decide (name = "NOUS_ALLOWED_CREDENTIALS") then Some (Unicode "OTHER, KEY")
             else None)
    None true None (λ c body _, Exits (worker_output w c body)) 9.
Definition wk_request (backend : string) : OperationRequest :=
  mkRequest "op" "w" "s" backend PRC_Remote "m" "https://api.example/" "KEY" "" "hello" Idempotent
    (mkSnapshot "" "rev" "" "" "" "" "" "") 0.

(** A model server answers through the kernel, the worker and back. *)
Definition wk_receipt : OperationReceipt :=
  mkOpReceipt "op" (input_digest (wk_request "x")) (digest_bytes (string_bytes "hi"))
    (match digest_json (rq_snapshot (wk_request "x")) with Ok d => d | Err _ => "" end) "rev" "hi" 7.
Example wk_executed :
  (provider_execute (wk_kernel wk_io) "worker" (wk_request "openai-compatible") []).1
  = Ok wk_receipt.
Proof. vm_compute. reflexivity. Qed.

Lemma provider_receipts_bound_witness :
  let run := provider_execute (wk_kernel wk_io) "worker" (wk_request "openai-compatible") [] in
  run.1 = Ok wk_receipt ∧ bound_receipt (wk_request "openai-compatible") wk_receipt.
Proof.
  intros run. pose proof wk_executed as He. fold run in He. split; [exact He|].
  apply (provider_receipts_bound (wk_kernel wk_io) "worker" wk_io _ [] wk_receipt run.2).
  - intros c body t o _ [= <-]. reflexivity.
  - rewrite <-He. unfold run. apply surjective_pairing.
Defined.

Definition wk_spawned : Command :=
  mkCommand "worker" ["--stdio-once"] (<["KEY" := Unicode "secret"]> ∅).
Definition wk_body : bytes := default [] (to_vec (CmdExecute (wk_request "openai-compatible"))).
Lemma credentials_stay_authorized_witness :
  ∃ q, Sent q ∈ (worker_main (worker_as_child wk_io wk_spawned wk_body)).2 ∧
    hq_bearer q = Some "secret" ∧ safe_url (hq_url q) ∧
    "KEY" ∈ allowed_credentials (pi_env (wk_kernel wk_io)).
Proof.
  destruct (credentials_stay_authorized (wk_kernel wk_io) "worker"
    (CmdExecute (wk_request "openai-compatible")) 0 "op" wk_io wk_spawned wk_body) as [_ Hq].
  - reflexivity.
  - vm_compute. apply list_elem_of_here.
  - vm_compute. apply list_elem_of_further, list_elem_of_here.
  - eexists. split; [vm_compute; apply list_elem_of_here|].
    edestruct Hq as (Hu & _ & Hs); [vm_compute; apply list_elem_of_here|].
    split; [reflexivity|]. split; [exact Hu|]. by eapply Hs.
Defined.

(** *** What the worker does not establish *)

(** A model server anywhere on the network counts as local when the backend is
    called [ollama]: it is reported to keep data on the machine and passes the
    requirement of local execution. *)
Definition wk_probe (backend : string) : ProviderProbeRequest :=
  mkProbeRequest "p" backend PRC_Unknown "" "https://api.example/" "" "" 1000.
Definition local_only : ModelCompatibilityRequirements :=
  mkRequirements false false false false false false false 0 true.
Example remote_host_counts_as_local :
  match probe_backend wk_io (wk_probe "ollama") [] with
  | (Ok report, [Sent q]) =>
      u_host (hq_url q) = Some "api.example" ∧
      mm_privacy (pp_capabilities report) = LocalOnly ∧
      cp_classification (assess_compatibility local_only (pp_capabilities report)) = Compatible
  | _ => False
  end.
Proof. vm_compute. split_and!; reflexivity. Qed.

(** The client follows redirects, and does not ask the worker: an answer with the
    status 307 from the address checked has the body of the request sent again, in
    the clear, to another host. *)
Definition wk_moved (q : HttpRequest) : HttpRequest :=
  mkHttp (hq_post q) (mkUrl "http://elsewhere.example/" "http" "" None (Some "elsewhere.example") None None)
    None (hq_body q) (hq_timeout_ms q).
Definition wk_redirected : WorkerIo :=
  mkWorkerIo [] (Ok []) (λ _, None) wk_urls None (λ q, mkExchange [wk_moved q] (Ok wk_reply)) 5 6 7 None.
Example redirect_leaves_checked_endpoint :
  match (worker_main (worker_as_child wk_redirected wk_spawned wk_body)).2 with
  | [Sent q; Followed q'] =>
      safe_url (hq_url q) ∧ hq_body q' = hq_body q ∧ is_Some (hq_body q) ∧
      u_scheme (hq_url q') = "http" ∧ loopback (hq_url q') = false
  | _ => False
  end.
Proof. vm_compute. split_and!; try reflexivity; [by left|by eexists]. Qed.

(** A result beyond the largest float is reported as null, with success. *)
Example overflow_is_null :
  json_f64 (linear (f64_of_Z 0) [f64_MAX; f64_MAX] [f64_of_Z 1; f64_of_Z 1]) = VNull.
Proof. vm_compute. reflexivity. Qed.
