(* ===== verification/Cli.v ===== *)
(** * The command-line tool

    [tools/nous/src/main.rs]: the commands an operator runs. Each reads its
    arguments and files, validates what it reads, calls the daemon or changes the
    files of the configuration, and prints a document. The file system is part of
    the state; every operation on it may fail, a failed write leaving some of its
    bytes behind. What other processes do to the files meanwhile is not seen. *)

From S2P Require Import Prelude Errors Journal Provider Contracts Intelligence Analysis ControlPlane.
From S2P Require Import Process Worker.
Local Open Scope Z_scope.

(** ** Paths *)

(** Paths as texts with single slashes between components. *)
Definition path_join (base p : string) : string :=
  if starts_with "/" p then p
  else if bool_decide (base = "") || ends_with "/" base then base +:+ p
  else base +:+ "/" +:+ p.

Fixpoint split_last (c : ascii) (s : string) : option (string * string) :=
  match s with
  | EmptyString => None
  | String d s' =>
      match split_last c s' with
      | Some (a, b) => Some (String d a, b)
      | None => if decide (d = c) then Some (EmptyString, s') else None
      end
  end.

Definition file_name (p : string) : string :=
  match split_last "/" p with Some (_, name) => name | None => p end.
(** [Path::parent]. *)
Definition path_parent (p : string) : option string :=
  match split_last "/" p with
  | Some (dir, _) => Some (if decide (dir = "") then "/" else dir)
  | None => if decide (p = "") then None else Some ""
  end.
(** [Path::extension] and [with_extension]. *)
Definition path_extension (p : string) : option string :=
  match split_last "." (file_name p) with
  | Some (stem, ext) => if decide (stem = "") then None else Some ext
  | None => None
  end.
Definition with_extension (p ext : string) : string :=
  match path_extension p with
  | Some _ => match split_last "." p with
              | Some (stem, _) => stem +:+ "." +:+ ext
              | None => p +:+ "." +:+ ext
              end
  | None => p +:+ "." +:+ ext
  end.

(** Every directory on the way to a path, and the path. *)
Fixpoint path_prefixes (seen : string) (parts : list string) : list string :=
  match parts with
  | [] => []
  | p :: ps => let here := path_join seen p in here :: path_prefixes here ps
  end.

Definition directories_of (p : string) : list string :=
  match split_on "/" p with
  | "" :: parts => path_prefixes "/" parts
  | parts => path_prefixes "" parts
  end.

(** ** State and environment *)

Inductive FsEntry : Type := CFile (content : bytes) | CDir.

(** Files and directories, the operations so far, what was printed, and the calls
    made to the daemon. *)
Record CliState : Type := mkCli {
  cs_fs : gmap string FsEntry;
  cs_ops : nat;
  cs_printed : list Value;
  cs_calls : list (string * Value)
}.

(** The environment variables and the working directory; for each operation on the
    file system, the error it fails with, if it does, and what a failed write left;
    the order in which a directory is listed; [canonicalize]; the tree below a
    directory, with the components of its absolute path; what the daemon answers to
    the calls in turn. *)
Record CliEnv : Type := mkCliEnv {
  ce_env : Environment;
  ce_cwd : result string string;
  ce_fault : nat → option string;
  ce_left : nat → option bytes;
  ce_listing : list string → list string;
  ce_canonical : string → option string;
  ce_tree : string → list string * FsNode;
  ce_daemon : nat → string → Value → result string Value
}.

(** Reading and writing a type of document: JSON and YAML, and as a JSON value. *)
Class Readable (T : Type) : Type := {
  read_json : bytes → result string T;
  read_yaml : bytes → result string T
}.
Class Writable (T : Type) : Type := {
  json_bytes : T → result string bytes;
  yaml_bytes : T → result string bytes;
  json_value : T → result string Value
}.
Class DocumentLaws (T : Type) `{Readable T, Writable T} : Prop := {
  json_roundtrip (x : T) b : json_bytes x = Ok b → read_json b = Ok x;
  yaml_roundtrip (x : T) b : yaml_bytes x = Ok b → read_yaml b = Ok x
}.

Abbreviation Cli := (M CliState string).

Section Files.
Context (e : CliEnv).

Definition set_fs (fs : gmap string FsEntry) (s : CliState) : CliState :=
  mkCli fs (S (cs_ops s)) (cs_printed s) (cs_calls s).

(** An operation on the file system: it fails as the environment says, or as [f]
    does, or changes the files. *)
Definition fs_op {A} (on_fault : gmap string FsEntry → gmap string FsEntry)
    (f : gmap string FsEntry → result string (A * gmap string FsEntry)) : Cli A := λ s,
  match ce_fault e (cs_ops s) with
  | Some text => (Err text, set_fs (on_fault (cs_fs s)) s)
  | None =>
      match f (cs_fs s) with
      | Err text => (Err text, set_fs (cs_fs s) s)
      | Ok (a, fs) => (Ok a, set_fs fs s)
      end
  end.

Definition fs_read (p : string) : Cli bytes :=
  fs_op id (λ fs, match fs !! p with
                  | Some (CFile b) => Ok (b, fs)
                  | _ => Err "No such file or directory"
                  end).
Definition fs_write (p : string) (b : bytes) : Cli unit := λ s,
  fs_op (λ fs, match ce_left e (cs_ops s) with Some part => <[p := CFile part]> fs | None => fs end)
    (λ fs, match fs !! p with
           | Some CDir => Err "Is a directory"
           | _ => Ok (tt, <[p := CFile b]> fs)
           end) s.
Definition fs_rename (from to : string) : Cli unit :=
  fs_op id (λ fs, match fs !! from with
                  | Some x =>
                      match fs !! to with
                      | Some CDir => Err "Is a directory"
                      | _ => Ok (tt, <[to := x]> (delete from fs))
                      end
                  | None => Err "No such file or directory"
                  end).
Definition fs_copy (from to : string) : Cli unit := λ s,
  fs_op (λ fs, match ce_left e (cs_ops s) with Some part => <[to := CFile part]> fs | None => fs end)
    (λ fs, match fs !! from with
           | Some (CFile b) => Ok (tt, <[to := CFile b]> fs)
           | _ => Err "No such file or directory"
           end) s.
Definition fs_remove_file (p : string) : Cli unit :=
  fs_op id (λ fs, match fs !! p with
                  | Some (CFile _) => Ok (tt, delete p fs)
                  | _ => Err "No such file or directory"
                  end).
Definition fs_create_dir_all (p : string) : Cli unit :=
  let dirs := directories_of p in
  fs_op id (λ fs,
    if existsb (λ d, match fs !! d with Some (CFile _) => true | _ => false end) dirs
    then Err "File exists"
    else Ok (tt, foldr (λ d m, <[d := CDir]> m) fs dirs)).
Definition fs_read_dir (p : string) : Cli (list string) :=
  fs_op id (λ fs, match fs !! p with
                  | Some CDir => Ok (ce_listing e
                      (filter (λ q, path_parent q = Some p) (map_to_list fs).*1), fs)
                  | _ => Err "Not a directory"
                  end).
(** [exists], [is_dir] and [is_file], which do not fail. *)
Definition fs_exists (p : string) : Cli bool := gets (λ s, bool_decide (is_Some (cs_fs s !! p))).
Definition fs_is_dir (p : string) : Cli bool :=
  gets (λ s, match cs_fs s !! p with Some CDir => true | _ => false end).
Definition is_file (fs : gmap string FsEntry) (p : string) : bool :=
  match fs !! p with Some (CFile _) => true | _ => false end.
Definition is_dir (fs : gmap string FsEntry) (p : string) : bool :=
  match fs !! p with Some CDir => true | _ => false end.

Definition print_json (v : Value) : Cli unit := modify (λ s,
  mkCli (cs_fs s) (cs_ops s) (cs_printed s ++ [v]) (cs_calls s)).

(** [call]: a connection of its own and one request. *)
Definition call (method : string) (payload : Value) : Cli Value := λ s,
  (ce_daemon e (length (cs_calls s)) method payload,
   mkCli (cs_fs s) (cs_ops s) (cs_printed s) (cs_calls s ++ [(method, payload)])).

(** [args.get(i).ok_or(message)?]. *)
Definition arg (args : list string) (i : nat) (message : string) : Cli string :=
  lift (ok_or (args !! i) message).

(** [option]. *)
Fixpoint cli_option (args : list string) (name : string) : option string :=
  match args with
  | [] => None
  | a :: rest => if decide (a = name) then head rest else cli_option rest name
  end.

(** [read_declarative], [write_json_atomic] and [write_yaml_atomic]. *)
Definition read_declarative `{Readable T} (p : string) : Cli T :=
  b ← fs_read p;
  lift (if decide (path_extension p = Some "json") then read_json b else read_yaml b).
Definition write_atomic (temporary_extension p : string) (encoded : result string bytes) : Cli unit :=
  let temporary := with_extension p temporary_extension in
  b ← lift encoded;
  _ ← fs_write temporary b;
  fs_rename temporary p.
Definition write_json_atomic `{Writable T} (p : string) (value : T) : Cli unit :=
  write_atomic "json.tmp" p (json_bytes value).
Definition write_yaml_atomic `{Writable T} (p : string) (value : T) : Cli unit :=
  write_atomic "yaml.tmp" p (yaml_bytes value).

(** [provider_directory] and [model_directory]; [safe_name]; [address]. *)
Definition config_directory (leaf : string) : result string string :=
  let os name := match ce_env e name with
                 | Some (Unicode s) => Some s
                 | Some (NotUnicode b) => Some (string_of_bytes b)
                 | None => None
                 end in
  root ← ok_or (match os "NOUS_CONFIG_HOME" with
                | Some r => Some r
                | None => match os "USERPROFILE" with Some r => Some r | None => os "HOME" end
                end) "home directory is unavailable";
  Ok (path_join (path_join root ".nous-kernel") leaf).
Definition safe_name (value : string) : result string string :=
  if valid_identifier value then Ok value
  else Err "name may contain only letters, digits, '.', '-' and '_'".
Definition provider_name (name : string) : bool :=
  negb (bool_decide (name = "")) &&
  string_all (λ c, is_ascii_alphanumeric c || bool_decide (c ∈ ["-"; "_"]%char)) name.
Definition provider_path (name : string) : Cli string :=
  if negb (provider_name name)
  then throw "provider name may contain only letters, digits, '-' and '_'"
  else
    directory ← lift (config_directory "providers");
    _ ← fs_create_dir_all directory;
    mret (path_join directory (name +:+ ".json")).
Definition address : string := default "127.0.0.1:8771" (env_var (ce_env e) "NOUS_ADDRESS").

(** [resolve_manifest_entrypoint]. *)
Definition resolve_manifest_entrypoint (manifest_path entrypoint : string) : string :=
  if decide (entrypoint = "") then ""
  else path_join (default "." (path_parent manifest_path)) entrypoint.
End Files.

(** ** Providers *)

Record LegacyProviderManifest : Type := mkLegacy {
  lp_schema_version : Z;
  lp_name : string;
  lp_backend : string;
  lp_runtime_class : ProviderRuntimeClass;
  lp_model : string;
  lp_endpoint : string;
  lp_credential_env : string;
  lp_entrypoint : string
}.

(** [runtime_class_for_backend] and [parse_runtime_class]. *)
Definition runtime_class_for_backend (backend : string) : ProviderRuntimeClass :=
  if decide (backend = "openai-compatible") then PRC_Remote
  else if decide (backend = "ollama") then PRC_Local
  else if decide (backend = "edge-openai-compatible") then PRC_Edge
  else if decide (backend ∈ ["reference"; "reference-delay"; "reference-crash"]) then PRC_Reference
  else if decide (backend = "reference-math") then PRC_Reference
  else if decide (backend = "external-process") then PRC_Local
  else PRC_Unknown.
Definition parse_runtime_class (value : string) : option ProviderRuntimeClass :=
  if decide (value = "remote") then Some PRC_Remote
  else if decide (value = "local") then Some PRC_Local
  else if decide (value = "edge") then Some PRC_Edge
  else if decide (value = "reference") then Some PRC_Reference
  else if decide (value = "unknown") then Some PRC_Unknown
  else None.

(** [manifest_from_args]. *)
Definition manifest_from_args (name : string) (args : list string) : LegacyProviderManifest :=
  let opt key := default "" (cli_option args key) in
  let backend := default "reference" (cli_option args "--backend") in
  mkLegacy 1 name backend
    (default (runtime_class_for_backend backend)
       (cli_option args "--runtime-class" ≫= parse_runtime_class))
    (opt "--model") (opt "--endpoint") (opt "--credential-env") (opt "--entrypoint").

(** [probe_provider]'s request, which [validate_manifest] builds too. *)
Definition probe_request (timeout_ms : Z) (m : LegacyProviderManifest) : ProviderProbeRequest :=
  mkProbeRequest (lp_name m) (lp_backend m) (lp_runtime_class m) (lp_model m) (lp_endpoint m)
    (lp_credential_env m) (lp_entrypoint m) timeout_ms.
Definition validate_manifest (m : LegacyProviderManifest) : result string unit :=
  validate_probe_references (probe_request 1 m).

(** [value_or_none] and the request [execute] submits. *)
Definition value_or_none (value : string) : string := if decide (value = "") then "none" else value.
Definition newline : string := String (ascii_of_N 10) EmptyString.
Definition identity_of (input : string) (m : LegacyProviderManifest) : string :=
  lp_backend m +:+ newline +:+ lp_model m +:+ newline +:+ input.
Definition operation_of `{JournalEnv} (input : string) (m : LegacyProviderManifest) :
    OperationRequest :=
  let digest := digest_bytes (string_bytes (identity_of input m)) in
  mkRequest ("op-" +:+ digest) ("workload-" +:+ digest) "step-1" (lp_backend m) (lp_runtime_class m)
    (lp_model m) (lp_endpoint m) (lp_credential_env m) (lp_entrypoint m) input Idempotent
    (mkSnapshot (value_or_none (lp_model m)) (lp_backend m +:+ "-v1") "prompt-v1" "none" "none"
       "deterministic-v1" (lp_backend m +:+ "-v1") "context-v1")
    30000.

(** What a successful validation prints. *)
Definition valid_report (kind : string) (members : list (string * Value)) : Value :=
  json_object ([("kind", VString kind); ("valid", VBool true)] ++ members).

Section ProviderCommands.
Context (e : CliEnv) `{JournalEnv}.
Context `{Readable LegacyProviderManifest} `{Writable LegacyProviderManifest}
  `{Readable ProviderManifest} `{Writable OperationRequest} `{Writable ProviderProbeRequest}.
Context (value_eqb : Value → Value → bool).

(** [read_manifest], [probe_provider] and [execute]. *)
Definition read_manifest (name : string) : Cli LegacyProviderManifest :=
  p ← provider_path e name;
  b ← fs_read e p;
  lift (read_json b).
Definition probe_provider (m : LegacyProviderManifest) : Cli Value :=
  v ← lift (json_value (probe_request 10000 m));
  call e "ProbeEngine" v.
Definition execute (input : string) (m : LegacyProviderManifest) : Cli Value :=
  v ← lift (json_value (operation_of input m));
  call e "SubmitWorkload" v.

(** [list_providers]. *)
Definition provider_line (m : LegacyProviderManifest) : Value :=
  json_object [("name", VString (lp_name m)); ("backend", VString (lp_backend m));
               ("model", VString (lp_model m)); ("credential_env", VString (lp_credential_env m))].
Definition name_compare (key : string) (left right : Value) : comparison :=
  match value_get left key ≫= value_as_str, value_get right key ≫= value_as_str with
  | None, None => Eq
  | None, Some _ => Lt
  | Some _, None => Gt
  | Some a, Some b => String.compare a b
  end.
Fixpoint read_listed {A} (extension : string) (read : string → Cli A) (paths : list string) :
    Cli (list A) :=
  match paths with
  | [] => mret []
  | p :: ps =>
      if decide (path_extension p = Some extension) then
        a ← read p;
        rest ← read_listed extension read ps;
        mret (a :: rest)
      else read_listed extension read ps
  end.
Definition list_providers : Cli unit :=
  directory ← lift (config_directory e "providers");
  there ← fs_exists directory;
  manifests ← (if (there : bool) then
                 paths ← fs_read_dir e directory;
                 read_listed "json" (λ p, b ← fs_read e p; lift (read_json b)) paths
               else mret []);
  print_json (json_object [("providers",
    VArray (sort_by (name_compare "name") (provider_line <$> manifests)))]).

(** [provider install] and [register]. *)
Definition operational_manifest (p : string) (m : ProviderManifest) : LegacyProviderManifest :=
  mkLegacy (pm_schema_version m) (pm_name m) (pm_backend m)
    (default (runtime_class_for_backend (pm_backend m)) (parse_runtime_class (pm_runtime_class m)))
    (pm_model m) (pm_endpoint m) (pm_credential_env m)
    (resolve_manifest_entrypoint p (pm_entrypoint m)).
Definition provider_install (args : list string) : Cli unit :=
  p ← arg args 1 "provider manifest path is required";
  m ← read_declarative (T := ProviderManifest) e p;
  _ ← lift (map_err contract_error_text (validate_provider_manifest m));
  let operational := operational_manifest p m in
  _ ← lift (validate_manifest operational);
  target ← provider_path e (lp_name operational);
  _ ← write_json_atomic e target operational;
  print_json (json_object [("installed", VBool true); ("name", VString (lp_name operational));
                           ("path", VString target)]).

(** [provider init], [doctor] and [certify]. *)
Definition provider_init (name : string) (args : list string) : Cli unit :=
  let m := manifest_from_args name (drop 2 args) in
  _ ← lift (validate_manifest m);
  p ← provider_path e name;
  write_json_atomic e p m.
Definition provider_doctor (name : string) : Cli unit :=
  m ← read_manifest name;
  report ← probe_provider m;
  print_json (json_object [("provider", VString name); ("configured", VBool true);
    ("credential_reference_only", VBool (negb (bool_decide (lp_credential_env m = ""))
       || bool_decide (lp_backend m = "ollama") || bool_decide (lp_backend m = "reference")));
    ("probe", report)]).
Definition provider_certify (name : string) : Cli unit :=
  m ← read_manifest name;
  first ← execute "provider conformance probe" m;
  second ← execute "provider conformance probe" m;
  let stable := value_eqb first second in
  _ ← print_json (json_object [("provider", VString name); ("isolated_process", VBool true);
        ("durable_receipt", VBool true); ("idempotent_replay", VBool stable);
        ("certified", VBool stable)]);
  if stable then mret tt else throw "provider did not replay a stable committed receipt".

(** [provider_command]. *)
Definition provider_command (args : list string) : Cli unit :=
  let action := default "" (args !! 0%nat) in
  if decide (action = "list") then list_providers
  else if decide (action = "validate") then
    p ← arg args 1 "provider manifest path is required";
    m ← read_declarative (T := ProviderManifest) e p;
    _ ← lift (map_err contract_error_text (validate_provider_manifest m));
    print_json (valid_report "ProviderManifest" [("name", VString (pm_name m));
      ("schema_version", VNumber (PosInt (pm_schema_version m)))])
  else if decide (action = "install" ∨ action = "register") then provider_install args
  else
    name ← arg args 1 "provider name is required";
    if decide (action = "init") then provider_init name args
    else if decide (action = "test") then
      m ← read_manifest name; v ← execute "provider health probe" m; print_json v
    else if decide (action = "probe") then
      m ← read_manifest name; v ← probe_provider m; print_json v
    else if decide (action = "doctor") then provider_doctor name
    else if decide (action = "certify") then provider_certify name
    else throw "expected provider init, list, probe, doctor, test, or certify".

(** [conformance_command]. *)
Definition conformance_command (args : list string) : Cli unit :=
  if decide (args !! 0%nat ≠ Some "provider")
  then throw "expected conformance provider <configured-name>"
  else
    name ← arg args 1 "configured provider name is required";
    m ← read_manifest name;
    probe ← probe_provider m;
    first ← execute "provider conformance probe" m;
    replay ← execute "provider conformance probe" m;
    let stable := value_eqb first replay in
    _ ← print_json (json_object [("suite", VString "provider-v1"); ("provider", VString name);
          ("checks", json_object [("manifest", VString "pass"); ("discovery", VString "pass");
             ("health", VString "pass"); ("execution", VString "pass");
             ("idempotent_replay", VString (if stable then "pass" else "fail"));
             ("process_isolation", VString "pass")]);
          ("probe", probe); ("conformant", VBool stable)]);
    if stable then mret tt else throw "provider did not replay a stable committed receipt".
End ProviderCommands.

(** ** Documents *)

(** [Result<(), E>?] of the two families of checks. *)
Definition contract_ok (r : ContractResult) : Cli unit := lift (map_err contract_error_text r).
Definition verdict_ok {A} (r : result IntelligenceError A) : Cli A :=
  lift (map_err intelligence_error_text r).
(** The checks of graphs return always; see [Intelligence]. *)
Definition graph_ok {A} (r : option (result IntelligenceError A)) : Cli A :=
  match r with Some r => verdict_ok r | None => throw "unreachable" end.

Definition nat_value (n : nat) : Value := VNumber (PosInt (Z.of_nat n)).
Definition version_value (z : Z) : Value := VNumber (PosInt z).

(** [ProjectManifest::REQUIRED_DIRECTORIES], which [scaffold_project] lists too. *)
Definition REQUIRED_DIRECTORIES : list string :=
  ["models"; "algorithms"; "datasets"; "providers"; "workflows"; "policies"; "experiments";
   "evaluations"; "deployment"; "tests"].

Section DocumentCommands.
Context (e : CliEnv).
Context `{Readable ModelSpec} `{Writable ModelSpec} `{Readable ModelProfile} `{Writable ModelProfile}
  `{Readable MergeRequest} `{Writable MergeAssessment} `{Writable ModelDiff}
  `{Readable ProjectManifest} `{Writable ProjectManifest} `{Writable ProjectAnalysis}
  `{Readable IntelligenceGraph} `{Writable GraphDiff} `{Writable (Contract WorkflowFields)}
  `{Readable DatasetManifest} `{Readable ExperimentManifest} `{Writable ExperimentDiff}
  `{Writable ExperimentStatus} `{Writable ModelKind} `{Readable PackManifest} `{Writable PackManifest}
  `{Writable ProviderManifest} `{Readable Value}.

Definition printed `{Writable T} (x : T) : Cli unit := v ← lift (json_value x); print_json v.

(** [model_command]. *)
Definition model_path (id : string) : Cli string :=
  directory ← lift (config_directory e "models");
  name ← lift (safe_name id);
  mret (path_join directory (name +:+ ".yaml")).
Definition model_register (args : list string) : Cli unit :=
  p ← arg args 1 "model manifest path is required";
  model ← read_declarative (T := ModelSpec) e p;
  _ ← contract_ok (validate_model model);
  target ← model_path (ms_id model);
  directory ← lift (config_directory e "models");
  _ ← fs_create_dir_all e directory;
  _ ← write_yaml_atomic e target model;
  print_json (json_object [("registered", VBool true); ("id", VString (ms_id model));
                           ("path", VString target)]).
Definition model_remove (args : list string) : Cli unit :=
  id ← arg args 1 "model ID is required";
  p ← model_path id;
  there ← fs_exists p;
  _ ← (if (there : bool) then fs_remove_file e p else mret tt);
  print_json (json_object [("unregistered", VBool true); ("id", VString id)]).
Definition model_line (m : ModelSpec) : Cli Value :=
  kind ← lift (json_value (ms_kind m));
  mret (json_object [("id", VString (ms_id m)); ("name", VString (ms_name m)); ("kind", kind);
                     ("version", VString (ms_version m))]).
Definition model_list : Cli unit :=
  directory ← lift (config_directory e "models");
  there ← fs_exists directory;
  models ← (if (there : bool) then
              paths ← fs_read_dir e directory;
              read_listed "yaml" (λ p, m ← read_declarative (T := ModelSpec) e p; model_line m) paths
            else mret []);
  print_json (json_object [("models", VArray (sort_by (name_compare "id") models))]).
Definition two_documents `{Readable T} (args : list string) (first second : string) : Cli (T * T) :=
  p ← arg args 1 first;
  one ← read_declarative e p;
  q ← arg args 2 second;
  other ← read_declarative e q;
  mret (one, other).
Definition model_diff_command (args : list string) : Cli unit :=
  both ← two_documents (T := ModelProfile) args "first model profile path is required"
           "second model profile path is required";
  let '(one, other) := both in
  _ ← verdict_ok (validate_profile one);
  _ ← verdict_ok (validate_profile other);
  printed (profile_diff one other).
Definition merge_check (args : list string) : Cli unit :=
  p ← arg args 1 "merge request path is required";
  q ← read_declarative (T := MergeRequest) e p;
  a ← verdict_ok (assess_merge q);
  _ ← printed a;
  if mas_compatible a then mret tt else throw "model merge compatibility check failed".
Definition model_export (args : list string) : Cli unit :=
  id ← arg args 1 "model ID is required";
  destination ← arg args 2 "destination path is required";
  source ← model_path id;
  there ← fs_exists destination;
  if (there : bool) then throw ("refusing to overwrite " +:+ destination)
  else
    _ ← fs_copy e source destination;
    print_json (json_object [("exported", VBool true); ("id", VString id);
                             ("path", VString destination)]).
Definition read_profile (args : list string) : Cli ModelProfile :=
  p ← arg args 1 "model profile path is required";
  profile ← read_declarative (T := ModelProfile) e p;
  _ ← verdict_ok (validate_profile profile);
  mret profile.
Definition model_command (args : list string) : Cli unit :=
  let action := default "" (args !! 0%nat) in
  if decide (action = "validate") then
    p ← arg args 1 "model manifest path is required";
    model ← read_declarative (T := ModelSpec) e p;
    _ ← contract_ok (validate_model model);
    print_json (valid_report "ModelSpec" [("id", VString (ms_id model));
      ("schema_version", version_value (ms_schema_version model))])
  else if decide (action = "validate-profile") then
    profile ← read_profile args;
    print_json (valid_report "ModelProfile" [("id", VString (ms_id (mp_model profile)));
      ("schema_version", version_value (mp_schema_version profile))])
  else if decide (action = "inspect-profile") then
    profile ← read_profile args; printed profile
  else if decide (action = "register") then model_register args
  else if decide (action = "unregister" ∨ action = "remove") then model_remove args
  else if decide (action = "list") then model_list
  else if decide (action = "show" ∨ action = "inspect") then
    id ← arg args 1 "model ID is required";
    p ← model_path id;
    model ← read_declarative (T := ModelSpec) e p;
    printed model
  else if decide (action = "diff") then model_diff_command args
  else if decide (action = "merge-check") then merge_check args
  else if decide (action = "export") then model_export args
  else throw "expected model register, remove, list, inspect, validate, validate-profile, inspect-profile, diff, merge-check, or export".

(** [project_command]. *)
Definition project_validate (base : string) (m : ProjectManifest) : Cli unit := λ s,
  let missing := filter (λ r, is_file (cs_fs s) (path_join base r) = false)
                   (pf_path <$> references m) in
  if decide (missing ≠ []) then
    (Err ("project references missing files: " +:+ join ", " missing), s)
  else
    let absent := filter (λ d, is_dir (cs_fs s) (path_join base d) = false) REQUIRED_DIRECTORIES in
    if decide (absent ≠ []) then
      (Err ("project is missing directories: " +:+ join ", " absent), s)
    else print_json (valid_report "ProjectManifest" [("id", VString (pj_id m));
           ("schema_version", version_value (pj_schema_version m));
           ("references", nat_value (length (references m)))]) s.
Definition project_analyze (root : string) : Cli unit :=
  let '(base, tree) := ce_tree e root in
  match analyze_project base tree with
  | Some r => a ← lift r; printed a
  | None => throw "unreachable"
  end.
Definition project_command (args : list string) : Cli unit :=
  let action := default "" (args !! 0%nat) in
  let root := default "." (args !! 1%nat) in
  if decide (action = "analyze" ∨ action = "import") then
    if decide (action = "import" ∧ "--dry-run" ∉ args)
    then throw "project import currently requires --dry-run; source is never modified"
    else project_analyze root
  else
    directory ← fs_is_dir root;
    let manifest_path := if (directory : bool) then path_join root "project.yaml" else root in
    m ← read_declarative (T := ProjectManifest) e manifest_path;
    _ ← verdict_ok (validate_project m);
    let base := default "." (path_parent manifest_path) in
    if decide (action = "validate") then project_validate base m
    else if decide (action = "inspect") then printed m
    else throw "expected project validate, inspect, analyze, or import PATH --dry-run".

(** [graph_command]. *)
Definition graph_command (args : list string) : Cli unit :=
  let action := default "" (args !! 0%nat) in
  if decide (action = "validate") then
    p ← arg args 1 "graph path is required";
    g ← read_declarative (T := IntelligenceGraph) e p;
    _ ← graph_ok (validate_graph g);
    print_json (valid_report "IntelligenceGraph" [("id", VString (ig_id g));
      ("nodes", nat_value (length (ig_nodes g))); ("edges", nat_value (length (ig_edges g)))])
  else if decide (action = "diff") then
    both ← two_documents (T := IntelligenceGraph) args "first graph path is required"
             "second graph path is required";
    let '(one, other) := both in
    _ ← graph_ok (validate_graph one);
    _ ← graph_ok (validate_graph other);
    printed (graph_diff one other)
  else if decide (action = "export-workflow") then
    p ← arg args 1 "graph path is required";
    g ← read_declarative (T := IntelligenceGraph) e p;
    w ← graph_ok (to_workflow_contract g);
    printed w
  else throw "expected graph validate PATH, graph diff LEFT RIGHT, or graph export-workflow PATH".

(** [dataset_command], [experiment_command] and [pack_command]. *)
Definition dataset_command (args : list string) : Cli unit :=
  if decide (args !! 0%nat ≠ Some "validate") then throw "expected dataset validate PATH"
  else
    p ← arg args 1 "dataset manifest path is required";
    d ← read_declarative (T := DatasetManifest) e p;
    _ ← verdict_ok (validate_dataset d);
    print_json (valid_report "DatasetManifest" [("id", VString (dm_id d));
      ("splits", nat_value (length (dm_splits d)))]).
Definition experiment_command (args : list string) : Cli unit :=
  let action := default "" (args !! 0%nat) in
  if decide (action = "validate") then
    p ← arg args 1 "experiment manifest path is required";
    x ← read_declarative (T := ExperimentManifest) e p;
    _ ← verdict_ok (validate_experiment x);
    status ← lift (json_value (em_status x));
    print_json (valid_report "ExperimentManifest" [("id", VString (em_id x)); ("status", status)])
  else if decide (action = "diff") then
    both ← two_documents (T := ExperimentManifest) args "first experiment path is required"
             "second experiment path is required";
    let '(one, other) := both in
    _ ← verdict_ok (validate_experiment one);
    _ ← verdict_ok (validate_experiment other);
    printed (experiment_diff one other)
  else throw "expected experiment validate PATH or experiment diff LEFT RIGHT".
Definition pack_command (args : list string) : Cli unit :=
  if decide (args !! 0%nat ≠ Some "validate") then throw "expected pack validate"
  else
    p ← arg args 1 "pack manifest path is required";
    pack ← read_declarative (T := PackManifest) e p;
    _ ← contract_ok (validate_pack pack);
    print_json (valid_report "PackManifest" [("name", VString (pk_name pack));
      ("schema_version", version_value (pk_schema_version pack))]).
End DocumentCommands.

(** ** The catalog *)

(** [str::parse::<u64>] with the text of its error. *)
Definition parse_number (s : string) : result string Z :=
  match parse_u64 s with
  | Some n => Ok n
  | None =>
      if decide (s = "") then Err "cannot parse integer from empty string"
      else
        let digits := match s with String "+"%char s' => s' | _ => s end in
        if bool_decide (digits = "") || negb (string_all is_ascii_digit digits)
        then Err "invalid digit found in string"
        else Err "number too large to fit in target type"
  end.

(** [parse_asset_kind]. *)
Definition parse_asset_kind (value : string) : result string AssetKind :=
  ok_or (asset_kind_parse (to_ascii_lowercase value))
    "asset kind must be project, model, graph, dataset, experiment, or artifact".

Section CatalogCommands.
Context (e : CliEnv).
Context `{Readable Value} `{Writable PutAssetRequest} `{Writable AssetSelector}
  `{Writable ListAssetsRequest}.

Definition calls `{Writable T} (method : string) (x : T) : Cli unit :=
  v ← lift (json_value x);
  reply ← call e method v;
  print_json reply.
Definition catalog_command_put (kind : AssetKind) (args : list string) : Cli unit :=
  p ← arg args 2 "asset manifest path is required";
  document ← read_declarative (T := Value) e p;
  expected ← lift (match cli_option args "--expected-generation" with
                   | Some s => Some <$> parse_number s
                   | None => Ok None
                   end);
  calls "PutControlAsset" (mkPut 1 kind document expected).
Definition catalog_command_remove (kind : AssetKind) (args : list string) : Cli unit :=
  id ← arg args 2 "asset ID is required";
  text ← lift (ok_or (cli_option args "--expected-generation") "--expected-generation is required");
  expected ← lift (parse_number text);
  selector ← lift (json_value (mkSelector 1 kind id));
  reply ← call e "DeleteControlAsset"
            (json_object [("selector", selector); ("expected_generation", VNumber (PosInt expected))]);
  print_json reply.
(** [catalog_command]. *)
Definition catalog_command (args : list string) : Cli unit :=
  let action := default "" (args !! 0%nat) in
  text ← arg args 1 "asset kind is required";
  kind ← lift (parse_asset_kind text);
  if decide (action = "put") then catalog_command_put kind args
  else if decide (action = "get") then
    id ← arg args 2 "asset ID is required";
    calls "GetControlAsset" (mkSelector 1 kind id)
  else if decide (action = "list") then calls "ListControlAssets" (mkList 1 kind)
  else if decide (action = "remove") then catalog_command_remove kind args
  else throw "expected catalog put|get|list|remove KIND [PATH|ID] [--expected-generation N]".
End CatalogCommands.

(** ** Scaffolds *)

Definition quoted (s : string) : string :=
  let quote := String (ascii_of_N 34) EmptyString in quote +:+ s +:+ quote.
Definition text_bytes (lines : list string) : bytes := string_bytes (join newline lines).

Section Scaffolds.
Context (e : CliEnv) (provider_template provider_test_template : string).
Context `{Writable ProviderManifest} `{Writable PackManifest} `{Writable ProjectManifest}.

Definition create_dirs (root : string) (names : list string) : Cli unit :=
  foldr (λ d rest, _ ← fs_create_dir_all e (path_join root d); rest) (mret tt) names.

(** [scaffold_provider]. *)
Definition scaffold_manifest (name : string) : ProviderManifest :=
  mkProviderManifest 1 name "0.1.0" "external-process" "local" "src/provider.py" "" "" ""
    ["example.echo"] ["probe"; "metadata"; "capabilities"; "health"; "execute"; "cancel"; "shutdown"]
    ∅.
Definition scaffold_provider (root name : string) : Cli unit :=
  _ ← lift (safe_name name);
  _ ← create_dirs root ["src"; "tests"; "examples"];
  _ ← write_yaml_atomic e (path_join root "provider.yaml") (scaffold_manifest name);
  _ ← fs_write e (path_join root "README.md") (text_bytes ["# " +:+ name; "";
        "Provider SDK v1 starter. Run `apeir-kernelctl provider validate provider.yaml` before conformance.";
        ""]);
  _ ← fs_write e (path_join root "src/provider.py") (string_bytes provider_template);
  _ ← fs_write e (path_join root "tests/test_provider.py") (string_bytes provider_test_template);
  fs_write e (path_join root "examples/request.json")
    (text_bytes ["{"; "  " +:+ quoted "type" +:+ ": " +:+ quoted "execute" +:+ ",";
                 "  " +:+ quoted "input" +:+ ": " +:+ quoted "hello"; "}"; ""]).

(** [scaffold_project]. *)
Definition scaffold_pack (name : string) : PackManifest :=
  mkPack 1 name "0.1.0" "APEIR runtime project" [] [] [] [] [] ∅ "Apache-2.0".
Definition scaffold_project_manifest (name : string) : ProjectManifest :=
  mkProject 1 name name "0.1.0" "APEIR intelligence project" "Apache-2.0" [] [] [] [] [] [] [] [] ∅ ∅.
Definition scaffold_project (root name : string) : Cli unit :=
  _ ← lift (safe_name name);
  _ ← create_dirs root REQUIRED_DIRECTORIES;
  _ ← write_yaml_atomic e (path_join root "nous.yaml") (scaffold_pack name);
  _ ← write_yaml_atomic e (path_join root "project.yaml") (scaffold_project_manifest name);
  fs_write e (path_join root "README.md") (text_bytes ["# " +:+ name; ""; "Nous runtime project."; ""]).

(** [new_command]. *)
Definition new_command (args : list string) : Cli unit :=
  let kind := default "" (args !! 0%nat) in
  name ← arg args 1 "project or provider name is required";
  let root := default name (cli_option args "--path") in
  there ← fs_exists root;
  entries ← (if (there : bool) then fs_read_dir e root else mret []);
  if decide (entries ≠ []) then throw ("refusing to overwrite non-empty directory " +:+ root)
  else
    _ ← (if decide (kind = "provider") then scaffold_provider root name
         else if decide (kind = "project") then scaffold_project root name
         else throw "expected new provider <name> or new project <name>");
    print_json (json_object [("created", VBool true); ("kind", VString kind); ("name", VString name);
                             ("path", VString root)]).
End Scaffolds.

(** ** The tool *)

Record KernelConfig : Type := mkConfig {
  kc_schema_version : Z;
  kc_nki_address : string;
  kc_workspace : string
}.

Section Tool.
Context (e : CliEnv) (provider_template provider_test_template : string) `{JournalEnv}.
Context (value_eqb : Value → Value → bool).
Context `{Readable LegacyProviderManifest} `{Writable LegacyProviderManifest}
  `{Readable ProviderManifest} `{Writable ProviderManifest} `{Writable OperationRequest}
  `{Writable ProviderProbeRequest} `{Writable KernelConfig}.
Context `{Readable ModelSpec} `{Writable ModelSpec} `{Readable ModelProfile} `{Writable ModelProfile}
  `{Readable MergeRequest} `{Writable MergeAssessment} `{Writable ModelDiff}
  `{Readable ProjectManifest} `{Writable ProjectManifest} `{Writable ProjectAnalysis}
  `{Readable IntelligenceGraph} `{Writable GraphDiff} `{Writable (Contract WorkflowFields)}
  `{Readable DatasetManifest} `{Readable ExperimentManifest} `{Writable ExperimentDiff}
  `{Writable ExperimentStatus} `{Writable ModelKind} `{Readable PackManifest} `{Writable PackManifest}
  `{Readable Value} `{Writable PutAssetRequest} `{Writable AssetSelector} `{Writable ListAssetsRequest}.

(** [init_workspace]. *)
Definition init_workspace (path : option string) : Cli unit :=
  root ← lift (match path with Some p => Ok p | None => ce_cwd e end);
  let state := path_join root ".nous" in
  _ ← fs_create_dir_all e state;
  write_json_atomic e (path_join state "kernel.json")
    (mkConfig 1 (address e) (default root (ce_canonical e root))).

(** [fs::read_to_string]. *)
Definition read_to_string (p : string) : Cli string :=
  b ← fs_read e p;
  if decide (from_utf8_lossy b = string_of_bytes b) then mret (string_of_bytes b)
  else throw "stream did not contain valid UTF-8".

(** The [run] command: the input, and the provider its options describe. *)
Definition run_input (args : list string) : Cli unit :=
  parsed ←
    (if decide (args !! 1%nat = Some "--input-file") then
       p ← arg args 2 "input file path is required";
       input ← read_to_string p;
       mret (input, drop 3 args)
     else
       input ← arg args 1 "input is required";
       mret (input, drop 2 args));
  reply ← execute e parsed.1 (manifest_from_args "inline" parsed.2);
  print_json reply.

Definition calls_value (method : string) (payload : Value) : Cli unit :=
  reply ← call e method payload; print_json reply.

(** [run]. *)
Definition cli_run (args : list string) : Cli unit :=
  let rest := drop 1 args in
  let command := default "" (args !! 0%nat) in
  if decide (command = "init") then init_workspace (args !! 1%nat)
  else if decide (command = "doctor")
  then calls_value "HealthCheck" (VObject [("deep", VBool true)])
  else if decide (command = "status") then calls_value "HealthCheck" (VObject [])
  else if decide (command = "inspect") then calls_value "GetMetrics" (VObject [])
  else if decide (command = "explain") then
    calls_value "ExplainExecution"
      (VObject [("workload_id", match args !! 1%nat with Some w => VString w | None => VNull end)])
  else if decide (command = "cancel") then
    w ← arg args 1 "workload ID is required";
    calls_value "CancelWorkload" (VObject [("workload_id", VString w)])
  else if decide (command = "run") then run_input args
  else if decide (command = "run-plan") then
    p ← arg args 1 "continuity plan path is required";
    b ← fs_read e p;
    plan ← lift (read_json (T := Value) b);
    calls_value "SubmitContinuityPlan" plan
  else if decide (command = "provider") then provider_command e value_eqb rest
  else if decide (command = "model") then model_command e rest
  else if decide (command = "project") then project_command e rest
  else if decide (command = "graph") then graph_command e rest
  else if decide (command = "dataset") then dataset_command e rest
  else if decide (command = "experiment") then experiment_command e rest
  else if decide (command = "catalog") then catalog_command e rest
  else if decide (command = "pack") then pack_command e rest
  else if decide (command = "conformance") then conformance_command e value_eqb rest
  else if decide (command = "new") then
    new_command e provider_template provider_test_template rest
  else mret tt.

(** [main]: the exit code. *)
Definition cli_main (args : list string) (s : CliState) : Z * CliState :=
  match cli_run args s with (Ok _, s') => (0, s') | (Err _, s') => (1, s') end.
End Tool.

(** ** Paths *)

Lemma split_last_app c s a b : split_last c s = Some (a, b) → s = a +:+ String c b.
Proof.
  revert a b. induction s as [|d s IH]; simpl; intros a b; [done|].
  destruct (split_last c s) as [[a' b']|].
  - intros [= <- <-]. by rewrite (IH a' b' eq_refl).
  - destruct (decide (d = c)) as [->|]; [|done]. by intros [= <- <-].
Qed.
Lemma split_last_app_r c s t a b : split_last c t = Some (a, b) → split_last c (s +:+ t) = Some (s +:+ a, b).
Proof.
  intros Ht. induction s as [|d s IH]; [done|]. rewrite !string_app_cons. simpl. by rewrite IH.
Qed.

(** The temporary file of an atomic write is the target with [.tmp]. *)
Lemma with_extension_tmp p ext :
  path_extension p = Some ext → with_extension p (ext +:+ ".tmp") = p +:+ ".tmp".
Proof.
  unfold with_extension, path_extension, file_name.
  assert (∀ stem, split_last "." p = Some (stem, ext) →
            stem +:+ "." +:+ (ext +:+ ".tmp") = p +:+ ".tmp") as Hp.
  { intros stem Hs. apply split_last_app in Hs as ->. by rewrite !string_app_assoc. }
  destruct (split_last "/" p) as [[dir name]|] eqn:Hd.
  - apply split_last_app in Hd as ->. destruct (split_last "." name) as [[stem x]|] eqn:Hn; [|done].
    destruct (decide (stem = "")); [done|]. intros [= ->].
    assert (split_last "." (dir +:+ String "/" name) = Some (dir +:+ String "/" stem, ext)) as Hs.
    { apply split_last_app_r. simpl. by rewrite Hn. }
    rewrite Hs. by apply Hp.
  - destruct (split_last "." p) as [[stem x]|] eqn:Hn; [|done].
    destruct (decide (stem = "")); [done|]. intros [= ->]. by apply Hp.
Qed.

Lemma split_last_none c s : string_mem c s = false → split_last c s = None.
Proof.
  induction s as [|d s IH]; simpl; [done|]. rewrite orb_false_iff, bool_decide_eq_false.
  intros [Hd Hs]. rewrite IH by done. by rewrite decide_False.
Qed.
Lemma string_app_empty (s : string) : s +:+ "" = s.
Proof. induction s as [|c s IH]; [done|]. by rewrite string_app_cons, IH. Qed.
Lemma no_slash_relative x : string_mem "/" x = false → starts_with "/" x = false.
Proof.
  destruct x as [|c x]; [done|]. simpl. rewrite orb_false_iff, bool_decide_eq_false. intros [Hc _].
  apply andb_false_iff. left. apply bool_decide_eq_false. congruence.
Qed.
Lemma split_last_at c s t : string_mem c t = false → split_last c (s +:+ String c t) = Some (s, t).
Proof.
  intros Ht. rewrite (split_last_app_r c s (String c t) "" t); [by rewrite string_app_empty|].
  simpl. rewrite split_last_none by done. by rewrite decide_True.
Qed.
Lemma ends_with_inv t s : ends_with t s = true → ∃ a, s = a +:+ t.
Proof.
  induction s as [|c s IH]; simpl; rewrite orb_true_iff, bool_decide_eq_true.
  - intros [->|]; [by exists ""|done].
  - intros [->|Hs]; [by exists ""|]. destruct (IH Hs) as [a ->]. by exists (String c a).
Qed.

(** Joining a relative name: it is the last component. *)
Lemma file_name_join base x :
  string_mem "/" x = false → file_name (path_join base x) = x.
Proof.
  intros Hx. unfold path_join, file_name.
  rewrite no_slash_relative by done.
  destruct (bool_decide (base = "")) eqn:Hb; simpl.
  { apply bool_decide_eq_true in Hb as ->. rewrite string_app_nil. by rewrite split_last_none. }
  destruct (ends_with "/" base) eqn:He.
  - apply ends_with_inv in He as [a ->]. rewrite string_app_assoc.
    change ("/" +:+ x) with (String "/" x). by rewrite split_last_at.
  - change ("/" +:+ x) with (String "/" x). by rewrite split_last_at.
Qed.
Lemma path_join_app base x y : starts_with "/" x = false → x ≠ "" →
  path_join base x +:+ y = path_join base (x +:+ y).
Proof.
  intros Hx Hne. unfold path_join. rewrite Hx.
  assert (starts_with "/" (x +:+ y) = false) as ->.
  { destruct x as [|c x]; [done|]. rewrite string_app_cons. simpl in *.
    destruct (bool_decide _); [|done]. by destruct x. }
  destruct (bool_decide (base = "") || ends_with "/" base); by rewrite !string_app_assoc.
Qed.

(** Names of providers have no slash and no dot. *)
Lemma provider_name_mem name c :
  provider_name name = true → is_ascii_alphanumeric c = false → c ≠ "-"%char → c ≠ "_"%char →
  string_mem c name = false.
Proof.
  intros Hn Hc H1 H2. apply andb_true_iff in Hn as [_ Hn].
  induction name as [|d name IH]; [done|]. simpl in *. apply andb_true_iff in Hn as [Hd Hn].
  rewrite IH by done. rewrite orb_false_r. apply bool_decide_eq_false. intros ->.
  rewrite Hc in Hd. simpl in Hd. apply bool_decide_eq_true in Hd. set_solver.
Qed.
Lemma provider_path_extension dir name :
  provider_name name = true → path_extension (path_join dir (name +:+ ".json")) = Some "json".
Proof.
  intros Hn. unfold path_extension. rewrite file_name_join.
  - change ".json" with (String "." "json"). rewrite split_last_at by done.
    rewrite decide_False; [done|]. intros ->. by apply andb_true_iff in Hn as [Hn _].
  - rewrite string_mem_app. by rewrite (provider_name_mem name "/").
Qed.
Lemma provider_name_relative name :
  provider_name name = true → starts_with "/" (name +:+ ".json") = false ∧ name +:+ ".json" ≠ "".
Proof.
  intros Hn. split.
  - apply no_slash_relative. rewrite string_mem_app. by rewrite (provider_name_mem name "/").
  - destruct name; [done|]. by rewrite string_app_cons.
Qed.

Lemma tmp_ne p : p +:+ ".tmp" ≠ p.
Proof. induction p as [|c p IH]; [done|]. rewrite string_app_cons. intros [= E]. done. Qed.

(** ** Atomic writes *)

Section Atomic.
Context (e : CliEnv).

(** Configuration files are replaced atomically. Writing a file of the
    configuration, whatever fails on the way and wherever the tool is stopped, leaves
    the file as it was or with the complete new document, and as it was whenever an
    error is reported; no other file but the temporary one next to it is touched. *)
Lemma write_atomic_spec ext p encoded s :
  path_extension p = Some ext →
  let '(res, s') := write_atomic e (ext +:+ ".tmp") p encoded s in
  (∀ q, q ≠ p → q ≠ p +:+ ".tmp" → cs_fs s' !! q = cs_fs s !! q) ∧
  match res with
  | Ok _ => ∃ b, encoded = Ok b ∧ cs_fs s' !! p = Some (CFile b) ∧ cs_fs s' !! (p +:+ ".tmp") = None
  | Err _ => cs_fs s' !! p = cs_fs s !! p
  end.
Proof.
  intros Hext. pose proof (tmp_ne p) as Hne. unfold write_atomic.
  rewrite (with_extension_tmp p ext Hext). set (tmp := p +:+ ".tmp") in *.
  unfold mbind, M_bind, lift. destruct encoded as [b|text]; [|done].
  unfold fs_write at 1, fs_op at 1. destruct (ce_fault e (cs_ops s)) as [text|].
  { simpl. destruct (ce_left e (cs_ops s)); simpl; split; intros; by rewrite ?lookup_insert_ne. }
  destruct (cs_fs s !! tmp) as [[old|]|] eqn:Ht; simpl; [|done|].
  all: unfold fs_rename, fs_op; simpl; destruct (ce_fault e (S (cs_ops s))); simpl.
  all: rewrite ?lookup_insert_eq; simpl; try (rewrite (lookup_insert_ne _ tmp p) by done).
  all: try (destruct (cs_fs s !! p) as [[]|] eqn:Hp; simpl).
  all: split; [intros q Hq Hq'; by rewrite ?lookup_insert_ne, ?lookup_delete_ne, ?lookup_insert_ne|].
  all: try (by rewrite ?lookup_insert_ne, ?Hp).
  all: exists b; split_and!; [done|by rewrite lookup_insert_eq|].
  all: by rewrite lookup_insert_ne, lookup_delete_eq.
Qed.
End Atomic.

(** ** What the provider commands change *)

(** [touches P m]: whatever it returns, [m] leaves alone the files without [P]. *)
Definition touches {A} (P : string → Prop) (m : Cli A) : Prop :=
  ∀ s q, ¬ P q → cs_fs (m s).2 !! q = cs_fs s !! q.

Section Touches.
Context (e : CliEnv) (P : string → Prop).

Lemma touches_pure {A} (m : Cli A) : (∀ s, cs_fs (m s).2 = cs_fs s) → touches P m.
Proof. intros Hm s q _. by rewrite Hm. Qed.
Lemma touches_bind {A B} (m : Cli A) (f : A → Cli B) :
  touches P m → (∀ a, touches P (f a)) → touches P (m ≫= f).
Proof.
  intros Hm Hf s q Hq. unfold mbind, M_bind. specialize (Hm s q Hq).
  destruct (m s) as [[a|err] s1]; simpl in *; [|done]. by rewrite Hf.
Qed.
Lemma touches_bind_ret {A B} (Q : A → Prop) (m : Cli A) (f : A → Cli B) :
  touches P m → (∀ s a s', m s = (Ok a, s') → Q a) → (∀ a, Q a → touches P (f a)) →
  touches P (m ≫= f).
Proof.
  intros Hm HQ Hf s q Hq. unfold mbind, M_bind. specialize (Hm s q Hq). specialize (HQ s).
  destruct (m s) as [[a|err] s1]; simpl in *; [|done]. rewrite (Hf a); eauto.
Qed.
Lemma touches_lift {A B} (r : result string A) (f : A → Cli B) :
  (∀ a, r = Ok a → touches P (f a)) → touches P (lift r ≫= f).
Proof.
  intros Hf s q Hq. unfold mbind, M_bind, lift. destruct r as [a|err]; [|done]. by apply Hf.
Qed.
Lemma touches_if {A} Q `{Decision Q} (m1 m2 : Cli A) :
  touches P m1 → touches P m2 → touches P (if decide Q then m1 else m2).
Proof. by destruct (decide Q). Qed.
Lemma touches_ifb {A} (b : bool) (m1 m2 : Cli A) :
  touches P m1 → touches P m2 → touches P (if b then m1 else m2).
Proof. by destruct b. Qed.
Lemma touches_read p : touches P (fs_read e p).
Proof.
  apply touches_pure. intros s. unfold fs_read, fs_op.
  destruct (ce_fault _ _); [done|]. by destruct (cs_fs s !! p) as [[]|].
Qed.
Lemma touches_read_dir p : touches P (fs_read_dir e p).
Proof.
  apply touches_pure. intros s. unfold fs_read_dir, fs_op.
  destruct (ce_fault _ _); [done|]. by destruct (cs_fs s !! p) as [[]|].
Qed.
Lemma touches_create p : (∀ q, q ∈ directories_of p → P q) → touches P (fs_create_dir_all e p).
Proof.
  intros Hd s q Hq. unfold fs_create_dir_all, fs_op. destruct (ce_fault _ _); [done|].
  destruct (existsb _ _); [done|]. simpl.
  assert (q ∉ directories_of p) as Hn by naive_solver. clear Hd Hq.
  induction (directories_of p) as [|d ds IH]; simpl; [done|].
  rewrite lookup_insert_ne by set_solver. apply IH. set_solver.
Qed.
Lemma touches_atomic ext p encoded :
  path_extension p = Some ext → P p → P (p +:+ ".tmp") →
  touches P (write_atomic e (ext +:+ ".tmp") p encoded).
Proof.
  intros Hext Hp Ht s q Hq. pose proof (write_atomic_spec e ext p encoded s Hext) as Hs.
  destruct (write_atomic _ _ _ _ _) as [res s']. destruct Hs as [Hs _]. apply Hs; naive_solver.
Qed.
Lemma touches_read_listed {A} extension (read : string → Cli A) paths :
  (∀ p, touches P (read p)) → touches P (read_listed extension read paths).
Proof.
  intros Hr. induction paths as [|p ps IH]; simpl; [by apply touches_pure|].
  apply touches_if; [|done]. apply touches_bind; [done|]. intros a.
  apply touches_bind; [done|]. intros l. by apply touches_pure.
Qed.
End Touches.

(** A file of the provider configuration: a directory on the way to it, or a
    manifest named after a provider, or its temporary. *)
Definition provider_file (e : CliEnv) (q : string) : Prop :=
  ∃ dir, config_directory e "providers" = Ok dir ∧
    (q ∈ directories_of dir ∨
     ∃ name, provider_name name = true ∧
       (q = path_join dir (name +:+ ".json") ∨ q = path_join dir (name +:+ ".json.tmp"))).

Section ProviderFiles.
Context (e : CliEnv) `{JournalEnv}.
Context `{Readable LegacyProviderManifest} `{Writable LegacyProviderManifest}
  `{Readable ProviderManifest} `{Writable OperationRequest} `{Writable ProviderProbeRequest}.
Context (value_eqb : Value → Value → bool).

(** The path of a provider's manifest is where it should be. *)
Definition provider_target (p : string) : Prop :=
  ∃ dir name, config_directory e "providers" = Ok dir ∧ provider_name name = true ∧
    p = path_join dir (name +:+ ".json").

Lemma provider_path_target name s p s' : provider_path e name s = (Ok p, s') → provider_target p.
Proof.
  unfold provider_path. destruct (provider_name name) eqn:Hn; simpl; [|done].
  unfold mbind, M_bind, lift. destruct (config_directory e "providers") as [dir|] eqn:Hd; [|done].
  destruct (fs_create_dir_all e dir s) as [[]]; [|done]. intros [= <- _]. by exists dir, name.
Qed.
Lemma provider_target_extension p : provider_target p → path_extension p = Some "json".
Proof. intros (dir & name & _ & Hn & ->). by apply provider_path_extension. Qed.
Lemma provider_target_file p : provider_target p → provider_file e p ∧ provider_file e (p +:+ ".tmp").
Proof.
  intros (dir & name & Hd & Hn & ->). split; exists dir; (split; [done|]); right; exists name; split; auto.
  destruct (provider_name_relative name Hn). right. rewrite path_join_app by done.
  by rewrite string_app_assoc.
Qed.
Lemma touches_provider_path name : touches (provider_file e) (provider_path e name).
Proof.
  unfold provider_path. apply touches_ifb; [by apply touches_pure|].
  apply touches_lift. intros dir Hd. apply touches_bind; [|intros []; by apply touches_pure].
  apply touches_create. intros q Hq. exists dir. auto.
Qed.
Lemma touches_read_manifest name : touches (provider_file e) (read_manifest e name).
Proof.
  apply touches_bind; [apply touches_provider_path|]. intros p.
  apply touches_bind; [apply touches_read|]. intros b. by apply touches_pure.
Qed.
Lemma touches_daemon {A} (r : result string A) method (f : A → Value) :
  touches (provider_file e) (v ← lift r; call e method (f v)).
Proof. apply touches_lift. intros a _. by apply touches_pure. Qed.
Lemma touches_write_manifest name (m : LegacyProviderManifest) :
  touches (provider_file e) (p ← provider_path e name; write_json_atomic e p m).
Proof.
  eapply touches_bind_ret; [apply touches_provider_path|by apply provider_path_target|].
  intros p Hp. destruct (provider_target_file p Hp). apply (touches_atomic e _ "json"); [|done..].
  by apply provider_target_extension.
Qed.

Lemma touches_execute input m : touches (provider_file e) (execute e input m).
Proof. apply touches_lift. intros v _. by apply touches_pure. Qed.
Lemma touches_probe m : touches (provider_file e) (probe_provider e m).
Proof. apply touches_lift. intros v _. by apply touches_pure. Qed.
Lemma touches_print v : touches (provider_file e) (print_json v).
Proof. by apply touches_pure. Qed.
Lemma touches_declarative `{Readable T} p : touches (provider_file e) (read_declarative (T := T) e p).
Proof. apply touches_bind; [apply touches_read|]. intros b. by apply touches_pure. Qed.
Lemma touches_fail {A} text : touches (provider_file e) (throw (A := A) text).
Proof. by apply touches_pure. Qed.
Lemma touches_done : touches (provider_file e) (mret tt).
Proof. by apply touches_pure. Qed.
#[local] Hint Resolve touches_execute touches_probe touches_print touches_declarative touches_fail
  touches_done touches_read_manifest touches_read touches_read_dir : apeir.

Ltac touching :=
  repeat first [apply touches_if | apply touches_ifb | apply touches_lift; intros ? _
               | apply touches_bind; [solve [eauto with apeir]|intros ?] | solve [eauto with apeir]].

Lemma touches_install args : touches (provider_file e) (provider_install e args).
Proof.
  unfold provider_install. touching.
  eapply touches_bind_ret; [apply touches_provider_path|by apply provider_path_target|].
  intros p Hp. destruct (provider_target_file p Hp). apply touches_bind; [|eauto with apeir].
  apply (touches_atomic e _ "json"); [|done..]. by apply provider_target_extension.
Qed.
Lemma touches_list : touches (provider_file e) (list_providers e).
Proof.
  unfold list_providers. apply touches_lift. intros dir _.
  apply touches_bind; [by apply touches_pure|]. intros there.
  apply touches_bind; [|eauto with apeir]. apply touches_ifb; [|by apply touches_pure].
  apply touches_bind; [eauto with apeir|]. intros paths. apply touches_read_listed. intros p. touching.
Qed.
Lemma touches_init name args : touches (provider_file e) (provider_init e name args).
Proof. unfold provider_init. apply touches_lift. intros _ _. apply touches_write_manifest. Qed.

(** C35: A provider command changes nothing but the provider configuration. Whatever
    its arguments, the manifests it reads and the failures on the way, the only paths
    it creates or changes are the directories of the provider configuration and, in
    it, files named after a provider, whose name has no dot or slash. *)
Theorem provider_command_confined args :
  touches (provider_file e) (provider_command e value_eqb args).
Proof.
  unfold provider_command. apply touches_if; [apply touches_list|].
  apply touches_if; [touching|]. apply touches_if; [apply touches_install|].
  apply touches_lift. intros name _. apply touches_if; [apply touches_init|].
  unfold provider_doctor, provider_certify. touching.
Qed.
End ProviderFiles.

(** ** New projects *)

Lemma split_on_none c a : string_mem c a = false → split_on c a = [a].
Proof.
  induction a as [|d a IH]; [done|]. simpl. rewrite orb_false_iff, bool_decide_eq_false.
  intros [Hd Ha]. rewrite decide_False by done. by rewrite IH.
Qed.

(** A name for a directory in the working directory. *)
Definition plain (name : string) : Prop :=
  name ≠ "" ∧ string_mem "/" name = false ∧ blank name = false.
Abbreviation sub name x := (name +:+ String "/" x).

Lemma sub_inj name x y : sub name x = sub name y → x = y.
Proof.
  induction name as [|c name IH]; rewrite ?string_app_nil, ?string_app_cons; intros E.
  - by injection E.
  - apply IH. by injection E.
Qed.
Lemma sub_ne name x : sub name x ≠ name.
Proof. induction name as [|c name IH]; [done|]. rewrite string_app_cons. intros [= E]. done. Qed.

Lemma path_join_plain name x :
  plain name → starts_with "/" x = false → path_join name x = sub name x.
Proof.
  intros (Hne & Hs & _) Hx. unfold path_join. rewrite Hx, (bool_decide_eq_false_2 _ Hne). simpl.
  destruct (ends_with "/" name) eqn:He; [|done].
  apply ends_with_inv in He as [a ->]. by rewrite string_mem_app, orb_true_r in Hs.
Qed.

Lemma directories_sub name x :
  plain name → string_mem "/" x = false → directories_of (sub name x) = [name; sub name x].
Proof.
  intros Hp Hx. destruct Hp as (Hne & Hs & Hb) eqn:E. unfold directories_of.
  rewrite split_on_app, split_on_none by done.
  destruct name as [|c name]; [done|]. simpl path_prefixes.
  assert (path_join "" (String c name) = String c name) as ->.
  { unfold path_join. by rewrite no_slash_relative. }
  rewrite path_join_plain by (done || by apply no_slash_relative). done.
Qed.

Lemma identifier_plain name : valid_identifier name = true → plain name.
Proof.
  unfold valid_identifier. rewrite !andb_true_iff, !negb_true_iff, !bool_decide_eq_false.
  intros (((Hne & Hall) & _) & _). split_and!; [done| |].
  - clear Hne. induction name as [|c name IH]; [done|]. simpl in *.
    apply andb_true_iff in Hall as [Hc Hall]. rewrite IH by done. rewrite orb_false_r.
    apply bool_decide_eq_false. intros ->. by vm_compute in Hc.
  - destruct name as [|c name]; [done|]. simpl in Hall. apply andb_true_iff in Hall as [Hc _].
    destruct c as [[] [] [] [] [] [] [] []]; try (by vm_compute in Hc);
      simpl; destruct name as [|? [|]]; reflexivity.
Qed.

Lemma yaml_extension name stem :
  stem ≠ "" → string_mem "/" stem = false →
  path_extension (sub name (stem +:+ ".yaml")) = Some "yaml".
Proof.
  intros Hne Hs. unfold path_extension, file_name.
  rewrite split_last_at by (rewrite string_mem_app; by rewrite Hs).
  change ".yaml" with (String "." "yaml"). rewrite split_last_at by done. by rewrite decide_False.
Qed.

Section NewProject.
Context (e : CliEnv) (provider_template provider_test_template : string).

Lemma fs_write_Ok p b s s' : fs_write e p b s = (Ok tt, s') → cs_fs s' = <[p := CFile b]> (cs_fs s).
Proof.
  unfold fs_write, fs_op. destruct (ce_fault _ _); [done|].
  destruct (cs_fs s !! p) as [[]|]; intros [= <-]; done.
Qed.

Lemma create_all_Ok p s s' :
  fs_create_dir_all e p s = (Ok tt, s') →
  (∀ q, q ∈ directories_of p → cs_fs s' !! q = Some CDir) ∧
  (∀ q, q ∉ directories_of p → cs_fs s' !! q = cs_fs s !! q).
Proof.
  unfold fs_create_dir_all, fs_op. destruct (ce_fault _ _); [done|].
  destruct (existsb _ _); [done|]. intros [= <-]. simpl.
  induction (directories_of p) as [|d ds [IH1 IH2]]; simpl; [set_solver|]. split; intros q Hq.
  - destruct (decide (d = q)) as [->|Hne]; [by rewrite lookup_insert_eq|].
    rewrite lookup_insert_ne by done. apply IH1. set_solver.
  - rewrite lookup_insert_ne by set_solver. apply IH2. set_solver.
Qed.

Lemma create_dirs_Ok root names s s' :
  create_dirs e root names s = (Ok tt, s') →
  (∀ d q, d ∈ names → q ∈ directories_of (path_join root d) → cs_fs s' !! q = Some CDir) ∧
  (∀ q, cs_fs s !! q = Some CDir → cs_fs s' !! q = Some CDir).
Proof.
  revert s. induction names as [|d names IH]; simpl; intros s.
  { intros [= <-]. set_solver. }
  unfold mbind, M_bind. destruct (fs_create_dir_all e (path_join root d) s) as [[[]|] s1] eqn:H1; [|done].
  intros H2. destruct (create_all_Ok _ _ _ H1) as [Hin Hout]. destruct (IH _ H2) as [IH1 IH2].
  split.
  - intros d' q Hd Hq. apply elem_of_cons in Hd as [->|Hd]; [by apply IH2, Hin|by eapply IH1].
  - intros q Hq. apply IH2. destruct (decide (q ∈ directories_of (path_join root d))); [by apply Hin|].
    by rewrite Hout.
Qed.

Context `{Writable ProviderManifest} `{Writable PackManifest} `{Readable ProjectManifest}
  `{Writable ProjectManifest} `{!DocumentLaws ProjectManifest}.

Lemma write_yaml_Ok `{Writable T} name x (value : T) s s' :
  plain name → string_mem "/" x = false → path_extension (sub name x) = Some "yaml" →
  write_yaml_atomic e (path_join name x) value s = (Ok tt, s') →
  (∃ b, yaml_bytes value = Ok b ∧ cs_fs s' !! sub name x = Some (CFile b)) ∧
  ∀ q, q ≠ sub name x → q ≠ sub name (x +:+ ".tmp") → cs_fs s' !! q = cs_fs s !! q.
Proof.
  intros Hp Hx Hext. rewrite path_join_plain by (done || by apply no_slash_relative). intros Hw.
  pose proof (write_atomic_spec e "yaml" (sub name x) (yaml_bytes value) s Hext) as Hs.
  unfold write_yaml_atomic in Hw. change ("yaml" +:+ ".tmp") with "yaml.tmp" in Hs.
  rewrite Hw in Hs. destruct Hs as [Hq (b & Hb & Hl & _)]. split; [by exists b|].
  intros q Hq1 Hq2. apply Hq; [done|]. rewrite string_app_assoc, string_app_cons. done.
Qed.

(** Names of a project other than those its scaffold writes stay as they are. *)
Lemma scaffold_names name d :
  d ∈ REQUIRED_DIRECTORIES →
  ∀ x, x ∈ ["nous.yaml"; "nous.yaml.tmp"; "project.yaml"; "project.yaml.tmp"; "README.md"] →
  sub name d ≠ sub name x.
Proof.
  intros Hd x Hx E. apply sub_inj in E as ->.
  repeat (apply elem_of_cons in Hx as [->|Hx];
          [repeat (apply elem_of_cons in Hd as [Hd|Hd]; [done|]); by apply elem_of_nil in Hd|]).
  by apply elem_of_nil in Hx.
Qed.

Lemma required_plain d : d ∈ REQUIRED_DIRECTORIES → string_mem "/" d = false.
Proof.
  intros Hd. repeat (apply elem_of_cons in Hd as [->|Hd]; [reflexivity|]). by apply elem_of_nil in Hd.
Qed.

(** What a scaffolded project looks like. *)
Lemma scaffold_project_Ok name s s' :
  scaffold_project e name name s = (Ok tt, s') →
  valid_identifier name = true ∧ cs_fs s' !! name = Some CDir ∧
  (∀ d, d ∈ REQUIRED_DIRECTORIES → cs_fs s' !! sub name d = Some CDir) ∧
  ∃ b, yaml_bytes (scaffold_project_manifest name) = Ok b ∧
    cs_fs s' !! sub name "project.yaml" = Some (CFile b).
Proof.
  intros E0. apply M_bind_inv_ok in E0 as (? & s0 & E & E0). unfold lift, safe_name in E.
  destruct (valid_identifier name) eqn:Hid; [|done]. injection E as _ <-.
  pose proof (identifier_plain name Hid) as Hp.
  apply M_bind_inv_ok in E0 as ([] & s1 & E1 & E0). apply M_bind_inv_ok in E0 as ([] & s2 & E2 & E0).
  apply M_bind_inv_ok in E0 as ([] & s3 & E3 & E4). apply fs_write_Ok in E4. rewrite path_join_plain in E4 by done.
  destruct (write_yaml_Ok (T := PackManifest) name "nous.yaml" _ _ _ Hp eq_refl
              (yaml_extension name "nous" ltac:(done) eq_refl) E2) as [_ Hq2].
  destruct (write_yaml_Ok (T := ProjectManifest) name "project.yaml" _ _ _ Hp eq_refl
              (yaml_extension name "project" ltac:(done) eq_refl) E3) as [(b & Hb & Hm) Hq3].
  destruct (create_dirs_Ok _ _ _ _ E1) as [Hd _].
  assert (∀ d q, d ∈ REQUIRED_DIRECTORIES → q ∈ [name; sub name d] → cs_fs s1 !! q = Some CDir) as Hd1.
  { intros d q Hin Hq. apply (Hd d q Hin). pose proof (required_plain d Hin).
    by rewrite path_join_plain, directories_sub by (done || by apply no_slash_relative). }
  rewrite E4. split_and!; [done| | |exists b; split; [done|]].
  - rewrite lookup_insert_ne, Hq3, Hq2 by (apply sub_ne || (apply not_eq_sym; apply sub_ne)).
    eapply (Hd1 "models"); set_solver.
  - intros d Hin. pose proof (scaffold_names name d Hin) as Hn.
    rewrite lookup_insert_ne, Hq3, Hq2 by ((apply Hn; set_solver) || (apply not_eq_sym, Hn; set_solver)).
    eapply Hd1; set_solver.
  - rewrite lookup_insert_ne; [done|]. intros E. by apply sub_inj in E.
Qed.

Lemma scaffold_project_valid name :
  valid_identifier name = true → validate_project (scaffold_project_manifest name) = Ok tt.
Proof.
  intros Hid. destruct (identifier_plain name Hid) as (_ & _ & Hb).
  unfold validate_project, require. simpl. by rewrite Hid, Hb.
Qed.

(** A project without references whose directories are there is accepted. *)
Lemma project_validate_Ok base m s :
  references m = [] →
  (∀ d, d ∈ REQUIRED_DIRECTORIES → is_dir (cs_fs s) (path_join base d) = true) →
  project_validate base m s =
  print_json (valid_report "ProjectManifest" [("id", VString (pj_id m));
    ("schema_version", version_value (pj_schema_version m)); ("references", nat_value 0)]) s.
Proof.
  intros Hr Hd. unfold project_validate. rewrite Hr. simpl.
  replace (filter _ REQUIRED_DIRECTORIES) with (@nil string); [done|].
  symmetry. apply list_filter_none, Forall_forall. intros d Hin. by rewrite Hd.
Qed.

(** A new project validates. When [new project NAME] succeeds, [project validate
    NAME] run afterwards accepts what it left: the manifest is found, read back,
    accepted and every directory the check looks for is there. *)
Theorem new_project_validates `{Writable ProjectAnalysis} name s s' e' :
  new_command e provider_template provider_test_template ["project"; name] s = (Ok tt, s') →
  (∀ n, ce_fault e' n = None) →
  ∃ s'', project_command e' ["validate"; name] s' = (Ok tt, s'') ∧
    cs_fs s'' = cs_fs s' ∧
    last (cs_printed s'') = Some (valid_report "ProjectManifest" [("id", VString name);
      ("schema_version", version_value 1); ("references", nat_value 0)]).
Proof.
  intros Hn Hf. unfold new_command in Hn.
  apply M_bind_inv_ok in Hn as (name' & s0' & [= <- <-] & Hn). simpl in Hn.
  replace (match decide (name = "--path") with left _ | _ => None end) with (@None string) in Hn
    by by destruct (decide (name = "--path")).
  apply M_bind_inv_ok in Hn as (there & s0 & [= <- <-] & Hn).
  apply M_bind_inv_ok in Hn as (entries & s1 & _ & Hn).
  destruct (decide (entries ≠ [])); [done|].
  apply M_bind_inv_ok in Hn as ([] & s2 & Hsc & Hp). injection Hp as <-.
  apply scaffold_project_Ok in Hsc as (Hid & Hroot & Hdirs & b & Hb & Hm).
  pose proof (identifier_plain name Hid) as Hpl.
  unfold project_command. simpl.
  unfold mbind, M_bind, fs_is_dir, gets, read_declarative, mbind, M_bind, fs_read, fs_op. simpl.
  rewrite Hroot. simpl. rewrite Hf. rewrite path_join_plain by done. rewrite Hm. simpl.
  pose proof (yaml_extension name "project" ltac:(done) eq_refl) as Hext.
  change ("project" +:+ ".yaml") with "project.yaml" in Hext. rewrite Hext. rewrite decide_False by done. unfold lift. rewrite (yaml_roundtrip _ _ Hb).
  unfold verdict_ok, lift. rewrite scaffold_project_valid by done. simpl.
  unfold path_parent. rewrite split_last_at by done.
  rewrite decide_False by apply Hpl. simpl default.
  eexists. split; [apply project_validate_Ok; [done|]|].
  - intros d Hd. unfold is_dir. pose proof (required_plain d Hd).
    rewrite path_join_plain by (done || by apply no_slash_relative). simpl. by rewrite Hdirs.
  - simpl. split; [done|]. by rewrite last_snoc.
Qed.
End NewProject.

(** ** Configured providers *)

Lemma string_length_app a b : String.length (a +:+ b) = (String.length a + String.length b)%nat.
Proof. induction a as [|c a IH]; [done|]. rewrite string_app_cons. simpl. by rewrite IH. Qed.
Lemma path_join_length base p :
  (String.length (path_join base p) ≤ S (String.length base + String.length p))%nat ∧
  (base = "" ∨ base = "/" → String.length (path_join base p) ≤ String.length base + String.length p)%nat.
Proof.
  unfold path_join. destruct (starts_with "/" p); [lia|].
  destruct (bool_decide (base = "") || ends_with "/" base) eqn:Hb.
  - rewrite string_length_app. lia.
  - rewrite !string_length_app. split; [simpl; lia|]. by intros [->| ->].
Qed.

(** A directory's prefixes are no longer than it is, so no file in it is one. *)
Definition parts_length (parts : list string) : nat :=
  foldr (λ p n, S (String.length p + n)) 0%nat parts.
Lemma split_on_length c s : S (String.length s) = parts_length (split_on c s).
Proof.
  induction s as [|d s IH]; [done|]. simpl. destruct (decide (d = c)).
  - simpl. by rewrite IH.
  - destruct (split_on c s) as [|p ps]; simpl in *; lia.
Qed.
Lemma path_prefixes_length seen parts q :
  q ∈ path_prefixes seen parts →
  (String.length q ≤ String.length seen + parts_length parts)%nat ∧
  (seen = "" ∨ seen = "/" → S (String.length q) ≤ String.length seen + parts_length parts)%nat.
Proof.
  revert seen. induction parts as [|p ps IH]; intros seen Hq; [by apply elem_of_nil in Hq|].
  simpl in *. destruct (path_join_length seen p) as [H1 H2].
  apply elem_of_cons in Hq as [->|Hq].
  - split; [lia|]. intros Hs. specialize (H2 Hs). lia.
  - destruct (IH _ Hq) as [H3 _]. split; [lia|]. intros Hs. specialize (H2 Hs). lia.
Qed.
Lemma directories_length p q : q ∈ directories_of p → (String.length q ≤ String.length p)%nat.
Proof.
  unfold directories_of. pose proof (split_on_length "/" p) as Hl.
  destruct (split_on "/" p) as [|[|c x] parts]; simpl in Hl; intros Hq; [by apply elem_of_nil in Hq|..].
  - apply path_prefixes_length in Hq as [_ Hq]. specialize (Hq (or_intror eq_refl)). simpl in Hq. lia.
  - apply path_prefixes_length in Hq as [_ Hq]. specialize (Hq (or_introl eq_refl)). simpl in Hq. lia.
Qed.
Lemma path_join_longer base x :
  starts_with "/" x = false → (String.length base + String.length x ≤ String.length (path_join base x))%nat.
Proof.
  intros Hx. unfold path_join. rewrite Hx. destruct (_ || _); rewrite !string_length_app; simpl; lia.
Qed.
Lemma not_directory dir x q :
  starts_with "/" x = false → x ≠ "" → q ∈ directories_of dir → q ≠ path_join dir x.
Proof.
  intros Hx Hne Hq ->. apply directories_length in Hq. pose proof (path_join_longer dir x Hx).
  destruct x; [done|]. simpl in *. lia.
Qed.

Section Configured.
Context (e e' : CliEnv) `{JournalEnv}.
Context `{Readable LegacyProviderManifest} `{Writable LegacyProviderManifest}
  `{!DocumentLaws LegacyProviderManifest} `{Readable ProviderManifest}.
Context (Henv : ce_env e' = ce_env e) (Hfault : ∀ n, ce_fault e' n = None).

Lemma create_all_again p s :
  (∀ q, q ∈ directories_of p → cs_fs s !! q = Some CDir) →
  ∃ s', fs_create_dir_all e' p s = (Ok tt, s') ∧ cs_fs s' = cs_fs s.
Proof.
  intros Hd. unfold fs_create_dir_all, fs_op. rewrite Hfault.
  destruct (existsb _ _) eqn:Hx.
  { apply existsb_exists in Hx as (q & Hq & Hf). rewrite Hd in Hf by by apply list_elem_of_In. done. }
  eexists. split; [done|]. simpl. clear Hx. induction (directories_of p) as [|d ds IH]; [done|]. simpl.
  rewrite IH by set_solver. apply insert_id. apply Hd. set_solver.
Qed.

(** What is written for a provider is what is read for it. *)
Lemma written_manifest_read name m s p s1 s2 :
  provider_path e name s = (Ok p, s1) → write_json_atomic e p m s1 = (Ok tt, s2) →
  ∀ s3, cs_fs s3 = cs_fs s2 → ∃ s4, read_manifest e' name s3 = (Ok m, s4) ∧ cs_fs s4 = cs_fs s3.
Proof.
  intros Hp Hw s3 H3. pose proof Hp as Hp'. apply provider_path_target in Hp' as Ht.
  unfold provider_path in Hp. destruct (provider_name name) eqn:Hn; [|done]. simpl in Hp.
  apply M_bind_inv_ok in Hp as (dir & s0 & Hd & Hp). unfold lift in Hd. injection Hd as Hd <-.
  apply M_bind_inv_ok in Hp as ([] & s1' & Hc & Hp). injection Hp as <- <-.
  apply create_all_Ok in Hc as [Hc _].
  destruct (provider_name_relative name Hn) as [Hr Hne].
  pose proof (write_atomic_spec e "json" _ (json_bytes m) s1' (provider_path_extension dir name Hn)) as Hs.
  unfold write_json_atomic in Hw. change ("json" +:+ ".tmp") with "json.tmp" in Hs.
  rewrite Hw in Hs. destruct Hs as [Hq (b & Hb & Hl & _)].
  destruct (create_all_again dir s3) as (s4 & Hs4 & Hfs).
  { intros q Hin. rewrite H3, Hq; [by apply Hc|by apply not_directory|].
    rewrite path_join_app by done. apply not_directory; [|by destruct name|done].
    rewrite string_app_assoc. apply no_slash_relative. rewrite !string_mem_app.
    by rewrite (provider_name_mem name "/"). }
  assert (config_directory e' "providers" = Ok dir) as Hd'
    by (rewrite <- Hd; unfold config_directory; by rewrite Henv).
  unfold read_manifest, provider_path. rewrite Hn. simpl. rewrite Hd'.
  unfold mbind, M_bind, lift at 1. rewrite Hs4. simpl. unfold fs_read, fs_op. rewrite Hfault.
  rewrite Hfs, H3, Hl. unfold lift. rewrite (json_roundtrip _ _ Hb). by eexists.
Qed.

Context `{Writable OperationRequest} `{Writable ProviderProbeRequest}.
Context (value_eqb : Value → Value → bool).

(** An installed provider is the one its manifest describes. When [provider
    install PATH] succeeds, the document at PATH was read and met its contract, and
    from then on a [provider probe] of its name, run with the same configuration and
    no failing file, asks the daemon about exactly that provider: its backend, model,
    endpoint and credential reference, with the entry point taken relative to the
    document. *)
Theorem installed_provider_probed path rest s s' :
  provider_command e value_eqb ("install" :: path :: rest) s = (Ok tt, s') →
  ∃ m s1, read_declarative e path s = (Ok m, s1) ∧ validate_provider_manifest m = Ok tt ∧
    ∀ v, json_value (mkProbeRequest (pm_name m) (pm_backend m)
           (default (runtime_class_for_backend (pm_backend m)) (parse_runtime_class (pm_runtime_class m)))
           (pm_model m) (pm_endpoint m) (pm_credential_env m)
           (resolve_manifest_entrypoint path (pm_entrypoint m)) 10000) = Ok v →
    ∃ s4, provider_command e' value_eqb ["probe"; pm_name m] s' =
            (x ← call e' "ProbeEngine" v; print_json x) s4 ∧ cs_fs s4 = cs_fs s'.
Proof.
  intros Hi. change (provider_install e ("install" :: path :: rest) s = (Ok tt, s')) in Hi.
  apply M_bind_inv_ok in Hi as (p & s0 & [= <- <-] & Hi).
  apply M_bind_inv_ok in Hi as (m & s1 & Hr & Hi).
  apply M_bind_inv_ok in Hi as ([] & s1' & Hv & Hi). unfold lift in Hv.
  destruct (validate_provider_manifest m) as [[]|] eqn:Hvm; [|done]. injection Hv as <-.
  apply M_bind_inv_ok in Hi as ([] & s2 & Hv & Hi). unfold lift in Hv. injection Hv as _ <-.
  apply M_bind_inv_ok in Hi as (target & s3 & Hp & Hi).
  apply M_bind_inv_ok in Hi as ([] & s4 & Hw & Hi). injection Hi as <-.
  exists m, s1. split_and!; [done..|]. intros v Hj.
  match goal with |- context [provider_command e' _ _ ?s] =>
    destruct (written_manifest_read _ _ _ _ _ _ Hp Hw s eq_refl) as (s5 & Hm & Hfs) end.
  exists s5. split; [|done].
  transitivity ((m' ← read_manifest e' (pm_name m); w ← probe_provider e' m'; print_json w)
                  (mkCli (cs_fs s4) (cs_ops s4) (cs_printed s4 ++ [json_object [("installed", VBool true);
                     ("name", VString (pm_name m)); ("path", VString target)]]) (cs_calls s4)));
    [done|].
  rewrite (M_bind_ok _ _ _ _ _ Hm). unfold probe_provider, probe_request, operational_manifest.
  unfold lift, mbind, M_bind. simpl. by rewrite Hj.
Qed.
End Configured.

(** ** A configuration *)

#[local] Instance ProjectReference_eq_dec : EqDecision ProjectReference.
Proof. solve_decision. Defined.
#[local] Instance ProjectManifest_eq_dec : EqDecision ProjectManifest.
Proof. solve_decision. Defined.
#[local] Instance LegacyProviderManifest_eq_dec : EqDecision LegacyProviderManifest.
Proof. solve_decision. Defined.

(** A codec that knows one document. *)
Definition one_readable {T} (d : T) : Readable T := {| read_json _ := Ok d; read_yaml _ := Ok d |}.
Definition one_writable {T} `{EqDecision T} (d : T) (v : Value) : Writable T := {|
  json_bytes x := if decide (x = d) then Ok [7] else Err "unknown";
  yaml_bytes x := if decide (x = d) then Ok [7] else Err "unknown";
  json_value _ := Ok v
|}.
Lemma one_laws {T} `{EqDecision T} (d : T) v :
  @DocumentLaws T (one_readable d) (one_writable d v).
Proof. split; simpl; intros x b; by destruct (decide (x = d)) as [->|]. Qed.
Definition any_writable {T} (v : Value) : Writable T :=
  {| json_bytes _ := Ok [8]; yaml_bytes _ := Ok [8]; json_value _ := Ok v |}.

Definition cli_env : CliEnv :=
  mkCliEnv (λ name, if decide (name = "HOME") then Some (Unicode "/home/op") else None) (Ok "/work")
    (λ _, None) (λ _, None) id (λ _, None) (λ _, ([], FsDir None []))
    (λ _ _ _, Ok (VObject [])).
Definition cli_start : CliState := mkCli {["/work" := CDir]} 0 [] [].
#[local] Instance cli_journal : JournalEnv := {| sha256 b := b; sql_text _ := "" |}.

Definition ex_writes : Writable ProjectManifest :=
  one_writable (scaffold_project_manifest "demo") VNull.
Definition ex_created : result string unit * CliState :=
  @new_command cli_env "" "" (any_writable VNull) (any_writable VNull) ex_writes
    ["project"; "demo"] cli_start.

Lemma new_project_validates_witness :
  ex_created.1 = Ok tt ∧ (∀ n, ce_fault cli_env n = None) ∧
  ∃ s'', @project_command cli_env (one_readable (scaffold_project_manifest "demo")) ex_writes
           (any_writable VNull) ["validate"; "demo"] ex_created.2 = (Ok tt, s'') ∧
    cs_fs s'' = cs_fs ex_created.2 ∧
    last (cs_printed s'') = Some (valid_report "ProjectManifest" [("id", VString "demo");
      ("schema_version", version_value 1); ("references", nat_value 0)]).
Proof.
  assert (ex_created = (Ok tt, ex_created.2)) as Hok by (vm_compute; reflexivity).
  split_and!; [by rewrite Hok|done|].
  apply (@new_project_validates cli_env "" "" (any_writable VNull) (any_writable VNull)
           (one_readable _) ex_writes (one_laws _ _) (any_writable VNull) "demo" cli_start
           ex_created.2 cli_env Hok (λ n, eq_refl)).
Defined.

Definition ex_manifest : ProviderManifest :=
  mkProviderManifest 1 "home" "1.0.0" "ollama" "local" "" "llama3" "http://127.0.0.1:11434" ""
    ["text.generate"] [] ∅.
Definition ex_downloaded : CliState :=
  mkCli {["p/provider.yaml" := CFile [7]]} 0 [] [].
Definition ex_legacy : LegacyProviderManifest := operational_manifest "p/provider.yaml" ex_manifest.
Definition ex_install : result string unit * CliState :=
  @provider_command cli_env cli_journal (one_readable ex_legacy) (one_writable ex_legacy VNull)
    (one_readable ex_manifest) (any_writable VNull) (any_writable (VString "probe"))
    (λ _ _, true) ["install"; "p/provider.yaml"] ex_downloaded.

Lemma installed_provider_probed_witness :
  ex_install.1 = Ok tt ∧ (∀ n, ce_fault cli_env n = None) ∧
  ∃ m s1, @read_declarative cli_env _ (one_readable ex_manifest) "p/provider.yaml" ex_downloaded
            = (Ok m, s1) ∧ validate_provider_manifest m = Ok tt ∧
    ∀ v, json_value (Writable := any_writable (VString "probe"))
           (mkProbeRequest (pm_name m) (pm_backend m)
              (default (runtime_class_for_backend (pm_backend m)) (parse_runtime_class (pm_runtime_class m)))
              (pm_model m) (pm_endpoint m) (pm_credential_env m)
              (resolve_manifest_entrypoint "p/provider.yaml" (pm_entrypoint m)) 10000) = Ok v →
    ∃ s4, @provider_command cli_env cli_journal (one_readable ex_legacy) (one_writable ex_legacy VNull)
            (one_readable ex_manifest) (any_writable VNull) (any_writable (VString "probe"))
            (λ _ _, true) ["probe"; pm_name m] ex_install.2 =
            (x ← call cli_env "ProbeEngine" v; print_json x) s4 ∧ cs_fs s4 = cs_fs ex_install.2.
Proof.
  assert (ex_install = (Ok tt, ex_install.2)) as Hok by (vm_compute; reflexivity).
  split_and!; [by rewrite Hok|done|].
  apply (@installed_provider_probed cli_env cli_env cli_journal (one_readable ex_legacy)
           (one_writable ex_legacy VNull) (one_laws _ _) (one_readable ex_manifest) eq_refl (λ n, eq_refl)
           (any_writable VNull) (any_writable (VString "probe")) (λ _ _, true)
           "p/provider.yaml" [] ex_downloaded ex_install.2 Hok).
Defined.

(** ** What an operation of the tool is identified by *)

(** The operation and the workload of [run], [test] and [certify] are named after the
    backend, the model and the input alone: another endpoint, credential, entry point
    or runtime class, with the same backend and model, gives the same operation, which
    the daemon answers with the receipt it has committed. *)
Lemma operation_of_identity `{JournalEnv} input m m' :
  lp_backend m = lp_backend m' → lp_model m = lp_model m' →
  rq_operation_id (operation_of input m) = rq_operation_id (operation_of input m') ∧
  rq_workload_id (operation_of input m) = rq_workload_id (operation_of input m').
Proof. intros Hb Hm. unfold operation_of, identity_of. simpl. by rewrite Hb, Hm. Qed.
(** With a line break in the model, another model and another input too. *)
Example identity_of_line_break :
  identity_of "c" (mkLegacy 1 "p" "ollama" PRC_Local ("a" +:+ newline +:+ "b") "" "" "") =
  identity_of ("b" +:+ newline +:+ "c") (mkLegacy 1 "p" "ollama" PRC_Local "a" "" "" "").
Proof. reflexivity. Qed.

Definition ex_external : ProviderManifest := scaffold_manifest "echo".
(** Installing from the directory of the manifest leaves the entry point relative to
    the directory the operator happened to be in; from a neighbouring directory it is
    refused, as it leads through a parent. *)
Example installed_entrypoint_relative :
  lp_entrypoint (operational_manifest "provider.yaml" ex_external) = "src/provider.py" ∧
  validate_manifest (operational_manifest "provider.yaml" ex_external) = Ok tt.
Proof. split; reflexivity. Qed.
Example neighbour_refused :
  validate_provider_manifest ex_external = Ok tt ∧
  ∃ text, validate_manifest (operational_manifest "../echo/provider.yaml" ex_external) = Err text.
Proof. split; [reflexivity|]. eexists. vm_compute. reflexivity. Qed.

(** A name with a dot: the scaffold is made and its manifest is valid, but the
    provider can never be configured. *)
Example dotted_provider_stuck :
  safe_name "my.provider" = Ok "my.provider" ∧
  validate_provider_manifest (scaffold_manifest "my.provider") = Ok tt ∧
  provider_name "my.provider" = false.
Proof. split_and!; reflexivity. Qed.
