(* ===== verification/Refines.v ===== *)
(** * The handlers of the runtime as histories of the executor

    Each handler of [KernelRuntime] ([Coordinator]) is, for the journal and the
    provider, a history of the durable executor ([Executor]), poisons no lock, and
    makes nothing pending or committed but its own operation. *)

From S2P Require Import Prelude Errors Float64 Resource Workload Journal Semantic Lease.
From S2P Require Import Admission Policy Placement Provider Executor Coordinator.
Local Open Scope Z_scope.

(** ** Keys never clash with the executor's *)

(** A tail that could be mistaken for the tail of one of the executor's keys. *)
Definition clashes (s : string) : bool :=
  existsb (λ t, ends_with t s || ends_with s t) [":intent"; ":receipt"; ":commit"].

Definition foreign_key (k : string) : Prop :=
  (∀ m op, k ≠ mark_key m op) ∧ (∀ op, k ≠ intent_key op).

Lemma foreign_key_tail a s : clashes s = false → foreign_key (a +:+ s).
Proof.
  intros Hc. unfold clashes in Hc. cbn [existsb] in Hc. rewrite !orb_false_iff in Hc.
  destruct Hc as ([Hi1 Hi2] & [Hr1 Hr2] & [Hc1 Hc2] & _).
  split; [intros [] op|intros op]; cbn [mark_key]; unfold intent_key, receipt_key, commit_key;
    rewrite <-string_app_assoc; intros [E|E]%app_eq_ends; congruence.
Qed.

(** A provider revision that keeps the abort key apart from the executor's. *)
Definition plain_revision (rev : string) : Prop := clashes (":" +:+ rev) = false.

Ltac foreign_tail := unfold op_key; rewrite <-?string_app_assoc; apply foreign_key_tail; reflexivity.

Lemma schedule_key_foreign op : foreign_key (schedule_key op).
Proof. unfold schedule_key. foreign_tail. Qed.
Lemma lease_grant_key_foreign op id : foreign_key (lease_grant_key op id).
Proof. unfold lease_grant_key. foreign_tail. Qed.
Lemma lease_release_key_foreign op id : foreign_key (lease_release_key op id).
Proof. unfold lease_release_key. foreign_tail. Qed.
Lemma lease_revoke_key_foreign op id : foreign_key (lease_revoke_key op id).
Proof. unfold lease_revoke_key. foreign_tail. Qed.
Lemma failure_key_foreign op : foreign_key (failure_key op).
Proof. unfold failure_key. foreign_tail. Qed.
Lemma cancel_key_foreign op : foreign_key (cancel_key op).
Proof. unfold cancel_key. foreign_tail. Qed.
Lemma abort_key_foreign op rev : plain_revision rev → foreign_key (abort_key op rev).
Proof.
  intros Hr. unfold abort_key, op_key.
  change (":abort:" +:+ rev) with (":abort" +:+ (":" +:+ rev)).
  rewrite <-(string_app_assoc op), <-string_app_assoc. by apply foreign_key_tail.
Qed.
Lemma workload_key_foreign op execution :
  foreign_key (workload_key op (final_phase execution).2).
Proof.
  unfold workload_key.
  assert ((final_phase execution).2 ∈ ["COMPLETED"; "CANCELLED"; "FAILED"]) as Hp.
  { destruct execution as [?|[]]; set_solver. }
  rewrite !elem_of_cons, elem_of_nil in Hp.
  destruct Hp as [->|[->|[->|[]]]]; foreign_tail.
Qed.
Lemma profile_key_foreign p : foreign_key (profile_key p).
Proof. unfold profile_key, profile_outcome. destruct (ep_failure_code p); foreign_tail. Qed.
#[global] Hint Resolve schedule_key_foreign lease_grant_key_foreign lease_release_key_foreign
  lease_revoke_key_foreign failure_key_foreign cancel_key_foreign abort_key_foreign
  workload_key_foreign profile_key_foreign : apeir.

(** ** The runtime as a history of the executor *)

Section Refinement.
Context `{JournalEnv} `{TextPlatform} `{FloatPlatform} `{HostPlatform} `{HashOrder}.
Context `{Serde OperationRequest} `{Serde OperationReceipt} `{Serde DecisionTrace}.
Context `{Serde FencedLease} `{Serde ExecutionProfile} `{Serde Json}.
Context `{!SerdeLaws OperationRequest} `{!SerdeLaws OperationReceipt}.
Context (wl : string → string).

(** The requests of well-behaved clients: each operation identifier under its one
    workload, and provider revisions that do not imitate a journal key. The code
    accepts others too; nothing is said of histories that hold them. *)
Definition plain_request (r : OperationRequest) : Prop :=
  plain_revision (sn_provider_revision (rq_snapshot r)).
Definition valid_request (r : OperationRequest) : Prop := submitted wl plain_request r.

Definition xsteps : XState → XState → Prop := rtc (estep wl plain_request).

(** No thread died inside a critical section. *)
Definition unpoisoned (s : Runtime) : Prop :=
  locks_ok (rt_leases s) ∧ poisoned (rt_active s) = false.
Definition rt_inv (s : Runtime) : Prop :=
  exec_inv wl plain_request (x_journal (rt_x s)) ∧ unpoisoned s.

Lemma xsteps_inv x x' :
  xsteps x x' → exec_inv wl plain_request (x_journal x) →
  exec_inv wl plain_request (x_journal x').
Proof. intros Hs Hi. by apply (esteps_extends _ _ _ _ Hs Hi). Qed.

Definition not_pending (op : string) (x : XState) : Prop :=
  pending_map (entries (x_journal x)) !! op = None.

(** A history of the executor that makes no operation of [Q] pending or
    committed. *)
Record quiet (Q : string → Prop) (s s' : Runtime) : Prop := {
  qt_steps : xsteps (rt_x s) (rt_x s');
  qt_locks : unpoisoned s → unpoisoned s';
  qt_pending : ∀ op, Q op → not_pending op (rt_x s) → not_pending op (rt_x s');
  qt_commit : ∀ op, Q op → no_mark MCommit op (rt_x s) → no_mark MCommit op (rt_x s')
}.

#[global] Instance quiet_preorder Q : PreOrder (quiet Q).
Proof.
  split; [by split; [apply rtc_refl|auto..]|]. intros x y z [] [].
  split; [by etrans|auto..].
Qed.

Lemma quiet_inv Q s s' : quiet Q s s' → rt_inv s → rt_inv s'.
Proof. intros [Hs Hl _ _] [Hi Hp]. split; [by eapply xsteps_inv|auto]. Qed.

Lemma quiet_weaken (Q P : string → Prop) s s' :
  (∀ op, P op → Q op) → quiet Q s s' → quiet P s s'.
Proof. intros HPQ []. split; auto. Qed.

(** The active operations are not part of a history. *)
Lemma quiet_active Q s s' s'' :
  quiet Q s s' → rt_x s'' = rt_x s' → rt_leases s'' = rt_leases s' →
  poisoned (rt_active s'') = poisoned (rt_active s') → quiet Q s s''.
Proof.
  intros [] Hx Hl Ha. split; rewrite ?Hx; auto. unfold unpoisoned. rewrite Hl, Ha. auto.
Qed.

Section Refines.
Context (Q : string → Prop).

(** A handler is, for the journal and the provider, such a history. *)
Definition refines {A} (m : M Runtime Halt A) : Prop :=
  ∀ s, rt_inv s → quiet Q s (m s).2.

Lemma refines_bind {A B} (m : M Runtime Halt A) (f : A → M Runtime Halt B) :
  refines m → (∀ a, refines (f a)) → refines (m ≫= f).
Proof.
  intros Hm Hf s Hi. unfold mbind, M_bind. specialize (Hm s Hi).
  destruct (m s) as [[a|h] s'] eqn:E; simpl in *; [|done].
  etrans; [exact Hm|]. apply Hf. by eapply quiet_inv.
Qed.
Lemma refines_reader {A} (f : Runtime → result Halt A) : refines (λ s, (f s, s)).
Proof. intros s _. reflexivity. Qed.
Lemma refines_settle {A} (m : M Runtime Halt A) : refines m → refines (settle m).
Proof.
  intros Hm s Hi. specialize (Hm s Hi). unfold settle.
  by destruct (m s) as [[a|[e|p]] s'].
Qed.
Lemma refines_leases {A} (m : M LeaseManager NousError A) :
  (∀ lm, locks_ok lm → locks_ok (m lm).2) → refines (on_leases m).
Proof.
  intros Hm s _. unfold on_leases, zoom, map_err_M. specialize (Hm (rt_leases s)).
  destruct (m (rt_leases s)) as [[] lm]; (split; [apply rtc_refl| |done..]);
    (intros [Hl Ha]; split; [by apply Hm|exact Ha]).
Qed.
Lemma refines_grant g q : refines (on_leases (grant_fenced g q)).
Proof.
  apply refines_leases. intros lm Hl. destruct (grant_fenced g q lm) as [[fl|e] lm'] eqn:Hg; simpl.
  - apply grant_fenced_Ok in Hg as (_ & m1 & Hins & -> & _).
    by apply grant_insert_Ok in Hins as (_ & -> & _).
  - by apply grant_fenced_Err in Hg as ->.
Qed.
Lemma refines_release id : refines (on_leases (release id)).
Proof.
  apply refines_leases. intros lm Hl. unfold release, lock_or_error. pose proof Hl as (H1' & H2' & _).
  unfold lock. rewrite H1'. simpl. destruct (_ !! id); simpl; [|done]. by rewrite H2'.
Qed.
Lemma refines_trigger crash p : refines (trigger crash p).
Proof. intros s _. unfold trigger. by case_decide. Qed.

(** A record of the runtime is a foreign entry. *)
Definition foreign_object (t : EntryType) (obj : string) : bool :=
  bool_decide (obj ∉ ["OperationReceipt"; "StepCommit"])
  && negb (bool_decide (t = Intent) && bool_decide (obj = "Operation")).

Lemma operation_entry_foreign r t obj ph b key :
  foreign_object t obj = true → foreign_key key →
  foreign (operation_entry r t obj ph b (Some key)).
Proof.
  unfold foreign_object. rewrite andb_true_iff, negb_true_iff, andb_false_iff.
  rewrite bool_decide_eq_true, !bool_decide_eq_false.
  intros [Ho Hi] [Hm Hk]. unfold foreign. simpl. split_and!.
  - intros k ->. apply Ho. destruct k; set_solver.
  - tauto.
  - intros k op [= E]. by apply (Hm k op).
  - intros op [= E]. by apply (Hk op).
Qed.

Lemma refines_append `{Serde T} io r t obj ph (payload : T) key :
  foreign_object t obj = true → foreign_key key →
  refines (on_x (exec_append io r t obj ph payload (Some key))).
Proof.
  intros Ho Hk s _. split.
  - unfold on_x, zoom, exec_append.
    destruct (to_vec payload) as [b|]; [|apply rtc_refl]. apply rtc_once.
    pose proof (EForeign wl plain_request io (operation_entry r t obj ph b (Some key)) (rt_x s))
      as Hstep.
    assert (u64_ok 1) as Hg by (unfold u64_ok, u64_max; lia).
    destruct (append io _ _) as [[?|?] j']; simpl in *;
      (apply Hstep; [by apply operation_entry_foreign|exact Hg]).
  - unfold on_x, zoom. by destruct (exec_append _ _ _ _ _ _ _ _).
  - intros op _ Hp. unfold on_x, zoom.
    pose proof (exec_append_not_pending wl plain_request io r t obj ph payload key op (rt_x s)) as Hn.
    destruct (exec_append _ _ _ _ _ _ _ _) as [res x']. apply Hn; [left|done].
    intros [-> ->]. done.
  - intros op _ Hp. unfold on_x, zoom.
    pose proof (exec_append_no_mark wl plain_request io r t obj ph payload key MCommit op (rt_x s))
      as Hn.
    destruct (exec_append _ _ _ _ _ _ _ _) as [res x']. apply Hn; [left|done].
    intros ->. by destruct t.
Qed.

Lemma profile_entry_foreign p b : foreign (profile_entry p b).
Proof.
  destruct (profile_key_foreign p) as [Hm Hk]. unfold foreign. simpl.
  split_and!; [by intros []|by intros []|intros k op E%Some_inj; by apply (Hm k op)|].
  intros op E%Some_inj; by apply (Hk op).
Qed.

Lemma refines_profile x p : refines (record_profile_rt x p).
Proof.
  intros s _. unfold record_profile_rt, on_x, zoom, map_err_M, record_profile. simpl.
  destruct (to_vec _) as [b|]; [|by destruct s as [? []]].
  pose proof (EForeign wl plain_request (ri_profile x)
    (profile_entry (set_recorded (ri_profile_now x) p) b) (rt_x s)) as Hstep.
  assert (u64_ok 1) as Hg by (unfold u64_ok, u64_max; lia).
  destruct (append _ _ _) as [res j'] eqn:Ha. simpl in *. split; [|done|..].
  - apply rtc_once, Hstep; [apply profile_entry_foreign|exact Hg].
  - intros op _. unfold not_pending. simpl.
    apply append_cases in Ha as [(? & -> & ->)|[(? & ? & _ & _ & _ & -> & ->)|(-> & -> & _)]];
      [done..|]. rewrite entries_push, pending_map_snoc. unfold pending_entry. simpl.
    done.
  - intros op _ Hno. unfold no_mark. simpl.
    apply append_cases in Ha as [(? & -> & ->)|[(? & ? & _ & _ & _ & -> & ->)|(-> & -> & _)]];
      [done..|]. intros e He. rewrite entries_push in He.
    apply elem_of_app in He as [He| ->%list_elem_of_singleton]; [by apply Hno|].
    by intros (_ & ? & _).
Qed.

Lemma refines_execute x r :
  valid_request r → (∀ op, Q op → rq_operation_id r ≠ op) →
  refines (on_x (execute_cancellable x r)).
Proof.
  intros Hr HQ s _. unfold on_x, zoom.
  pose proof (EExec wl plain_request x r (rt_x s) Hr) as Hstep.
  pose proof (λ op, execute_not_pending wl plain_request x r (rt_x s) op) as Hn.
  pose proof (λ op, execute_no_mark_other wl plain_request x r (rt_x s) MCommit op) as Hm.
  destruct (execute_cancellable x r (rt_x s)) as [res x'].
  split; [by apply rtc_once|done|..]; intros op Hop%HQ Hp; [apply Hn|apply Hm]; auto.
Qed.

Lemma refines_active_insert r : refines (active_insert r).
Proof.
  intros s _. unfold active_insert. destruct (lock _); [|done].
  by apply (quiet_active Q s s).
Qed.
Lemma refines_active_remove w : refines (active_remove w).
Proof.
  intros s _. unfold active_remove. destruct (lock _); [|done].
  by apply (quiet_active Q s s).
Qed.
Lemma refines_ret {A} (a : A) : refines (mret a).
Proof. apply (refines_reader (λ _, Ok a)). Qed.
Lemma refines_throw {A} h : refines (throw (A := A) h).
Proof. apply (refines_reader (λ _, Err h)). Qed.
Lemma refines_lift {A} (r : result Halt A) : refines (lift r).
Proof. apply (refines_reader (λ _, r)). Qed.
Lemma refines_gets {A} (f : Runtime → A) : refines (gets f).
Proof. apply (refines_reader (λ s, Ok (f s))). Qed.

Ltac refines_auto :=
  repeat first
    [ apply refines_bind; [|intros ?] | apply refines_settle | apply refines_ret
    | apply refines_throw | apply refines_lift | apply refines_gets
    | apply refines_grant | apply refines_release
    | apply refines_trigger | apply refines_profile | apply refines_active_insert
    | apply refines_active_remove
    | apply refines_append; [reflexivity|by eauto with apeir] ].

Lemma refines_acquire x r : refines (acquire x r).
Proof.
  unfold acquire. destruct (admit_workload _ _ _); [|apply refines_throw..].
  destruct (place_with_trace _ _ _) as [placed trace]. unfold drop_lease. refines_auto.
  case_match; refines_auto. case_match; refines_auto. case_match; refines_auto.
Qed.

Lemma refines_record_failure x r e b : valid_request r → refines (record_failure x r e b).
Proof. intros [_ Hr]. unfold record_failure. refines_auto. Qed.

Lemma refines_finish x r recovered fenced trace device execution :
  valid_request r → refines (finish x r recovered fenced trace device execution).
Proof.
  intros Hr. unfold finish.
  apply refines_bind; [refines_auto|intros p]. apply refines_bind; [refines_auto|intros a].
  apply refines_bind; [destruct execution; [apply refines_ret|by apply refines_record_failure]|].
  intros b. pose proof (workload_key_foreign (rq_operation_id r) execution) as Hk.
  destruct (final_phase execution) as [t phase] eqn:Hp. simpl in Hk.
  apply refines_bind; [apply refines_settle, refines_append; [|done]|intros w; refines_auto].
  - by destruct execution as [?|[]]; simplify_eq/=.
  - case_match; [apply refines_throw|]. refines_auto.
Qed.

Lemma refines_execute_internal x b r :
  valid_request r → (∀ op, Q op → rq_operation_id r ≠ op) → refines (execute_internal x b r).
Proof.
  intros Hr HQ. unfold execute_internal. refines_auto. case_decide; [apply refines_throw|].
  apply refines_bind; [by intros s _|intros [receipt|]].
  - apply refines_bind; [apply refines_reader|intros trace; apply refines_ret].
  - apply refines_bind; [apply refines_acquire|intros [[fenced trace] device]].
    apply refines_bind; [by apply refines_settle, refines_execute|].
    intros execution; by apply refines_finish.
Qed.

Lemma refines_cancel io w : refines (cancel io w).
Proof.
  intros s Hi. unfold cancel. destruct (lock (rt_active s)) as [a|]; [|done].
  destruct (a !! w) as [ao|]; [|done].
  pose proof (refines_append io (ao_request ao) Transition "Workload" "CANCELLATION_REQUESTED"
    (JObj [("workload_id", JStr w); ("operation_id", JStr (ao_operation_id ao))])
    (cancel_key (ao_operation_id ao)) eq_refl (cancel_key_foreign _) s Hi) as Hs.
  destruct (on_x _ s) as [[?|?] s']; [|done]. by apply (quiet_active Q s s').
Qed.

Lemma refines_shutdown : refines shutdown_begin.
Proof.
  intros s _. unfold shutdown_begin. destruct (lock (rt_state s)); simpl;
    destruct (lock (rt_active s)); (done || by apply (quiet_active Q s s)).
Qed.

Lemma refines_revoke read io : refines (revoke_orphaned_leases read io).
Proof.
  intros s Hi. unfold revoke_orphaned_leases.
  destruct (read_from _ _ _) as [es|]; [|done].
  destruct (lease_scan es) as [requests active]. revert s Hi.
  change (refines (revoke_loop io requests (hash_iter active))).
  induction (hash_iter active) as [|[id [w l]] rest IH]; [apply refines_ret|].
  cbn [revoke_loop]. refines_auto. exact IH.
Qed.
End Refines.

(** The handlers that promise nothing about what becomes pending. *)
Definition no_ops (op : string) : Prop := False.

(** What is pending was submitted. *)
Lemma pending_submitted es op r :
  Forall (entry_spec wl plain_request) es → pending_map es !! op = Some r → valid_request r.
Proof.
  intros Hes. revert op r.
  change (map_Forall (λ _ r, valid_request r) (pending_map es)).
  induction es as [|e es IH] using rev_ind; [done|].
  apply Forall_app in Hes as [Hes [He _]%Forall_cons]. specialize (IH Hes).
  rewrite pending_map_snoc. unfold pending_entry. repeat case_match; try done.
  - apply map_Forall_insert_2; [|done].
    match goal with Hd : _ ∧ _, Hp : from_slice _ = _ |- _ =>
      destruct (es_intent _ _ _ He (proj1 Hd) (proj2 Hd)) as (r' & Hr' & _ & Hsub);
      by simplify_eq end.
  - by apply map_Forall_delete.
Qed.

Lemma refines_recover_loop run rs :
  Forall valid_request rs → refines no_ops (recover_loop run rs).
Proof.
  induction 1 as [|r rs Hr _ IH]; [apply refines_ret|]. cbn [recover_loop].
  destruct (rq_delivery r); try apply refines_throw;
    (apply refines_bind; [by apply refines_execute_internal|intros ex];
     apply refines_bind; [exact IH|intros; apply refines_ret]).
Qed.

Lemma pending_scan_spec io x rs :
  marks_inv wl plain_request (x_journal x) → pending_operations io (x_journal x) = Ok rs →
  ∀ r, r ∈ rs ↔ pending_map (entries (x_journal x)) !! rq_operation_id r = Some r.
Proof.
  intros Hi Hp. assert (available_db io (x_journal x)) as Hav.
  { unfold pending_operations, read_from, select, lock in Hp. unfold available_db.
    destruct (poisoned (conn (x_journal x))); [done|]. by destruct (io_query io) as [[]|]. }
  destruct (pending_operations_elem io _ (xi_ok _ _ _ Hi) Hav) as (ps & Hps & Hin).
  rewrite Hps in Hp. by injection Hp as <-.
Qed.

Lemma pending_operations_valid io x rs :
  marks_inv wl plain_request (x_journal x) → pending_operations io (x_journal x) = Ok rs →
  Forall valid_request rs.
Proof.
  intros Hi Hp. apply Forall_forall. intros r Hr%(pending_scan_spec io x rs Hi Hp).
  eapply pending_submitted; [apply Hi|exact Hr].
Qed.

Lemma refines_recover y : refines no_ops (runtime_recover y).
Proof.
  unfold runtime_recover. apply refines_bind; [apply refines_revoke|intros _].
  intros s Hi. unfold mbind, M_bind.
  destruct (pending_operations _ _) as [rs|e] eqn:Hp; simpl; [|done].
  apply refines_recover_loop; [|done]. eapply pending_operations_valid; [apply Hi|done].
Qed.

(** ** Committed operations *)

Lemma finish_Ok x r b fenced trace device execution s ex s' :
  finish x r b fenced trace device execution s = (Ok ex, s') →
  execution = Ok (re_receipt ex) ∧ re_workload_id ex = rq_workload_id r.
Proof.
  unfold finish. intros Hf.
  apply M_bind_inv_ok in Hf as (p & s1 & _ & Hf). apply M_bind_inv_ok in Hf as (a & s2 & _ & Hf).
  apply M_bind_inv_ok in Hf as (b1 & s3 & _ & Hf).
  destruct (final_phase execution) as [t phase].
  apply M_bind_inv_ok in Hf as (w & s4 & _ & Hf). apply M_bind_inv_ok in Hf as (l & s5 & _ & Hf).
  apply M_bind_inv_ok in Hf as (u & s6 & _ & Hf). apply M_bind_inv_ok in Hf as (d & s7 & _ & Hf).
  destruct (get_or_insert _ _) as [e|]; [done|].
  apply M_bind_inv_ok in Hf as (receipt & s8 & Hl & [= <- _]).
  destruct execution as [rc|e]; [|done]. unfold lift in Hl. simpl in Hl. by simplify_eq.
Qed.

(** A successful execution leaves its receipt committed. *)
Lemma execute_internal_commits x b r s ex s' :
  rt_inv s → valid_request r → execute_internal x b r s = (Ok ex, s') →
  has_mark MCommit (rq_operation_id r) (re_receipt ex) (rt_x s') ∧
  re_workload_id ex = rq_workload_id r.
Proof.
  intros Hi Hr He. unfold execute_internal in He.
  apply M_bind_inv_ok in He as (u & s1 & Hv & He). unfold lift in Hv. simplify_eq.
  apply M_bind_inv_ok in He as (st & s2 & Hg & He). unfold gets in Hg. simplify_eq.
  case_decide; [done|].
  apply M_bind_inv_ok in He as (o & s3 & Hc & He). unfold on_x, zoom in Hc.
  destruct (committed_receipt _ r _) as [res x3] eqn:Hcr. simplify_eq.
  apply (read_mark_wp wl plain_request _ _ MCommit) in Hcr as [-> Ho]; [|apply Hi|exact Hr].
  destruct o as [receipt|].
  - apply M_bind_inv_ok in He as (tr & s4 & Ht & [= <- <-]).
    unfold latest_decision_trace in Ht. simplify_eq. done.
  - apply M_bind_inv_ok in He as ([[fenced trace] device] & s4 & Ha & He).
    apply M_bind_inv_ok in He as (execution & s5 & Hx & Hf).
    destruct (finish_Ok _ _ _ _ _ _ _ _ _ _ Hf) as [-> Hw]. split; [|done].
    assert (rt_inv s4) as Hi4.
    { rewrite set_rt_x_id in Ha. pose proof (refines_acquire no_ops x r _ Hi) as Hs. rewrite Ha in Hs.
      by eapply quiet_inv. }
    apply (proj1 (settle_Ok _ _ _ _)) in Hx. unfold on_x, zoom in Hx.
    destruct (execute_cancellable (ri_exec x) r (rt_x s4)) as [res x5] eqn:He.
    injection Hx as -> <-.
    destruct (wp_elim _ _ _ _ _ _ (execute_wp wl plain_request (ri_exec x) r _ (proj1 Hi4) Hr) He)
      as (Hp & Hm & _).
    pose proof (refines_finish no_ops x r b fenced trace device (Ok (re_receipt ex)) Hr
      (set_rt_x x5 s4)) as Hs.
    rewrite Hf in Hs. eapply (has_mark_extends wl plain_request); [|exact Hm].
    apply (esteps_extends wl plain_request); [|apply Hp].
    apply Hs. split; [apply Hp|apply Hi4].
Qed.

Lemma committed_settled op rc x :
  exec_inv wl plain_request (x_journal x) → has_mark MCommit op rc x → not_pending op x.
Proof.
  intros [[Hok Hes] Hord] (e & He & Hm & _). eapply committed_not_pending; try done.
  apply Exists_exists. eauto.
Qed.

Lemma runtime_init_inv uuid k : rt_inv (runtime_init uuid k).
Proof. split; [apply exec_init_inv|]. split; [split_and!|]; reflexivity. Qed.

End Refinement.
