(* ===== verification/Continuity.v ===== *)
(** * Continuity plans

    [KernelRuntime::execute_continuously] ([Coordinator]): a plan is a list of
    steps, each one operation with several candidate providers. What a plan
    leaves in the journal, why a failover never reopens a committed operation, and
    what the failover records say. *)

From S2P Require Import Prelude Errors Float64 Resource Workload Journal Semantic Lease.
From S2P Require Import Admission Policy Placement Provider Executor Coordinator Refines.
Local Open Scope Z_scope.

(** ** Keys *)

Lemma candidate_outcome_key_foreign op provider phase :
  clashes (":" +:+ phase) = false → foreign_key (candidate_outcome_key op provider phase).
Proof.
  intros Hc. unfold candidate_outcome_key, op_key.
  rewrite <-(string_app_assoc ":candidate:" provider), <-(string_app_assoc op), <-string_app_assoc.
  by apply foreign_key_tail.
Qed.

Lemma rebind_key_foreign op rev : plain_revision rev → foreign_key (rebind_key op rev).
Proof.
  intros Hr. unfold rebind_key, op_key. change (":rebind:" +:+ rev) with (":rebind" +:+ (":" +:+ rev)).
  rewrite <-(string_app_assoc op), <-string_app_assoc. by apply foreign_key_tail.
Qed.

Lemma provider_rebind_key_foreign op rev :
  plain_revision rev → foreign_key (provider_rebind_key op rev).
Proof.
  intros Hr. unfold provider_rebind_key, op_key.
  change (":provider-rebind:" +:+ rev) with (":provider-rebind" +:+ (":" +:+ rev)).
  rewrite <-(string_app_assoc op), <-string_app_assoc. by apply foreign_key_tail.
Qed.

(** ** A failed attempt leaves its operation open *)

Section Continuity.
Context `{JournalEnv} `{TextPlatform} `{FloatPlatform} `{HostPlatform} `{HashOrder}.
Context `{Serde OperationRequest} `{Serde OperationReceipt} `{Serde DecisionTrace}.
Context `{Serde FencedLease} `{Serde ExecutionProfile} `{Serde Json}.
Context `{!SerdeLaws OperationRequest} `{!SerdeLaws OperationReceipt}.
Context (wl : string → string).
Local Abbreviation valid_request := (Refines.valid_request wl).
Local Abbreviation rt_inv := (Refines.rt_inv wl).
Local Abbreviation quiet := (Refines.quiet wl).
Local Abbreviation refines := (Refines.refines wl).

Definition all_ops (op : string) : Prop := True.

Lemma wp_refines {A} Q (m : M Runtime Halt A) s :
  refines Q m → rt_inv s → wp m (λ _, quiet Q s) (λ _, quiet Q s) s.
Proof. intros Hm Hi. specialize (Hm s Hi). unfold wp. by destruct (m s) as [[?|?] ?]. Qed.

(** A successful acquisition holds its lease. *)
Definition holds (fenced : FencedLease) (s : Runtime) : Prop :=
  is_Some (leases (rt_leases s) !! rl_lease_id (fl_lease fenced)).

Lemma acquire_held x r s : wp (acquire x r) (λ res, holds res.1.1) (λ _ _, True) s.
Proof.
  assert (∀ A (m : M Runtime Halt A) e (Q : FencedLease * DecisionTrace * string → Runtime → Prop)
    s1, wp (_ ← m; throw (Failed_ e)) Q (λ _ _, True) s1) as Hthrow.
  { intros A m e Q s1. apply wp_bind. unfold wp. by destruct (m s1) as [[?|?] ?]. }
  unfold acquire. destruct (admit_workload _ _ _); [|by apply wp_throw..].
  destruct (place_with_trace _ _ _) as [[d|] trace]; apply wp_bind; [|by apply wp_throw].
  unfold wp at 1, lift. simpl. apply wp_bind, wp_on_x; [intros _ x1|done]. apply wp_bind.
  unfold wp at 1, on_leases, zoom, map_err_M. simpl.
  destruct (grant_fenced _ _ _) as [[fenced|e] m'] eqn:Hg; simpl; [|done].
  apply grant_fenced_Ok in Hg as (-> & m1 & Hins & -> & _).
  apply grant_insert_Ok in Hins as (_ & -> & _).
  match goal with |- context [set_rt_leases ?m ?s1] => set (sg := set_rt_leases m s1) end.
  assert (is_Some (leases (rt_leases sg) !! gi_uuid (ri_grant x))) as Hh.
  { unfold leases. simpl. rewrite lookup_insert_eq. eauto. }
  clearbody sg. apply wp_bind, wp_settle_on_x; [intros [[]|e] x2|done]; [|apply Hthrow].
  apply wp_bind. unfold wp at 1, gets. case_match; [apply Hthrow|].
  apply wp_bind, wp_settle. unfold wp at 1, active_insert. simpl.
  destruct (lock (rt_active sg)); simpl; [by apply wp_ret|apply Hthrow].
Qed.

(** Storage and encoding failures are not worth a retry. *)
Definition grave {A} (res : result KernelError A) : Prop :=
  match res with Ok _ => True | Err e => kernel_error_retryable e = false end.
Definition graves (b : option KernelError) : Prop :=
  match b with Some e => kernel_error_retryable e = false | None => True end.

Lemma graves_overwrite {A} b (res : result KernelError A) :
  graves b → grave res → graves (overwrite b res).
Proof. by destruct res. Qed.
Lemma graves_insert {A} b (res : result KernelError A) :
  graves b → grave res → graves (get_or_insert b res).
Proof. by destruct b, res. Qed.

Lemma append_grave `{Serde T} io r t obj ph (payload : T) key
    (Q : result KernelError unit → Runtime → Prop) R s :
  (∀ res x', grave res → Q res (set_rt_x x' s)) →
  wp (settle (on_x (exec_append io r t obj ph payload key))) Q R s.
Proof.
  intros HQ. apply wp_settle. unfold wp, on_x, zoom, exec_append.
  destruct (to_vec payload); [|by apply HQ]. by destruct (append _ _ _) as [[?|?] ?]; apply HQ.
Qed.

Lemma profile_grave x p (Q : result KernelError Z → Runtime → Prop) R s :
  (∀ res x', grave res → Q res (set_rt_x x' s)) → wp (settle (record_profile_rt x p)) Q R s.
Proof.
  intros HQ. apply wp_settle. unfold wp, record_profile_rt, on_x, zoom, map_err_M.
  by destruct (record_profile _ _ _ _) as [[?|?] ?]; apply HQ.
Qed.

(** After a successful execution only such failures are left. *)
Lemma finish_grave x r b fenced trace device rc s :
  unpoisoned s → holds fenced s →
  wp (finish x r b fenced trace device (Ok rc)) (λ _ _, True)
     (λ h _, ∀ e, h = Failed_ e → kernel_error_retryable e = false) s.
Proof.
  intros [(Hl1 & Hl2 & Hl3) Ha] [l Hh]. unfold finish.
  apply wp_bind, profile_grave. intros p x1 Hp. apply wp_bind, wp_settle.
  unfold wp at 1, active_remove, lock. simpl. rewrite Ha. apply wp_bind, wp_ret.
  cbn [final_phase]. apply wp_bind, append_grave. intros w x2 Hw. apply wp_bind, wp_settle.
  unfold wp at 1, on_leases, zoom, map_err_M, release, lock_or_error, lock. simpl.
  unfold leases in Hh. rewrite Hl1. simpl. rewrite Hh. simpl. rewrite Hl2. simpl.
  apply wp_bind, trigger_wp; [|done]. apply wp_bind, append_grave. intros d x3 Hd.
  assert (graves (get_or_insert (get_or_insert (get_or_insert (overwrite None p) w)
    (@Ok KernelError unit tt)) d)) as Hg
    by (apply graves_insert; [apply graves_insert; [apply graves_insert;
          [by apply graves_overwrite|done]|done]|done]).
  simpl in Hg. destruct (get_or_insert (get_or_insert _ _) d) as [e|]; simpl in *; [|done].
  by intros e' [= <-].
Qed.

(** A failure that is worth a retry leaves the operation uncommitted. *)
Lemma execute_internal_retry x b r s :
  let op := rq_operation_id r in
  rt_inv s → valid_request r → no_mark MCommit op (rt_x s) →
  wp (execute_internal x b r) (λ _ _, True)
    (λ h s', ∀ e, h = Failed_ e → kernel_error_retryable e = true →
       no_mark MCommit op (rt_x s')) s.
Proof.
  intros op Hi Hr Hno. unfold execute_internal. apply wp_bind. unfold wp at 1, lift.
  destruct (validate_sensitive_references r) as [[]|]; simpl; [|by intros].
  apply wp_bind. unfold wp at 1, gets. case_decide; [by intros ? ?|].
  apply wp_bind. unfold wp at 1, on_x, zoom, committed_receipt.
  destruct (read_workload _ _ _) as [es|]; simpl; [|by intros ? ?].
  destruct (latest_receipt _ _) as [rc|].
  { apply wp_bind. unfold wp at 1, latest_decision_trace.
    destruct (read_from _ _ _); simpl; [done|by intros ? ?]. }
  rewrite set_rt_x_id. apply wp_bind.
  eapply wp_mono; [apply wp_and; [apply (wp_refines all_ops), Hi; apply refines_acquire
                                 |apply acquire_held]| |].
  2:{ intros h s1 [Hq _] e _ _. by apply Hq. }
  intros [[fenced trace] device] s1 [Hq Hh].
  pose proof (quiet_inv _ _ _ _ Hq Hi) as [Hi1 Hu1].
  assert (no_mark MCommit op (rt_x s1)) as Hno1 by (by apply Hq).
  apply wp_bind, wp_settle. unfold wp at 1, on_x, zoom.
  destruct (execute_cancellable (ri_exec x) r (rt_x s1)) as [res x2] eqn:Hx.
  pose proof (wp_elim _ _ _ _ _ _ (execute_wp wl plain_request (ri_exec x) r _ Hi1 Hr) Hx) as Hw.
  destruct res as [rc|[e|p]]; [| |done].
  - eapply wp_mono; [by apply finish_grave|done|].
    intros h s2 Hg e He Hre. specialize (Hg e He). congruence.
  - assert (rt_inv (set_rt_x x2 s1)) as Hi2 by (split; [apply Hw|done]).
    eapply wp_mono; [apply (wp_refines all_ops), Hi2; by apply refines_finish|done|].
    intros h s2 Hq2 e' _ _. apply Hq2; [done|]. by eapply st_failed.
Qed.

(** ** The records of a failover *)

Lemma refines_candidate_outcome Q io r provider phase reason :
  clashes (":" +:+ phase) = false →
  refines Q (record_candidate_outcome io r provider phase reason).
Proof. intros Hc. apply refines_append; [done|by apply candidate_outcome_key_foreign]. Qed.

Lemma rebind_entry r b :
  valid_request r → to_vec r = Some b →
  rebinding wl plain_request (operation_entry r Intent "Operation" "REBOUND" b
    (Some (rebind_key (rq_operation_id r) (sn_provider_revision (rq_snapshot r))))).
Proof.
  intros Hr Hb. destruct (rebind_key_foreign (rq_operation_id r) _ (proj2 Hr)) as [Hm Hk].
  split; simpl; try done.
  - exists r. by rewrite (from_to_vec _ _ Hb).
  - intros k op E%Some_inj. by apply (Hm k op).
  - intros op E%Some_inj. by apply (Hk op).
Qed.

(** Recording the rebound intent of an operation that is not committed. *)
Lemma rebind_intent_wp Q io r s :
  let op := rq_operation_id r in
  let m := on_x (exec_append io r Intent "Operation" "REBOUND" r
                   (Some (rebind_key op (sn_provider_revision (rq_snapshot r))))) in
  (∀ op', Q op' → op ≠ op') → valid_request r → no_mark MCommit op (rt_x s) →
  quiet Q s (m s).2 ∧ no_mark MCommit op (rt_x (m s).2).
Proof.
  intros op m HQ Hr Hno. unfold m, on_x, zoom.
  set (key := rebind_key op (sn_provider_revision (rq_snapshot r))).
  assert (∀ op', no_mark MCommit op' (rt_x s) → no_mark MCommit op'
    (exec_append io r Intent "Operation" "REBOUND" r (Some key) (rt_x s)).2) as Hmark.
  { intros op'. apply (exec_append_no_mark wl plain_request). by left. }
  assert (∀ op', Q op' → not_pending op' (rt_x s) → not_pending op'
    (exec_append io r Intent "Operation" "REBOUND" r (Some key) (rt_x s)).2) as Hpend.
  { intros op' Hop. apply (exec_append_not_pending wl plain_request). right; right.
    intros b q Hb. rewrite (from_to_vec _ _ Hb). intros [= <-]. by apply HQ. }
  assert (rtc (estep wl plain_request) (rt_x s)
    (exec_append io r Intent "Operation" "REBOUND" r (Some key) (rt_x s)).2) as Hsteps.
  { unfold exec_append. destruct (to_vec r) as [b|] eqn:Hb; [|apply rtc_refl]. apply rtc_once.
    pose proof (ERebind wl plain_request io
      (operation_entry r Intent "Operation" "REBOUND" b (Some key)) (rt_x s)
      (rebind_entry r b Hr Hb)) as Hstep.
    assert (u64_ok 1) as Hg by (unfold u64_ok, u64_max; lia).
    destruct (append io _ _) as [[?|?] j']; simpl in *; by apply Hstep. }
  destruct (exec_append _ _ _ _ _ _ _ _) as [res x']. simpl in *.
  split; [split; [exact Hsteps|done|auto..]|auto].
Qed.

(** What holds whenever a step of a plan goes on: a history that concerns no
    other operation, after which the step's operation is still open. *)
Definition open_after (Q : string → Prop) (op : string) (s s' : Runtime) : Prop :=
  quiet Q s s' ∧ no_mark MCommit op (rt_x s').

Lemma open_after_refines {A} Q op (m : M Runtime Halt A) s s1 :
  refines Q m → refines all_ops m → rt_inv s → open_after Q op s s1 →
  wp m (λ _, open_after Q op s) (λ _, quiet Q s) s1.
Proof.
  intros Hm Ha Hi [Hq Hno]. pose proof (quiet_inv _ _ _ _ Hq Hi) as Hi1.
  eapply wp_mono; [apply wp_and; [by apply (wp_refines Q)|by apply (wp_refines all_ops)]| |].
  - intros a s2 [Hq2 Ha2]. split; [by etrans|]. by apply Ha2.
  - intros h s2 [Hq2 _]. by etrans.
Qed.

Lemma rebind_if_failed_wp Q c step r to_provider report st s s1 :
  let op := rq_operation_id r in
  (∀ op', Q op' → op ≠ op') → valid_request r → rt_inv s → open_after Q op s s1 →
  wp (rebind_if_failed c step r to_provider report st)
     (λ _, open_after Q op s) (λ _, quiet Q s) s1.
Proof.
  intros op HQ Hr Hi Ho. unfold rebind_if_failed. destruct (at_failure st) as [[from e]|];
    [|by apply wp_ret].
  apply wp_bind. unfold record_rebind. apply wp_bind.
  destruct (rebind_intent_wp Q (ci_rebind_intent c) r s1 HQ Hr (proj2 Ho)) as [Hq Hno].
  unfold wp at 1. destruct (on_x _ s1) as [[[]|h] s2]; simpl in *; [|etrans; [apply Ho|done]].
  assert (open_after Q op s s2) as Ho2 by (split; [by etrans; [apply Ho|]|done]).
  eapply wp_mono; [apply (open_after_refines Q op _ s s2); try done| |by intros].
  1,2: apply refines_append; [done|apply provider_rebind_key_foreign, Hr].
  intros u s3 Ho3. by apply wp_ret.
Qed.

(** ** One candidate *)

(** A step's outcome: still open, or committed with the receipt returned. *)
Definition done_with (Q : string → Prop) (plan : ContinuityPlan) (op : string)
    (ex : RuntimeExecution) (s s' : Runtime) : Prop :=
  quiet Q s s' ∧ has_mark MCommit op (re_receipt ex) (rt_x s') ∧
  re_workload_id ex = cpl_workload_id plan.

Lemma execute_candidate_wp Q x r s s1 :
  let op := rq_operation_id r in
  (∀ op', Q op' → op ≠ op') → valid_request r → rt_inv s → open_after Q op s s1 →
  wp (settle (execute_request x r))
    (λ res s', quiet Q s s' ∧
       match res with
       | Ok ex => has_mark MCommit op (re_receipt ex) (rt_x s') ∧
                  re_workload_id ex = rq_workload_id r
       | Err e => kernel_error_retryable e = true → no_mark MCommit op (rt_x s')
       end)
    (λ _, quiet Q s) s1.
Proof.
  intros op HQ Hr Hi [Hq Hno]. pose proof (quiet_inv _ _ _ _ Hq Hi) as Hi1. apply wp_settle.
  pose proof (refines_execute_internal wl Q x false r Hr HQ s1 Hi1) as Hx.
  pose proof (execute_internal_retry x false r s1 Hi1 Hr Hno) as Hf.
  pose proof (λ ex s2, execute_internal_commits wl x false r s1 ex s2 Hi1 Hr) as Hc.
  unfold wp, execute_request in *.
  destruct (execute_internal x false r s1) as [[ex|[e|p]] s2]; simpl in *.
  - split; [by etrans|]. by apply Hc.
  - split; [by etrans|]. by apply Hf.
  - by etrans.
Qed.

Lemma validate_candidate_Ok plan step_id op r m u :
  validate_continuity_candidate plan step_id op r m = Ok u →
  rq_workload_id r = cpl_workload_id plan ∧ rq_step_id r = step_id ∧ rq_operation_id r = op.
Proof.
  unfold validate_continuity_candidate. case_decide as Hd; [done|]. case_decide; [done|].
  intros _. by split_and!; apply dec_stable; tauto.
Qed.

Lemma outcome_then {B} Q op io r provider phase reason (k : unit → M Runtime Halt B) P s s1 :
  clashes (":" +:+ phase) = false → rt_inv s → open_after Q op s s1 →
  (∀ s2, open_after Q op s s2 → wp (k tt) P (λ _, quiet Q s) s2) →
  wp (record_candidate_outcome io r provider phase reason ≫= k) P (λ _, quiet Q s) s1.
Proof.
  intros Hc Hi Ho Hk. apply wp_bind. eapply wp_mono;
    [apply (open_after_refines Q op _ s); [by apply refines_candidate_outcome..|done|done]| |].
  - intros [] s2 Ho2. by apply Hk.
  - by intros.
Qed.

Lemma try_candidate_wp Q c plan step op cand st s s1 :
  (∀ op', Q op' → op ≠ op') → valid_request (fc_request cand) → rt_inv s →
  open_after Q op s s1 →
  wp (try_candidate c plan step op cand st)
    (λ next s', match next with
                | inl _ => open_after Q op s s'
                | inr (ex, _) => done_with Q plan op ex s s'
                end)
    (λ _, quiet Q s) s1.
Proof.
  intros HQ Hr Hi Ho. unfold try_candidate. apply (outcome_then Q op); [done..|].
  clear s1 Ho. intros s1 Ho. apply wp_bind. unfold wp at 1, lift.
  destruct (validate_continuity_candidate _ _ _ _ _) as [[]|] eqn:Hv; simpl; [|apply Ho].
  apply validate_candidate_Ok in Hv as (Hw & _ & <-).
  destruct (effective_capabilities c cand) as [caps|e].
  2:{ destruct (kernel_error_retryable e); [|apply Ho].
      by apply (outcome_then Q (rq_operation_id (fc_request cand))). }
  cbv zeta. destruct (gate_closed _ _).
  { by apply (outcome_then Q (rq_operation_id (fc_request cand))). }
  apply wp_bind. eapply wp_mono; [by apply (rebind_if_failed_wp Q _ _ _ _ _ _ s)| |by intros].
  intros st1 s3 Ho3. apply wp_bind.
  eapply wp_mono; [by apply (execute_candidate_wp Q _ _ s)| |by intros].
  intros [ex|e] s4 [Hq4 Hres].
  - apply wp_ret. split; [done|]. by rewrite <-Hw.
  - destruct (kernel_error_retryable e); [|exact Hq4].
    apply (outcome_then Q (rq_operation_id (fc_request cand))); try done.
    split; [done|by apply Hres].
Qed.

(** ** Steps and plans *)

Definition valid_step (step : ContinuityStep) : Prop :=
  Forall (λ cand, valid_request (fc_request cand)) (cs_candidates step).
Definition valid_plan (plan : ContinuityPlan) : Prop := Forall valid_step (cpl_steps plan).

(** The operation of a step: that of its first candidate. *)
Definition step_op (step : ContinuityStep) : option string :=
  rq_operation_id ∘ fc_request <$> head (cs_candidates step).

Lemma candidates_loop_wp Q c plan step op i cands st s s1 :
  (∀ op', Q op' → op ≠ op') → Forall (λ cand, valid_request (fc_request cand)) cands →
  rt_inv s → open_after Q op s s1 →
  wp (candidates_loop c plan step op i cands st)
    (λ res s', match res.1 with
               | Some ex => done_with Q plan op ex s s'
               | None => open_after Q op s s'
               end)
    (λ _, quiet Q s) s1.
Proof.
  intros HQ Hv Hi. revert i st s1. induction Hv as [|cand cands Hr Hv IH]; intros i st s1 Ho;
    cbn [candidates_loop]; [by apply wp_ret|].
  apply wp_bind. eapply wp_mono; [by apply (try_candidate_wp Q _ _ _ _ _ _ s)| |by intros].
  intros [st1|[ex st1]] s2 Hs2; [by apply IH|by apply wp_ret].
Qed.

(** The step is committed with the receipt of [ex]. *)
Definition step_done (plan : ContinuityPlan) (s : Runtime) (step : ContinuityStep)
    (ex : RuntimeExecution) : Prop :=
  re_workload_id ex = cpl_workload_id plan ∧
  ∃ op, step_op step = Some op ∧ has_mark MCommit op (re_receipt ex) (rt_x s).

Lemma step_done_quiet Q plan s s' step ex :
  rt_inv s → quiet Q s s' → step_done plan s step ex → step_done plan s' step ex.
Proof.
  intros Hi Hq (Hw & op & Hop & Hm). split; [done|]. exists op. split; [done|].
  eapply (has_mark_extends wl plain_request); [|exact Hm].
  apply (esteps_extends wl plain_request); [apply Hq|apply Hi].
Qed.

Lemma run_step_wp Q y plan step fo s :
  (∀ op op', step_op step = Some op → Q op' → op ≠ op') → valid_step step → rt_inv s →
  wp (run_step y plan step fo)
    (λ res s', quiet Q s s' ∧ step_done plan s' step res.1) (λ _, quiet Q s) s.
Proof.
  intros HQ Hv Hi. unfold run_step, step_done, step_op in *.
  destruct (cs_candidates step) as [|first rest] eqn:Hc; [apply wp_throw; reflexivity|].
  unfold valid_step in Hv. rewrite Hc in Hv. pose proof Hv as [Hr _]%Forall_cons.
  apply wp_bind. unfold wp at 1, on_x, zoom.
  destruct (committed_receipt (si_committed y) (fc_request first) (rt_x s)) as [o x1] eqn:Hcr.
  assert (x1 = rt_x s) as ->.
  { unfold committed_receipt in Hcr. by destruct (read_workload _ _ _); simplify_eq/=. }
  rewrite set_rt_x_id. destruct o as [o|h]; [|reflexivity].
  apply (read_mark_wp wl plain_request _ _ MCommit) in Hcr as [_ Ho]; [|apply Hi|exact Hr].
  destruct o as [receipt|].
  { apply wp_ret. split; [reflexivity|]. by eauto. }
  apply wp_bind. eapply wp_mono; [apply (candidates_loop_wp Q _ _ _ _ _ _ _ s); try done| |by intros].
  - intros op'. by apply HQ.
  - intros [[ex|] st] s1 Hs1; [|apply wp_throw, Hs1]. destruct Hs1 as (Hq & Hm & Hw).
    apply wp_ret. split; [done|]. by eauto.
Qed.

Lemma steps_loop_wp Q y plan i steps completed fo s :
  (∀ step op op', step ∈ steps → step_op step = Some op → Q op' → op ≠ op') →
  Forall valid_step steps → rt_inv s →
  wp (steps_loop y plan i steps completed fo)
    (λ res s', quiet Q s s' ∧ ∃ exs, res.1 = completed ++ exs ∧
       Forall2 (step_done plan s') steps exs)
    (λ _, quiet Q s) s.
Proof.
  intros HQ Hv. revert i completed fo s HQ.
  induction Hv as [|step steps Hs Hv IH]; intros i completed fo s HQ Hi; cbn [steps_loop].
  { apply wp_ret. split; [reflexivity|]. exists []. split; [by rewrite app_nil_r|constructor]. }
  apply wp_bind. eapply wp_mono; [apply (run_step_wp Q); [|done|done]| |by intros].
  { intros op op'. apply HQ. by left. }
  intros [ex fo1] s1 [Hq Hd]. pose proof (quiet_inv _ _ _ _ Hq Hi) as Hi1.
  eapply wp_mono; [apply IH; [|done]| |].
  - intros step' op op' Hin. apply HQ. by right.
  - intros res s2 [Hq2 (exs & -> & Hall)]. split; [by etrans|].
    exists (ex :: exs). split; [by rewrite <-app_assoc|].
    constructor; [by eapply step_done_quiet|done].
  - intros h s2 Hq2. by etrans.
Qed.

(** A plan commits its operations and concerns no other. *)
Lemma plan_wp Q y plan s :
  (∀ step op op', step ∈ cpl_steps plan → step_op step = Some op → Q op' → op ≠ op') →
  valid_plan plan → rt_inv s →
  wp (execute_continuously y plan)
    (λ res s', quiet Q s s' ∧ Forall2 (step_done plan s') (cpl_steps plan) (ce_completed_steps res) ∧
       ce_workload_id res = cpl_workload_id plan ∧
       ce_process_identity res = cpl_process_identity plan)
    (λ _, quiet Q s) s.
Proof.
  intros HQ Hv Hi. unfold execute_continuously. case_decide; [apply wp_throw; reflexivity|].
  apply wp_bind. eapply wp_mono; [by apply (steps_loop_wp Q)| |by intros].
  intros [completed fo] s' [Hq (exs & Hexs & Hall)]. simpl in Hexs. subst. by apply wp_ret.
Qed.

Lemma refines_plan y plan : valid_plan plan → refines no_ops (execute_continuously y plan).
Proof.
  intros Hv s Hi. pose proof (plan_wp no_ops y plan s ltac:(by intros) Hv Hi) as Hw.
  unfold wp in Hw. destruct (execute_continuously y plan s) as [[?|?] ?]; simpl; [apply Hw|done].
Qed.
End Continuity.

(** ** What the failover records say *)

Section Failovers.
Context `{JournalEnv} `{TextPlatform} `{FloatPlatform} `{HostPlatform} `{HashOrder}.
Context `{Serde OperationRequest} `{Serde OperationReceipt} `{Serde DecisionTrace}.
Context `{Serde FencedLease} `{Serde ExecutionProfile} `{Serde Json}.

(** A failover names a step of the plan, leaves one of its candidates for a
    retryable failure, and goes to a provider that passed the step's gate. *)
Definition failover_ok (plan : ContinuityPlan) (f : FailoverRecord) : Prop :=
  ∃ step cand e, step ∈ cpl_steps plan ∧ cand ∈ cs_candidates step ∧
    fr_step_id f = cs_step_id step ∧
    fr_from_provider f = mm_provider (fc_capabilities cand) ∧
    fr_failure_code f = kernel_error_code e ∧ kernel_error_retryable e = true ∧
    (cp_classification (fr_compatibility f) = Rebindable ∨
     cp_classification (fr_compatibility f) = Degraded ∧ cs_allow_degraded step = true).

Definition attempt_ok (plan : ContinuityPlan) (step : ContinuityStep) (st : Attempt) : Prop :=
  (∀ from e, at_failure st = Some (from, e) → kernel_error_retryable e = true ∧
     ∃ cand, cand ∈ cs_candidates step ∧ from = mm_provider (fc_capabilities cand)) ∧
  Forall (failover_ok plan) (at_failovers st).

Lemma attempt_ok_failure plan step cand e st :
  cand ∈ cs_candidates step → kernel_error_retryable e = true → attempt_ok plan step st →
  attempt_ok plan step (note_failure (mm_provider (fc_capabilities cand)) e st).
Proof. intros Hc He [_ Hf]. split; [|done]. intros from e' [= <- <-]. eauto. Qed.

Lemma rebind_attempt_ok c plan step r to_provider report st s :
  step ∈ cpl_steps plan → gate_closed step report = false → attempt_ok plan step st →
  wp (rebind_if_failed c step r to_provider (rebound_report st report) st)
     (λ st', λ _, attempt_ok plan step st') (λ _ _, True) s.
Proof.
  intros Hin Hg [Hf Hall]. unfold rebind_if_failed, rebound_report.
  destruct (at_failure st) as [[from e]|] eqn:Hst; 
    [|apply wp_ret; split; [congruence|done]].
  destruct (Hf _ _ eq_refl) as (He & cand & Hc & Hfrom).
  apply wp_bind, wp_any; [intros u s1|done]. apply wp_ret.
  split; simpl; [intros ? ? [= <- <-]; eauto|].
  apply Forall_app. split; [done|]. apply Forall_singleton. exists step, cand, e.
  split_and!; try done. unfold gate_closed in Hg. rewrite orb_false_iff, andb_false_iff in Hg.
  rewrite !bool_decide_eq_false, negb_false_iff in Hg. case_decide; simpl; [by left|].
  destruct (cp_classification report); naive_solver.
Qed.

Lemma try_candidate_failovers c plan step op cand st s :
  step ∈ cpl_steps plan → cand ∈ cs_candidates step → attempt_ok plan step st →
  wp (try_candidate c plan step op cand st)
     (λ next _, attempt_ok plan step (match next with inl st' => st' | inr (_, st') => st' end))
     (λ _ _, True) s.
Proof.
  intros Hs Hc Hst. unfold try_candidate. apply wp_bind, wp_any; [intros _ s1|done].
  apply wp_bind. unfold wp at 1, lift. destruct (validate_continuity_candidate _ _ _ _ _); [|done].
  destruct (effective_capabilities c cand) as [caps|e]; simpl.
  2:{ destruct (kernel_error_retryable e) eqn:He; [|done]. apply wp_bind, wp_any; [|done].
      intros _ s2. by apply wp_ret, attempt_ok_failure. }
  destruct (gate_closed _ _) eqn:Hg.
  { apply wp_bind, wp_any; [|done]. intros _ s2. by apply wp_ret. }
  apply wp_bind. eapply wp_mono; [by apply (rebind_attempt_ok c plan)| |done].
  intros st1 s2 Hst1. apply wp_bind, wp_any; [|done]. intros [ex|e] s3; [by apply wp_ret|].
  destruct (kernel_error_retryable e) eqn:He; [|done]. apply wp_bind, wp_any; [|done].
  intros _ s4. by apply wp_ret, attempt_ok_failure.
Qed.

Lemma candidates_loop_failovers c plan step op i cands st s :
  step ∈ cpl_steps plan → cands ⊆ cs_candidates step → attempt_ok plan step st →
  wp (candidates_loop c plan step op i cands st) (λ res _, attempt_ok plan step res.2)
     (λ _ _, True) s.
Proof.
  intros Hs. revert i st s. induction cands as [|cand cands IH]; intros i st s Hsub Hst;
    cbn [candidates_loop]; [by apply wp_ret|].
  apply wp_bind. eapply wp_mono; [apply try_candidate_failovers; [done| |done]| |done].
  { apply Hsub. by left. }
  intros [st1|[ex st1]] s1 Hst1; [|by apply wp_ret]. apply IH; [|done].
  intros cand' Hin. apply Hsub. by right.
Qed.

Lemma steps_loop_failovers y plan i steps completed fo s :
  steps ⊆ cpl_steps plan → Forall (failover_ok plan) fo →
  wp (steps_loop y plan i steps completed fo) (λ res _, Forall (failover_ok plan) res.2)
     (λ _ _, True) s.
Proof.
  revert i completed fo s. induction steps as [|step steps IH]; intros i completed fo s Hsub Hfo;
    cbn [steps_loop]; [by apply wp_ret|].
  apply wp_bind. apply (wp_mono _ (λ res _, Forall (failover_ok plan) res.2) _ (λ _ _, True)); [| |done].
  2:{ intros [ex fo1] s1 Hfo1. apply IH; [|done]. intros step' Hin. apply Hsub. by right. }
  unfold run_step. destruct (cs_candidates step) as [|first rest] eqn:Hc; [done|].
  apply wp_bind, wp_any; [|done]. intros [receipt|] s1; [by apply wp_ret|].
  apply wp_bind. eapply wp_mono; [apply (candidates_loop_failovers _ plan step)| |done].
  - apply Hsub. by left.
  - by rewrite Hc.
  - by split.
  - intros [[ex|] st] s2 [_ Hst]; [by apply wp_ret|by apply wp_throw].
Qed.

(** Every failover a plan reports names a step of the plan, was made after a
    retryable failure of one of that step's candidates, and went to a provider
    that passed the compatibility gate: it is reported as rebindable, or as
    degraded where the step allows that. *)
Theorem plan_failovers_sound y plan s res s' :
  execute_continuously y plan s = (Ok res, s') → Forall (failover_ok plan) (ce_failovers res).
Proof.
  intros He. unfold execute_continuously in He. case_decide; [done|].
  apply M_bind_inv_ok in He as ([completed fo] & s1 & Hl & [= <- _]). simpl.
  by apply (wp_elim _ _ _ _ _ _
    (steps_loop_failovers y plan 0 (cpl_steps plan) [] [] s (reflexivity _) (Forall_nil_2 _)) Hl).
Qed.
End Failovers.

(** ** Concrete runs *)

#[local] Existing Instances rq_serde rc_serde fl_serde json_serde rq_serde_laws rc_serde_laws
  fl_serde_laws json_serde_laws trace_serde profile_serde ex_host ex_env ex_text ex_platform
  key_order.

(** A step with two candidates; the provider of the first is down. *)
Definition ex_rev (op rev : string) : OperationRequest :=
  mkRequest op "w" "s" "reference" PRC_Reference "m" "" "" "" "in" Idempotent
    (mkSnapshot "" rev "" "" "" "" "" "") 10.
Definition ex_manifest (provider : string) : ModelCapabilityManifest :=
  mkManifest 1 provider "reference" "m" PRC_Reference Supported Supported Supported Supported
    Supported Supported Supported Supported Supported (Some 8192) true LocalOnly None None 0.
Definition ex_step (op : string) : ContinuityStep :=
  mkStep "s" (mkRequirements true false false false false false false 0 false) false
    [mkFailover (ex_rev op "p1") (ex_manifest "p1"); mkFailover (ex_rev op "p2") (ex_manifest "p2")].
Definition ex_plan : ContinuityPlan := mkPlan "w" "proc" [ex_step "op"].

Definition ex_down (t : Z) (id : string) : RunIo :=
  mkRunIo ex_io ex_io 0 ex_io (mkGrantIo t t t id) ex_io t ex_fail 0 0 ex_io 0
    ex_io ex_io ex_io ex_io.
Definition ex_candidate (x : RunIo) : CandidateIo :=
  mkCandidateIo ex_io (λ _, Err (KProvider "")) ex_io ex_io ex_io ex_io x ex_io.
Definition ex_plan_io (_ : nat) : StepIo :=
  mkStepIo ex_io (λ n, ex_candidate
    match n with O => ex_down 1 "l1" | _ => ex_run 2 "l2" None end).
Definition ex_planned : Runtime := (execute_continuously ex_plan_io ex_plan ex_rt0).2.
Definition ex_plan_result : ContinuityExecution :=
  match (execute_continuously ex_plan_io ex_plan ex_rt0).1 with
  | Ok res => res
  | Err _ => mkContinuityExecution "" "" [] []
  end.

(** The first candidate fails, the second completes the step under the same
    operation: two calls, one commit, one failover. *)
Example failover_completes_step :
  (execute_continuously ex_plan_io ex_plan ex_rt0).1 = Ok ex_plan_result ∧
  re_receipt <$> ce_completed_steps ex_plan_result = [ex_rc "op"] ∧
  ((λ f, (fr_from_provider f, fr_to_provider f)) <$> ce_failovers ex_plan_result) = [("p1", "p2")] ∧
  x_calls (rt_x ex_planned) = ["op"; "op"] ∧
  pending_operations ex_io (x_journal (rt_x ex_planned)) = Ok [].
Proof. vm_compute. done. Qed.

Lemma plan_failovers_sound_witness :
  Forall (failover_ok ex_plan) (ce_failovers ex_plan_result) ∧
  length (ce_failovers ex_plan_result) = 1%nat.
Proof.
  split; [|vm_compute; reflexivity].
  apply (plan_failovers_sound ex_plan_io ex_plan ex_rt0 ex_plan_result ex_planned).
  vm_compute. reflexivity.
Defined.
