(* ===== verification/History.v ===== *)
(** * Histories of the kernel runtime

    What holds of [KernelRuntime] ([Coordinator]) however it is used: every
    request, plan, cancellation, shutdown, recovery and restart is, for the
    journal and the provider, a history of the durable executor; from this follow
    replay, recovery, and what a crash between two records can do. *)

From S2P Require Import Prelude Errors Float64 Resource Workload Journal Semantic Lease.
From S2P Require Import Admission Policy Placement Provider Executor Coordinator Refines Continuity.
Local Open Scope Z_scope.

Section Histories.
Context `{JournalEnv} `{TextPlatform} `{FloatPlatform} `{HostPlatform} `{HashOrder}.
Context `{Serde OperationRequest} `{Serde OperationReceipt} `{Serde DecisionTrace}.
Context `{Serde FencedLease} `{Serde ExecutionProfile} `{Serde Json}.
Context `{!SerdeLaws OperationRequest} `{!SerdeLaws OperationReceipt}.
Context (wl : string → string).
Local Abbreviation valid_request := (Refines.valid_request wl).
Local Abbreviation rt_inv := (Refines.rt_inv wl).
Local Abbreviation quiet := (Refines.quiet wl).

(** Any use of the runtime by one caller after the other: executions of valid
    requests and plans ([Refines.valid_request]) in any environment, cancellations, shutdowns, recoveries, and restarts on the
    database left behind. *)
Inductive rstep : Runtime → Runtime → Prop :=
| RExecute x r s : valid_request r → rstep s (execute_request x r s).2
| RContinue y plan s : valid_plan wl plan → rstep s (execute_continuously y plan s).2
| RCancel io w s : rstep s (cancel io w s).2
| RShutdown s : rstep s (shutdown_begin s).2
| RRecover y s : rstep s (runtime_recover y s).2
| RRestart uuid k j s :
    open no_open_faults (inner (conn (x_journal (rt_x s)))) = Ok j →
    rstep s (runtime_new uuid k j (x_calls (rt_x s))).

Lemma rstep_quiet s s' : rstep s s' → rt_inv s → quiet no_ops s s'.
Proof.
  intros [x r s0 Hr|y plan s0 Hv|io w s0|s0|y s0|uuid k j s0 Ho] Hi.
  - by apply refines_execute_internal.
  - by apply refines_plan.
  - by apply refines_cancel.
  - by apply refines_shutdown.
  - by apply refines_recover.
  - split; [by apply rtc_once, ERestart|done|by intros ? []..].
Qed.

Lemma rsteps_quiet s s' : rtc rstep s s' → rt_inv s → quiet no_ops s s'.
Proof.
  induction 1 as [s|s1 s2 s3 Hs _ IH]; intros Hi; [reflexivity|].
  pose proof (rstep_quiet _ _ Hs Hi) as Hq. etrans; [exact Hq|]. by eapply IH, quiet_inv.
Qed.

Lemma runtime_reachable_inv uuid k s : rtc rstep (runtime_init uuid k) s → rt_inv s.
Proof.
  intros Hr. pose proof (runtime_init_inv wl uuid k) as Hi. by eapply quiet_inv; [apply rsteps_quiet|].
Qed.

(** The runtime refines the durable executor. However it is used (requests,
    plans, cancellations, shutdowns, recoveries, crashes and restarts, under any storage
    failures), its journal and the provider calls it makes are those of some
    history of the executor, so everything proved of such histories holds of the
    running kernel. *)
Theorem runtime_refines_executor uuid k s :
  rtc rstep (runtime_init uuid k) s → rtc (estep wl plain_request) exec_init (rt_x s).
Proof. intros Hr. apply (qt_steps wl _ _ _ (rsteps_quiet _ _ Hr (runtime_init_inv wl uuid k))). Qed.

(** ** Committed operations *)

(** Exactly one outcome per request. Once a request was executed
    successfully, then after any further use of the runtime, crashes and restarts
    included, executing it again returns the same receipt for the same workload
    and changes nothing: no provider call, no journal record, no lease. *)
Theorem runtime_replays_committed uuid k x y r s0 s1 s2 ex :
  rtc rstep (runtime_init uuid k) s0 → valid_request r →
  execute_request x r s0 = (Ok ex, s1) → rtc rstep s1 s2 →
  runtime_state s2 ≠ ShuttingDown →
  available_db (ri_committed y) (x_journal (rt_x s2)) →
  available_db (ri_trace y) (x_journal (rt_x s2)) →
  ∃ trace, execute_request y r s2 =
    (Ok (mkExecution (re_workload_id ex) (re_receipt ex) trace), s2).
Proof.
  intros Hr0 Hr He Hs Hst Hav1 Hav2. pose proof (runtime_reachable_inv _ _ _ Hr0) as Hi0.
  destruct (execute_internal_commits wl _ _ _ _ _ _ Hi0 Hr He) as [Hm Hw].
  assert (rt_inv s1) as Hi1.
  { pose proof (refines_execute_internal wl no_ops x false r Hr ltac:(done) s0 Hi0) as Hq.
    unfold execute_request in He. rewrite He in Hq. by eapply quiet_inv. }
  pose proof (rsteps_quiet _ _ Hs Hi1) as Hq.
  apply (has_mark_extends wl plain_request _ _ _ _ (rt_x s2)) in Hm;
    [|by apply (esteps_extends wl plain_request); [apply Hq|apply Hi1]].
  pose proof (proj1 (quiet_inv wl _ _ _ Hq Hi1)) as Hi2.
  unfold execute_request, execute_internal in *.
  apply M_bind_inv_ok in He as (u & s' & Hv & _). unfold lift in Hv.
  destruct (validate_sensitive_references r) as [[]|]; [|done]. simpl. unfold lift.
  erewrite M_bind_ok by reflexivity. erewrite M_bind_ok by reflexivity.
  rewrite decide_False by done.
  assert (committed_receipt (ri_committed y) r (rt_x s2) = (Ok (Some (re_receipt ex)), rt_x s2))
    as Hc.
  { unfold committed_receipt. rewrite read_workload_ok by (done || apply Hi2). simpl.
    rewrite (proj1 Hr).
    by rewrite (proj2 (latest_receipt_mark _ _ _ MCommit _ (re_receipt ex) Hi2) Hm). }
  erewrite M_bind_ok by (unfold on_x, zoom; rewrite Hc; by rewrite set_rt_x_id).
  eexists. erewrite M_bind_ok
    by (unfold latest_decision_trace; rewrite read_from_0 by (done || apply Hi2); reflexivity).
  rewrite Hw. reflexivity.
Qed.

(** The provider is never called again. Once an operation is committed, no
    use of the runtime, however long and with whatever crashes, restarts, plans
    and recoveries, calls the provider for it. *)
Theorem committed_never_called_again uuid k x r s0 s1 s2 ex :
  rtc rstep (runtime_init uuid k) s0 → valid_request r →
  execute_request x r s0 = (Ok ex, s1) → rtc rstep s1 s2 →
  ∃ calls, x_calls (rt_x s2) = calls ++ x_calls (rt_x s1) ∧ rq_operation_id r ∉ calls.
Proof.
  intros Hr0 Hr He Hs. pose proof (runtime_reachable_inv _ _ _ Hr0) as Hi0.
  destruct (execute_internal_commits wl _ _ _ _ _ _ Hi0 Hr He) as [Hm _].
  pose proof (rstep_quiet _ _ (RExecute x r s0 Hr) Hi0) as Hq. rewrite He in Hq.
  pose proof (quiet_inv wl _ _ _ Hq Hi0) as Hi1.
  eapply (esteps_calls wl plain_request); [apply (rsteps_quiet _ _ Hs Hi1)|apply Hi1|exact Hm].
Qed.

(** ** Plans *)

(** A step that is committed is answered from the journal. *)
Lemma run_step_replays y plan step fo s ex :
  rt_inv s → valid_step wl step → step_done plan s step ex →
  available_db (si_committed y) (x_journal (rt_x s)) →
  run_step y plan step fo s =
    (Ok (mkExecution (cpl_workload_id plan) (re_receipt ex) replay_trace, fo), s).
Proof.
  intros [Hi _] Hv (_ & op & Hop & Hm) Hav. unfold run_step, step_op, valid_step in *.
  destruct (cs_candidates step) as [|first rest]; [done|]. injection Hop as <-.
  apply Forall_cons in Hv as [[Hw _] _].
  assert (committed_receipt (si_committed y) (fc_request first) (rt_x s)
    = (Ok (Some (re_receipt ex)), rt_x s)) as Hc.
  { unfold committed_receipt. rewrite read_workload_ok by (done || apply Hi). simpl. rewrite Hw.
    by rewrite (proj2 (latest_receipt_mark _ _ _ MCommit _ (re_receipt ex) Hi) Hm). }
  erewrite M_bind_ok by (unfold on_x, zoom; rewrite Hc; by rewrite set_rt_x_id). done.
Qed.

Definition replayed (plan : ContinuityPlan) (ex : RuntimeExecution) : RuntimeExecution :=
  mkExecution (cpl_workload_id plan) (re_receipt ex) replay_trace.

Lemma steps_loop_replays y plan i steps exs completed fo s :
  rt_inv s → Forall (valid_step wl) steps → Forall2 (step_done plan s) steps exs →
  (∀ n, available_db (si_committed (y n)) (x_journal (rt_x s))) →
  steps_loop y plan i steps completed fo s =
    (Ok (completed ++ (replayed plan <$> exs), fo), s).
Proof.
  intros Hi Hv Hd Hav. revert i completed. induction Hd as [|step ex steps exs Hs Hd IH];
    intros i completed; cbn [steps_loop]; [by rewrite app_nil_r|].
  apply Forall_cons in Hv as [Hvs Hv].
  erewrite M_bind_ok by (by apply run_step_replays). cbv beta iota.
  rewrite IH by done. by rewrite <-app_assoc.
Qed.

(** C17: A completed plan is replayed. Calls are made one after the other, and all
    requests, those of the plans included, use each operation identifier under one
    workload and provider revisions that do not imitate a journal key
    ([valid_request]); the code checks neither. Once such a plan completed, then
    after any further use of the runtime, crashes and restarts included, executing
    it again with storage that answers reads returns the same receipts in the same
    order and changes nothing: no provider is probed or called and nothing is
    recorded. *)
Theorem plan_replayed uuid k y y' plan s0 s1 s2 res :
  rtc rstep (runtime_init uuid k) s0 → valid_plan wl plan →
  execute_continuously y plan s0 = (Ok res, s1) → rtc rstep s1 s2 →
  (∀ n, available_db (si_committed (y' n)) (x_journal (rt_x s2))) →
  execute_continuously y' plan s2 =
    (Ok (mkContinuityExecution (ce_workload_id res) (ce_process_identity res)
           (replayed plan <$> ce_completed_steps res) []), s2) ∧
  length (ce_completed_steps res) = length (cpl_steps plan).
Proof.
  intros Hr0 Hv He Hs Hav. pose proof (runtime_reachable_inv _ _ _ Hr0) as Hi0.
  pose proof (plan_wp wl no_ops y plan s0 ltac:(by intros) Hv Hi0) as Hw.
  destruct (wp_elim _ _ _ _ _ _ Hw He) as (Hq & Hall & -> & ->).
  pose proof (quiet_inv wl _ _ _ Hq Hi0) as Hi1.
  pose proof (rsteps_quiet _ _ Hs Hi1) as Hq2. split; [|by rewrite (Forall2_length _ _ _ Hall)].
  unfold execute_continuously in *. case_decide; [done|].
  erewrite M_bind_ok; [|apply (steps_loop_replays _ _ _ _ (ce_completed_steps res) []);
    [by eapply quiet_inv|done| |done]]; [done|].
  eapply Forall2_impl; [exact Hall|]. intros. by eapply step_done_quiet.
Qed.

(** ** Recovery *)

Lemma revoke_loop_pending io requests orphans s :
  pending_map (entries (x_journal (rt_x (revoke_loop io requests orphans s).2))) =
  pending_map (entries (x_journal (rt_x s))).
Proof.
  revert s. induction orphans as [|[id [w l]] rest IH]; intros s; [done|]. cbn [revoke_loop].
  unfold mbind, M_bind, lift. destruct (requests !! w) as [r|]; simpl; [|done].
  unfold on_x, zoom. destruct (exec_append _ _ _ _ _ _ _ _) as [res x'] eqn:Ha.
  apply (exec_append_cases wl plain_request) in Ha
    as [(e & -> & ->)|(b & _ & -> & [(-> & _)|(-> & _)])]; [done| |]; rewrite IH; [|done].
  simpl. by rewrite entries_push, pending_map_snoc.
Qed.

Lemma recover_loop_settles run rs s exs s' :
  rt_inv s → Forall valid_request rs → recover_loop run rs s = (Ok exs, s') →
  quiet no_ops s s' ∧
  (∀ op, not_pending op (rt_x s) → not_pending op (rt_x s')) ∧
  Forall2 (λ r ex, has_mark MCommit (rq_operation_id r) (re_receipt ex) (rt_x s')) rs exs.
Proof.
  intros Hi Hv. revert s exs Hi. induction Hv as [|r rs Hr Hv IH]; intros s exs Hi Hl.
  { injection Hl as <- <-. by split_and!; [reflexivity|done|constructor]. }
  cbn [recover_loop] in Hl. destruct (rq_delivery r); try done;
    apply M_bind_inv_ok in Hl as (ex & s1 & He & Hl);
    apply M_bind_inv_ok in Hl as (exs' & s2 & Hl & [= <- <-]).
  all: pose proof (refines_execute_internal wl (λ op, op ≠ rq_operation_id r)
         (run (rq_operation_id r)) true r Hr ltac:(congruence) s Hi) as Hq;
    rewrite He in Hq; simpl in Hq; pose proof (quiet_inv wl _ _ _ Hq Hi) as Hi1;
    destruct (execute_internal_commits wl _ _ _ _ _ _ Hi Hr He) as [Hm _];
    destruct (IH s1 exs' Hi1 Hl) as (Hq2 & Hp2 & Hall).
  all: split_and!; [|intros op Hp; apply Hp2|constructor; [|exact Hall]].
  1,4: etrans; [by eapply quiet_weaken; [|exact Hq]|exact Hq2].
  1,3: destruct (decide (op = rq_operation_id r)) as [->|Hne];
    [eapply committed_settled; [apply Hi1|done]|by apply (qt_pending wl _ _ _ Hq)].
  all: eapply (has_mark_extends wl plain_request); [|exact Hm].
  all: apply (esteps_extends wl plain_request); [apply Hq2|apply Hi1].
Qed.

(** What recovery does from any state of the runtime. *)
Lemma recover_settled y s exs s' :
  rt_inv s → runtime_recover y s = (Ok exs, s') →
  (∀ io, available_db io (x_journal (rt_x s')) →
     pending_operations io (x_journal (rt_x s')) = Ok []) ∧
  ∀ op r, pending_map (entries (x_journal (rt_x s))) !! op = Some r →
    ∃ ex, ex ∈ exs ∧ has_mark MCommit op (re_receipt ex) (rt_x s').
Proof.
  intros Hi Hrec.
  apply M_bind_inv_ok in Hrec as (u & s1 & Hrev & Hrec).
  apply M_bind_inv_ok in Hrec as (rs & s2 & Hp & Hl).
  assert (pending_map (entries (x_journal (rt_x s1))) = pending_map (entries (x_journal (rt_x s))))
    as Hsame.
  { unfold revoke_orphaned_leases in Hrev. destruct (read_from _ _ _) as [es|]; [|done].
    destruct (lease_scan es) as [requests active].
    pose proof (revoke_loop_pending (rv_revoke y) requests (hash_iter active) s) as Hpm.
    by rewrite Hrev in Hpm. }
  assert (rt_inv s1) as Hi1.
  { pose proof (refines_revoke wl no_ops (rv_lease_scan y) (rv_revoke y) s Hi) as Hx.
    rewrite Hrev in Hx. by eapply quiet_inv. }
  destruct (pending_operations _ _) as [rs'|] eqn:Hpo in Hp; simpl in Hp; [|done].
  injection Hp as -> ->.
  destruct (recover_loop_settles _ _ _ _ _ Hi1
    (pending_operations_valid wl _ _ _ (proj1 Hi1) Hpo) Hl) as (Hx & Hq & Hall).
  pose proof (pending_scan_spec wl _ _ _ (proj1 Hi1) Hpo) as Hin.
  assert (∀ op r, pending_map (entries (x_journal (rt_x s2))) !! op = Some r →
    ∃ ex, ex ∈ exs ∧ has_mark MCommit op (re_receipt ex) (rt_x s')) as Hdone.
  { intros op r Hop. pose proof (pending_map_keyed _ _ _ Hop) as Hk. subst op.
    apply Hin in Hop as [i Hi']%list_elem_of_lookup.
    destruct (Forall2_lookup_l _ _ _ _ _ Hall Hi') as (ex & Hex & Hm).
    exists ex. split; [by eapply list_elem_of_lookup_2|done]. }
  pose proof (proj1 (quiet_inv wl _ _ _ Hx Hi1)) as Hi3. split; [|by rewrite <-Hsame].
  intros io Hav. destruct (pending_operations_elem io _ (xi_ok _ _ _ Hi3) Hav) as (ps & -> & Hps).
  destruct ps as [|r ps]; [done|]. exfalso.
  assert (pending_map (entries (x_journal (rt_x s'))) !! rq_operation_id r = Some r) as Hpend
    by (apply Hps; left).
  destruct (pending_map (entries (x_journal (rt_x s2))) !! rq_operation_id r) as [q|] eqn:Hq2.
  - destruct (Hdone _ _ Hq2) as (ex & _ & Hm). pose proof (committed_settled wl _ _ _ Hi3 Hm) as Hn.
    unfold not_pending in Hn. congruence.
  - apply Hq in Hq2. unfold not_pending in Hq2. congruence.
Qed.

(** Recovery settles everything. If recovery returns, then every operation
    that was pending has a committed receipt, among those it returned, and no
    operation is pending any more. *)
Theorem recovery_settles_pending uuid k y s exs s' io :
  rtc rstep (runtime_init uuid k) s → runtime_recover y s = (Ok exs, s') →
  available_db io (x_journal (rt_x s')) →
  pending_operations io (x_journal (rt_x s')) = Ok [] ∧
  ∀ op r, pending_map (entries (x_journal (rt_x s))) !! op = Some r →
    ∃ ex, ex ∈ exs ∧ has_mark MCommit op (re_receipt ex) (rt_x s').
Proof.
  intros Hr Hrec Hav.
  destruct (recover_settled _ _ _ _ (runtime_reachable_inv _ _ _ Hr) Hrec) as [Hp Hc]. auto.
Qed.

End Histories.

(** ** A lease recorded before its intent *)

Section Orphans.
Context `{JournalEnv} `{TextPlatform} `{FloatPlatform} `{HostPlatform} `{HashOrder}.
Context `{Serde OperationRequest} `{Serde OperationReceipt} `{Serde DecisionTrace}.
Context `{Serde FencedLease} `{Serde ExecutionProfile} `{Serde Json}.
Context `{!SerdeLaws FencedLease}.

(** A document of distinct string members reads back with the same members, in
    whatever order. *)
Context (members_kept : ∀ fs b key, NoDup fs.*1 → Forall (λ f, ∃ s, f.2 = JStr s) fs →
  to_vec (JObj fs) = Some b →
  from_slice (T := Json) b ≫= json_str_field key = json_str_field key (JObj fs)).

(** The journal shows a lease as active and no request of its workload. *)
Definition blocked (id w : string) (j : Journal) : Prop :=
  (∃ l, (lease_scan (entries j)).2 !! id = Some (w, l)) ∧
  (lease_scan (entries j)).1 !! w = None.

Lemma lease_scan_snoc es e : lease_scan (es ++ [e]) = lease_scan_entry (lease_scan es) e.
Proof. unfold lease_scan. by rewrite foldl_app. Qed.

(** An append of the runtime either does nothing or adds its entry. *)
Lemma on_x_append_cases `{Serde T} io r t obj ph (payload : T) key s res s' :
  on_x (exec_append io r t obj ph payload (Some key)) s = (res, s') →
  (s' = s ∧ (res = Ok tt ∧ key_used (x_journal (rt_x s)) key ∨ ∃ e, res = Err (Failed_ e))) ∨
  (res = Ok tt ∧ ∃ b seq now, to_vec payload = Some b ∧
     entries (x_journal (rt_x s')) = entries (x_journal (rt_x s))
       ++ [finalize seq now (operation_entry r t obj ph b (Some key))] ∧
     (journal_ok (x_journal (rt_x s)) → journal_ok (x_journal (rt_x s')))).
Proof.
  unfold on_x, zoom. destruct (exec_append _ _ _ _ _ _ _ _) as [r0 x'] eqn:Ha. intros [= <- <-].
  apply (exec_append_cases (λ _, "") (λ _, True)) in Ha
    as [(e & -> & ->)|(b & Hb & -> & [(-> & Hn & Hk)|(-> & Hk)])].
  - left. rewrite set_rt_x_id. eauto.
  - right. split; [done|]. eexists b, _, _. split_and!; [done|apply entries_push|].
    assert (u64_ok 1) as Hg by (unfold u64_ok, u64_max; lia).
    intros Hok. apply push_ok; [done|exact Hg|done|]. by intros k [= <-].
  - left. rewrite set_rt_x_id. eauto.
Qed.

(** A revocation of another lease leaves the blocked one as it is. *)
Lemma revoke_loop_blocked io requests orphans id w l s :
  requests !! w = None → (id, (w, l)) ∈ orphans → NoDup orphans.*1 →
  journal_ok (x_journal (rt_x s)) → blocked id w (x_journal (rt_x s)) →
  ∃ e s', revoke_loop io requests orphans s = (Err (Failed_ e), s') ∧
    blocked id w (x_journal (rt_x s')).
Proof.
  intros Hw. revert s. induction orphans as [|[id' [w' l']] rest IH]; intros s Hin Hnd Hok Hb.
  { by apply not_elem_of_nil in Hin. }
  apply NoDup_cons in Hnd as [Hnin Hnd]. cbn [revoke_loop]. unfold mbind, M_bind, lift.
  destruct (requests !! w') as [r|] eqn:Hw'; simpl; [|by eauto].
  apply elem_of_cons in Hin as [[= <- <- <-]|Hin]; [congruence|].
  destruct (on_x _ s) as [[[]|h] s1] eqn:Ha; apply on_x_append_cases in Ha
    as [[-> Hres]|(? & b & seq & now & Hv & Hent & Hok1)].
  - by apply IH.
  - apply IH; [done|done|by apply Hok1|].
    assert (id' ≠ id) as Hne by (intros ->; apply Hnin, list_elem_of_fmap; by exists (id, (w, l))).
    unfold blocked. rewrite Hent, lease_scan_snoc. unfold lease_scan_entry.
    destruct (lease_scan (entries (x_journal (rt_x s)))) as [rqs act] eqn:Hsc. simpl.
    erewrite members_kept; [| | |exact Hv];
      [simpl|apply (bool_decide_unpack _); by vm_compute|repeat constructor; eauto]. destruct Hb as [[l0 Hl0] Hr0]. rewrite Hsc in Hl0, Hr0.
    split; [exists l0; by rewrite lookup_delete_ne|done].
  - destruct Hres as [[? _]|[e [= ->]]]; [done|]. eauto.
  - done.
Qed.

Lemma schedule_grant_keys op op' id : schedule_key op ≠ lease_grant_key op' id.
Proof.
  unfold schedule_key, lease_grant_key, op_key. rewrite <-!string_app_assoc.
  by intros [?|?]%app_eq_ends.
Qed.

(** The state an execution reaches before its intent is recorded. *)
Lemma acquire_blocked x r s fenced trace device s1 :
  (lease_scan (entries (x_journal (rt_x s)))).1 !! rq_workload_id r = None →
  ¬ key_used (x_journal (rt_x s)) (lease_grant_key (rq_operation_id r) (gi_uuid (ri_grant x))) →
  acquire x r s = (Ok (fenced, trace, device), s1) →
  blocked (rl_lease_id (fl_lease fenced)) (rq_workload_id r) (x_journal (rt_x s1)).
Proof.
  intros Hnone Hfresh Ha. unfold acquire in Ha. destruct (admit_workload _ _ _); [|done..].
  destruct (place_with_trace _ _ _) as [placed tr].
  apply M_bind_inv_ok in Ha as (d & s2 & Hl & Ha). unfold lift in Hl. injection Hl as _ <-.
  apply M_bind_inv_ok in Ha as ([] & s3 & Hsch & Ha).
  assert ((lease_scan (entries (x_journal (rt_x s3)))).1 !! rq_workload_id r = None ∧
    ¬ key_used (x_journal (rt_x s3))
        (lease_grant_key (rq_operation_id r) (gi_uuid (ri_grant x)))) as [Hnone3 Hfresh3].
  { apply on_x_append_cases in Hsch as [[-> _]|(_ & b & seq & now & _ & Hent & _)]; [done|].
    rewrite Hent, lease_scan_snoc. split.
    - unfold lease_scan_entry. by destruct (lease_scan _).
    - rewrite key_used_entry, Hent. intros (e & He & Hk).
      apply elem_of_app in He as [He| ->%list_elem_of_singleton].
      + apply Hfresh, key_used_entry. eauto.
      + apply Some_inj in Hk. by apply schedule_grant_keys in Hk. }
  apply M_bind_inv_ok in Ha as (fl & s4 & Hgr & Ha).
  unfold on_leases, zoom, map_err_M in Hgr.
  destruct (grant_fenced _ _ _) as [[fl'|] m'] eqn:Hg; simpl in Hgr; [|done].
  injection Hgr as -> <-. apply grant_fenced_Ok in Hg as (Hfl & _).
  apply M_bind_inv_ok in Ha as (rec & s5 & Hrec & Ha).
  destruct rec as [[]|e]; [|by apply M_bind_inv_ok in Ha as (? & ? & _ & ?)].
  apply (proj1 (settle_Ok _ _ _ _)) in Hrec.
  apply M_bind_inv_ok in Ha as (m & s6 & Hgets & Ha). injection Hgets as _ <-.
  destruct (negb _); [by apply M_bind_inv_ok in Ha as (? & ? & _ & ?)|].
  apply M_bind_inv_ok in Ha as (ins & s7 & Hins & Ha).
  destruct ins as [[]|e]; [|by apply M_bind_inv_ok in Ha as (? & ? & _ & ?)].
  apply (proj1 (settle_Ok _ _ _ _)) in Hins. unfold active_insert in Hins.
  destruct (lock (rt_active s5)); [|done]. injection Hins as <-. injection Ha as <- _ _ <-.
  apply on_x_append_cases in Hrec as [[_ [[_ Hused]|[e [=]]]]|(_ & b & seq & now & Hv & Hent & _)].
  { rewrite Hfl in Hused. done. }
  unfold blocked. simpl. rewrite Hent, lease_scan_snoc. unfold lease_scan_entry. simpl.
  destruct (lease_scan (entries (x_journal (rt_x s3)))) as [rqs act]. simpl.
  rewrite (from_to_vec _ _ Hv). simpl. split; [exists fl; apply lookup_insert_eq|exact Hnone3].
Qed.

(** A crash between the lease and the intent is fatal. The lease of an
    execution is recorded before its intent; if the process stops in between and
    no other request of the workload is on record, then every recovery made on
    that journal fails, and leaves it in the same condition: the kernel cannot
    start again. *)
Theorem lease_before_intent_blocks_recovery :
  (∀ x r s fenced trace device s1,
     (lease_scan (entries (x_journal (rt_x s)))).1 !! rq_workload_id r = None →
     ¬ key_used (x_journal (rt_x s))
         (lease_grant_key (rq_operation_id r) (gi_uuid (ri_grant x))) →
     acquire x r s = (Ok (fenced, trace, device), s1) →
     blocked (rl_lease_id (fl_lease fenced)) (rq_workload_id r) (x_journal (rt_x s1))) ∧
  (∀ y s id w,
     journal_ok (x_journal (rt_x s)) → blocked id w (x_journal (rt_x s)) →
     available_db (rv_lease_scan y) (x_journal (rt_x s)) →
     ∃ e s', runtime_recover y s = (Err (Failed_ e), s') ∧ blocked id w (x_journal (rt_x s'))).
Proof.
  split; [intros *; apply acquire_blocked|]. intros y s id w Hok Hb Hav.
  unfold runtime_recover, mbind, M_bind, revoke_orphaned_leases.
  rewrite read_from_0 by done. pose proof Hb as [[l Hl] Hr].
  destruct (lease_scan _) as [requests act] eqn:Hsc. simpl in *.
  destruct (revoke_loop_blocked (rv_revoke y) requests (hash_iter act) id w l s)
    as (e & s' & -> & Hb'); try done.
  - by apply elem_of_hash_iter.
  - apply hash_iter_NoDup.
  - eauto.
Qed.
End Orphans.

(** ** Concrete runs *)

#[local] Existing Instances rq_serde rc_serde fl_serde json_serde rq_serde_laws rc_serde_laws
  fl_serde_laws json_serde_laws trace_serde profile_serde ex_host ex_env ex_text ex_platform
  key_order.

Lemma ex_valid : valid_request ex_wl (ex_req "op" "w").
Proof. by split. Qed.

Lemma ex_rt1_reachable : rtc (rstep ex_wl) ex_rt0 ex_rt1.
Proof. apply rtc_once, RExecute, ex_valid. Qed.

Lemma runtime_refines_executor_witness :
  rtc (estep ex_wl plain_request) exec_init (rt_x ex_rt1) ∧ x_calls (rt_x ex_rt1) = ["op"].
Proof.
  split; [|vm_compute; reflexivity].
  apply (runtime_refines_executor ex_wl "u" Ready ex_rt1). apply ex_rt1_reachable.
Defined.

Lemma runtime_replays_committed_witness :
  ∃ trace, execute_request (ex_run 9 "l2" None) (ex_req "op" "w") ex_rt1 =
    (Ok (mkExecution "w" (ex_rc "op") trace), ex_rt1).
Proof.
  apply (runtime_replays_committed ex_wl "u" Ready (ex_run 1 "l1" None) (ex_run 9 "l2" None)
    (ex_req "op" "w") ex_rt0 ex_rt1 ex_rt1
    (mkExecution "w" (ex_rc "op")
       (place_with_trace SchedulerCoreConfig_default (workload_for (ex_req "op" "w"))
          [reference_node (ex_req "op" "w")]).2)).
  - apply rtc_refl.
  - apply ex_valid.
  - vm_compute. reflexivity.
  - apply rtc_refl.
  - vm_compute. discriminate.
  - vm_compute. split; reflexivity.
  - vm_compute. split; reflexivity.
Defined.

Lemma committed_never_called_again_witness :
  ∃ calls, x_calls (rt_x (execute_request (ex_run 9 "l2" None) (ex_req "op2" "w") ex_rt1).2)
    = calls ++ x_calls (rt_x ex_rt1) ∧ "op" ∉ calls.
Proof.
  eapply (committed_never_called_again ex_wl "u" Ready (ex_run 1 "l1" None) (ex_req "op" "w")
    ex_rt0 ex_rt1).
  - apply rtc_refl.
  - apply ex_valid.
  - vm_compute. reflexivity.
  - apply rtc_once, RExecute. by split.
Defined.

Lemma ex_plan_valid : valid_plan ex_wl ex_plan.
Proof. repeat constructor. Qed.

Lemma plan_replayed_witness :
  execute_continuously ex_plan_io ex_plan ex_planned =
    (Ok (mkContinuityExecution "w" "proc" [mkExecution "w" (ex_rc "op") replay_trace] []),
     ex_planned).
Proof.
  destruct (plan_replayed ex_wl "u" Ready ex_plan_io ex_plan_io ex_plan ex_rt0 ex_planned ex_planned
    ex_plan_result) as [Hp _].
  - apply rtc_refl.
  - apply ex_plan_valid.
  - vm_compute. reflexivity.
  - apply rtc_refl.
  - intros n. vm_compute. split; reflexivity.
  - etrans; [exact Hp|]. vm_compute. reflexivity.
Defined.

(** The process dies after the provider was called, and is started again. *)
Definition ex_crashed : Runtime :=
  (execute_request (ex_run 1 "l1" (Some EffectAfterExecute)) (ex_req "op" "w") ex_rt0).2.
Definition reopened (j : Journal) : Journal :=
  default j (result_ok (open no_open_faults (inner (conn j)))).
Definition ex_restarted : Runtime :=
  runtime_new "u2" Ready (reopened (x_journal (rt_x ex_crashed))) (x_calls (rt_x ex_crashed)).

Lemma ex_restarted_reachable : rtc (rstep ex_wl) ex_rt0 ex_restarted.
Proof.
  eapply rtc_l; [apply (RExecute _ (ex_run 1 "l1" (Some EffectAfterExecute)) (ex_req "op" "w")),
    ex_valid|].
  apply rtc_once.
  apply (RRestart _ "u2" Ready (reopened (x_journal (rt_x ex_crashed))) ex_crashed).
  vm_compute. reflexivity.
Qed.

Lemma recovery_settles_pending_witness :
  ∃ exs s', runtime_recover ex_recover ex_restarted = (Ok exs, s') ∧
    re_receipt <$> exs = [ex_rc "op"] ∧
    pending_operations ex_io (x_journal (rt_x ex_restarted)) = Ok [ex_req "op" "w"] ∧
    pending_operations ex_io (x_journal (rt_x s')) = Ok [].
Proof.
  eexists _, _. split; [vm_compute; reflexivity|].
  split; [vm_compute; reflexivity|]. split; [vm_compute; reflexivity|].
  eapply (recovery_settles_pending ex_wl "u" Ready ex_recover ex_restarted).
  - apply ex_restarted_reachable.
  - vm_compute. reflexivity.
  - vm_compute. split; reflexivity.
Defined.

(** The kernel stops after the lease was recorded; on restart, recovery fails. *)
Example recovery_blocked :
  let s1 := (acquire (ex_run 1 "l1" None) (ex_req "op" "w") ex_rt0).2 in
  let s2 := runtime_new "u2" Ready (reopened (x_journal (rt_x s1))) [] in
  (runtime_recover ex_recover s2).1 =
    Err (Failed_ (KJournal "orphaned lease l1 has no durable operation intent")) ∧
  entries (x_journal (rt_x (runtime_recover ex_recover s2).2)) = entries (x_journal (rt_x s1)).
Proof. vm_compute. done. Qed.

Lemma lease_before_intent_blocks_recovery_witness :
  let s1 := (acquire (ex_run 1 "l1" None) (ex_req "op" "w") ex_rt0).2 in
  ∃ id, blocked id "w" (x_journal (rt_x s1)) ∧
    ∃ e s2, runtime_recover ex_recover s1 = (Err (Failed_ e), s2) ∧
      blocked id "w" (x_journal (rt_x s2)).
Proof.
  intros s1. destruct lease_before_intent_blocks_recovery as [Hacq Hrec].
  { intros fs b key _ _ Hb. by rewrite (json_serde_laws _ _ Hb). }
  destruct (acquire (ex_run 1 "l1" None) (ex_req "op" "w") ex_rt0)
    as [[[[fenced trace] device]|h] s1'] eqn:E; [|vm_compute in E; discriminate].
  assert (blocked (rl_lease_id (fl_lease fenced)) "w" (x_journal (rt_x s1))) as Hb.
  { eapply (Hacq (ex_run 1 "l1" None) (ex_req "op" "w") ex_rt0 fenced trace device s1');
      [vm_compute; reflexivity| |exact E].
    intros Hk%key_used_entry. destruct Hk as (e & He & _). by apply not_elem_of_nil in He. }
  exists (rl_lease_id (fl_lease fenced)). split; [exact Hb|]. apply Hrec; [|exact Hb|].
  - pose proof (refines_acquire ex_wl no_ops (ex_run 1 "l1" None) (ex_req "op" "w") ex_rt0
      (runtime_init_inv _ _ _)) as Hx.
    rewrite E in Hx. apply (quiet_inv _ _ _ _ Hx), runtime_init_inv.
  - assert (s1' = (acquire (ex_run 1 "l1" None) (ex_req "op" "w") ex_rt0).2) as Hs by (by rewrite E).
    unfold s1. simpl. rewrite Hs. vm_compute. split; reflexivity.
Defined.
