(* ===== verification/Daemon.v ===== *)
(** * The daemon

    [daemon/nousd/src/main.rs], [dispatch_request]: what each method of the
    kernel interface does to the runtime, the journal it shares with the
    extension handlers, and the catalog. Payloads are the values behind the JSON
    the daemon renders. *)

From S2P Require Import Prelude Errors Float64 Journal Lease Policy Placement Semantic Provider Contracts Nki.
From S2P Require Import Extensions Intelligence ControlPlane Executor Coordinator Refines Continuity History.
Local Open Scope Z_scope.

(** ** State *)

Record Daemon : Type := mkDaemon {
  dd_runtime : Runtime;
  dd_integrity : Mutex (list Z);
  dd_catalog : Catalog
}.
Definition set_dd_runtime (s : Runtime) (d : Daemon) : Daemon :=
  mkDaemon s (dd_integrity d) (dd_catalog d).
Definition set_dd_integrity (l : Mutex (list Z)) (d : Daemon) : Daemon :=
  mkDaemon (dd_runtime d) l (dd_catalog d).
Definition set_dd_catalog (c : Catalog) (d : Daemon) : Daemon :=
  mkDaemon (dd_runtime d) (dd_integrity d) c.

(** The journal is the runtime's. *)
Definition daemon_journal (d : Daemon) : Journal := x_journal (rt_x (dd_runtime d)).
Definition set_daemon_journal (j : Journal) (d : Daemon) : Daemon :=
  set_dd_runtime (set_rt_x (mkX j (x_calls (rt_x (dd_runtime d)))) (dd_runtime d)) d.

(** A dispatch ends without an outcome when an error is propagated, which closes
    the connection, or when the process dies. *)
Inductive Ending : Type := Dropped (text : string) | Died (p : FaultPoint).

Inductive Payload : Type :=
| PHealth (state : KernelState) (journal_sequence heartbeat_us : Z)
| PExecution (x : RuntimeExecution)
| PExtension (x : ExtensionPayload)
| PContinuity (x : ContinuityExecution)
| PWorkload (p : ExecutionProfile)
| PWorkloads (l : list ExecutionProfile)
| PAsset (a : ControlAsset)
| PModelValid (id version sha256 : string)
| PAssets (l : list ControlAsset)
| PDeleted (kind : AssetKind) (id : string)
| PMetrics (journal_sequence : Z) (corrupted : list Z) (verified : bool) (active profiles : Z)
| PProbe (r : ProviderProbeReport)
| PExplain (workload_id : option string) (trace : option DecisionTrace) (journal_sequence : Z)
| PCancelled (workload_id operation_id : string).

Abbreviation Arm := (M Daemon Ending (NKIOutcome Payload)).

(** What the environment does during a dispatch. *)
Record DispatchIo : Type := mkDispatchIo {
  di_now : Z;
  di_run : RunIo;
  di_plan : nat → StepIo;
  di_probe : ProviderProbeRequest → result KernelError ProviderProbeReport;
  di_status : result string string;
  di_read : Io;
  di_write : Io;
  di_catalog_read : CatalogIo;
  di_catalog : CatalogIo
}.

(** [kernel_error] and [control_error]. *)
Definition kernel_error {P} (e : KernelError) : NKIOutcome P :=
  Error_ (mkNkiError (kernel_error_code e) (kernel_error_text e) (kernel_error_category e)
            (source_component e) (kernel_error_retryable e)
            (if kernel_error_retryable e then 250 else 0)).
Definition control_error {P} (e : ControlPlaneError) : NKIOutcome P :=
  nki_error match e with
            | CInvalid _ => "CONTROL_INVALID"
            | CNotFound _ _ => "CONTROL_NOT_FOUND"
            | CConflict _ => "CONTROL_CONFLICT"
            | CStorage _ => "CONTROL_STORAGE"
            end (control_error_text e) false.

(** The time left to a request, in whole milliseconds rounded up, and the
    timeout of its operation. *)
Definition remaining_ms (now deadline_us : Z) : Z :=
  sat_add64 (Z.max (sat_i64 (deadline_us - now)) 1) 999 / 1000.
Definition set_timeout (t : Z) (r : OperationRequest) : OperationRequest :=
  mkRequest (rq_operation_id r) (rq_workload_id r) (rq_step_id r) (rq_backend r)
    (rq_execution_domain r) (rq_model r) (rq_endpoint r) (rq_credential_env r)
    (rq_provider_entrypoint r) (rq_input r) (rq_delivery r) (rq_snapshot r) t.
Definition within_deadline (now deadline_us : Z) (r : OperationRequest) : OperationRequest :=
  if 0 <? deadline_us
  then set_timeout (Z.min (Z.max (rq_timeout_ms r) 1) (remaining_ms now deadline_us)) r else r.

Section Dispatch.
Context `{JournalEnv} `{TextPlatform} `{FloatPlatform} `{HostPlatform} `{HashOrder}.
Context `{Serde OperationRequest} `{Serde OperationReceipt} `{Serde DecisionTrace}.
Context `{Serde FencedLease} `{Serde ExecutionProfile} `{Serde Json}.
Context `{Serde ExtensionAdmissionRequest} `{Serde ExtensionAuthorizationRequest}
  `{Serde ExtensionExecutionRequest} `{Serde ExtensionRevocationRequest}
  `{Serde ExtensionAdmissionDecision} `{Serde ExtensionExecutionPermit}
  `{Serde AdmissionMaterial} `{Serde AuthorizationMaterial} `{Serde ExecutionMaterial}
  `{Serde RevocationMaterial}.
Context `{Serde Value} `{FromValue ProjectManifest} `{FromValue ModelProfile}
  `{FromValue ModelSpec} `{FromValue IntelligenceGraph} `{FromValue DatasetManifest}
  `{FromValue ExperimentManifest} `{FromValue (Contract ArtifactFields)} `{FromValue AssetSelector}.
Context `{Serde ContinuityPlan} `{Serde PutAssetRequest} `{Serde AssetSelector}
  `{Serde ListAssetsRequest} `{Serde ProviderProbeRequest}.

(** A call of the runtime, a handler on the journal, and a read whose error is
    propagated. *)
Definition on_runtime {A} (m : M Runtime Halt A) (ok : A → Payload) : Arm := λ d,
  match m (dd_runtime d) with
  | (Ok a, s) => (Ok (Success (ok a)), set_dd_runtime s d)
  | (Err (Failed_ e), s) => (Ok (kernel_error e), set_dd_runtime s d)
  | (Err (Crashed p), s) => (Err (Died p), set_dd_runtime s d)
  end.
Definition on_extensions (h : Handler) : Arm := λ d,
  match h (daemon_journal d) with
  | (Ok (Success x), j) => (Ok (Success (PExtension x)), set_daemon_journal j d)
  | (Ok (Error_ e), j) => (Ok (Error_ e), set_daemon_journal j d)
  | (Err text, j) => (Err (Dropped text), set_daemon_journal j d)
  end.
Definition propagated {E A} (text : E → string) (f : Daemon → result E A) : M Daemon Ending A := λ d,
  (map_err (λ e, Dropped (text e)) (f d), d).
Definition sequence_now : M Daemon Ending Z :=
  propagated nous_error_to_string (λ d, current_sequence (daemon_journal d)).
Definition profiles_now (io : Io) : M Daemon Ending (list ExecutionProfile) :=
  propagated nous_error_to_string (λ d, list_profiles io (daemon_journal d)).

(** [serde_json::from_slice::<Value>(..)?]: a payload that is no JSON ends the
    dispatch. *)
Definition json_payload (q : NKIRequest) : M Daemon Ending Value :=
  match from_slice (nk_payload q) with
  | Some v => mret v
  | None => throw (Dropped (@from_slice_text Value _ (nk_payload q)))
  end.
(** A typed payload, answered with an error when it does not decode. *)
Definition typed_payload {T} `{Serde T} (code : string) (q : NKIRequest) (k : T → Arm) : Arm :=
  match from_slice (nk_payload q) with
  | Some x => k x
  | None => mret (nki_error code (@from_slice_text T _ (nk_payload q)) false)
  end.
Definition on_catalog {A} (m : M Catalog ControlPlaneError A) (ok : A → Payload) : Arm := λ d,
  match m (dd_catalog d) with
  | (Ok a, c) => (Ok (Success (ok a)), set_dd_catalog c d)
  | (Err e, c) => (Ok (control_error e), set_dd_catalog c d)
  end.
Definition read_catalog {A} (f : Catalog → result ControlPlaneError A) (ok : A → Payload) : Arm :=
  on_catalog (λ c, (f c, c)) ok.

(** [BootCore::integrity_failures]. *)
Definition integrity_failures (io : Io) (status : result string string) (verify : bool) :
    M Daemon KernelError (list Z) := λ d,
  if verify then
    match verify_integrity io status (daemon_journal d) with
    | Err e => (Err (journal_error e), d)
    | Ok corrupted =>
        match lock (dd_integrity d) with
        | None => (Err (KJournal "integrity cache lock is poisoned"), d)
        | Some _ => (Ok corrupted, set_dd_integrity (mutex_set corrupted (dd_integrity d)) d)
        end
    end
  else (ok_or (lock (dd_integrity d)) (KJournal "integrity cache lock is poisoned"), d).

(** ** The arms *)

Definition health_check (io : DispatchIo) : Arm :=
  state ← gets (λ d, runtime_state (dd_runtime d));
  sequence ← sequence_now;
  mret (Success (PHealth state sequence (di_now io))).

Definition submit_workload (io : DispatchIo) (q : NKIRequest) : Arm :=
  typed_payload "INVALID_OPERATION" q (λ r,
    on_runtime (execute_request (di_run io) (within_deadline (di_now io) (nk_deadline_us q) r))
      PExecution).

Definition submit_continuity_plan (io : DispatchIo) (q : NKIRequest) : Arm :=
  typed_payload "INVALID_CONTINUITY_PLAN" q (λ plan,
    on_runtime (execute_continuously (di_plan io) plan) PContinuity).

Definition get_workload (io : DispatchIo) (q : NKIRequest) : Arm :=
  payload ← json_payload q;
  match value_get payload "workload_id" ≫= value_as_str with
  | None => mret (nki_error "INVALID_WORKLOAD_QUERY" "workload_id is required" false)
  | Some w =>
      profiles ← profiles_now (di_read io);
      match list_find (λ p, ep_workload_id p = w) (reverse profiles) with
      | Some (_, p) => mret (Success (PWorkload p))
      | None => mret (nki_error "WORKLOAD_NOT_FOUND" w false)
      end
  end.

Definition list_workloads (io : DispatchIo) (q : NKIRequest) : Arm :=
  payload ← json_payload q;
  profiles ← profiles_now (di_read io);
  let limit := Z.min (default 100 (value_get payload "limit" ≫= value_as_u64)) 1000 in
  mret (Success (PWorkloads (take (Z.to_nat limit) (reverse profiles)))).

Definition register_model (io : DispatchIo) (q : NKIRequest) : Arm :=
  payload ← json_payload q;
  on_catalog (catalog_put (di_catalog io)
    (mkPut 1 AK_Model (default payload (value_get payload "model"))
       (value_get payload "expected_generation" ≫= value_as_u64))) PAsset.
Definition validate_model_request (q : NKIRequest) : Arm :=
  payload ← json_payload q;
  read_catalog (λ _, catalog_validate AK_Model (default payload (value_get payload "model")))
    (λ a, PModelValid a.1.1 a.1.2 a.2).
Definition put_control_asset (io : DispatchIo) (q : NKIRequest) : Arm :=
  typed_payload "INVALID_CONTROL_ASSET" q (λ r, on_catalog (catalog_put (di_catalog io) r) PAsset).
Definition get_control_asset (io : DispatchIo) (q : NKIRequest) : Arm :=
  typed_payload "INVALID_CONTROL_QUERY" q (λ sel,
    read_catalog (λ c, catalog_get (di_catalog_read io) c sel) PAsset).
Definition list_control_assets (io : DispatchIo) (q : NKIRequest) : Arm :=
  typed_payload "INVALID_CONTROL_QUERY" q (λ r,
    read_catalog (λ c, catalog_list (di_catalog_read io) c r) PAssets).
Definition delete_control_asset (io : DispatchIo) (q : NKIRequest) : Arm :=
  payload ← json_payload q;
  match value_get payload "selector" ≫= from_value,
        value_get payload "expected_generation" ≫= value_as_u64 with
  | Some sel, Some generation =>
      on_catalog (catalog_delete (di_catalog_read io) (di_catalog io) sel generation)
        (λ _, PDeleted (as_kind sel) (as_id sel))
  | _, _ => mret (nki_error "INVALID_CONTROL_DELETE"
                    "selector and expected_generation are required" false)
  end.

Definition get_metrics (io : DispatchIo) (q : NKIRequest) : Arm :=
  payload ← json_payload q;
  let verify := default false (value_get payload "verify_integrity" ≫= value_as_bool) in
  sequence ← sequence_now;
  corrupted ← map_err_M (λ e, Dropped (kernel_error_text e))
                (integrity_failures (di_read io) (di_status io) verify);
  active ← propagated kernel_error_text (λ d, runtime_active_count (dd_runtime d));
  profiles ← propagated nous_error_to_string
               (λ d, count_object_type (di_read io) (daemon_journal d) "ExecutionProfile");
  mret (Success (PMetrics sequence corrupted verify active profiles)).

Definition probe_engine (io : DispatchIo) (q : NKIRequest) : Arm :=
  typed_payload "INVALID_PROVIDER_PROBE" q (λ r,
    mret (match probe_provider (di_probe io) r with
          | Ok report => Success (PProbe report)
          | Err e => kernel_error e
          end)).

Definition explain_execution (io : DispatchIo) (q : NKIRequest) : Arm :=
  payload ← json_payload q;
  let workload := value_get payload "workload_id" ≫= value_as_str in
  trace ← (λ d, match (match workload with
                       | Some w => latest_decision_trace_for_workload (di_read io) w
                       | None => latest_decision_trace_any (di_read io)
                       end) (dd_runtime d) with
                | (Ok t, s) => (Ok t, set_dd_runtime s d)
                | (Err (Failed_ e), s) => (Err (Dropped (kernel_error_text e)), set_dd_runtime s d)
                | (Err (Crashed p), s) => (Err (Died p), set_dd_runtime s d)
                end);
  sequence ← sequence_now;
  mret (Success (PExplain workload trace sequence)).

Definition cancel_workload (io : DispatchIo) (q : NKIRequest) : Arm :=
  payload ← json_payload q;
  match value_get payload "workload_id" ≫= value_as_str with
  | Some w => on_runtime (cancel (di_write io) w) (PCancelled w)
  | None => mret (nki_error "INVALID_CANCELLATION" "workload_id is required" false)
  end.

(** [dispatch_request]. *)
Definition arms (io : DispatchIo) (q : NKIRequest) : list (string * Arm) :=
  [("HealthCheck", health_check io);
   ("SubmitWorkload", submit_workload io q);
   ("AdmitExtension", on_extensions (admit_extension (di_write io) q));
   ("AuthorizeExtension", on_extensions (authorize_extension (di_read io) (di_write io) q));
   ("AuthorizeExtensionExecution",
     on_extensions (permit_execution (di_read io) (di_write io) (di_now io) q));
   ("RevokeExtension", on_extensions (revoke_extension (di_read io) (di_write io) q));
   ("SubmitContinuityPlan", submit_continuity_plan io q);
   ("GetWorkload", get_workload io q);
   ("ListWorkloads", list_workloads io q);
   ("RegisterModel", register_model io q);
   ("ValidateModel", validate_model_request q);
   ("PutControlAsset", put_control_asset io q);
   ("GetControlAsset", get_control_asset io q);
   ("ListControlAssets", list_control_assets io q);
   ("DeleteControlAsset", delete_control_asset io q);
   ("GetMetrics", get_metrics io q);
   ("ProbeEngine", probe_engine io q);
   ("ExplainExecution", explain_execution io q);
   ("CancelWorkload", cancel_workload io q)].
Definition dispatch_request (io : DispatchIo) (q : NKIRequest) : Arm :=
  match list_find (λ p, p.1 = nk_method q) (arms io q) with
  | Some (_, (_, arm)) => arm
  | None => mret (nki_error "METHOD_NOT_SUPPORTED" (nk_method q) false)
  end.
End Dispatch.

(** [NKIMethods::is_valid]. *)
Definition nki_methods : list string :=
  ["SubmitWorkload"; "SubmitContinuityPlan"; "GetWorkload"; "ListWorkloads"; "CancelWorkload";
   "PauseWorkload"; "ResumeWorkload"; "AdmitWorkload"; "AdmitExtension"; "AuthorizeExtension";
   "AuthorizeExtensionExecution"; "RevokeExtension"; "ReserveResources"; "ReleaseResources";
   "RegisterModel"; "ValidateModel"; "LoadModel"; "UnloadModel"; "PutControlAsset";
   "GetControlAsset"; "ListControlAssets"; "DeleteControlAsset"; "RegisterEngine"; "ProbeEngine";
   "ListEngines"; "RegisterDevice"; "ProbeDevice"; "ListDevices"; "CreateCheckpoint";
   "RestoreCheckpoint"; "WatchEvents"; "GetTrace"; "GetMetrics"; "ExplainExecution"; "HealthCheck";
   "RenewLease"].
Definition method_is_valid (m : string) : bool := bool_decide (m ∈ nki_methods).

(** ** Extension handlers add at most one record of their own *)

Definition extension_record (e : JournalEntry) : Prop :=
  je_object_type e ∈ extension_types ∧ je_entry_type e = Commit ∧
  (∃ k, je_idempotency_key e = Some ("extension:" +:+ k)) ∧ entry_wf e.

Definition records_only `{JournalEnv} {A} (h : M Journal string A) : Prop :=
  ∀ j, (h j).2 = j ∨ ∃ io e, (h j).2 = (append io e j).2 ∧ extension_record e.

Lemma records_ret `{JournalEnv} {A} (a : A) : records_only (mret a).
Proof. intros j. by left. Qed.
Lemma records_encoded `{JournalEnv} {T A} `{Serde T} (x : T) (f : bytes → M Journal string A) :
  (∀ b, records_only (f b)) → records_only (b ← encoded x; f b).
Proof. intros Hf j. rewrite encoded_bind. destruct (to_vec x) as [b|]; [apply Hf|by left]. Qed.
Lemma records_append `{JournalEnv} {A} io e (a : A) :
  extension_record e → records_only (_ ← ext_append io e; mret a).
Proof.
  intros He j. right. exists io, e. split; [|done]. unfold mbind, M_bind, ext_append, map_err_M.
  by destruct (append io e j) as [[?|?] j'].
Qed.
Lemma records_read `{JournalEnv} {A} io id (f : list JournalEntry → M Journal string A) :
  (∀ es, records_only (f es)) → records_only (es ← ext_read io id; f es).
Proof.
  intros Hf j. unfold mbind, M_bind, ext_read.
  destruct (read_workload io j _); simpl; [apply Hf|by left].
Qed.

Lemma extension_entry_record q id digest t oid previous phase g payload what key :
  t ∈ extension_types → u64_ok g →
  extension_record (extension_entry q id digest t oid previous phase g payload
                      (extension_key id digest what key)).
Proof. intros Ht Hg. split_and!; [done|done|by eexists|done]. Qed.

Ltac records_auto :=
  repeat first
    [ apply records_ret
    | apply records_encoded; intros ?
    | apply records_read; intros ?
    | apply records_append, extension_entry_record; [set_solver|by vm_compute]
    | progress cbv zeta
    | case_match ].

Section Handlers.
Context `{JournalEnv} `{Serde ExtensionAdmissionRequest} `{Serde ExtensionAuthorizationRequest}
  `{Serde ExtensionExecutionRequest} `{Serde ExtensionRevocationRequest}
  `{Serde ExtensionAdmissionDecision} `{Serde ExtensionExecutionPermit}
  `{Serde AdmissionMaterial} `{Serde AuthorizationMaterial} `{Serde ExecutionMaterial}
  `{Serde RevocationMaterial}.

Lemma admit_records io q : records_only (admit_extension io q).
Proof. unfold admit_extension. records_auto. Qed.
Lemma authorize_records io_read io q : records_only (authorize_extension io_read io q).
Proof. unfold authorize_extension, authorize_after. records_auto. Qed.
Lemma permit_records io_read io now q : records_only (permit_execution io_read io now q).
Proof. unfold permit_execution, permit_after. records_auto. Qed.
Lemma revoke_records io_read io q : records_only (revoke_extension io_read io q).
Proof. unfold revoke_extension, revoke_after. records_auto. Qed.
End Handlers.

Lemma extension_record_foreign e : extension_record e → foreign e.
Proof.
  intros (Ht & He & (k & Hk) & _). unfold extension_types in Ht. split_and!.
  - intros m Hm. rewrite Hm in Ht. by destruct m; set_solver.
  - intros [He' _]. congruence.
  - intros [] op; rewrite Hk; discriminate.
  - intros op. rewrite Hk. discriminate.
Qed.

(** ** Deadlines *)

Lemma remaining_ms_bounds now deadline_us :
  1 ≤ remaining_ms now deadline_us ∧
  (0 < deadline_us - now ≤ i64_max → 1000 * (remaining_ms now deadline_us - 1) < deadline_us - now).
Proof.
  unfold remaining_ms, sat_add64, sat_i64, i64_min, i64_max, u64_max.
  split; [apply Z.div_le_lower_bound; lia|]. intros Hd.
  match goal with |- context [?x / 1000] => pose proof (Z.mul_div_le x 1000 ltac:(lia)); lia end.
Qed.

(** A request with a deadline gives its operation a positive timeout that is
    neither longer than the one it asked for (or one millisecond) nor, as long as
    the deadline lies ahead, longer than the time left rounded up to the
    millisecond; without a deadline the operation is passed on unchanged. *)
Theorem deadline_bounds_timeout now deadline_us r :
  let r' := within_deadline now deadline_us r in
  (deadline_us ≤ 0 → r' = r) ∧
  (0 < deadline_us →
     1 ≤ rq_timeout_ms r' ≤ Z.max (rq_timeout_ms r) 1 ∧
     r' = set_timeout (rq_timeout_ms r') r ∧
     (0 < deadline_us - now ≤ i64_max → 1000 * (rq_timeout_ms r' - 1) < deadline_us - now)).
Proof.
  destruct (remaining_ms_bounds now deadline_us) as [Hlow Hup].
  unfold within_deadline. split; intros Hd.
  - by rewrite (proj2 (Z.ltb_ge _ _)).
  - rewrite (proj2 (Z.ltb_lt _ _)) by done. simpl. split; [lia|]. split; [done|].
    intros Hleft. specialize (Hup Hleft). lia.
Qed.

(** ** What the arms do

    An invariant and a relation on the daemon's state that the critical sections
    of the arms respect: every arm that does not run operations then does. *)

Class Kept (I : Daemon → Prop) (R : relation Daemon) : Prop := {
  kept_preorder :: PreOrder R;
  kept_inv d d' : R d d' → I d → I d'
}.
Definition keeps (I : Daemon → Prop) (R : relation Daemon) {E A} (m : M Daemon E A) : Prop :=
  ∀ d, I d → R d (m d).2.

Section Keeps.
Context {I : Daemon → Prop} {R : relation Daemon} `{!Kept I R}.
Local Abbreviation keep := (keeps I R).

Lemma keep_reader {E A} (f : Daemon → result E A) : keep (λ d, (f d, d)).
Proof. intros d _. reflexivity. Qed.
Lemma keep_ret {E A} (a : A) : keep (mret (M := M Daemon E) a).
Proof. apply (keep_reader (λ _, Ok a)). Qed.
Lemma keep_throw {E A} (e : E) : keep (throw (A := A) e).
Proof. apply (keep_reader (λ _, Err e)). Qed.
Lemma keep_bind {E A B} (m : M Daemon E A) (f : A → M Daemon E B) :
  keep m → (∀ a, keep (f a)) → keep (m ≫= f).
Proof.
  intros Hm Hf d Hd. unfold mbind, M_bind. specialize (Hm d Hd).
  destruct (m d) as [[a|e] d']; simpl in *; [|done]. etrans; [exact Hm|]. apply Hf.
  by eapply kept_inv.
Qed.
End Keeps.

Section Arms.
Context `{JournalEnv} `{TextPlatform} `{FloatPlatform} `{HostPlatform} `{HashOrder}.
Context `{Serde OperationRequest} `{Serde OperationReceipt} `{Serde DecisionTrace}.
Context `{Serde FencedLease} `{Serde ExecutionProfile} `{Serde Json}.
Context `{Serde ExtensionAdmissionRequest} `{Serde ExtensionAuthorizationRequest}
  `{Serde ExtensionExecutionRequest} `{Serde ExtensionRevocationRequest}
  `{Serde ExtensionAdmissionDecision} `{Serde ExtensionExecutionPermit}
  `{Serde AdmissionMaterial} `{Serde AuthorizationMaterial} `{Serde ExecutionMaterial}
  `{Serde RevocationMaterial}.
Context `{Serde Value} `{FromValue ProjectManifest} `{FromValue ModelProfile}
  `{FromValue ModelSpec} `{FromValue IntelligenceGraph} `{FromValue DatasetManifest}
  `{FromValue ExperimentManifest} `{FromValue (Contract ArtifactFields)} `{FromValue AssetSelector}.
Context `{Serde ContinuityPlan} `{Serde PutAssetRequest} `{Serde AssetSelector}
  `{Serde ListAssetsRequest} `{Serde ProviderProbeRequest}.

Definition ext_handlers (io : DispatchIo) (q : NKIRequest) : list Handler :=
  [admit_extension (di_write io) q; authorize_extension (di_read io) (di_write io) q;
   permit_execution (di_read io) (di_write io) (di_now io) q;
   revoke_extension (di_read io) (di_write io) q].

Class ArmLaws (I : Daemon → Prop) (R : relation Daemon) : Prop := {
  arm_kept :: Kept I R;
  arm_integrity d l : R d (set_dd_integrity l d);
  arm_catalog d c : rtc cstep (dd_catalog d) c → R d (set_dd_catalog c d);
  arm_extension d io q h :
    I d → h ∈ ext_handlers io q → R d (set_daemon_journal (h (daemon_journal d)).2 d);
  arm_cancel d io w : I d → R d (set_dd_runtime (cancel io w (dd_runtime d)).2 d)
}.

Context {I : Daemon → Prop} {R : relation Daemon} `{!ArmLaws I R}.
Local Abbreviation keep := (keeps I R).

Lemma keep_on_runtime {A} (m : M Runtime Halt A) ok :
  (∀ d, I d → R d (set_dd_runtime (m (dd_runtime d)).2 d)) → keep (on_runtime m ok).
Proof.
  intros Hm d Hd. specialize (Hm _ Hd). unfold on_runtime.
  by destruct (m (dd_runtime d)) as [[a|[e|p]] s].
Qed.
Lemma keep_on_extensions io q h : h ∈ ext_handlers io q → keep (on_extensions h).
Proof.
  intros Hh d Hd. pose proof (arm_extension d io q h Hd Hh) as Hr. unfold on_extensions.
  by destruct (h (daemon_journal d)) as [[[]|] j].
Qed.
Lemma keep_on_catalog {A} (m : M Catalog ControlPlaneError A) ok :
  (∀ c, rtc cstep c (m c).2) → keep (on_catalog m ok).
Proof.
  intros Hm d _. specialize (Hm (dd_catalog d)). unfold on_catalog.
  destruct (m (dd_catalog d)) as [[a|e] c]; by apply arm_catalog.
Qed.
Lemma put_steps io q c : rtc cstep c (catalog_put io q c).2.
Proof. eapply rtc_once, cstep_put, surjective_pairing. Qed.
Lemma delete_steps io io' sel g c : rtc cstep c (catalog_delete io io' sel g c).2.
Proof.
  unfold catalog_delete. destruct (delete_check io c sel g); [|done].
  eapply rtc_once, cstep_delete, surjective_pairing.
Qed.
Lemma keep_read_catalog {A} (f : Catalog → result ControlPlaneError A) ok : keep (read_catalog f ok).
Proof. apply keep_on_catalog. by intros c. Qed.
Lemma keep_json q : keep (json_payload q).
Proof. unfold json_payload. destruct (from_slice _); [apply keep_ret|apply keep_throw]. Qed.
Lemma keep_typed {T} `{Serde T} code q (k : T → Arm) :
  (∀ x, from_slice (nk_payload q) = Some x → keep (k x)) → keep (typed_payload code q k).
Proof. intros Hk. unfold typed_payload. destruct (from_slice _); [by apply Hk|apply keep_ret]. Qed.
Lemma keep_integrity io status verify {E} (f : KernelError → E) :
  keep (map_err_M f (integrity_failures io status verify)).
Proof.
  intros d _. unfold integrity_failures, map_err_M. destruct verify; [|reflexivity].
  destruct (verify_integrity _ _ _); [|done]. destruct (lock _); [apply arm_integrity|done].
Qed.
Lemma keep_traces {A} (m : M Runtime Halt A) :
  (∀ s, ∃ r, m s = (r, s)) →
  keep (λ d, match m (dd_runtime d) with
             | (Ok t, s) => (Ok t, set_dd_runtime s d)
             | (Err (Failed_ e), s) => (Err (Dropped (kernel_error_text e)), set_dd_runtime s d)
             | (Err (Crashed p), s) => (Err (Died p), set_dd_runtime s d)
             end).
Proof.
  intros Hm d _. destruct (Hm (dd_runtime d)) as [r ->]. destruct d.
  by destruct r as [?|[?|?]].
Qed.

Ltac keep_auto :=
  repeat first
    [ apply keep_ret | apply keep_throw | apply keep_json | apply keep_integrity
    | apply keep_read_catalog | apply keep_reader
    | apply keep_on_catalog; intros ?; first [apply put_steps | apply delete_steps]
    | apply keep_bind; [|intros ?]
    | apply keep_typed; intros ? ?
    | progress cbv zeta
    | case_match ].

(** The arms, given that those which run operations do too. *)
Lemma arms_keep io q :
  (nk_method q = "SubmitWorkload" → keep (submit_workload io q)) →
  (nk_method q = "SubmitContinuityPlan" → keep (submit_continuity_plan io q)) →
  Forall (λ p, p.1 = nk_method q → keep p.2) (arms io q).
Proof.
  intros Hsub Hplan. unfold arms.
  repeat (apply Forall_cons_2; [intros Hm; cbn in Hm; cbn [snd]|]); [..|constructor].
  all: try (apply (keep_on_extensions io q); set_solver).
  all: try by auto.
  all: unfold health_check, get_workload, list_workloads, register_model, validate_model_request,
    put_control_asset, get_control_asset, list_control_assets, delete_control_asset, get_metrics,
    probe_engine, explain_execution, cancel_workload, sequence_now, profiles_now, propagated, gets.
  all: keep_auto.
  - apply keep_traces. intros s'. by eexists.
  - apply keep_traces. intros s'. by eexists.
  - apply keep_on_runtime. intros d Hd. by apply arm_cancel.
Qed.

Lemma dispatch_keep io q :
  (nk_method q = "SubmitWorkload" → keep (submit_workload io q)) →
  (nk_method q = "SubmitContinuityPlan" → keep (submit_continuity_plan io q)) →
  keep (dispatch_request io q).
Proof.
  intros Hsub Hplan. pose proof (arms_keep io q Hsub Hplan) as Ha. unfold dispatch_request.
  destruct (list_find _ (arms io q)) as [[i [m arm]]|] eqn:Hf; [|apply keep_ret].
  apply list_find_Some in Hf as (Hi & Hm & _). rewrite Forall_lookup in Ha.
  by apply (Ha i (m, arm)).
Qed.
End Arms.

(** ** The daemon as a whole *)

Section Daemon.
Context `{JournalEnv} `{TextPlatform} `{FloatPlatform} `{HostPlatform} `{HashOrder}.
Context `{Serde OperationRequest} `{Serde OperationReceipt} `{Serde DecisionTrace}.
Context `{Serde FencedLease} `{Serde ExecutionProfile} `{Serde Json}.
Context `{!SerdeLaws OperationRequest} `{!SerdeLaws OperationReceipt}.
Context `{Serde ExtensionAdmissionRequest} `{Serde ExtensionAuthorizationRequest}
  `{Serde ExtensionExecutionRequest} `{Serde ExtensionRevocationRequest}
  `{Serde ExtensionAdmissionDecision} `{Serde ExtensionExecutionPermit}
  `{Serde AdmissionMaterial} `{Serde AuthorizationMaterial} `{Serde ExecutionMaterial}
  `{Serde RevocationMaterial}.
Context `{Serde Value} `{FromValue ProjectManifest} `{FromValue ModelProfile}
  `{FromValue ModelSpec} `{FromValue IntelligenceGraph} `{FromValue DatasetManifest}
  `{FromValue ExperimentManifest} `{FromValue (Contract ArtifactFields)} `{FromValue AssetSelector}.
Context `{Serde ContinuityPlan} `{Serde PutAssetRequest} `{Serde AssetSelector}
  `{Serde ListAssetsRequest} `{Serde ProviderProbeRequest}.
Context (wl : string → string).

(** The runtime goes through a history of the executor, the catalog through a
    history of its own. *)
Definition follows (d d' : Daemon) : Prop :=
  quiet wl no_ops (dd_runtime d) (dd_runtime d') ∧ rtc cstep (dd_catalog d) (dd_catalog d').
#[global] Instance follows_preorder : PreOrder follows.
Proof.
  split; [intros d; by split|]. intros x y z [? ?] [? ?]. split; by etrans.
Qed.

Definition daemon_inv (d : Daemon) : Prop := rt_inv wl (dd_runtime d).

Lemma handler_records io q h : h ∈ ext_handlers io q → records_only h.
Proof.
  unfold ext_handlers. rewrite !elem_of_cons, elem_of_nil.
  intros [->|[->|[->|[->|[]]]]];
    [apply admit_records|apply authorize_records|apply permit_records|apply revoke_records].
Qed.

#[global] Instance follows_kept : Kept daemon_inv follows.
Proof. split; [apply _|]. intros d d' Hf Hd. by eapply quiet_inv; [apply Hf|]. Qed.
#[global] Instance follows_laws : ArmLaws daemon_inv follows.
Proof.
  split.
  - apply _.
  - intros d l. by split.
  - intros d c Hc. by split.
  - intros d io q h Hd Hh.
    destruct (handler_records io q h Hh (daemon_journal d)) as [->|(io' & e & -> & Hr)].
    + by destruct d as [[? [] ? ?] ? ?].
    + split; [|done]. split; [|done|by intros ? []..].
      apply rtc_once, EForeign; [by apply extension_record_foreign|apply Hr].
  - intros d io w Hd. split; [by apply refines_cancel|done].
Qed.

Local Abbreviation sound := (keeps daemon_inv follows).
Lemma sound_on_runtime {A} (m : M Runtime Halt A) ok : refines wl no_ops m → sound (on_runtime m ok).
Proof. intros Hm. apply keep_on_runtime. intros d Hd. split; [by apply Hm|done]. Qed.

(** What clients submit: operations and plans in order. *)
Definition request_ok (q : NKIRequest) : Prop :=
  (nk_method q = "SubmitWorkload" →
     ∀ r, from_slice (nk_payload q) = Some r → valid_request wl r) ∧
  (nk_method q = "SubmitContinuityPlan" →
     ∀ p, from_slice (nk_payload q) = Some p → valid_plan wl p).

Lemma within_deadline_valid now deadline r :
  valid_request wl r → valid_request wl (within_deadline now deadline r).
Proof. unfold within_deadline. by destruct (0 <? deadline). Qed.

Lemma dispatch_sound io q : request_ok q → sound (dispatch_request io q).
Proof.
  intros [Hsub Hplan]. apply dispatch_keep; intros Hm;
    apply keep_typed; intros x Hx; apply sound_on_runtime.
  - apply refines_execute_internal; [|done]. by apply within_deadline_valid, Hsub.
  - by apply refines_plan, Hplan.
Qed.

Lemma dispatch_submit io q :
  nk_method q = "SubmitWorkload" → dispatch_request io q = submit_workload io q.
Proof.
  intros Hm. unfold dispatch_request, arms. rewrite Hm. cbn [list_find].
  rewrite decide_False, decide_True by done. done.
Qed.

(** *** Any use of the daemon *)

Definition daemon_new (s : Runtime) (corrupted : list Z) (c : Catalog) : Daemon :=
  mkDaemon s (mutex_new corrupted) c.
Definition daemon_init (uuid : string) (k : KernelState) : Daemon :=
  daemon_new (runtime_init uuid k) [] catalog_new.

(** Requests of any clients in any environment, the end of a process on a
    signal, and a start on the databases left behind, which recovers before it
    listens. *)
Inductive dstep : Daemon → Daemon → Prop :=
| DDispatch io q d : request_ok q → dstep d (dispatch_request io q d).2
| DShutdown d : dstep d (set_dd_runtime (shutdown_begin (dd_runtime d)).2 d)
| DRestart uuid k j y corrupted d :
    open no_open_faults (inner (conn (daemon_journal d))) = Ok j →
    dstep d (daemon_new
               (runtime_recover y (runtime_new uuid k j (x_calls (rt_x (dd_runtime d))))).2
               corrupted (dd_catalog d)).

Lemma dstep_follows d d' : dstep d d' → daemon_inv d → follows d d'.
Proof.
  intros [io q d0 Hq|d0|uuid k j y corrupted d0 Ho] Hi.
  - by apply dispatch_sound.
  - split; [by apply refines_shutdown|done].
  - split; [|done]. simpl.
    pose proof (rstep_quiet wl _ _ (RRestart wl uuid k j (dd_runtime d0) Ho) Hi) as Hr.
    etrans; [exact Hr|]. apply refines_recover. by eapply quiet_inv.
Qed.

Lemma dsteps_follow d d' : rtc dstep d d' → daemon_inv d → follows d d'.
Proof.
  induction 1 as [d|d1 d2 d3 Hs _ IH]; intros Hi; [reflexivity|].
  pose proof (dstep_follows _ _ Hs Hi) as Hf. etrans; [exact Hf|].
  apply IH. by eapply quiet_inv; [apply Hf|].
Qed.

Lemma daemon_reachable_inv uuid k d : rtc dstep (daemon_init uuid k) d → daemon_inv d.
Proof.
  intros Hr. pose proof (runtime_init_inv wl uuid k) as Hi.
  by eapply quiet_inv; [apply (dsteps_follow _ _ Hr Hi)|].
Qed.

(** The daemon refines the durable executor and the catalog. Whatever methods
    clients call, in any order and environment, and however often the process
    stops and starts again, its journal and its provider calls are those of a
    history of the executor, and its catalog is one that writes and deletions
    can produce, so what is proved of those holds of the running daemon. *)
Theorem daemon_refines uuid k d :
  rtc dstep (daemon_init uuid k) d →
  rtc (estep wl plain_request) exec_init (rt_x (dd_runtime d)) ∧
  rtc cstep catalog_new (dd_catalog d).
Proof.
  intros Hr. destruct (dsteps_follow _ _ Hr (runtime_init_inv wl uuid k)) as [Hq Hc].
  split; [apply (qt_steps _ _ _ _ Hq)|exact Hc].
Qed.

(** A submission that was answered with an execution is committed. *)
Lemma submitted_commits io q d0 ex d1 r :
  daemon_inv d0 → request_ok q → nk_method q = "SubmitWorkload" →
  from_slice (nk_payload q) = Some r →
  dispatch_request io q d0 = (Ok (Success (PExecution ex)), d1) →
  daemon_inv d1 ∧ has_mark MCommit (rq_operation_id r) (re_receipt ex) (rt_x (dd_runtime d1)).
Proof.
  intros Hi0 Hq Hm Hp He. pose proof (dispatch_sound io q Hq d0 Hi0) as [Hf _]. rewrite He in Hf.
  split; [exact (quiet_inv wl _ _ _ Hf Hi0)|].
  assert (valid_request wl r) as Hv by (by apply Hq).
  set (r' := within_deadline (di_now io) (nk_deadline_us q) r).
  assert (execute_request (di_run io) r' (dd_runtime d0) = (Ok ex, dd_runtime d1)) as Hx.
  { rewrite (dispatch_submit _ _ Hm) in He.
    unfold submit_workload, typed_payload in He. rewrite Hp in He. unfold on_runtime in He. fold r' in He.
    destruct (execute_request _ _ _) as [[a|[e|p]] s]; [by injection He as <- <-|done..]. }
  assert (rq_operation_id r = rq_operation_id r') as ->
    by (unfold r', within_deadline; by destruct (0 <? _)).
  by apply (execute_internal_commits wl _ _ _ _ _ _ Hi0 (within_deadline_valid _ _ _ Hv) Hx).
Qed.

(** A submitted workload runs once. When the daemon answered a submission
    with an execution, then whatever clients do afterwards, submitting it again
    included, and however often the daemon is restarted, no provider is called
    for that operation again. *)
Theorem submitted_workload_runs_once uuid k io q d0 ex d1 d2 r :
  rtc dstep (daemon_init uuid k) d0 → request_ok q → nk_method q = "SubmitWorkload" →
  from_slice (nk_payload q) = Some r →
  dispatch_request io q d0 = (Ok (Success (PExecution ex)), d1) → rtc dstep d1 d2 →
  ∃ calls, x_calls (rt_x (dd_runtime d2)) = calls ++ x_calls (rt_x (dd_runtime d1)) ∧
    rq_operation_id r ∉ calls.
Proof.
  intros Hr0 Hq Hm Hp He Hs.
  destruct (submitted_commits _ _ _ _ _ _ (daemon_reachable_inv _ _ _ Hr0) Hq Hm Hp He) as [Hi1 Hmark].
  destruct (dsteps_follow _ _ Hs Hi1) as [Hrest _].
  eapply (esteps_calls wl plain_request); [apply Hrest|apply Hi1|exact Hmark].
Qed.
End Daemon.

(** ** Answers *)

Section Answers.
Context `{JournalEnv} `{TextPlatform} `{FloatPlatform} `{HostPlatform}.
Context `{Serde OperationRequest} `{Serde OperationReceipt} `{Serde DecisionTrace}.
Context `{Serde FencedLease} `{Serde ExecutionProfile} `{Serde Json}.
Context `{Serde ExtensionAdmissionRequest} `{Serde ExtensionAuthorizationRequest}
  `{Serde ExtensionExecutionRequest} `{Serde ExtensionRevocationRequest}
  `{Serde ExtensionAdmissionDecision} `{Serde ExtensionExecutionPermit}
  `{Serde AdmissionMaterial} `{Serde AuthorizationMaterial} `{Serde ExecutionMaterial}
  `{Serde RevocationMaterial}.
Context `{Serde Value} `{FromValue ProjectManifest} `{FromValue ModelProfile}
  `{FromValue ModelSpec} `{FromValue IntelligenceGraph} `{FromValue DatasetManifest}
  `{FromValue ExperimentManifest} `{FromValue (Contract ArtifactFields)} `{FromValue AssetSelector}.
Context `{Serde ContinuityPlan} `{Serde PutAssetRequest} `{Serde AssetSelector}
  `{Serde ListAssetsRequest} `{Serde ProviderProbeRequest}.

(** The methods that parse their payload as JSON and propagate the error. *)
Definition json_methods : list string :=
  ["GetWorkload"; "ListWorkloads"; "RegisterModel"; "ValidateModel"; "DeleteControlAsset";
   "GetMetrics"; "ExplainExecution"; "CancelWorkload"].

(** A payload that is no JSON gets no answer. For the methods that read a
    loose JSON payload the daemon returns neither a result nor an error outcome
    but ends the dispatch with the parser's error, which closes the connection. *)
Theorem malformed_payload_unanswered io q d :
  nk_method q ∈ json_methods → from_slice (T := Value) (nk_payload q) = None →
  dispatch_request io q d = (Err (Dropped (from_slice_text (T := Value) (nk_payload q))), d).
Proof.
  intros Hm Hp. unfold dispatch_request, arms.
  assert (json_payload q = throw (Dropped (from_slice_text (T := Value) (nk_payload q)))) as Hj
    by (unfold json_payload; by rewrite Hp).
  unfold json_methods in Hm. rewrite !elem_of_cons, elem_of_nil in Hm.
  destruct Hm as [Hm|[Hm|[Hm|[Hm|[Hm|[Hm|[Hm|[Hm|[]]]]]]]]]; rewrite Hm; cbn [list_find];
    rewrite ?decide_False, decide_True by done; cbn -[json_payload];
    unfold get_workload, list_workloads, register_model, validate_model_request,
      delete_control_asset, get_metrics, explain_execution, cancel_workload; by rewrite Hj.
Qed.
End Answers.

(** Methods of the interface the daemon does not serve. *)
Example unsupported_methods :
  filter (λ m, m ∉ ["HealthCheck"; "SubmitWorkload"; "AdmitExtension"; "AuthorizeExtension";
     "AuthorizeExtensionExecution"; "RevokeExtension"; "SubmitContinuityPlan"; "GetWorkload";
     "ListWorkloads"; "RegisterModel"; "ValidateModel"; "PutControlAsset"; "GetControlAsset";
     "ListControlAssets"; "DeleteControlAsset"; "GetMetrics"; "ProbeEngine"; "ExplainExecution";
     "CancelWorkload"]) nki_methods =
  ["PauseWorkload"; "ResumeWorkload"; "AdmitWorkload"; "ReserveResources"; "ReleaseResources";
   "LoadModel"; "UnloadModel"; "RegisterEngine"; "ListEngines"; "RegisterDevice"; "ProbeDevice";
   "ListDevices"; "CreateCheckpoint"; "RestoreCheckpoint"; "WatchEvents"; "GetTrace"; "RenewLease"].
Proof. by vm_compute. Qed.

(** ** Concrete runs *)

#[local] Existing Instances rq_serde rc_serde fl_serde json_serde rq_serde_laws rc_serde_laws
  fl_serde_laws json_serde_laws trace_serde profile_serde ex_host ex_env ex_text ex_platform
  key_order.
Definition no_serde T : Serde T := {|
  to_vec _ := None; from_slice _ := None; to_vec_text _ := ""; from_slice_text _ := "expected value"
|}.
#[local] Existing Instance no_serde | 100.
#[local] Existing Instance ex_unread | 100.

Definition ex_dio : DispatchIo :=
  mkDispatchIo 5 (ex_run 1 "l1" None) ex_plan_io (λ _, Err KShuttingDown) (Ok "ok") ex_io ex_io
    (catalog_calm 5) (catalog_calm 5).
Definition ex_submission (op : string) : NKIRequest :=
  mkNki "r" "k" 2 "p" "" "ns" 100 "" "" [] "SubmitWorkload" (default [] (to_vec (ex_req op "w"))).
Definition ex_daemon0 : Daemon := daemon_init "u" Ready.
Definition ex_daemon1 : Daemon := (dispatch_request ex_dio (ex_submission "op") ex_daemon0).2.
Definition ex_daemon2 : Daemon := (dispatch_request ex_dio (ex_submission "op") ex_daemon1).2.

Lemma ex_payload op : from_slice (nk_payload (ex_submission op)) = Some (ex_req op "w").
Proof. unfold ex_submission, nk_payload. exact (countable_serde_laws OperationRequest (ex_req op "w") _ eq_refl). Qed.

Lemma ex_request_ok op : request_ok ex_wl (ex_submission op).
Proof.
  split; [|done]. intros _ r Hr. rewrite ex_payload in Hr. injection Hr as <-. by split.
Qed.

Lemma daemon_refines_witness :
  rtc (estep ex_wl plain_request) exec_init (rt_x (dd_runtime ex_daemon1)) ∧
  rtc cstep catalog_new (dd_catalog ex_daemon1).
Proof.
  exact (daemon_refines ex_wl "u" Ready ex_daemon1
    (rtc_once _ _ (DDispatch ex_wl ex_dio (ex_submission "op") ex_daemon0 (ex_request_ok "op")))).
Defined.

Lemma ex_submitted :
  ∃ ex, dispatch_request ex_dio (ex_submission "op") ex_daemon0 = (Ok (Success (PExecution ex)), ex_daemon1).
Proof.
  pose proof (surjective_pairing (dispatch_request ex_dio (ex_submission "op") ex_daemon0)) as Hp.
  fold ex_daemon1 in Hp.
  assert (∃ ex, (dispatch_request ex_dio (ex_submission "op") ex_daemon0).1 = Ok (Success (PExecution ex)))
    as [ex Hex] by (eexists; vm_compute; reflexivity).
  rewrite Hex in Hp. by exists ex.
Qed.

Lemma submitted_workload_runs_once_witness :
  ∃ calls, x_calls (rt_x (dd_runtime ex_daemon2)) = calls ++ x_calls (rt_x (dd_runtime ex_daemon1)) ∧
    "op" ∉ calls.
Proof.
  destruct ex_submitted as [ex He].
  exact (submitted_workload_runs_once ex_wl "u" Ready ex_dio (ex_submission "op") ex_daemon0 ex
    ex_daemon1 ex_daemon2 (ex_req "op" "w") (rtc_refl _ _) (ex_request_ok "op") eq_refl
    (ex_payload "op") He
    (rtc_once _ _ (DDispatch ex_wl ex_dio (ex_submission "op") ex_daemon1 (ex_request_ok "op")))).
Defined.

Definition ex_malformed : NKIRequest := mkNki "r" "k" 2 "p" "" "ns" 0 "" "" [] "GetMetrics" [].
Lemma malformed_payload_unanswered_witness :
  ∃ text, dispatch_request ex_dio ex_malformed ex_daemon1 = (Err (Dropped text), ex_daemon1).
Proof.
  eexists. apply (malformed_payload_unanswered ex_dio ex_malformed ex_daemon1).
  - vm_compute. repeat constructor.
  - reflexivity.
Defined.
