(* ===== verification/Startup.v ===== *)
(** * The process

    [daemon/nousd/src/main.rs], [main] and [serve]: what a process does with the
    databases it is started on, from its arguments to the requests it serves and
    the signal that ends it. A process finds the databases the last one left; what
    that one held in memory is gone. *)

From S2P Require Import Prelude Errors Float64 Journal Lease Policy Placement Semantic Provider Contracts Nki.
From S2P Require Import Extensions Intelligence ControlPlane Executor Coordinator Process Cli Refines Continuity.
From S2P Require Import History Daemon.
Local Open Scope Z_scope.

(** ** Arguments *)

Inductive Mode : Type :=
| MInspect (journal : string)
| MServe (journal worker address : string)
| MRunOnce (journal worker input : string)
| MUsage.

(** The first argument is the program. *)
Definition daemon_mode (args : list string) : result string Mode :=
  let get i text := ok_or (args !! i) text in
  if decide (args !! 1%nat = Some "inspect") then
    journal ← get 2%nat "journal path is required";
    Ok (MInspect journal)
  else if decide (args !! 1%nat = Some "serve") then
    journal ← get 2%nat "journal path is required";
    worker ← get 3%nat "provider worker path is required";
    Ok (MServe journal worker (default "127.0.0.1:8771" (args !! 4%nat)))
  else if decide (args !! 1%nat ≠ Some "run-once") then Ok MUsage
  else
    journal ← get 2%nat "journal path is required";
    worker ← get 3%nat "provider worker path is required";
    input ← get 4%nat "input is required";
    Ok (MRunOnce journal worker input).

(** The catalog next to a journal. *)
Definition control_path (journal : string) : string := with_extension journal "control.db".

(** ** The network *)

Inductive IpAddr : Type := V4 (a b c d : Z) | V6 (segments : list Z).
(** [IpAddr::is_loopback]. *)
Definition is_loopback (ip : IpAddr) : bool :=
  match ip with
  | V4 a _ _ _ => a =? 127
  | V6 segments => bool_decide (segments = [0; 0; 0; 0; 0; 0; 0; 1])
  end.

(** ** The environment of a start *)

(** The environment variables; the failures of opening the journal, of reading it
    for the integrity check and of opening the catalog; the lease manager's
    identifier; what happens during recovery; what binding an address gives, and
    the address then reported. *)
Record StartIo : Type := mkStart {
  st_env : Environment;
  st_open : OpenFaults;
  st_verify : Io;
  st_status : result string string;
  st_catalog : option string;
  st_uuid : string;
  st_recover : RecoverIo;
  st_bind : string → result string (result string IpAddr)
}.

Section Process.
Context `{JournalEnv} `{TextPlatform} `{FloatPlatform} `{HostPlatform} `{HashOrder}.
Context `{Serde OperationRequest} `{Serde OperationReceipt} `{Serde DecisionTrace}.
Context `{Serde FencedLease} `{Serde ExecutionProfile} `{Serde Json}.

(** [BootCore::open] on the database left behind. *)
Definition boot (x : StartIo) : M Daemon Ending BootCore := λ d,
  let db := inner (conn (daemon_journal d)) in
  match boot_open (st_open x) (st_verify x) (st_status x) db with
  | Ok c => (Ok c, set_daemon_journal (bc_journal c) d)
  | Err e => (Err (Dropped (kernel_error_text e)),
              match open (st_open x) db with Ok j => set_daemon_journal j d | Err _ => d end)
  end.

Definition open_catalog (failure : option string) : M Daemon Ending unit := λ d,
  match catalog_open failure (dd_catalog d) with
  | Ok c => (Ok tt, set_dd_catalog c d)
  | Err e => (Err (Dropped (control_error_text e)), d)
  end.

(** [KernelRuntime::new] on the shared core. *)
Definition new_runtime (x : StartIo) (c : BootCore) : M Daemon Ending unit := λ d,
  (Ok tt, mkDaemon (runtime_new (st_uuid x) (boot_state c) (bc_journal c)
                      (x_calls (rt_x (dd_runtime d))))
            (bc_integrity_failures c) (dd_catalog d)).

(** A call of the runtime whose error ends the process. *)
Definition run_or_end {A} (m : M Runtime Halt A) : M Daemon Ending A := λ d,
  match m (dd_runtime d) with
  | (Ok a, s) => (Ok a, set_dd_runtime s d)
  | (Err (Failed_ e), s) => (Err (Dropped (kernel_error_text e)), set_dd_runtime s d)
  | (Err (Crashed p), s) => (Err (Died p), set_dd_runtime s d)
  end.

Definition ends {A} (text : string) : M Daemon Ending A := throw (Dropped text).
Definition or_ends {A} (r : result string A) : M Daemon Ending A := lift (map_err Dropped r).

(** [serve] up to the line that says it is ready; the session token. *)
Definition session_token (env : Environment) : result string string :=
  let token := default "" (env_var env "NOUS_NKI_TOKEN") in
  if negb (bool_decide (token = "")) && bool_decide (String.length token < 32)%nat
  then Err "NOUS_NKI_TOKEN must contain at least 32 characters" else Ok token.
Definition serve_start (x : StartIo) (address : string) : M Daemon Ending string :=
  token ← or_ends (session_token (st_env x));
  core ← boot x;
  _ ← open_catalog (st_catalog x);
  _ ← new_runtime x core;
  _ ← run_or_end (runtime_recover (st_recover x));
  listener ← or_ends (st_bind x address);
  ip ← or_ends listener;
  if negb (is_loopback ip) then ends "NKI TCP listener must bind to a loopback address"
  else mret token.

(** The request of [run-once]. *)
Definition run_once_request (input : string) : OperationRequest :=
  let operation_id := "op-" +:+ digest_bytes (string_bytes input) in
  mkRequest operation_id ("workload-" +:+ operation_id) "step-1" "reference" PRC_Reference
    "" "" "" "" input Idempotent
    (mkSnapshot "none" "reference-v1" "prompt-v1" "none" "none" "deterministic-v1"
       "reference-v1" "context-v1") 10000.

(** [KernelRuntime::shutdown] when nothing else runs: the active operations stay
    what they are until the deadline. *)
Definition shutdown_alone : M Runtime Halt unit :=
  _ ← shutdown_begin;
  (λ s, (map_err Failed_ (default (Err KShuttingDown) (shutdown_poll false s)), s)) : M Runtime Halt unit.

(** [run-once] and [inspect]. *)
Definition run_once (x : StartIo) (io : RunIo) (input : string) : M Daemon Ending RuntimeExecution :=
  core ← boot x;
  if decide (boot_state core ≠ Ready) then ends "kernel did not reach READY"
  else
    _ ← new_runtime x core;
    _ ← run_or_end (runtime_recover (st_recover x));
    execution ← run_or_end (execute_request io (run_once_request input));
    _ ← run_or_end shutdown_alone;
    mret execution.
Definition inspect (x : StartIo) (io : Io) (status : result string string) :
    M Daemon Ending (KernelState * Z * list Z) :=
  core ← boot x;
  corrupted ← or_ends (map_err nous_error_to_string (verify_integrity io status (bc_journal core)));
  sequence ← or_ends (map_err nous_error_to_string (current_sequence (bc_journal core)));
  mret (boot_state core, sequence, corrupted).
End Process.

(** ** Lifetimes *)

Lemma open_faultless `{JournalEnv} f db j : open f db = Ok j → open no_open_faults db = Ok j.
Proof.
  unfold open. destruct f as [a b c d v iv]. cbn [of_connect of_pragmas of_schema of_max_seq of_version
    of_init_version no_open_faults].
  destruct a as [?|]; [done|]. destruct b as [?|]; [done|]. destruct c as [?|]; [done|].
  destruct d as [?|]; [done|]. destruct (get_u64 _ _); [|done]. destruct v as [?|]; [done|].
  simpl. destruct (_ !! _); [done|]. destruct (decide _); [|done]. by destruct iv.
Qed.
Lemma boot_open_journal `{JournalEnv} f io status db c : boot_open f io status db = Ok c → open f db = Ok (bc_journal c).
Proof.
  unfold boot_open. destruct (open f db) as [j|]; [|done]. simpl.
  destruct (verify_integrity _ _ _); [|done]. simpl. by intros [= <-].
Qed.

Lemma open_rows `{JournalEnv} f db j : open f db = Ok j → rows j = db_rows db.
Proof.
  intros Ho%open_faultless. unfold open in Ho. simpl in Ho. destruct (get_u64 _ _); [|done]. simpl in Ho.
  destruct (_ !! _); (destruct (decide _); [|done]); by injection Ho as <-.
Qed.

Section Lifetime.
Context `{JournalEnv} `{TextPlatform} `{FloatPlatform} `{HostPlatform} `{HashOrder}.
Context `{Serde OperationRequest} `{Serde OperationReceipt} `{Serde DecisionTrace}.
Context `{Serde FencedLease} `{Serde ExecutionProfile} `{Serde Json}.
Context `{!SerdeLaws OperationRequest} `{!SerdeLaws OperationReceipt}.
Context `{Serde ExtensionAdmissionRequest} `{Serde ExtensionAuthorizationRequest}
  `{Serde ExtensionExecutionRequest} `{Serde ExtensionRevocationRequest}
  `{Serde ExtensionAdmissionDecision} `{Serde ExtensionExecutionPermit}
  `{Serde AdmissionMaterial} `{Serde AuthorizationMaterial} `{Serde ExecutionMaterial}
  `{Serde RevocationMaterial}.
Context `{Serde Value} `{FromValue ProjectManifest} `{FromValue ModelProfile}
  `{FromValue ModelSpec} `{FromValue IntelligenceGraph} `{FromValue DatasetManifest}
  `{FromValue ExperimentManifest} `{FromValue (Contract ArtifactFields)} `{FromValue AssetSelector}.
Context `{Serde ContinuityPlan} `{Serde PutAssetRequest} `{Serde AssetSelector}
  `{Serde ListAssetsRequest} `{Serde ProviderProbeRequest}.
Context (wl : string → string).
Local Abbreviation follows := (Daemon.follows wl).
Local Abbreviation sound := (keeps (daemon_inv wl) follows).

(** No process, with the databases as the last one left them, or a process that
    serves with its session token. *)
Inductive Host : Type := Down (d : Daemon) | Up (token : string) (d : Daemon).
Definition host_daemon (h : Host) : Daemon := match h with Down d | Up _ d => d end.

(** A request that arrived on a connection: refused, or dispatched, which may end
    the process. *)
Definition serve_request (io : DispatchIo) (t : Tick) (q : NKIRequest) (token : string) (d : Daemon) :
    Host :=
  match envelope_refusal (P := Payload) (tk_now t) token q with
  | Some _ => Up token d
  | None =>
      match dispatch_request io q d with
      | (Err (Died _), d') => Down d'
      | (_, d') => Up token d'
      end
  end.

(** What happens on a host: a start that succeeds or fails, the other two uses of
    the program, requests of any clients, the signal, and the end of the process,
    which comes when it is shut down, when [accept] fails, or at any time. *)
Inductive hstep : Host → Host → Prop :=
| HStart x address token d d' :
    serve_start x address d = (Ok token, d') → hstep (Down d) (Up token d')
| HStartFailed x address e d d' :
    serve_start x address d = (Err e, d') → hstep (Down d) (Down d')
| HRunOnce x io input d :
    valid_request wl (run_once_request input) → hstep (Down d) (Down (run_once x io input d).2)
| HInspect x io status d : hstep (Down d) (Down (inspect x io status d).2)
| HRequest io t q token d :
    request_ok wl q → hstep (Up token d) (serve_request io t q token d)
| HSignal token d :
    hstep (Up token d) (Up token (set_dd_runtime (shutdown_begin (dd_runtime d)).2 d))
| HEnd token d : hstep (Up token d) (Down d).

(** *** Starting is sound *)

(** Opening the databases again is a restart of the executor. *)
Lemma reopen_follows f d j :
  open f (inner (conn (daemon_journal d))) = Ok j → follows d (set_daemon_journal j d).
Proof.
  intros Ho%open_faultless. split; [|done]. split; [|done|by intros ? []..].
  by apply rtc_once, ERestart.
Qed.
Lemma sound_boot x : sound (boot x).
Proof.
  intros d _. unfold boot. destruct (boot_open _ _ _ _) as [c|e] eqn:Hb; simpl.
  - eapply reopen_follows, boot_open_journal, Hb.
  - destruct (open _ _) eqn:Ho; [by eapply reopen_follows|reflexivity].
Qed.
Lemma sound_open_catalog failure : sound (open_catalog failure).
Proof.
  intros d _. unfold open_catalog. destruct (catalog_open _ _) as [c|] eqn:Hc; [|reflexivity].
  split; [done|]. by eapply rtc_once, cstep_reopen.
Qed.
Lemma sound_new_runtime x c d :
  daemon_inv wl d → daemon_journal d = bc_journal c → follows d (new_runtime x c d).2.
Proof.
  intros _ Hj. split; [|done]. split; [|done|by intros ? []..]. simpl. rewrite <- Hj.
  by destruct d as [[? [] ? ?] ? ?].
Qed.
Lemma sound_run_or_end {A} (m : M Runtime Halt A) : refines wl no_ops m → sound (run_or_end m).
Proof.
  intros Hm d Hd. specialize (Hm _ Hd). unfold run_or_end.
  by destruct (m (dd_runtime d)) as [[a|[e|p]] s].
Qed.
Lemma sound_or_ends {A} (r : result string A) : sound (or_ends r).
Proof. apply keep_reader. Qed.
Lemma sound_ends {A} text : sound (ends (A := A) text).
Proof. apply keep_throw. Qed.

(** Once the core is open, the new runtime works on its journal. *)
Definition at_journal {A} (j : Journal) (m : M Daemon Ending A) : Prop :=
  ∀ d, daemon_inv wl d → daemon_journal d = j → follows d (m d).2.
Lemma sound_booted {A} x (f : BootCore → M Daemon Ending A) :
  (∀ c, at_journal (bc_journal c) (f c)) → sound (boot x ≫= f).
Proof.
  intros Hf d Hd. unfold mbind, M_bind. pose proof (sound_boot x d Hd) as Hb.
  unfold boot in *. destruct (boot_open _ _ _ _) as [c|e]; simpl in *; [|done].
  etrans; [exact Hb|]. apply Hf; [by eapply quiet_inv; [apply Hb|]|done].
Qed.
Lemma at_journal_new {A} x c (m : M Daemon Ending A) :
  sound m → at_journal (bc_journal c) (_ ← new_runtime x c; m).
Proof.
  intros Hm d Hd Hj. unfold mbind, M_bind. pose proof (sound_new_runtime x c d Hd Hj) as Hn.
  simpl in *. etrans; [exact Hn|]. apply Hm. by eapply quiet_inv; [apply Hn|].
Qed.
Lemma at_journal_catalog {A} j failure (m : M Daemon Ending A) :
  at_journal j m → at_journal j (_ ← open_catalog failure; m).
Proof.
  intros Hm d Hd Hj. unfold mbind, M_bind. pose proof (sound_open_catalog failure d Hd) as Ho.
  unfold open_catalog in *. destruct (catalog_open _ _) as [c|]; simpl in *; [|done].
  etrans; [exact Ho|]. apply Hm; [by eapply quiet_inv; [apply Ho|]|done].
Qed.
Lemma at_journal_sound {A} j (m : M Daemon Ending A) : sound m → at_journal j m.
Proof. intros Hm d Hd _. by apply Hm. Qed.

Lemma refines_shutdown_alone : refines wl no_ops shutdown_alone.
Proof. apply refines_bind; [apply refines_shutdown|intros _; apply refines_reader]. Qed.

Lemma sound_recovered {A} y (m : M Daemon Ending A) :
  sound m → sound (_ ← run_or_end (runtime_recover y); m).
Proof. intros Hm. apply keep_bind; [|done]. apply sound_run_or_end, refines_recover. Qed.

Lemma sound_serve_start x address : sound (serve_start x address).
Proof.
  apply keep_bind; [apply sound_or_ends|intros token]. apply sound_booted. intros c.
  apply at_journal_catalog, at_journal_new, sound_recovered.
  apply keep_bind; [apply sound_or_ends|intros l]. apply keep_bind; [apply sound_or_ends|intros ip].
  destruct (negb _); [apply sound_ends|apply keep_ret].
Qed.
Lemma sound_run_once x io input :
  valid_request wl (run_once_request input) → sound (run_once x io input).
Proof.
  intros Hv. apply sound_booted. intros c. destruct (decide _); [apply at_journal_sound, sound_ends|].
  apply at_journal_new, sound_recovered.
  apply keep_bind; [by apply sound_run_or_end, refines_execute_internal|intros ex].
  apply keep_bind; [apply sound_run_or_end, refines_shutdown_alone|intros _; apply keep_ret].
Qed.
Lemma sound_inspect x io status : sound (inspect x io status).
Proof.
  apply sound_booted. intros c. apply at_journal_sound.
  apply keep_bind; [apply sound_or_ends|intros l]. apply keep_bind; [apply sound_or_ends|intros n].
  apply keep_ret.
Qed.

Lemma hstep_follows h h' :
  hstep h h' → daemon_inv wl (host_daemon h) → follows (host_daemon h) (host_daemon h').
Proof.
  intros [x a token d d' Hs|x a e d d' Hs|x io input d Hv|x io status d|io t q token d Hq|token d|token d]
    Hi; simpl in *.
  - pose proof (sound_serve_start x a d Hi) as Hf. by rewrite Hs in Hf.
  - pose proof (sound_serve_start x a d Hi) as Hf. by rewrite Hs in Hf.
  - by apply sound_run_once.
  - by apply sound_inspect.
  - unfold serve_request. destruct (envelope_refusal _ _ _); [reflexivity|].
    pose proof (dispatch_sound wl io q Hq d Hi) as Hf.
    by destruct (dispatch_request io q d) as [[o|[text|p]] d'].
  - split; [by apply refines_shutdown|done].
  - reflexivity.
Qed.
Lemma hsteps_follow h h' :
  rtc hstep h h' → daemon_inv wl (host_daemon h) → follows (host_daemon h) (host_daemon h').
Proof.
  induction 1 as [h|h1 h2 h3 Hs _ IH]; intros Hi; [reflexivity|].
  pose proof (hstep_follows _ _ Hs Hi) as Hf. etrans; [exact Hf|].
  apply IH. by eapply quiet_inv; [apply Hf|].
Qed.
Definition host_init (uuid : string) : Host := Down (daemon_init uuid Ready).
Lemma host_reachable_inv uuid h : rtc hstep (host_init uuid) h → daemon_inv wl (host_daemon h).
Proof.
  intros Hr. pose proof (runtime_init_inv wl uuid Ready) as Hi.
  by eapply quiet_inv; [apply (hsteps_follow _ _ Hr Hi)|].
Qed.

(** When requests are served one after the other, each operation under one
    workload ([request_ok]), what happens on a host is a history of the durable
    executor and of the catalog: however often the program is started, to serve, to
    run one input or to inspect, whichever starts fail and wherever, and whenever a
    process ends, between two requests or at a fault point of one. Requests that are
    in flight together are in [Server]. *)
Theorem host_refines uuid h :
  rtc hstep (host_init uuid) h →
  rtc (estep wl plain_request) exec_init (rt_x (dd_runtime (host_daemon h))) ∧
  rtc cstep catalog_new (dd_catalog (host_daemon h)).
Proof.
  intros Hr. destruct (hsteps_follow _ _ Hr (runtime_init_inv wl uuid Ready)) as [Hq Hc].
  split; [apply (qt_steps _ _ _ _ Hq)|exact Hc].
Qed.

(** Recovery at the start of a process, from the databases before it. *)
Lemma boot_Ok x d c d' :
  boot x d = (Ok c, d') →
  d' = set_daemon_journal (bc_journal c) d ∧ entries (bc_journal c) = entries (daemon_journal d).
Proof.
  unfold boot. destruct (boot_open _ _ _ _) as [c'|] eqn:Hb; [|done]. intros [= <- <-].
  split; [done|]. apply boot_open_journal, open_rows in Hb. unfold entries. by rewrite Hb.
Qed.
Lemma run_or_end_Ok {A} (m : M Runtime Halt A) d a d' :
  run_or_end m d = (Ok a, d') → ∃ s, m (dd_runtime d) = (Ok a, s) ∧ d' = set_dd_runtime s d.
Proof.
  unfold run_or_end. destruct (m (dd_runtime d)) as [[b|[e|p]] s]; [|done..].
  intros [= <- <-]. by exists s.
Qed.
Lemma or_ends_Ok {A} (r : result string A) d a d' : or_ends r d = (Ok a, d') → r = Ok a ∧ d' = d.
Proof. unfold or_ends, lift. destruct r; [|done]. by intros [= <- <-]. Qed.

(** Going through a sound handler step by step. *)
Lemma follows_inv d d' : follows d d' → daemon_inv wl d → daemon_inv wl d'.
Proof. intros [Hq _]. by eapply quiet_inv. Qed.
Lemma sound_bind_inv {A B} (m : M Daemon Ending A) (f : A → M Daemon Ending B) d b d'' :
  sound m → daemon_inv wl d → (m ≫= f) d = (Ok b, d'') →
  ∃ a d', m d = (Ok a, d') ∧ daemon_inv wl d' ∧ f a d' = (Ok b, d'').
Proof.
  intros Hm Hd Hb. apply M_bind_inv_ok in Hb as (a & d' & Ha & Hb). exists a, d'. split_and!; [done| |done].
  specialize (Hm d Hd). rewrite Ha in Hm. by eapply follows_inv.
Qed.

(** What a successful [run-once] leaves in the journal. *)
Lemma run_once_commits x io input d ex d' :
  daemon_inv wl d → valid_request wl (run_once_request input) →
  run_once x io input d = (Ok ex, d') →
  has_mark MCommit (rq_operation_id (run_once_request input)) (re_receipt ex) (rt_x (dd_runtime d')).
Proof.
  intros Hi Hv Hs. apply sound_bind_inv in Hs as (c & d1 & Hb & Hi1 & Hs); [|apply sound_boot|done].
  apply boot_Ok in Hb as [-> _]. destruct (decide _); [done|].
  pose proof (sound_new_runtime x c _ Hi1 eq_refl) as Hn.
  apply M_bind_inv_ok in Hs as ([] & d2 & [= <-] & Hs). apply follows_inv in Hn; [|done]. simpl in Hn.
  apply sound_bind_inv in Hs as (exs & d3 & _ & Hi3 & Hs); [|apply sound_run_or_end, refines_recover|done].
  apply M_bind_inv_ok in Hs as (ex' & d4 & Hx & Hs). apply run_or_end_Ok in Hx as (s & Hx & ->).
  apply M_bind_inv_ok in Hs as ([] & d5 & Hd & [= <- <-]).
  destruct (execute_internal_commits wl _ _ _ _ _ _ Hi3 Hv Hx) as [Hm _].
  pose proof (refines_execute_internal wl no_ops io false _ Hv ltac:(done) _ Hi3) as Hq.
  unfold execute_request in Hx. rewrite Hx in Hq. pose proof (quiet_inv wl _ _ _ Hq Hi3) as Hi4.
  apply run_or_end_Ok in Hd as (s' & Hd & ->). simpl in *.
  pose proof (refines_shutdown_alone s Hi4) as Hq5. rewrite Hd in Hq5.
  eapply (has_mark_extends wl plain_request); [|exact Hm].
  apply (esteps_extends wl plain_request); [apply Hq5|apply Hi4].
Qed.

(** What a start that reaches the line that says it is ready went through. *)
Lemma session_token_Ok env token :
  session_token env = Ok token → (token = "" ∨ 32 ≤ String.length token)%nat.
Proof.
  unfold session_token. destruct (_ && _) eqn:Hlen; [done|]. intros [= <-].
  apply andb_false_iff in Hlen as [Hlen|Hlen].
  - apply negb_false_iff, bool_decide_eq_true in Hlen. by left.
  - apply bool_decide_eq_false in Hlen. right. lia.
Qed.
Lemma boot_reopens x d c d' :
  boot x d = (Ok c, d') →
  d' = set_daemon_journal (bc_journal c) d ∧
  open no_open_faults (inner (conn (daemon_journal d))) = Ok (bc_journal c).
Proof.
  unfold boot. destruct (boot_open _ _ _ _) as [c'|] eqn:Hb; [|done]. intros [= <- <-].
  split; [done|]. by eapply open_faultless, boot_open_journal.
Qed.
Lemma serve_start_Ok x address d token d' :
  serve_start x address d = (Ok token, d') →
  (token = "" ∨ 32 ≤ String.length token)%nat ∧
  ∃ ip, st_bind x address = Ok (Ok ip) ∧ is_loopback ip = true ∧
  ∃ j cat k exs s, open no_open_faults (inner (conn (daemon_journal d))) = Ok j ∧
    runtime_recover (st_recover x)
      (runtime_new (st_uuid x) k j (x_calls (rt_x (dd_runtime d)))) = (Ok exs, s) ∧
    d' = mkDaemon s (dd_integrity d') cat.
Proof.
  intros Hs. apply M_bind_inv_ok in Hs as (tk & d0 & Ht & Hs). apply or_ends_Ok in Ht as [Ht ->].
  apply M_bind_inv_ok in Hs as (c & d1 & Hb & Hs). apply boot_reopens in Hb as [-> Hb].
  apply M_bind_inv_ok in Hs as ([] & d2 & Ho & Hs). unfold open_catalog in Ho.
  destruct (catalog_open _ _) as [cat|]; [|done]. injection Ho as <-.
  apply M_bind_inv_ok in Hs as ([] & d3 & Hn & Hs). injection Hn as <-.
  apply M_bind_inv_ok in Hs as (exs & d4 & Hrec & Hs). apply run_or_end_Ok in Hrec as (s & Hrec & ->).
  apply M_bind_inv_ok in Hs as (l & d5 & Hl & Hs). apply or_ends_Ok in Hl as [Hl ->].
  apply M_bind_inv_ok in Hs as (ip & d6 & Hip & Hs). apply or_ends_Ok in Hip as [-> ->].
  destruct (is_loopback ip) eqn:Hloop; [|done]. injection Hs as <- <-.
  split; [by eapply session_token_Ok|]. exists ip. split_and!; [done..|].
  exists (bc_journal c), cat, (boot_state c), exs, s. split_and!; [done| |done]. exact Hrec.
Qed.

(** Running an input once is enough. When [run-once] returned an execution, then
    whatever happens on the host afterwards, running the same input again calls no
    provider for it, and if it returns an execution, that has the same receipt. *)
Theorem run_once_once uuid x io x' io' input d0 ex d1 d2 res d3 :
  rtc hstep (host_init uuid) (Down d0) → valid_request wl (run_once_request input) →
  run_once x io input d0 = (Ok ex, d1) → rtc hstep (Down d1) (Down d2) →
  run_once x' io' input d2 = (res, d3) →
  (∃ calls, x_calls (rt_x (dd_runtime d3)) = calls ++ x_calls (rt_x (dd_runtime d1)) ∧
     rq_operation_id (run_once_request input) ∉ calls) ∧
  ∀ ex', res = Ok ex' → re_receipt ex' = re_receipt ex.
Proof.
  intros Hr Hv E1 Hs E2. pose proof (host_reachable_inv _ _ Hr) as Hi0. simpl in Hi0.
  pose proof (run_once_commits _ _ _ _ _ _ Hi0 Hv E1) as Hm1.
  pose proof (sound_run_once x io input Hv d0 Hi0) as Hf1. rewrite E1 in Hf1.
  pose proof (follows_inv _ _ Hf1 Hi0) as Hi1.
  pose proof (hsteps_follow _ _ Hs Hi1) as Hf2. pose proof (follows_inv _ _ Hf2 Hi1) as Hi2. simpl in *.
  pose proof (sound_run_once x' io' input Hv d2 Hi2) as Hf3. rewrite E2 in Hf3.
  pose proof (follows_inv _ _ Hf3 Hi2) as Hi3. simpl in *.
  assert (follows d1 d3) as [Hq _] by by etrans. split.
  - eapply (esteps_calls wl plain_request); [apply Hq|apply Hi1|exact Hm1].
  - intros ex' ->. pose proof (run_once_commits _ _ _ _ _ _ Hi2 Hv E2) as Hm3.
    eapply (has_mark_unique wl plain_request); [apply Hi3|exact Hm3|].
    eapply (has_mark_extends wl plain_request); [|exact Hm1].
    apply (esteps_extends wl plain_request); [apply Hq|apply Hi1].
Qed.

End Lifetime.

(** ** Concrete processes *)

#[local] Existing Instances rq_serde rc_serde fl_serde json_serde rq_serde_laws rc_serde_laws
  fl_serde_laws json_serde_laws trace_serde profile_serde ex_host ex_env ex_text ex_platform
  key_order.
#[local] Existing Instance no_serde | 100.
#[local] Existing Instance ex_unread | 100.

(** The workload of each operation of [run-once]. *)
Definition once_wl (op : string) : string := "workload-" +:+ op.
Lemma once_valid input : valid_request once_wl (run_once_request input).
Proof. split; [done|]. by vm_compute. Qed.

Definition ex_start : StartIo :=
  mkStart (λ _, None) no_open_faults ex_io (Ok "ok") None "u2" ex_recover
    (λ _, Ok (Ok (V4 127 0 0 1))).
Definition ex_empty : Daemon := daemon_init "u" Ready.
(** [run-once] whose process dies after the provider was called, and a start of the
    server on what it left. *)
Definition ex_killed : Daemon :=
  (run_once ex_start (ex_run 1 "l1" (Some EffectAfterExecute)) "hello" ex_empty).2.
Definition ex_serving : Daemon := (serve_start ex_start "127.0.0.1:8771" ex_killed).2.

Lemma ex_killed_reachable : rtc (hstep once_wl) (host_init "u") (Down ex_killed).
Proof. apply rtc_once, HRunOnce, once_valid. Qed.
Lemma ex_serving_Ok :
  serve_start ex_start "127.0.0.1:8771" ex_killed = (Ok "", ex_serving).
Proof.
  rewrite (surjective_pairing (serve_start _ _ _)). fold ex_serving.
  assert ((serve_start ex_start "127.0.0.1:8771" ex_killed).1 = Ok "") as -> by (vm_compute; reflexivity).
  reflexivity.
Qed.

Lemma host_refines_witness :
  rtc (estep once_wl plain_request) exec_init (rt_x (dd_runtime ex_killed)) ∧
  rtc cstep catalog_new (dd_catalog ex_killed).
Proof. exact (host_refines once_wl "u" (Down ex_killed) ex_killed_reachable). Defined.

Definition ex_first : result Ending RuntimeExecution * Daemon :=
  run_once ex_start (ex_run 1 "l1" None) "hello" ex_empty.
Definition ex_second : result Ending RuntimeExecution * Daemon :=
  run_once ex_start (ex_run 9 "l2" None) "hello" ex_first.2.
Definition ex_calls (d : Daemon) : list string := x_calls (rt_x (dd_runtime d)).
Lemma run_once_once_witness :
  let op := rq_operation_id (run_once_request "hello") in
  ex_calls ex_first.2 = [op] ∧ ex_calls ex_second.2 = [op] ∧
  re_receipt <$> result_ok ex_first.1 = Some (ex_rc op) ∧
  (∃ calls, ex_calls ex_second.2 = calls ++ ex_calls ex_first.2 ∧ op ∉ calls) ∧
  ∀ ex ex', ex_first.1 = Ok ex → ex_second.1 = Ok ex' → re_receipt ex' = re_receipt ex.
Proof.
  intros op. split_and!; [vm_compute; reflexivity..| |].
  - destruct ex_first.1 as [ex|] eqn:E; [|exfalso; vm_compute in E; discriminate].
    destruct (run_once_once once_wl "u" ex_start (ex_run 1 "l1" None) ex_start (ex_run 9 "l2" None)
      "hello" ex_empty ex ex_first.2 ex_first.2 ex_second.1 ex_second.2 (rtc_refl _ _) (once_valid _))
      as [Hc _]; [|apply rtc_refl|apply surjective_pairing|exact Hc].
    rewrite <- E. apply surjective_pairing.
  - intros ex ex' E E'.
    destruct (run_once_once once_wl "u" ex_start (ex_run 1 "l1" None) ex_start (ex_run 9 "l2" None)
      "hello" ex_empty ex ex_first.2 ex_first.2 ex_second.1 ex_second.2 (rtc_refl _ _) (once_valid _))
      as [_ Hr]; [|apply rtc_refl|apply surjective_pairing|by apply Hr].
    rewrite <- E. apply surjective_pairing.
Defined.

(** The first record of the journal was altered on disk. [run-once] refuses the
    journal; [serve] starts on it, and answers a submission for the operation with
    the receipt recorded there. *)
Definition ex_altered : Daemon :=
  let j := daemon_journal ex_first.2 in
  match rows j !! 0%nat with
  | Some r => set_daemon_journal (tamper 0 (set_phases (Some "CREATED") "ALTERED" r) j) ex_first.2
  | None => ex_first.2
  end.
Example altered_journal_refused :
  (run_once ex_start (ex_run 9 "l2" None) "again" ex_altered).1 = Err (Dropped "kernel did not reach READY").
Proof. vm_compute. reflexivity. Qed.
Example altered_journal_served :
  let '(res, d) := serve_start ex_start "127.0.0.1:8771" ex_altered in
  res = Ok "" ∧ runtime_state (dd_runtime d) = KDegraded ∧
  is_Some (result_ok (execute_request (ex_run 9 "l2" None) (run_once_request "other") (dd_runtime d)).1).
Proof. vm_compute. split_and!; [reflexivity..|by eexists]. Qed.

(** Journals that differ in their extension share a catalog. *)
Example shared_catalog : control_path "/data/main.db" = control_path "/data/main.journal".
Proof. reflexivity. Qed.

(** An input of [run-once] that names the same operation as a [run] of the command
    line, under another workload. *)
Lemma run_once_collides `{JournalEnv} input :
  let r := run_once_request ("reference" +:+ newline +:+ newline +:+ input) in
  let r' := operation_of input (manifest_from_args "inline" []) in
  rq_operation_id r = rq_operation_id r' ∧ rq_workload_id r ≠ rq_workload_id r'.
Proof.
  split; [reflexivity|]. intros E. apply (f_equal String.length) in E. simpl in E. lia.
Qed.

(** A workload is submitted to a serving process, which is then killed and started
    again. *)
Definition ex_submit_once : NKIRequest :=
  mkNki "r" "k" 2 "p" "" "ns" 0 "" "" [] "SubmitWorkload" (default [] (to_vec (run_once_request "hi"))).
Definition ex_answered : result Ending (NKIOutcome Payload) * Daemon :=
  dispatch_request ex_dio ex_submit_once ex_serving.
Definition ex_again : Daemon := (serve_start ex_start "127.0.0.1:8771" ex_answered.2).2.

Lemma ex_once_payload : from_slice (nk_payload ex_submit_once) = Some (run_once_request "hi").
Proof. exact (countable_serde_laws OperationRequest (run_once_request "hi") _ eq_refl). Qed.
Lemma ex_once_ok : request_ok once_wl ex_submit_once.
Proof.
  split; [|done]. intros _ r Hr. rewrite ex_once_payload in Hr. injection Hr as <-. apply once_valid.
Qed.
Lemma ex_again_Ok : serve_start ex_start "127.0.0.1:8771" ex_answered.2 = (Ok "", ex_again).
Proof.
  rewrite (surjective_pairing (serve_start _ _ _)). fold ex_again.
  assert ((serve_start ex_start "127.0.0.1:8771" ex_answered.2).1 = Ok "") as -> by (vm_compute; reflexivity).
  reflexivity.
Qed.
