(* ===== verification/Interleave.v ===== *)
(** * Calls as programs of atomic actions

    [execute_internal], [execute_continuously] and [recover] of
    [crates/nous-kernel-core/src/coordinator.rs] as the tasks of the daemon run
    them: requests of different connections use the same runtime, and between two
    critical sections of one (a journal transaction, a lock of the lease tables,
    the two ends of a provider call) any steps of the others may happen. A call is
    a program of atomic actions; run without interruption it is the handler of
    [Coordinator]. The tasks that run them together are in [Pool]. *)

From S2P Require Import Prelude Errors Float64 Resource Fencing Workload Journal Semantic Lease.
From S2P Require Import Admission Policy Placement Provider Executor Coordinator Refines.
Local Open Scope Z_scope.

(** ** Programs of atomic actions *)

(** What an action means to the other tasks: the insertion of a lease, and the
    two ends of a provider call. *)
Inductive Label : Type :=
| Tau
| Insert (workload : string) (g : GrantIo)
| Begin (r : OperationRequest)
| End_ (r : OperationRequest).

Inductive Prog (A : Type) : Type :=
| Ret (r : result Halt A)
| Atom (lb : Label) (B : Type) (m : M Runtime Halt B) (k : result Halt B → Prog A).
Arguments Ret {A} r.
Arguments Atom {A} lb {B} m k.

#[global] Instance Prog_ret : MRet Prog := λ A a, Ret (Ok a).
#[global] Instance Prog_bind : MBind Prog := λ A B f,
  fix go p := match p with
              | Ret (Ok a) => f a
              | Ret (Err h) => Ret (Err h)
              | Atom lb m k => Atom lb m (λ b, go (k b))
              end.

Definition act {A} (lb : Label) (m : M Runtime Halt A) : Prog A := Atom lb m Ret.
Definition tau {A} (m : M Runtime Halt A) : Prog A := act Tau m.
Definition pthrow {A} (h : Halt) : Prog A := Ret (Err h).
Definition ptrigger (crash : option FaultPoint) (p : FaultPoint) : Prog unit :=
  if decide (crash = Some p) then pthrow (Crashed p) else mret tt.

(** [settle] of a program. *)
Definition settle_result {A} (r : result Halt A) : result Halt (result KernelError A) :=
  match r with
  | Ok a => Ok (Ok a)
  | Err (Failed_ e) => Ok (Err e)
  | Err (Crashed p) => Err (Crashed p)
  end.
Fixpoint psettle {A} (p : Prog A) : Prog (result KernelError A) :=
  match p with
  | Ret r => Ret (settle_result r)
  | Atom lb m k => Atom lb m (λ b, psettle (k b))
  end.

(** A program run without interruption. *)
Fixpoint run {A} (p : Prog A) : M Runtime Halt A := λ s,
  match p with
  | Ret r => (r, s)
  | Atom lb m k => let '(b, s') := m s in run (k b) s'
  end.

(** ** The calls, critical section by critical section *)

Section Calls.
Context `{JournalEnv} `{TextPlatform} `{FloatPlatform} `{HostPlatform} `{HashOrder}.
Context `{Serde OperationRequest} `{Serde OperationReceipt} `{Serde DecisionTrace}.
Context `{Serde FencedLease} `{Serde ExecutionProfile} `{Serde Json}.

(** [LeaseManager::grant_fenced]: five critical sections. *)
Definition grant_prog (g : GrantIo) (q : LeaseRequest) : Prog FencedLease :=
  _ ← tau (on_leases (grant_check (gi_scan1 g) q));
  lease ← act (Insert (lq_workload_id q) g) (on_leases (grant_insert g q));
  let key := resource_key (lq_node_id q) (lq_device_id q) in
  fencing_token ← tau (on_leases draw_token);
  _ ← tau (on_leases (store_lease_token (rl_lease_id lease) fencing_token));
  _ ← tau (on_leases (store_resource_token key fencing_token));
  mret (mkFenced lease fencing_token key).

(** [Journal::append]: the search for the idempotency key, and then, under the
    sequence lock, the insertion. Another task may insert the key in between. *)
Definition lookup_entry (io : Io) (key : string) : M Runtime Halt (option Z) := λ s,
  (map_err (λ e, Failed_ (journal_error e)) (find_by_idempotency_key io (x_journal (rt_x s)) key), s).
Definition commit_entry (io : Io) (e : JournalEntry) : M Runtime Halt Z :=
  on_x (zoom x_journal (λ j s, mkX j (x_calls s))
          (map_err_M (λ e, Failed_ (journal_error e)) (append_commit io e))).
Definition entry_prog (io : Io) (e : JournalEntry) : Prog Z :=
  match je_idempotency_key e with
  | Some key =>
      found ← tau (lookup_entry io key);
      match found with
      | Some seq => mret seq
      | None => tau (commit_entry io e)
      end
  | None => tau (commit_entry io e)
  end.

(** [DurableExecutor::append]. *)
Definition append_prog `{Serde T} (io : Io) (r : OperationRequest) (t : EntryType)
    (object_type phase : string) (payload : T) (key : string) : Prog unit :=
  b ← Ret (ok_or (to_vec payload) (Failed_ (KSerialization (to_vec_text payload))));
  _ ← entry_prog io (operation_entry r t object_type phase b (Some key));
  mret tt.

(** [ExecutionProfileStore::record]. *)
Definition profile_prog (x : RunIo) (p : ExecutionProfile) : Prog Z :=
  let p := set_recorded (ri_profile_now x) p in
  b ← Ret (ok_or (to_vec p) (Failed_ (journal_error
        (nous_error Internal ("Cannot encode execution profile: " +:+ to_vec_text p)))));
  entry_prog (ri_profile x) (profile_entry p b).

(** [provider.execute(..).await]: between its two ends the provider works and
    other tasks run. *)
Definition call_begin (r : OperationRequest) : M XState Halt unit := λ s,
  (Ok tt, mkX (x_journal s) (rq_operation_id r :: x_calls s)).
Definition call_end (x : ExecIo) (r : OperationRequest) : M Runtime Halt OperationReceipt :=
  lift (map_err Failed_ (xio_provider x r)).

Definition obtain_prog (x : ExecIo) (r : OperationRequest) : Prog OperationReceipt :=
  received ← tau (on_x (received_receipt (xio_received x) r));
  match received with
  | Some receipt => mret receipt
  | None =>
      _ ← ptrigger (xio_crash x) EffectBeforeExecute;
      _ ← act (Begin r) (on_x (call_begin r));
      receipt ← act (End_ r) (call_end x r);
      _ ← ptrigger (xio_crash x) EffectAfterExecute;
      _ ← append_prog (xio_receipt x) r Observation "OperationReceipt" "RECEIVED" receipt
            (receipt_key (rq_operation_id r));
      mret receipt
  end.

(** [DurableExecutor::execute_cancellable]. *)
Definition execute_prog (x : ExecIo) (r : OperationRequest) : Prog OperationReceipt :=
  committed ← tau (on_x (committed_receipt (xio_committed x) r));
  match committed with
  | Some receipt => mret receipt
  | None =>
      _ ← append_prog (xio_intent x) r Intent "Operation" "PENDING" r
            (intent_key (rq_operation_id r));
      _ ← ptrigger (xio_crash x) EffectAfterIntent;
      if xio_cancelled x then pthrow (Failed_ (KCancelled (rq_operation_id r)))
      else
        receipt ← obtain_prog x r;
        _ ← ptrigger (xio_crash x) EffectAfterReceipt;
        _ ← append_prog (xio_commit x) r Commit "StepCommit" "COMMITTED" receipt
              (commit_key (rq_operation_id r));
        _ ← ptrigger (xio_crash x) EffectAfterCommit;
        mret receipt
  end.

(** [execute_internal], its three parts as in [Coordinator]. *)
Definition drop_prog (id : string) : Prog unit :=
  _ ← psettle (tau (on_leases (release id))); mret tt.

Definition lease_request (r : OperationRequest) (p : PlacementDecision) : LeaseRequest :=
  mkLeaseRequest (rq_workload_id r) "kernel-runtime" (pd_resources_reserved p)
    (pd_node_id p) (pd_device_id p) true.

Definition confirm_prog {A} (x : RunIo) (r : OperationRequest) (fenced : FencedLease) (a : A) :
    Prog A :=
  let id := rl_lease_id (fl_lease fenced) in
  recorded ← psettle (append_prog (ri_lease x) r Commit "ResourceLease" "ACTIVE" fenced
                        (lease_grant_key (rq_operation_id r) id));
  match recorded with
  | Err e => _ ← drop_prog id; pthrow (Failed_ e)
  | Ok _ =>
      m ← tau (gets rt_leases);
      if negb (authorize (ri_authorize_now x) m id (fl_fencing_token fenced)) then
        _ ← drop_prog id;
        pthrow (Failed_ (KResource "new resource lease failed fencing validation"))
      else
        inserted ← psettle (tau (active_insert r));
        match inserted with
        | Err e => _ ← drop_prog id; pthrow (Failed_ e)
        | Ok _ => mret a
        end
  end.

Definition acquire_prog (x : RunIo) (r : OperationRequest) :
    Prog (FencedLease * DecisionTrace * string) :=
  let workload := workload_for r in
  match admit_workload runtime_admission (ri_admit_now x) workload with
  | DecisionRejected reason _ | DecisionInfeasible reason _ _ => pthrow (Failed_ (KAdmission reason))
  | DecisionAdmitted =>
      let '(placed, trace) :=
        place_with_trace SchedulerCoreConfig_default workload [reference_node r] in
      placement ← Ret (ok_or placed
        (Failed_ (KScheduling "no provider placement passed hard constraints")));
      _ ← append_prog (ri_schedule x) r Observation "SchedulerDecision" "SELECTED" trace
            (schedule_key (rq_operation_id r));
      fenced ← grant_prog (ri_grant x) (lease_request r placement);
      confirm_prog x r fenced (fenced, trace, pd_device_id placement)
  end.

Definition failure_prog (x : RunIo) (r : OperationRequest) (e : KernelError)
    (b : option KernelError) : Prog (option KernelError) :=
  let op := rq_operation_id r in
  a1 ← psettle (append_prog (ri_abort x) r Abort "Operation" (kernel_error_code e)
        (failure_doc e) (abort_key op (sn_provider_revision (rq_snapshot r))));
  a2 ← psettle (append_prog (ri_failure x) r Observation "OperationFailure"
        (kernel_error_code e) (failure_doc e) (failure_key op));
  mret (overwrite (overwrite b a1) a2).

(** [execute_internal] from the release of the lease on, and from the record of
    the workload on. *)
Definition return_prog (x : RunIo) (r : OperationRequest) (id : string) (trace : DecisionTrace)
    (execution : result KernelError OperationReceipt) (b : option KernelError) :
    Prog RuntimeExecution :=
  _ ← ptrigger (xio_crash (ri_exec x)) ResourceAfterRelease;
  d ← psettle (append_prog (ri_released x) r Commit "ResourceLease" "RELEASED"
        (JObj [("lease_id", JStr id)]) (lease_release_key (rq_operation_id r) id));
  match get_or_insert b d with
  | Some e => pthrow (Failed_ e)
  | None =>
      receipt ← Ret (map_err Failed_ execution);
      mret (mkExecution (rq_workload_id r) receipt trace)
  end.

Definition close_prog (x : RunIo) (r : OperationRequest) (id : string) (trace : DecisionTrace)
    (execution : result KernelError OperationReceipt) (b : option KernelError) :
    Prog RuntimeExecution :=
  let '(entry_type, phase) := final_phase execution in
  w ← psettle (append_prog (ri_workload x) r entry_type "Workload" phase
        (JObj [("workload_id", JStr (rq_workload_id r)); ("phase", JStr phase)])
        (workload_key (rq_operation_id r) phase));
  l ← psettle (tau (on_leases (release id)));
  return_prog x r id trace execution (get_or_insert (get_or_insert b w) l).

Definition finish_prog (x : RunIo) (r : OperationRequest) (recovered : bool)
    (fenced : FencedLease) (trace : DecisionTrace) (device : string)
    (execution : result KernelError OperationReceipt) : Prog RuntimeExecution :=
  let failure := match execution with Err e => Some e | Ok _ => None end in
  p ← psettle (profile_prog x (profile_of x r recovered device failure));
  a ← psettle (tau (active_remove (rq_workload_id r)));
  let b0 := overwrite (overwrite None p) a in
  b1 ← match failure with Some e => failure_prog x r e b0 | None => mret b0 end;
  close_prog x r (rl_lease_id (fl_lease fenced)) trace execution b1.

Definition internal_prog (x : RunIo) (recovered : bool) (r : OperationRequest) :
    Prog RuntimeExecution :=
  _ ← Ret (map_err (λ m, Failed_ (KAdmission m)) (validate_sensitive_references r));
  st ← tau (gets runtime_state);
  if decide (st = ShuttingDown) then pthrow (Failed_ KShuttingDown)
  else
    committed ← tau (on_x (committed_receipt (ri_committed x) r));
    match committed with
    | Some receipt =>
        trace ← tau (latest_decision_trace (ri_trace x) (rq_operation_id r));
        mret (mkExecution (rq_workload_id r) receipt (default replay_trace trace))
    | None =>
        '(fenced, trace, device) ← acquire_prog x r;
        execution ← psettle (execute_prog (ri_exec x) r);
        finish_prog x r recovered fenced trace device execution
    end.

(** ** Plans *)

(** [record_candidate_outcome] and [record_rebind]. *)
Definition outcome_prog (io : Io) (r : OperationRequest) (provider phase reason : string) :
    Prog unit :=
  append_prog io r Observation "ProviderCandidate" phase
    (JObj [("provider", JStr provider); ("reason", JStr reason)])
    (candidate_outcome_key (rq_operation_id r) provider phase).
Definition rebind_prog (io1 io2 : Io) (r : OperationRequest) (from_provider : string)
    (failure : KernelError) : Prog unit :=
  let rev := sn_provider_revision (rq_snapshot r) in
  _ ← append_prog io1 r Intent "Operation" "REBOUND" r (rebind_key (rq_operation_id r) rev);
  append_prog io2 r Observation "ProviderRebind" "SELECTED"
    (JObj [("from_provider", JStr from_provider); ("to_provider", JStr rev);
           ("failure_code", JStr (kernel_error_code failure)); ("compatibility", JOther)])
    (provider_rebind_key (rq_operation_id r) rev).
Definition rebind_if_failed_prog (c : CandidateIo) (step : ContinuityStep) (r : OperationRequest)
    (to_provider : string) (report : CompatibilityReport) (st : Attempt) : Prog Attempt :=
  match at_failure st with
  | None => mret st
  | Some (from, e) =>
      _ ← rebind_prog (ci_rebind_intent c) (ci_rebind_observation c) r from e;
      mret (mkAttempt (at_failure st) (at_rejection st) (at_rejected_last st)
              (at_failovers st ++ [mkFailoverRecord (cs_step_id step) from to_provider
                                     (kernel_error_code e) report]))
  end.

(** One candidate, the candidates of a step, a step and the steps of a plan. *)
Definition candidate_prog (c : CandidateIo) (plan : ContinuityPlan) (step : ContinuityStep)
    (op : string) (cand : FailoverCandidate) (st : Attempt) :
    Prog (Attempt + RuntimeExecution * Attempt) :=
  let r := fc_request cand in
  let provider := mm_provider (fc_capabilities cand) in
  _ ← outcome_prog (ci_evaluating c) r provider "EVALUATING"
        "candidate entered compatibility pipeline";
  _ ← Ret (map_err Failed_
        (validate_continuity_candidate plan (cs_step_id step) op r (fc_capabilities cand)));
  match effective_capabilities c cand with
  | Err e =>
      if kernel_error_retryable e then
        _ ← outcome_prog (ci_unavailable c) r provider "UNAVAILABLE" (kernel_error_code e);
        mret (inl (note_failure provider e st))
      else pthrow (Failed_ e)
  | Ok caps =>
      let report := assess_compatibility (cs_requirements step) caps in
      let reasons := join ", " (cp_reasons report) in
      if gate_closed step report then
        _ ← outcome_prog (ci_incompatible c) r (mm_provider caps) "INCOMPATIBLE" reasons;
        mret (inl (note_rejection (KScheduling ("provider '" +:+ mm_provider caps
                 +:+ "' failed compatibility gate: " +:+ reasons)) st))
      else
        st1 ← rebind_if_failed_prog c step r (mm_provider caps) (rebound_report st report) st;
        outcome ← psettle (internal_prog (ci_run c) false r);
        match outcome with
        | Ok ex => mret (inr (ex, st1))
        | Err e =>
            if kernel_error_retryable e then
              _ ← outcome_prog (ci_failed c) r provider "EXECUTION_FAILED" (kernel_error_code e);
              mret (inl (note_failure provider e st1))
            else pthrow (Failed_ e)
        end
  end.

Fixpoint candidates_prog (c : nat → CandidateIo) (plan : ContinuityPlan) (step : ContinuityStep)
    (op : string) (i : nat) (cands : list FailoverCandidate) (st : Attempt) :
    Prog (option RuntimeExecution * Attempt) :=
  match cands with
  | [] => mret (None, st)
  | cand :: rest =>
      next ← candidate_prog (c i) plan step op cand st;
      match next with
      | inl st1 => candidates_prog c plan step op (S i) rest st1
      | inr (ex, st1) => mret (Some ex, st1)
      end
  end.

Definition step_prog (y : StepIo) (plan : ContinuityPlan) (step : ContinuityStep)
    (failovers : list FailoverRecord) : Prog (RuntimeExecution * list FailoverRecord) :=
  match cs_candidates step with
  | [] => pthrow (Failed_ (KScheduling ("step '" +:+ cs_step_id step
            +:+ "' has no provider candidate")))
  | first :: _ =>
      let op := rq_operation_id (fc_request first) in
      committed ← tau (on_x (committed_receipt (si_committed y) (fc_request first)));
      match committed with
      | Some receipt => mret (mkExecution (cpl_workload_id plan) receipt replay_trace, failovers)
      | None =>
          '(completed, st) ← candidates_prog (si_candidate y) plan step op 0 (cs_candidates step)
                               (mkAttempt None None false failovers);
          match completed with
          | Some ex => mret (ex, at_failovers st)
          | None => pthrow (Failed_ (step_error step st))
          end
      end
  end.

Fixpoint steps_prog (y : nat → StepIo) (plan : ContinuityPlan) (i : nat)
    (steps : list ContinuityStep) (completed : list RuntimeExecution)
    (failovers : list FailoverRecord) : Prog (list RuntimeExecution * list FailoverRecord) :=
  match steps with
  | [] => mret (completed, failovers)
  | step :: rest =>
      '(ex, failovers1) ← step_prog (y i) plan step failovers;
      steps_prog y plan (S i) rest (completed ++ [ex]) failovers1
  end.

(** [KernelRuntime::execute_continuously]. *)
Definition plan_prog (y : nat → StepIo) (plan : ContinuityPlan) : Prog ContinuityExecution :=
  if decide (cpl_workload_id plan = "" ∨ cpl_process_identity plan = "") then
    pthrow (Failed_ (KAdmission "continuity plan requires workload and process identities"))
  else
    '(completed, failovers) ← steps_prog y plan 0 (cpl_steps plan) [] [];
    mret (mkContinuityExecution (cpl_workload_id plan) (cpl_process_identity plan)
            completed failovers).

(** ** Recovery *)

Fixpoint revoke_prog (io : string → Io) (requests : gmap string OperationRequest)
    (orphans : list (string * (string * FencedLease))) : Prog unit :=
  match orphans with
  | [] => mret tt
  | (id, (w, l)) :: rest =>
      r ← Ret (ok_or (requests !! w)
        (Failed_ (KJournal ("orphaned lease " +:+ id +:+ " has no durable operation intent"))));
      _ ← append_prog (io id) r Commit "ResourceLease" "REVOKED"
            (JObj [("lease_id", JStr id); ("fencing_token", JStr (fl_fencing_token l));
                   ("reason", JStr "runtime recovery invalidated an orphaned lease")])
            (lease_revoke_key (rq_operation_id r) (rl_lease_id (fl_lease l)));
      revoke_prog io requests rest
  end.

Fixpoint recovered_prog (run : string → RunIo) (rs : list OperationRequest) :
    Prog (list RuntimeExecution) :=
  match rs with
  | [] => mret []
  | r :: rest =>
      match rq_delivery r with
      | Idempotent | Reconcilable =>
          ex ← internal_prog (run (rq_operation_id r)) true r;
          exs ← recovered_prog run rest;
          mret (ex :: exs)
      | _ => pthrow (Failed_ (KUnsafeRecovery (rq_operation_id r)))
      end
  end.

(** [KernelRuntime::recover], with the two scans of the journal. *)
Definition scan_leases (io : Io) : M Runtime Halt LeaseScan := λ s,
  (map_err (λ e, Failed_ (journal_error e)) (lease_scan <$> read_from io (x_journal (rt_x s)) 0), s).
Definition scan_pending (io : Io) : M Runtime Halt (list OperationRequest) := λ s,
  (map_err Failed_ (pending_operations io (x_journal (rt_x s))), s).
Definition recover_prog (y : RecoverIo) : Prog (list RuntimeExecution) :=
  '(requests, active) ← tau (scan_leases (rv_lease_scan y));
  _ ← revoke_prog (rv_revoke y) requests (hash_iter active);
  rs ← tau (scan_pending (rv_pending_scan y));
  recovered_prog (rv_run y) rs.
End Calls.

(** ** Running alone *)

(** A program implements a handler if, uninterrupted, it does the same. *)
Definition implements {A} (p : Prog A) (m : M Runtime Halt A) : Prop := ∀ s, run p s = m s.

Lemma implements_bind {A B} (p : Prog A) (f : A → Prog B) m g :
  implements p m → (∀ a, implements (f a) (g a)) → implements (p ≫= f) (m ≫= g).
Proof.
  intros Hp Hf s. unfold mbind at 2, M_bind. rewrite <-Hp. clear Hp.
  revert s. induction p as [[a|h]|lb C mc k IH]; intros s; [apply Hf|done|].
  simpl. destruct (mc s) as [b s']. apply IH.
Qed.
Lemma implements_settle {A} (p : Prog A) m : implements p m → implements (psettle p) (settle m).
Proof.
  intros Hp s. unfold settle. rewrite <-Hp. clear Hp.
  revert s. induction p as [[a|[]]|lb C mc k IH]; intros s; [done..|].
  simpl. destruct (mc s) as [b s']. apply IH.
Qed.
Lemma implements_act {A} lb (m : M Runtime Halt A) : implements (act lb m) m.
Proof. intros s. simpl. by destruct (m s). Qed.
Lemma implements_ret {A} (a : A) : implements (mret a) (mret a).
Proof. done. Qed.
Lemma implements_throw {A} h : implements (A := A) (pthrow h) (throw h).
Proof. done. Qed.
Lemma implements_lift {A} (r : result Halt A) : implements (Ret r) (lift r).
Proof. done. Qed.
Lemma implements_trigger crash p : implements (ptrigger crash p) (trigger crash p).
Proof. intros s. unfold ptrigger, trigger. by case_decide. Qed.
#[global] Hint Resolve implements_settle implements_act implements_ret implements_throw
  implements_lift implements_trigger : apeir.

(** The part of the state a component holds, one action at a time. *)
Lemma on_x_bind {A B} (m : M XState Halt A) (f : A → M XState Halt B) s :
  on_x (m ≫= f) s = (on_x m ≫= λ a, on_x (f a)) s.
Proof.
  unfold on_x, zoom, mbind, M_bind. destruct (m (rt_x s)) as [[a|h] x]; [|done].
  simpl. by destruct (f a x).
Qed.
Lemma on_leases_bind {A B} (m : M LeaseManager NousError A) (f : A → M LeaseManager NousError B) s :
  on_leases (m ≫= f) s = (on_leases m ≫= λ a, on_leases (f a)) s.
Proof.
  unfold on_leases, zoom, map_err_M, mbind, M_bind.
  destruct (m (rt_leases s)) as [[a|h] x]; [|done]. simpl. by destruct (f a x).
Qed.

(** Splitting a component's calls into actions. *)
Lemma implements_on_x {A B} (p : Prog A) (f : A → Prog B) m g :
  implements p (on_x m) → (∀ a, implements (f a) (on_x (g a))) →
  implements (p ≫= f) (on_x (m ≫= g)).
Proof. intros Hp Hf s. rewrite on_x_bind. by apply implements_bind. Qed.
Lemma implements_on_leases {A B} (p : Prog A) (f : A → Prog B) m g :
  implements p (on_leases m) → (∀ a, implements (f a) (on_leases (g a))) →
  implements (p ≫= f) (on_leases (m ≫= g)).
Proof. intros Hp Hf s. rewrite on_leases_bind. by apply implements_bind. Qed.
Lemma implements_on_x_ret {A} (a : A) : implements (mret a) (on_x (mret a)).
Proof. by intros []. Qed.
Lemma implements_on_leases_ret {A} (a : A) : implements (mret a) (on_leases (mret a)).
Proof. by intros []. Qed.
Lemma implements_on_x_throw {A} h : implements (A := A) (pthrow h) (on_x (throw h)).
Proof. by intros []. Qed.
Lemma implements_on_x_trigger crash p : implements (ptrigger crash p) (on_x (trigger crash p)).
Proof. intros []. unfold ptrigger, trigger. by case_decide. Qed.
#[global] Hint Resolve implements_on_x_ret implements_on_leases_ret implements_on_x_throw
  implements_on_x_trigger : apeir.

(** Walk through the two bodies together. *)
Ltac implements_step :=
  first
    [ solve [eauto with apeir]
    | apply implements_bind; [|intros ?] | apply implements_on_x; [|intros ?]
    | apply implements_on_leases; [|intros ?] | case_match ].

Section Alone.
Context `{JournalEnv} `{TextPlatform} `{FloatPlatform} `{HostPlatform} `{HashOrder}.
Context `{Serde OperationRequest} `{Serde OperationReceipt} `{Serde DecisionTrace}.
Context `{Serde FencedLease} `{Serde ExecutionProfile} `{Serde Json}.

Lemma entry_implements io e :
  implements (entry_prog io e)
    (on_x (zoom x_journal (λ j s, mkX j (x_calls s))
       (map_err_M (λ e, Failed_ (journal_error e)) (append io e)))).
Proof.
  intros [st [j calls] lm a]. unfold entry_prog, append. destruct (je_idempotency_key e) as [key|] eqn:Hk.
  - simpl. unfold map_err_M, on_x, zoom. simpl.
    destruct (find_by_idempotency_key io j key) as [[seq|]|err]; simpl; [done| |done].
    unfold commit_entry, on_x, zoom, map_err_M. simpl. by destruct (append_commit io e j) as [[]].
  - unfold tau. rewrite implements_act. done.
Qed.
Lemma append_implements `{Serde T} io r t obj ph (payload : T) key :
  implements (append_prog io r t obj ph payload key)
    (on_x (exec_append io r t obj ph payload (Some key))).
Proof.
  intros s. unfold append_prog, exec_append. destruct (to_vec payload) as [b|]; [|by destruct s as [? []]].
  cbn [ok_or]. set (e := operation_entry _ _ _ _ _ _).
  change (run (_ ← entry_prog io e; mret tt) s =
    on_x (λ x, match append io e (x_journal x) with
               | (Err err, j') => (Err (Failed_ (journal_error err)), mkX j' (x_calls x))
               | (Ok _, j') => (Ok tt, mkX j' (x_calls x))
               end) s).
  rewrite (implements_bind _ _ _ (λ _, mret tt) (entry_implements _ _)) by done.
  unfold on_x, zoom, map_err_M, mbind, M_bind. destruct s as [st [j calls] lm a]. simpl.
  by destruct (append _ _ _) as [[]].
Qed.
Lemma profile_implements x p : implements (profile_prog x p) (record_profile_rt x p).
Proof.
  intros s. unfold profile_prog, record_profile_rt, record_profile.
  destruct (to_vec _) as [b|] eqn:Hb; cbn [ok_or].
  - etrans; [apply (entry_implements (ri_profile x) (profile_entry (set_recorded (ri_profile_now x) p) b))|].
    unfold on_x, zoom, map_err_M. by destruct s as [st [j calls] lm a].
  - destruct s as [st [j calls] lm a]. done.
Qed.
#[local] Hint Resolve append_implements profile_implements : apeir.

Lemma grant_implements g q : implements (grant_prog g q) (on_leases (grant_fenced g q)).
Proof.
  intros s. unfold grant_prog, grant_fenced, grant_internal.
  assert (∀ s', on_leases (lease ← (_ ← grant_check (gi_scan1 g) q; grant_insert g q);
            let key := resource_key (lq_node_id q) (lq_device_id q) in
            fencing_token ← draw_token;
            _ ← store_lease_token (rl_lease_id lease) fencing_token;
            _ ← store_resource_token key fencing_token;
            mret (mkFenced lease fencing_token key)) s' =
          on_leases (_ ← grant_check (gi_scan1 g) q; lease ← grant_insert g q;
            let key := resource_key (lq_node_id q) (lq_device_id q) in
            fencing_token ← draw_token;
            _ ← store_lease_token (rl_lease_id lease) fencing_token;
            _ ← store_resource_token key fencing_token;
            mret (mkFenced lease fencing_token key)) s') as ->.
  { intros s'. unfold on_leases, zoom, map_err_M, mbind, M_bind.
    by destruct (grant_check _ _ _) as [[]]. }
  revert s. repeat implements_step.
Qed.

Lemma call_implements {A} x r (f : OperationReceipt → Prog A) g :
  (∀ a, implements (f a) (on_x (g a))) →
  implements (_ ← act (Begin r) (on_x (call_begin r));
              receipt ← act (End_ r) (call_end x r); f receipt)
             (on_x (call_provider x r ≫= g)).
Proof.
  intros Hf s. rewrite on_x_bind. unfold on_x at 2, zoom, call_provider, mbind at 3, M_bind.
  simpl. destruct (xio_provider x r); [apply Hf|done].
Qed.

Lemma obtain_implements x r : implements (obtain_prog x r) (on_x (obtain_receipt x r)).
Proof.
  unfold obtain_prog, obtain_receipt. implements_step; [implements_step|].
  case_match; [implements_step|]. implements_step; [implements_step|]. apply call_implements. intros receipt.
  repeat implements_step.
Qed.

Lemma execute_implements x r : implements (execute_prog x r) (on_x (execute_cancellable x r)).
Proof.
  pose proof (obtain_implements x r). unfold execute_prog, execute_cancellable.
  repeat implements_step.
Qed.

Lemma acquire_implements x r : implements (acquire_prog x r) (acquire x r).
Proof.
  pose proof grant_implements. unfold acquire_prog, acquire, confirm_prog, drop_prog, drop_lease.
  repeat implements_step.
Qed.

Lemma finish_implements x r b fenced trace device execution :
  implements (finish_prog x r b fenced trace device execution)
             (finish x r b fenced trace device execution).
Proof.
  unfold finish_prog, close_prog, return_prog, finish, failure_prog, record_failure. repeat implements_step.
Qed.

Lemma internal_implements x b r : implements (internal_prog x b r) (execute_internal x b r).
Proof.
  pose proof (acquire_implements x r). pose proof (execute_implements (ri_exec x) r).
  pose proof (finish_implements x r b). unfold internal_prog, execute_internal.
  repeat implements_step.
Qed.

Lemma candidate_implements c plan step op cand st :
  implements (candidate_prog c plan step op cand st) (try_candidate c plan step op cand st).
Proof.
  pose proof internal_implements. unfold candidate_prog, try_candidate, outcome_prog,
    record_candidate_outcome, execute_request, rebind_if_failed_prog, rebind_if_failed, rebind_prog,
    record_rebind. repeat implements_step.
Qed.

Lemma candidates_implements c plan step op i cands st :
  implements (candidates_prog c plan step op i cands st) (candidates_loop c plan step op i cands st).
Proof.
  revert i st. induction cands as [|cand rest IH]; intros i st; cbn [candidates_prog candidates_loop].
  - implements_step.
  - apply implements_bind; [apply candidate_implements|intros [st1|[ex st1]]]; [apply IH|].
    implements_step.
Qed.

Lemma steps_implements y plan i steps completed failovers :
  implements (steps_prog y plan i steps completed failovers)
             (steps_loop y plan i steps completed failovers).
Proof.
  revert i completed failovers.
  induction steps as [|step rest IH]; intros i completed failovers; cbn [steps_prog steps_loop].
  - implements_step.
  - apply implements_bind; [|intros [ex f1]; apply IH].
    pose proof candidates_implements. unfold step_prog, run_step. repeat implements_step.
Qed.

Lemma plan_implements y plan : implements (plan_prog y plan) (execute_continuously y plan).
Proof.
  pose proof steps_implements. unfold plan_prog, execute_continuously. repeat implements_step.
Qed.

Lemma revoke_implements io requests orphans :
  implements (revoke_prog io requests orphans) (revoke_loop io requests orphans).
Proof.
  induction orphans as [|[id [w l]] rest IH]; cbn [revoke_prog revoke_loop]; repeat implements_step.
Qed.

Lemma recovered_implements run rs :
  implements (recovered_prog run rs) (recover_loop run rs).
Proof.
  pose proof internal_implements.
  induction rs as [|r rs IH]; cbn [recovered_prog recover_loop]; repeat implements_step.
Qed.

(** Recovery with its first scan apart. *)
Lemma runtime_recover_scans y s :
  runtime_recover y s =
  ('(requests, active) ← scan_leases (rv_lease_scan y);
   _ ← revoke_loop (rv_revoke y) requests (hash_iter active);
   rs ← scan_pending (rv_pending_scan y);
   recover_loop (rv_run y) rs) s.
Proof.
  unfold runtime_recover, revoke_orphaned_leases, scan_leases, mbind, M_bind.
  destruct (read_from _ _ _) as [es|e]; simpl; [|done]. by destruct (lease_scan es).
Qed.

Lemma recover_implements y : implements (recover_prog y) (runtime_recover y).
Proof.
  intros s. rewrite runtime_recover_scans. revert s. pose proof revoke_implements.
  pose proof recovered_implements. unfold recover_prog.
  repeat implements_step.
Qed.

(** Uninterrupted, the programs of atomic actions are the handlers: an
    execution is [execute_internal], a plan is [execute_continuously] and a
    recovery is [recover], with the same result and the same state, for every
    request, plan and state and everything the environment may do. *)
Theorem alone_is_handler s :
  (∀ x b r, run (internal_prog x b r) s = execute_internal x b r s) ∧
  (∀ y plan, run (plan_prog y plan) s = execute_continuously y plan s) ∧
  (∀ y, run (recover_prog y) s = runtime_recover y s).
Proof.
  split_and!; intros; [apply internal_implements|apply plan_implements|apply recover_implements].
Qed.
End Alone.
