(* ===== verification/Tasks.v ===== *)
(** * What a task may rely on

    A logic for the programs of [Interleave] when other programs act in between:
    what a task holds and knows of the state it shares, what an action may do to
    it, and that executions, plans and recoveries keep to these rules. What is
    assumed of the callers and of time is a parameter, so that each theorem says
    which of these assumptions it needs. *)

From S2P Require Import Prelude Errors Float64 Resource Fencing Workload Journal Semantic Lease.
From S2P Require Import Admission Policy Placement Provider Executor Coordinator Refines Continuity.
From S2P Require Import Interleave.
Local Open Scope Z_scope.

(** ** Assumptions *)

(** [timed]: when a task draws a lease, no lease of the same workload has run
    out, that is, executions end before their leases do. [disciplined]: callers
    use an operation identifier under one workload only, and their provider
    revisions do not imitate a journal key. The code enforces neither. [plans]:
    whether plans are among the tasks. *)
Record Rules : Type := mkRules { timed : bool; disciplined : bool; plans : bool }.
Definition strict (R : Rules) : Prop := timed R = true ∧ disciplined R = true.

(** ** Holding a lease *)

(** How far a task has come: without a lease, or holding one for a request, and
    what it then knows of the journal, which no other task can change. *)
Inductive knowledge : Type := Plain | Uncommitted | Unreceived | Calling.
Inductive held : Type := Free | Hold (r : OperationRequest) (id : string) (st : knowledge).

Definition own (g : held) : option string :=
  match g with Free => None | Hold _ id _ => Some id end.
Definition request (g : held) : option OperationRequest :=
  match g with Free => None | Hold r _ _ => Some r end.
Definition calling (g : held) : bool :=
  match g with Hold _ _ Calling => true | _ => false end.

(** A lease is drawn by a task that has none. *)
Definition draws (lb : Label) (g : held) : Prop :=
  match lb with Insert _ _ => g = Free | _ => True end.

(** The records of the workload [w] have no mark of [op]. *)
Definition no_mark_in (k : mark) (w op : string) (x : XState) : Prop :=
  ∀ e, e ∈ entries (x_journal x) → je_workload_id e = w → ¬ is_mark k op e.

Section Tasks.
Context `{JournalEnv} `{TextPlatform} `{FloatPlatform} `{HostPlatform} `{HashOrder}.
Context `{Serde OperationRequest} `{Serde OperationReceipt} `{Serde DecisionTrace}.
Context `{Serde FencedLease} `{Serde ExecutionProfile} `{Serde Json}.
Context `{!SerdeLaws OperationRequest} `{!SerdeLaws OperationReceipt}.
Context (wl : string → string) (R : Rules).

Notation valid_request := (valid_request wl).
Notation table s := (leases (rt_leases s)).
Notation records s := (entries (x_journal (rt_x s))).

(** What callers promise of a request. *)
Definition allowed (r : OperationRequest) : Prop := disciplined R = true → valid_request r.

(** The lease table holds one lease per workload. *)
Definition one_per_workload (ls : gmap string ResourceLease) : Prop :=
  ∀ i k li lk, ls !! i = Some li → ls !! k = Some lk →
    rl_workload_id li = rl_workload_id lk → i = k.

(** A receipt or a commit is under the key of its operation and can be read. *)
Definition mark_ok (e : JournalEntry) : Prop :=
  ∀ k, je_object_type e = mark_object k →
    je_idempotency_key e = Some (mark_key k (je_object_id e)) ∧
    ∃ rc : OperationReceipt, from_slice (je_payload e) = Some rc.

(** A plan records the intent of a step again without holding its lease, so only
    without plans no committed operation is intended again. *)
Record safe (s : Runtime) : Prop := {
  sf_journal : journal_ok (x_journal (rt_x s));
  sf_marks : Forall mark_ok (records s);
  sf_spec : disciplined R = true → Forall (entry_spec wl plain_request) (records s);
  sf_settled : strict R → plans R = false → settled (records s);
  sf_locks : locks_ok (rt_leases s);
  sf_table : timed R = true → one_per_workload (table s)
}.

Definition knows (st : knowledge) (r : OperationRequest) (x : XState) : Prop :=
  let none k := no_mark_in k (rq_workload_id r) (rq_operation_id r) x in
  match st with
  | Plain => True
  | Uncommitted => none MCommit
  | Unreceived | Calling => none MCommit ∧ none MReceipt
  end.
Definition holds_in (g : held) (s : Runtime) : Prop :=
  match g with
  | Free => True
  | Hold r id st =>
      allowed r ∧
      (∃ l, table s !! id = Some l ∧ rl_workload_id l = rq_workload_id r) ∧
      (timed R = true → knows st r (rt_x s))
  end.

(** What a step of a task that takes it from [g] to [g'] does to the state it
    shares. *)
Record astep (g : held) (s s' : Runtime) (g' : held) : Prop := {
  as_safe : safe s';
  as_holds : holds_in g' s';
  as_own : ∀ id, own g' = Some id → own g = Some id ∨ table s !! id = None;
  as_table : ∀ id, own g' ≠ Some id →
    table s' !! id = if decide (own g = Some id) then None else table s !! id;
  as_marks : ∀ k w op, rq_workload_id <$> request g ≠ Some w →
    no_mark_in k w op (rt_x s) → no_mark_in k w op (rt_x s');
  as_prefix : records s `prefix_of` records s'
}.

(** The two ends of a provider call, and that nothing else calls it. *)
Definition call_step (lb : Label) (g g' : held) (x x' : XState) : Prop :=
  match lb with
  | Begin r =>
      x_calls x' = rq_operation_id r :: x_calls x ∧
      ∃ id, g = Hold r id Unreceived ∧ g' = Hold r id Calling
  | End_ r =>
      x_calls x' = x_calls x ∧ ∃ id, g = Hold r id Calling ∧ g' = Hold r id Unreceived
  | _ => x_calls x' = x_calls x ∧ calling g = false ∧ calling g' = false
  end.

(** No identifier of a lease in the table is drawn again; and, if executions are
    assumed to end before their leases do, no lease of the workload has run out
    at the scan. *)
Definition timely (lb : Label) (s : Runtime) : Prop :=
  match lb with
  | Insert w g =>
      table s !! gi_uuid g = None ∧
      (timed R = true →
       map_Forall (λ _ l, rl_workload_id l = w → gi_scan2 g < rl_expires_at l) (table s))
  | _ => True
  end.
#[global] Instance timely_dec lb s : Decision (timely lb s).
Proof. destruct lb; apply _. Defined.

(** A program keeps to these rules from [g] on, whatever the others do in
    between, and ends as [Q] says. *)
Fixpoint okp {A} (p : Prog A) (g : held)
    (Q : result Halt A → held → Prop) : Prop :=
  match p with
  | Ret a => Q a g
  | Atom lb m k => draws lb g ∧ ∀ s, safe s → holds_in g s → timely lb s →
      ∃ g', astep g s (m s).2 g' ∧ call_step lb g g' (rt_x s) (rt_x (m s).2) ∧
            okp (k (m s).1) g' Q
  end.

Lemma okp_mono {A} (p : Prog A) g (Q Q' : result Halt A → held → Prop) :
  okp p g Q → (∀ a g', Q a g' → Q' a g') → okp p g Q'.
Proof.
  revert g. induction p as [a|lb B m k IH]; simpl; intros g Hp HQ; [auto|].
  destruct Hp as [Hd Hp]. split; [done|].
  intros s Hs Hg Ht. destruct (Hp s Hs Hg Ht) as (g' & Ha & Hc & Hk). exists g'. eauto.
Qed.

Lemma okp_bind {A B} (p : Prog A) (f : A → Prog B) g Q :
  okp p g (λ a g', match a with Ok a => okp (f a) g' Q | Err h => Q (Err h) g' end) →
  okp (p ≫= f) g Q.
Proof.
  revert g. induction p as [[a|h]|lb C m k IH]; simpl; intros g Hp; [done|done|].
  destruct Hp as [Hd Hp]. split; [done|].
  intros s Hs Hg Ht. destruct (Hp s Hs Hg Ht) as (g' & Ha & Hc & Hk). exists g'. eauto.
Qed.

Lemma okp_settle {A} (p : Prog A) g Q :
  okp p g (λ a, Q (settle_result a)) → okp (psettle p) g Q.
Proof.
  revert g. induction p as [a|lb C m k IH]; simpl; intros g Hp; [done|].
  destruct Hp as [Hd Hp]. split; [done|].
  intros s Hs Hg Ht. destruct (Hp s Hs Hg Ht) as (g' & Ha & Hc & Hk). exists g'. eauto.
Qed.

Lemma okp_trigger crash p g Q :
  Q (Ok tt) g → Q (Err (Crashed p)) g → okp (ptrigger crash p) g Q.
Proof. unfold ptrigger. by case_decide. Qed.

(** *** Actions that concern nobody else *)

Record inert (s s' : Runtime) : Prop := {
  in_safe : safe s';
  in_table : table s' = table s;
  in_calls : x_calls (rt_x s') = x_calls (rt_x s);
  in_marks : ∀ k w op, no_mark_in k w op (rt_x s) → no_mark_in k w op (rt_x s');
  in_prefix : records s `prefix_of` records s'
}.

Lemma knows_mono st r x x' :
  (∀ k, no_mark_in k (rq_workload_id r) (rq_operation_id r) x →
        no_mark_in k (rq_workload_id r) (rq_operation_id r) x') →
  knows st r x → knows st r x'.
Proof. intros Hm. destruct st; simpl; [done|apply Hm|intros [??]; by split; apply Hm..]. Qed.

Lemma inert_astep g s s' : inert s s' → holds_in g s → astep g s s' g.
Proof.
  intros [Hs Ht Hc Hm Hp] Hg. split; [done| |by left| |auto|done].
  - destruct g as [|r id st]; [done|]. destruct Hg as (Hr & Hl & Hk).
    split_and!; [done|by rewrite Ht|]. intros Htm. eapply knows_mono; [|by apply Hk]. auto.
  - intros id Hid. rewrite Ht. by case_decide.
Qed.

Lemma inert_refl s : safe s → inert s s.
Proof. by split. Qed.

Lemma okp_inert_wp {A} (m : M Runtime Halt A) g Q :
  calling g = false → (∀ s, safe s → holds_in g s → inert s (m s).2 ∧ Q (m s).1 g) → okp (tau m) g Q.
Proof.
  intros Hg Hm. split; [done|]. intros s Hs Hh _. destruct (Hm s Hs Hh) as [Hi HQ]. exists g.
  split; [by apply inert_astep|]. split; [|exact HQ]. by split; [apply Hi|].
Qed.
Lemma okp_inert {A} (m : M Runtime Halt A) g Q :
  calling g = false → (∀ s, safe s → inert s (m s).2) → (∀ a, Q a g) → okp (tau m) g Q.
Proof. intros Hg Hm HQ. apply okp_inert_wp; [done|]. auto. Qed.

(** *** Records *)

(** The mark of an operation is in the operation's workload. *)
Lemma no_mark_everywhere k r s :
  disciplined R = true → safe s → allowed r →
  no_mark_in k (rq_workload_id r) (rq_operation_id r) (rt_x s) → no_mark k (rq_operation_id r) (rt_x s).
Proof.
  intros Hd Hs Hr Hno e He Hm. apply (Hno e He); [|done]. pose proof (sf_spec _ Hs Hd) as Hes.
  rewrite Forall_forall in Hes. destruct Hm as (_ & Ho & Hid).
  destruct (es_mark _ _ _ (Hes e He) k Ho) as (_ & _ & Hw & _).
  rewrite Hw, Hid. symmetry. by apply Hr.
Qed.

Lemma mark_ok_unique l k op e1 e2 :
  (∀ key a b, a ∈ l → b ∈ l → je_idempotency_key a = Some key → je_idempotency_key b = Some key →
     a = b) →
  Forall mark_ok l → e1 ∈ l → e2 ∈ l → is_mark k op e1 → is_mark k op e2 → e1 = e2.
Proof.
  intros Hu Hm Ha Hb (_ & Ho1 & <-) (_ & Ho2 & Hid). rewrite Forall_forall in Hm.
  destruct (Hm _ Ha k Ho1) as [K1 _]. destruct (Hm _ Hb k Ho2) as [K2 _]. rewrite Hid in K2.
  by eapply Hu.
Qed.
Lemma safe_mark_unique s k op e1 e2 :
  safe s → e1 ∈ records s → e2 ∈ records s → is_mark k op e1 → is_mark k op e2 → e1 = e2.
Proof.
  intros Hs. apply mark_ok_unique; [|apply Hs]. intros. eapply entry_key_unique; [apply Hs|done..].
Qed.

Lemma mark_ok_other e : (∀ k, je_object_type e ≠ mark_object k) → mark_ok e.
Proof. intros Ho k Hk. by destruct (Ho k). Qed.

(** What an entry must be for its insertion to be safe. *)
Record writable (e : JournalEntry) (s : Runtime) : Prop := {
  wr_wf : entry_wf e;
  wr_mark : mark_ok e;
  wr_spec : disciplined R = true → entry_spec wl plain_request e;
  wr_intent : strict R → plans R = false →
    ∀ op, is_intent op e → no_mark MCommit op (rt_x s)
}.

Lemma foreign_writable e s : foreign e → entry_wf e → writable e s.
Proof.
  intros Hf Hwf. split; [done|apply mark_ok_other, Hf|intros _; by apply foreign_spec|].
  intros _ _ op (Hi & Ho & _). by destruct Hf as (_ & [] & _).
Qed.

(** The state with the journal [j]. *)
Definition with_journal (j : Journal) (s : Runtime) : Runtime :=
  set_rt_x (mkX j (x_calls (rt_x s))) s.
Lemma with_journal_id s : with_journal (x_journal (rt_x s)) s = s.
Proof. by destruct s as [? [] ? ?]. Qed.

Lemma push_safe io e s :
  safe s → writable e s → next_seq (x_journal (rt_x s)) ≤ i64_max →
  (∀ k, je_idempotency_key e = Some k → ¬ key_used (x_journal (rt_x s)) k) →
  safe (with_journal (push io e (x_journal (rt_x s))) s).
Proof.
  intros [Hj Hm Hsp Hst Hl Ht] [Hwf Hme Hse Hie] Hn Hk.
  split; simpl; [by apply push_ok| | | |done|done]; rewrite entries_push.
  - apply Forall_app. split; [done|]. by apply Forall_singleton.
  - intros Hd. apply Forall_app. split; [by apply Hsp|]. apply Forall_singleton.
    by apply entry_spec_finalize, Hse.
  - intros Hstr Hp. apply settled_snoc. split; [by apply Hst|]. intros op Hi.
    apply Forall_forall. by apply (Hie Hstr Hp).
Qed.

(** The insertion of an entry, under the sequence lock. *)
Lemma commit_entry_cases io e s :
  let s' := (commit_entry io e s).2 in
  (∃ err, (commit_entry io e s).1 = Err (Failed_ err) ∧ s' = s) ∨
  ((∃ n, (commit_entry io e s).1 = Ok n) ∧ s' = with_journal (push io e (x_journal (rt_x s))) s ∧
   next_seq (x_journal (rt_x s)) ≤ i64_max ∧
   ∀ k, je_idempotency_key e = Some k → ¬ key_used (x_journal (rt_x s)) k).
Proof.
  unfold commit_entry, on_x, zoom, map_err_M. simpl.
  destruct (append_commit io e _) as [res j'] eqn:Ha. apply append_commit_cases in Ha
    as [(err & -> & ->)|(-> & -> & Hn & Hk)]; simpl.
  - left. eexists. split; [done|]. by destruct s as [? [] ? ?].
  - right. by split; [eexists|].
Qed.
Lemma commit_entry_no_crash io e s p : (commit_entry io e s).1 ≠ Err (Crashed p).
Proof.
  destruct (commit_entry_cases io e s) as [(err & -> & _)|((n & ->) & _)]; discriminate.
Qed.

Lemma commit_entry_safe io e s : safe s → writable e s → safe (commit_entry io e s).2.
Proof.
  intros Hs Hw. destruct (commit_entry_cases io e s) as [(err & _ & ->)|(_ & -> & Hn & Hk)]; [done|].
  by apply push_safe.
Qed.
Lemma commit_entry_marks io e s k w op :
  (is_mark k op e → je_workload_id e ≠ w) →
  no_mark_in k w op (rt_x s) → no_mark_in k w op (rt_x (commit_entry io e s).2).
Proof.
  intros He Hno. destruct (commit_entry_cases io e s) as [(err & _ & ->)|(_ & -> & _)]; [done|].
  unfold no_mark_in. simpl. rewrite entries_push. intros e' He' Hw Hm.
  apply elem_of_app in He' as [He'| ->%list_elem_of_singleton]; [by apply (Hno e')|].
  by apply (He Hm).
Qed.
Lemma commit_entry_prefix io e s : records s `prefix_of` records (commit_entry io e s).2.
Proof.
  destruct (commit_entry_cases io e s) as [(err & _ & ->)|(_ & -> & _)]; [done|].
  simpl. rewrite entries_push. by apply prefix_app_r.
Qed.
Lemma commit_entry_rest io e s :
  rt_leases (commit_entry io e s).2 = rt_leases s ∧
  x_calls (rt_x (commit_entry io e s).2) = x_calls (rt_x s).
Proof. by destruct (commit_entry_cases io e s) as [(err & _ & ->)|(_ & -> & _)]. Qed.

Lemma inert_commit io e s :
  (∀ k, je_object_type e ≠ mark_object k) → writable e s → safe s → inert s (commit_entry io e s).2.
Proof.
  intros Ho Hw Hs. destruct (commit_entry_rest io e s) as [Hl Hc].
  split; [by apply commit_entry_safe|by rewrite Hl|done| |apply commit_entry_prefix].
  intros k w op. apply commit_entry_marks. intros (_ & Hm & _). by destruct (Ho k).
Qed.

(** An entry that is no mark. *)
Lemma okp_entry io e g Q :
  calling g = false → (∀ k, je_object_type e ≠ mark_object k) →
  (∀ s, safe s → holds_in g s → writable e s) →
  (∀ n, Q (Ok n) g) → (∀ err, Q (Err (Failed_ err)) g) →
  okp (entry_prog io e) g Q.
Proof.
  intros Hg Ho Hw HO HE.
  assert (okp (tau (commit_entry io e)) g Q) as Hcommit.
  { apply okp_inert_wp; [done|]. intros s Hs Hh. split; [apply inert_commit; auto|].
    pose proof (commit_entry_no_crash io e s). destruct (commit_entry io e s).1 as [n|[err|p]]; naive_solver. }
  unfold entry_prog. destruct (je_idempotency_key e) as [key|]; [|done].
  apply okp_bind, okp_inert_wp; [done|]. intros s Hs _. split; [by apply inert_refl|]. simpl.
  destruct (find_by_idempotency_key _ _ _) as [[n|]|err]; simpl; auto.
Qed.

Lemma operation_entry_wf r t obj ph b key : entry_wf (operation_entry r t obj ph b key).
Proof. unfold entry_wf, u64_ok, u64_max. simpl. lia. Qed.

Lemma okp_append `{Serde T} io r t obj ph (payload : T) key g Q :
  calling g = false → (∀ k, obj ≠ mark_object k) →
  (∀ s b, to_vec payload = Some b → safe s → holds_in g s →
     writable (operation_entry r t obj ph b (Some key)) s) →
  Q (Ok tt) g → (∀ err, Q (Err (Failed_ err)) g) →
  okp (append_prog io r t obj ph payload key) g Q.
Proof.
  intros Hg Ho Hw HO HE. apply okp_bind. destruct (to_vec payload) as [b|] eqn:Hb; [|apply HE].
  apply okp_bind, okp_entry; auto.
Qed.

(** The object types of other records, and the keys that callers must not
    imitate. *)
Lemma foreign_object_mark t obj k : foreign_object t obj = true → obj ≠ mark_object k.
Proof.
  unfold foreign_object. rewrite andb_true_iff, bool_decide_eq_true. intros [Ho _] ->.
  apply Ho. destruct k; set_solver.
Qed.
Lemma record_writable r t obj ph b key s :
  foreign_object t obj = true → (disciplined R = true → foreign_key key) →
  writable (operation_entry r t obj ph b (Some key)) s.
Proof.
  intros Ho Hk. split; [apply operation_entry_wf| | |].
  - apply mark_ok_other. intros k. simpl. by eapply foreign_object_mark.
  - intros Hd. apply foreign_spec, (operation_entry_foreign wl no_ops); auto.
  - intros _ _ op (Ht & Hobj & _). simpl in *. subst. done.
Qed.
Lemma okp_append_foreign `{Serde T} io r t obj ph (payload : T) key g Q :
  calling g = false → foreign_object t obj = true → (disciplined R = true → foreign_key key) →
  Q (Ok tt) g → (∀ err, Q (Err (Failed_ err)) g) →
  okp (append_prog io r t obj ph payload key) g Q.
Proof.
  intros Hg Ho Hk HO HE. apply okp_append; [done| | |done|done].
  - intros k. by eapply foreign_object_mark.
  - intros. by apply record_writable.
Qed.

Lemma okp_profile x p g Q :
  calling g = false → (∀ n, Q (Ok n) g) → (∀ err, Q (Err (Failed_ err)) g) →
  okp (profile_prog x p) g Q.
Proof.
  intros Hg HO HE. unfold profile_prog. apply okp_bind. destruct (to_vec _) as [b|]; [|apply HE].
  apply okp_entry; [done|by intros []| |done|done]. intros s _ _.
  apply foreign_writable; [apply profile_entry_foreign|]. unfold entry_wf, u64_ok, u64_max. simpl. lia.
Qed.

(** Tried, for its effect. *)
Lemma okp_try_append `{Serde T} io r t obj ph (payload : T) key g Q :
  calling g = false → foreign_object t obj = true → (disciplined R = true → foreign_key key) →
  (∀ a, Q (Ok a) g) → okp (psettle (append_prog io r t obj ph payload key)) g Q.
Proof. intros Hg Ho Hk HQ. by apply okp_settle, okp_append_foreign; cbn [settle_result]. Qed.

Lemma okp_try_profile x p g Q :
  calling g = false → (∀ a, Q (Ok a) g) → okp (psettle (profile_prog x p)) g Q.
Proof. intros Hg HQ. by apply okp_settle, okp_profile; cbn [settle_result]. Qed.

Lemma inert_active s a : safe s → inert s (set_rt_active a s).
Proof. intros []. by split. Qed.
Lemma inert_active_insert r s : safe s → inert s (active_insert r s).2.
Proof. intros Hs. unfold active_insert. destruct (lock _); [by apply inert_active|by apply inert_refl]. Qed.
Lemma inert_active_remove w s : safe s → inert s (active_remove w s).2.
Proof. intros Hs. unfold active_remove. destruct (lock _); [by apply inert_active|by apply inert_refl]. Qed.

(** The lease manager's own bookkeeping: its table stays. *)
Lemma inert_leases {A} (m : M LeaseManager NousError A) s :
  (locks_ok (rt_leases s) → locks_ok (m (rt_leases s)).2 ∧
     leases (m (rt_leases s)).2 = leases (rt_leases s)) →
  safe s → inert s (on_leases m s).2.
Proof.
  intros Hm [Hj Hmk Hsp Hst Hl Ht]. destruct (Hm Hl) as [Hl' Hm']. unfold on_leases, zoom, map_err_M.
  destruct (m (rt_leases s)) as [[?|?] lm]; simpl in *;
    (split; [split|..]; simpl; rewrite ?Hm'; done).
Qed.

Lemma inert_grant_check now q s : safe s → inert s (on_leases (grant_check now q) s).2.
Proof.
  apply inert_leases. intros Hl. unfold grant_check. destruct (lock_or_error _ _); [|done].
  by case_match.
Qed.
Lemma inert_draw s : safe s → inert s (on_leases draw_token s).2.
Proof. by apply inert_leases. Qed.
Lemma inert_store_lease id t s : safe s → inert s (on_leases (store_lease_token id t) s).2.
Proof.
  apply inert_leases. intros Hl. unfold store_lease_token. by destruct (lock_or_error _ _).
Qed.
Lemma inert_store_resource k t s : safe s → inert s (on_leases (store_resource_token k t) s).2.
Proof.
  apply inert_leases. intros Hl. unfold store_resource_token. by destruct (lock_or_error _ _).
Qed.

(** *** Actions that matter *)

Lemma astep_learn r id st st' s :
  safe s → holds_in (Hold r id st) s → (timed R = true → knows st' r (rt_x s)) →
  astep (Hold r id st) s s (Hold r id st').
Proof.
  intros Hs (Hr & Hl & _) Hk. split; [done|done|by left| |done|done].
  intros i Hi. rewrite decide_False; naive_solver.
Qed.

(** [l] holds a mark of [op] with the receipt [rc]. *)
Definition marked_in (k : mark) (op : string) (rc : OperationReceipt) (l : list JournalEntry) : Prop :=
  ∃ e, e ∈ l ∧ is_mark k op e ∧ from_slice (je_payload e) = Some rc.
Notation committed_in := (marked_in MCommit).
Lemma marked_in_prefix k op rc l l' : l `prefix_of` l' → marked_in k op rc l → marked_in k op rc l'.
Proof. intros [m ->] (e & He & Hm). exists e. split; [|done]. apply elem_of_app. by left. Qed.

(** The reverse search finds a mark among the records of the workload, or there
    is none. *)
Lemma read_mark_in io r k s (o : option OperationReceipt) :
  safe s →
  latest_receipt (is_mark k (rq_operation_id r))
    <$> read_workload io (x_journal (rt_x s)) (rq_workload_id r) = Ok o →
  match o with
  | Some rc => marked_in k (rq_operation_id r) rc (records s)
  | None => no_mark_in k (rq_workload_id r) (rq_operation_id r) (rt_x s)
  end.
Proof.
  intros Hs Hr. destruct (read_workload _ _ _) as [es|] eqn:Hes; [|done]. injection Hr as <-.
  apply read_workload_inv in Hes as ->; [|apply Hs]. unfold latest_receipt.
  destruct (list_find _ _) as [[i e]|] eqn:Hf; simpl.
  - apply list_find_Some in Hf as (Hi & Hm & _). apply list_elem_of_lookup_2 in Hi.
    rewrite elem_of_reverse, list_elem_of_filter in Hi. destruct Hi as [_ He].
    pose proof (sf_marks _ Hs) as Hmk. rewrite Forall_forall in Hmk.
    destruct (Hmk e He k (proj1 (proj2 Hm))) as [_ [rc Hrc]]. rewrite Hrc. by exists e.
  - apply list_find_None in Hf. rewrite Forall_forall in Hf. intros e He Hw.
    apply Hf, elem_of_reverse, list_elem_of_filter. done.
Qed.

(** *** What a task has seen *)

(** The same rules, with the records a task has seen, which every later journal
    begins with. *)
Fixpoint okl {A} (p : Prog A) (g : held) (l : list JournalEntry)
    (Q : result Halt A → held → list JournalEntry → Prop) : Prop :=
  match p with
  | Ret a => Q a g l
  | Atom lb m k => draws lb g ∧ ∀ s, safe s → holds_in g s → timely lb s → l `prefix_of` records s →
      ∃ g', astep g s (m s).2 g' ∧ call_step lb g g' (rt_x s) (rt_x (m s).2) ∧
            okl (k (m s).1) g' (records (m s).2) Q
  end.

Lemma okl_mono {A} (p : Prog A) g l (Q Q' : result Halt A → held → list JournalEntry → Prop) :
  okl p g l Q → (∀ a g' l', Q a g' l' → Q' a g' l') → okl p g l Q'.
Proof.
  revert g l. induction p as [a|lb B m k IH]; simpl; intros g l Hp HQ; [auto|].
  destruct Hp as [Hd Hp]. split; [done|].
  intros s Hs Hg Ht Hl. destruct (Hp s Hs Hg Ht Hl) as (g' & Ha & Hc & Hk). exists g'. eauto.
Qed.

Lemma okl_bind {A B} (p : Prog A) (f : A → Prog B) g l Q :
  okl p g l (λ a g' l', match a with Ok a => okl (f a) g' l' Q | Err h => Q (Err h) g' l' end) →
  okl (p ≫= f) g l Q.
Proof.
  revert g l. induction p as [[a|h]|lb C m k IH]; simpl; intros g l Hp; [done|done|].
  destruct Hp as [Hd Hp]. split; [done|].
  intros s Hs Hg Ht Hl. destruct (Hp s Hs Hg Ht Hl) as (g' & Ha & Hc & Hk). exists g'. eauto.
Qed.

Lemma okl_settle {A} (p : Prog A) g l Q :
  okl p g l (λ a, Q (settle_result a)) → okl (psettle p) g l Q.
Proof.
  revert g l. induction p as [a|lb C m k IH]; simpl; intros g l Hp; [done|].
  destruct Hp as [Hd Hp]. split; [done|].
  intros s Hs Hg Ht Hl. destruct (Hp s Hs Hg Ht Hl) as (g' & Ha & Hc & Hk). exists g'. eauto.
Qed.

(** A program that learns nothing of the records. *)
Lemma okl_okp {A} (p : Prog A) g l Q :
  okp p g (λ a g', ∀ l', l `prefix_of` l' → Q a g' l') → okl p g l Q.
Proof.
  revert g l. induction p as [a|lb B m k IH]; simpl; intros g l Hp; [by apply Hp|].
  destruct Hp as [Hd Hp]. split; [done|].
  intros s Hs Hg Ht Hl. destruct (Hp s Hs Hg Ht) as (g' & Ha & Hc & Hk). exists g'.
  split_and!; [done|done|]. apply IH. eapply okp_mono; [exact Hk|]. intros a h Hq l' Hl'.
  apply Hq. etrans; [exact Hl|]. etrans; [apply (as_prefix _ _ _ _ Ha)|done].
Qed.

(** What was seen stays. *)
Lemma okl_seen {A} (p : Prog A) g l Q :
  okl p g l Q → okl p g l (λ a g' l', l `prefix_of` l' ∧ Q a g' l').
Proof.
  revert g l. induction p as [a|lb B m k IH]; simpl; intros g l Hp; [done|].
  destruct Hp as [Hd Hp]. split; [done|].
  intros s Hs Hg Ht Hl. destruct (Hp s Hs Hg Ht Hl) as (g' & Ha & Hc & Hk). exists g'.
  split_and!; [done|done|]. eapply okl_mono; [by apply IH|]. intros a h l' [Hl' Hq].
  split; [|done]. etrans; [exact Hl|]. etrans; [apply (as_prefix _ _ _ _ Ha)|done].
Qed.

(** The search for a mark. *)
Lemma okl_read io r k g g0 l Q :
  calling g = false → calling g0 = false →
  (∀ s, safe s → holds_in g s →
     no_mark_in k (rq_workload_id r) (rq_operation_id r) (rt_x s) → astep g s s g0) →
  (∀ rc l', l `prefix_of` l' → marked_in k (rq_operation_id r) rc l' → Q (Ok (Some rc)) g l') →
  (∀ e l', l `prefix_of` l' → Q (Err (Failed_ e)) g l') →
  (∀ l', l `prefix_of` l' → Q (Ok None) g0 l') →
  okl (tau (on_x (λ x, (map_err (λ e, Failed_ (journal_error e))
     (latest_receipt (is_mark k (rq_operation_id r))
        <$> read_workload io (x_journal x) (rq_workload_id r)), x)))) g l Q.
Proof.
  intros Hc Hc0 Hlearn HS HE HN. split; [done|]. intros s Hs Hh _ Hl. unfold on_x, zoom. cbn [fst snd].
  rewrite set_rt_x_id. pose proof (inert_astep g s s (inert_refl s Hs) Hh) as Hsame.
  pose proof (read_mark_in io r k s) as Hread.
  destruct (_ <$> read_workload _ _ _) as [o|e]; cbn [map_err];
    [|exists g; split; [done|split; [by split_and!|simpl; auto]]].
  specialize (Hread o Hs eq_refl).
  destruct o as [rc|]; [exists g|exists g0]; (split; [auto|split; [by split_and!|simpl; auto]]).
Qed.

(** The receipt or the commit of an operation. In between the search for its key
    and its insertion others may have inserted it, unless callers and time are as
    assumed. *)
Lemma key_found io key s n :
  (lookup_entry io key s).1 = Ok (Some n) → key_used (x_journal (rt_x s)) key.
Proof.
  unfold lookup_entry, find_by_idempotency_key. simpl. destruct (lock _) as [db|] eqn:Hl; [|done].
  apply lock_Some in Hl as [_ <-]. destruct (io_query io); [done|].
  destruct (list_find _ _) as [[i row]|] eqn:Hf; [|done]. intros _.
  apply list_find_Some in Hf as (Hi & Hk & _). apply Exists_exists. exists row.
  split; [by eapply list_elem_of_lookup_2|done].
Qed.
Lemma key_used_marked k r s :
  disciplined R = true → safe s → allowed r →
  no_mark_in k (rq_workload_id r) (rq_operation_id r) (rt_x s) →
  ¬ key_used (x_journal (rt_x s)) (mark_key k (rq_operation_id r)).
Proof.
  intros Hd Hs Hr Hno (e & He & Hke)%key_used_entry.
  apply (no_mark_everywhere k r s Hd Hs Hr Hno e He).
  pose proof (sf_spec _ Hs Hd) as Hes. rewrite Forall_forall in Hes.
  by apply (es_mark_key _ _ _ (Hes e He)).
Qed.

Lemma mark_writable k r ph (rc : OperationReceipt) b s :
  allowed r → to_vec rc = Some b →
  writable (operation_entry r (mark_type k) (mark_object k) ph b
              (Some (mark_key k (rq_operation_id r)))) s.
Proof.
  intros Hr Hb. assert (from_slice b = Some rc) as Hfrom by (by apply from_to_vec).
  split; [apply operation_entry_wf| | |].
  - intros k' Ho. simpl in *. destruct k, k'; try done; (split; [done|eauto]).
  - intros Hd. destruct (Hr Hd) as [Hw _]. split; simpl.
    + intros k' Ho. destruct k, k'; try done; (split_and!; [done..|eauto]).
    + intros k' op [= Hke]. apply mark_key_inj in Hke as [<- <-]. done.
    + intros Hi. by destruct k.
    + intros op [= Hke]. symmetry in Hke. by apply intent_key_not_mark in Hke.
  - intros _ _ op (Ht & _). by destruct k.
Qed.

(** What a task knows after a mark of the other kind. *)
Definition keeps_knowing (k : mark) (r : OperationRequest) (st st' : knowledge) : Prop :=
  ∀ x x', (∀ k', k' ≠ k → no_mark_in k' (rq_workload_id r) (rq_operation_id r) x →
             no_mark_in k' (rq_workload_id r) (rq_operation_id r) x') →
    knows st r x → knows st' r x'.

Lemma astep_mark k io r ph (rc : OperationReceipt) b id st st' s :
  safe s → holds_in (Hold r id st) s → keeps_knowing k r st st' → to_vec rc = Some b →
  let e := operation_entry r (mark_type k) (mark_object k) ph b
             (Some (mark_key k (rq_operation_id r))) in
  astep (Hold r id st) s (commit_entry io e s).2 (Hold r id st').
Proof.
  intros Hs (Hr & Hl & Hk) Hkeep Hb e. destruct (commit_entry_rest io e s) as [Hls _].
  split; [apply commit_entry_safe; [done|by eapply mark_writable]| |by left| | |apply commit_entry_prefix].
  - split_and!; [done|by rewrite Hls|]. intros Ht. eapply Hkeep; [|by apply Hk].
    intros k' Hne. apply commit_entry_marks. intros (_ & Ho & _). simpl in Ho. by destruct k, k'.
  - intros i Hi. rewrite Hls, decide_False; naive_solver.
  - intros k' w op Hw. apply commit_entry_marks. intros _ Hw'. apply Hw. simpl in *. by rewrite Hw'.
Qed.

Lemma okl_mark k io r ph (rc : OperationReceipt) id st st' l Q :
  calling (Hold r id st) = false → calling (Hold r id st') = false → allowed r →
  (∀ x, knows st r x → no_mark_in k (rq_workload_id r) (rq_operation_id r) x) →
  keeps_knowing k r st st' →
  (∀ e l', l `prefix_of` l' → Q (Err (Failed_ e)) (Hold r id st) l') →
  (∀ l', l `prefix_of` l' → (strict R → marked_in k (rq_operation_id r) rc l') →
     Q (Ok tt) (Hold r id st') l') →
  okl (append_prog io r (mark_type k) (mark_object k) ph rc (mark_key k (rq_operation_id r)))
    (Hold r id st) l Q.
Proof.
  intros Hc Hc' Hr Hno Hkeep HE HO. apply okl_bind. destruct (to_vec rc) as [b|] eqn:Hb; [|by apply HE].
  apply okl_bind. set (e := operation_entry _ _ _ _ _ _). unfold entry_prog. cbn [je_idempotency_key e].
  apply okl_bind. split; [done|]. intros s Hs Hh _ Hl.
  destruct (lookup_entry io _ s).1 as [[n|]|err] eqn:Hlook.
  - exists (Hold r id st'). split_and!; [|done|].
    { apply astep_learn; [done|done|]. intros Ht. eapply Hkeep; [by intros|by apply Hh]. }
    apply HO; [done|]. intros [Ht Hd]. exfalso. apply key_found in Hlook.
    eapply key_used_marked; [done..|apply Hno; by apply Hh|exact Hlook].
  - exists (Hold r id st). split_and!; [by apply astep_learn, Hh|done|]. clear Hs Hh Hlook.
    split; [done|]. intros s1 Hs Hh _ Hl1. change (records s `prefix_of` records s1) in Hl1.
    pose proof (astep_mark k io r ph rc b id st st' s1 Hs Hh Hkeep Hb) as Ha. fold e in Ha. simpl in Ha.
    destruct (commit_entry_rest io e s1) as [_ Hcalls].
    destruct (commit_entry_cases io e s1) as [(err & Herr & Hsame)|((n & Hn) & Hs' & _)].
    + exists (Hold r id st). rewrite Herr, Hsame. split; [by apply astep_learn, Hh|]. split; [by split_and!|].
      apply HE. etrans; [exact Hl|exact Hl1].
    + exists (Hold r id st'). rewrite Hn. split; [done|]. split; [by split_and!|]. apply HO.
      * etrans; [exact Hl|]. etrans; [exact Hl1|apply commit_entry_prefix].
      * intros _. rewrite Hs'. simpl. rewrite entries_push. eexists.
        split; [apply elem_of_app; right; by apply list_elem_of_singleton|].
        split; [done|]. by apply from_to_vec.
  - exists (Hold r id st). split_and!; [by apply astep_learn, Hh|done|].
    unfold lookup_entry in Hlook. simpl in Hlook. destruct (find_by_idempotency_key _ _ _); [done|].
    injection Hlook as <-. by apply HE.
Qed.

(** The intent of an operation that has no commit. *)
Lemma okp_intent io r id Q :
  allowed r → (∀ e, Q (Err (Failed_ e)) (Hold r id Uncommitted)) →
  Q (Ok tt) (Hold r id Uncommitted) →
  okp (append_prog io r Intent "Operation" "PENDING" r (intent_key (rq_operation_id r)))
    (Hold r id Uncommitted) Q.
Proof.
  intros Hr HE HO. apply okp_append; [done|by intros []| |done|done].
  intros s b Hb Hs (_ & _ & Hk). split; [apply operation_entry_wf|apply mark_ok_other; by intros []| |].
  - intros Hd. split; simpl; [by intros []| | |].
    + intros k op [= Hke]. by apply intent_key_not_mark in Hke.
    + intros _ _. exists r. split_and!; [by apply from_to_vec|done|by apply Hr].
    + intros op Hke. apply Some_inj, intent_key_inj in Hke as <-. done.
  - intros [Ht Hd] _ op (_ & _ & <-). apply no_mark_everywhere; [done..|]. by apply Hk.
Qed.

(** The two ends of the provider call. *)
Lemma okp_begin r id Q :
  Q (Ok tt) (Hold r id Calling) →
  okp (act (Begin r) (on_x (call_begin r))) (Hold r id Unreceived) Q.
Proof.
  intros HQ. split; [done|]. intros s Hs Hh _. exists (Hold r id Calling). split; [|split; [|exact HQ]].
  - destruct Hs, Hh as (Hr & Hl & Hk). split; [by split|by split|by left| |done|done].
    intros i Hi. rewrite decide_False; naive_solver.
  - split; [done|]. by exists id.
Qed.

Lemma okp_end x r id Q :
  Q (map_err Failed_ (xio_provider x r)) (Hold r id Unreceived) →
  okp (act (End_ r) (call_end x r)) (Hold r id Calling) Q.
Proof.
  intros HQ. split; [done|]. intros s Hs Hh _. exists (Hold r id Unreceived).
  split; [|split; [|exact HQ]].
  - apply astep_learn; [done|exact Hh|apply Hh].
  - split; [done|]. by exists id.
Qed.

(** A lease drawn and given back. *)
Lemma leases_set ls m : leases (set_leases ls m) = ls.
Proof. done. Qed.

Lemma one_per_workload_insert id l ls :
  one_per_workload ls → (∀ i li, ls !! i = Some li → rl_workload_id li ≠ rl_workload_id l) →
  one_per_workload (<[id := l]> ls).
Proof.
  intros Ht Hnew i k li lk Hi Hk Hik.
  apply lookup_insert_Some in Hi as [[<- <-]|[Hi1 Hi2]];
    apply lookup_insert_Some in Hk as [[<- <-]|[Hk1 Hk2]]; [done| | |by eapply Ht].
  - by destruct (Hnew _ _ Hk2).
  - by destruct (Hnew _ _ Hi2).
Qed.

Lemma okp_insert r g q Q :
  allowed r → lq_workload_id q = rq_workload_id r →
  (∀ e, Q (Err (Failed_ e)) Free) → (∀ l, Q (Ok l) (Hold r (rl_lease_id l) Plain)) →
  okp (act (Insert (lq_workload_id q) g) (on_leases (grant_insert g q))) Free Q.
Proof.
  intros Hr Hw HE HO. split; [done|]. intros s Hs _ [Hfresh Htime]. unfold on_leases, zoom, map_err_M.
  destruct (grant_insert g q (rt_leases s)) as [[l|e] m'] eqn:Hg; simpl.
  - apply grant_insert_Ok in Hg as (-> & -> & Hnone). set (l := new_lease _ _ _ _) in *.
    exists (Hold r (gi_uuid g) Plain). split; [|split; [done|apply (HO l)]].
    destruct Hs as [Hj Hmk Hsp Hst Hl Ht]. split; simpl; rewrite ?leases_set.
    + split; [done..|]. simpl. rewrite leases_set. intros Htm.
      apply one_per_workload_insert; [by apply Ht|]. intros i li Hi Hli.
      specialize (Hnone i li Hi Hli). specialize (Htime Htm i li Hi Hli). simpl in *. lia.
    + split_and!; [done| |done]. exists l. split; [apply lookup_insert_eq|done].
    + intros id [= <-]. by right.
    + intros id Hid. rewrite lookup_insert_ne by congruence. done.
    + done.
    + done.
  - exists Free. split; [|split; [done|apply HE]].
    assert (m' = rt_leases s) as ->.
    { unfold grant_insert in Hg. destruct (lock_or_error _ _); [case_match|]; naive_solver. }
    destruct s. by apply inert_astep; [apply inert_refl|].
Qed.

Lemma okp_release r id st Q :
  calling (Hold r id st) = false → (∀ u, Q (Ok u) Free) →
  okp (tau (on_leases (release id))) (Hold r id st) Q.
Proof.
  intros Hc HQ. split; [done|].
  intros s [Hj Hmk Hsp Hst (Hl1 & Hl2 & Hl3) Ht] (_ & (l & Hl & _) & _) _. exists Free.
  unfold on_leases, zoom, map_err_M, release, lock_or_error, lock. rewrite Hl1. simpl.
  unfold leases in Hl. rewrite Hl. simpl. rewrite Hl2. simpl.
  split; [|split; [by split_and!|apply HQ]]. split; simpl.
  - split; [done..|]. unfold leases. simpl.
    intros Htm i k li lk [_ Hi]%lookup_delete_Some [_ Hk]%lookup_delete_Some.
    by apply Ht.
  - done.
  - done.
  - intros i _. unfold leases. simpl. case_decide as Hd.
    + injection Hd as <-. apply lookup_delete_eq.
    + apply lookup_delete_ne. congruence.
  - done.
  - done.
Qed.

(** *** The calls *)

(** How a call ends: if the process did not die in it, it gave its lease back. *)
Definition halted (h : Halt) (g : held) : Prop :=
  match h with Crashed _ => True | Failed_ _ => g = Free end.
Definition released {A} (a : result Halt A) (g : held) : Prop :=
  match a with Err h => halted h g | Ok _ => g = Free end.
(** Or it still holds the lease [id]. *)
Definition retained {A} (id : string) (a : result Halt A) (g : held) : Prop :=
  match a with
  | Err (Crashed _) => True
  | _ => calling g = false ∧ own g = Some id
  end.

Lemma store_lease_ok id t s :
  locks_ok (rt_leases s) → (on_leases (store_lease_token id t) s).1 = Ok tt.
Proof.
  intros (_ & Hl & _). unfold on_leases, zoom, map_err_M, store_lease_token, lock_or_error, lock.
  by rewrite Hl.
Qed.
Lemma store_resource_ok k t s :
  locks_ok (rt_leases s) → (on_leases (store_resource_token k t) s).1 = Ok tt.
Proof.
  intros (_ & _ & Hl). unfold on_leases, zoom, map_err_M, store_resource_token, lock_or_error, lock.
  by rewrite Hl.
Qed.

Lemma okp_grant r g q Q :
  allowed r → lq_workload_id q = rq_workload_id r →
  (∀ e, Q (Err (Failed_ e)) Free) → (∀ p, Q (Err (Crashed p)) Free) →
  (∀ f, Q (Ok f) (Hold r (rl_lease_id (fl_lease f)) Plain)) →
  okp (grant_prog g q) Free Q.
Proof.
  intros Hr Hw HE HC HO. apply okp_bind, okp_inert; [done|apply inert_grant_check|].
  intros [[]|[e|p]]; [|by apply HE|by apply HC].
  apply okp_bind, (okp_insert r); [done|done|auto|intros l].
  apply okp_bind, okp_inert_wp; [done|]. intros s Hs _. split; [by apply inert_draw|].
  apply okp_bind, okp_inert_wp; [done|]. intros s1 Hs1 _. split; [by apply inert_store_lease|].
  rewrite store_lease_ok by apply Hs1.
  apply okp_bind, okp_inert_wp; [done|]. intros s2 Hs2 _. split; [by apply inert_store_resource|].
  rewrite store_resource_ok by apply Hs2. apply HO.
Qed.

Lemma okl_obtain x r id l Q :
  allowed r →
  (∀ st e l', st ≠ Calling → Q (Err (Failed_ e)) (Hold r id st) l') →
  (∀ p g l', Q (Err (Crashed p)) g l') →
  (∀ rc l', Q (Ok rc) (Hold r id Uncommitted) l') →
  okl (obtain_prog x r) (Hold r id Uncommitted) l Q.
Proof.
  intros Hr HE HC HO. apply okl_bind, (okl_read _ _ MReceipt _ (Hold r id Unreceived)); [done..| | | |].
  { intros s Hs Hh Hno. apply astep_learn; [done|done|]. intros Ht. split; [|done]. by apply Hh. }
  { intros rc l' _ _. apply HO. }
  { intros e l' _. by apply HE. }
  intros l1 _. apply okl_bind, okl_okp, okp_trigger; [intros l2 _|intros l2 _; apply HC].
  apply okl_bind, okl_okp, okp_begin. intros l3 _. apply okl_bind, okl_okp, okp_end. intros l4 _.
  destruct (xio_provider x r) as [rc|e]; [|by apply HE].
  apply okl_bind, okl_okp, okp_trigger; [intros l5 _|intros l5 _; apply HC].
  apply okl_bind, (okl_mark MReceipt _ _ _ _ _ Unreceived Uncommitted); [done|done|done|by intros ? []| |..].
  - intros x1 x2 Hx [Hkc _]. by apply Hx.
  - intros e l' _. by apply HE.
  - intros l' _ _. apply HO.
Qed.

Lemma okp_drop {A} r id e Q :
  Q (Err (Failed_ e)) Free →
  okp (A := A) (_ ← drop_prog id; pthrow (Failed_ e)) (Hold r id Plain) Q.
Proof. intros HQ. by apply okp_bind, okp_bind, okp_settle, okp_release. Qed.

Lemma okp_confirm {A} x r fenced (a : A) Q :
  (∀ h g, halted h g → Q (Err h) g) →
  Q (Ok a) (Hold r (rl_lease_id (fl_lease fenced)) Plain) →
  okp (confirm_prog x r fenced a) (Hold r (rl_lease_id (fl_lease fenced)) Plain) Q.
Proof.
  intros HE HO.
  apply okp_bind, okp_try_append; [done|done|intros _; by eauto with apeir|].
  intros [u|e]; [|by apply okp_drop, HE].
  apply okp_bind, okp_inert_wp; [done|]. intros s Hs _. split; [by apply inert_refl|]. cbn [gets fst].
  destruct (negb _); [by apply okp_drop, HE|].
  apply okp_bind, okp_settle, okp_inert; [done|intros; by apply inert_active_insert|].
  intros [u'|[e|p]]; cbn [settle_result]; [done|by apply okp_drop, HE|by apply HE].
Qed.

Lemma okp_acquire x r Q :
  allowed r →
  (∀ h g, halted h g → Q (Err h) g) →
  (∀ f t d, Q (Ok (f, t, d)) (Hold r (rl_lease_id (fl_lease f)) Plain)) →
  okp (acquire_prog x r) Free Q.
Proof.
  intros Hr HE HO. unfold acquire_prog. destruct (admit_workload _ _ _); [|by apply HE..].
  destruct (place_with_trace _ _ _) as [placed trace].
  apply okp_bind. destruct placed as [placement|]; [|by apply HE]. cbn [ok_or].
  apply okp_bind, okp_append_foreign; [done|done|intros _; by eauto with apeir| |by intros; apply HE].
  apply okp_bind, (okp_grant r); [done|done|intros; by apply HE..|]. intros f.
  apply okp_confirm; auto.
Qed.

Lemma okp_failure x r e b g Q :
  allowed r → calling g = false → (∀ b', Q (Ok b') g) → okp (failure_prog x r e b) g Q.
Proof.
  intros Hr Hg HO.
  apply okp_bind, okp_try_append; [done|done|intros Hd; destruct (Hr Hd); by eauto with apeir|].
  intros a1. apply okp_bind, okp_try_append; [done|done|intros _; by eauto with apeir|]. intros a2. apply HO.
Qed.

(** An action tried that cannot die. *)
Lemma okp_try {A} (m : M Runtime Halt A) g Q :
  calling g = false → (∀ s, safe s → inert s (m s).2) →
  (∀ a, Q (Ok a) g) → (∀ p, Q (Err (Crashed p)) g) → okp (psettle (tau m)) g Q.
Proof.
  intros Hg Hm HO HC. apply okp_settle, okp_inert; [done|done|].
  intros [a|[e|p]]; cbn [settle_result]; auto.
Qed.

(** What is on record of an operation once a call returned the receipt [rc]. *)
Definition committed_if (op : string) (rc : OperationReceipt) (l : list JournalEntry) : Prop :=
  strict R → committed_in op rc l.
Lemma committed_if_prefix op rc l l' : l `prefix_of` l' → committed_if op rc l → committed_if op rc l'.
Proof. intros Hl Hc HR. eapply marked_in_prefix; [exact Hl|by apply Hc]. Qed.

(** An execution that returned a receipt has committed it. *)
Definition execution_done (op : string) (a : result Halt RuntimeExecution) (g : held)
    (l : list JournalEntry) : Prop :=
  released a g ∧ match a with Ok ex => committed_if op (re_receipt ex) l | Err _ => True end.

Lemma okl_execute x r id l :
  allowed r →
  okl (execute_prog x r) (Hold r id Plain) l (λ a g l', retained id a g ∧
    match a with Ok rc => committed_if (rq_operation_id r) rc l' | Err _ => True end).
Proof.
  intros Hr. apply okl_bind, (okl_read _ _ MCommit _ (Hold r id Uncommitted)); [done..| | | |].
  { intros s Hs Hh Hn. by apply astep_learn. }
  { intros rc l' _ Hc. split; [done|]. by intros _. }
  { done. }
  intros l1 _. apply okl_bind, okl_okp, okp_intent; [done|done|intros l2 _].
  apply okl_bind, okl_okp, okp_trigger; [intros l3 _|done].
  destruct (xio_cancelled x); [done|].
  apply okl_bind, okl_obtain; [done|by intros []|done|intros rc l4].
  apply okl_bind, okl_okp, okp_trigger; [intros l5 _|done].
  apply okl_bind, (okl_mark MCommit _ _ _ _ _ Uncommitted Plain); [done..|intros l6 _ Hc].
  apply okl_bind, okl_okp, okp_trigger; intros l7 Hl; [|done].
  split; [done|]. by eapply committed_if_prefix.
Qed.

(** What the executor returned is committed. *)
Definition receipt_known (op : string) (execution : result KernelError OperationReceipt)
    (l : list JournalEntry) : Prop :=
  match execution with Ok rc => committed_if op rc l | Err _ => True end.
Lemma receipt_known_prefix op execution l l' :
  l `prefix_of` l' → receipt_known op execution l → receipt_known op execution l'.
Proof. destruct execution; [apply committed_if_prefix|done]. Qed.

Lemma okl_return x r id trace execution b l :
  receipt_known (rq_operation_id r) execution l →
  okl (return_prog x r id trace execution b) Free l (execution_done (rq_operation_id r)).
Proof.
  intros Hl. apply okl_okp, okp_bind, okp_trigger; [|done].
  apply okp_bind, okp_try_append; [done|done|intros _; by eauto with apeir|intros d].
  destruct (get_or_insert _ _); [done|]. destruct execution as [rc|]; [|done]. intros l' Hp.
  split; [done|]. by eapply committed_if_prefix.
Qed.

Lemma okl_close x r trace execution b g id l :
  receipt_known (rq_operation_id r) execution l →
  calling g = false → own g = Some id →
  okl (close_prog x r id trace execution b) g l (execution_done (rq_operation_id r)).
Proof.
  intros Hl Hc Hown. pose proof (workload_key_foreign (rq_operation_id r) execution) as Hk.
  unfold close_prog. destruct (final_phase execution) as [t phase] eqn:Hp. simpl in Hk.
  assert (foreign_object t "Workload" = true) as Ho
    by (by destruct execution as [?|[]]; simplify_eq/=).
  apply okl_bind, okl_okp, okp_try_append; [done|done|done|intros w l1 Hl1].
  destruct g as [|r' i st]; [done|]. injection Hown as ->.
  apply okl_bind, okl_okp, okp_settle, okp_release; [done|]. intros u l2 Hl2. cbn [settle_result].
  apply okl_return. eapply receipt_known_prefix; [exact Hl2|]. by eapply receipt_known_prefix.
Qed.

Lemma okl_finish x r b fenced trace device execution g l :
  receipt_known (rq_operation_id r) execution l →
  allowed r → calling g = false → own g = Some (rl_lease_id (fl_lease fenced)) →
  okl (finish_prog x r b fenced trace device execution) g l (execution_done (rq_operation_id r)).
Proof.
  intros Hl Hr Hc Hown. unfold finish_prog.
  apply okl_bind, okl_okp, okp_try_profile; [done|intros p l1 Hl1].
  apply okl_bind, okl_okp, okp_try; [done|intros; by apply inert_active_remove|intros a l2 Hl2|done].
  apply okl_bind. destruct execution as [rc|e].
  - apply okl_close; [|done..]. eapply committed_if_prefix; [exact Hl2|].
    by eapply committed_if_prefix.
  - apply okl_okp, okp_failure; [done|done|intros b' l3 _; by apply okl_close].
Qed.

Lemma okl_internal x b r l :
  allowed r → okl (internal_prog x b r) Free l (execution_done (rq_operation_id r)).
Proof.
  intros Hr. apply okl_bind. destruct (validate_sensitive_references r); [|done]. cbn [map_err].
  apply okl_bind, okl_okp, okp_inert; [done|by intros; apply inert_refl|].
  intros [st|[]] l1 _; [|done..]. case_decide; [done|].
  apply okl_bind, (okl_read _ _ MCommit _ Free); [done..| | | |].
  { intros s Hs Hh _. by apply inert_astep, Hh; apply inert_refl. }
  { intros rc l2 _ Hc. apply okl_bind, okl_okp, okp_inert; [done|by intros; apply inert_refl|].
    intros [o|[]] l3 Hl3; [|done..]. split; [done|]. intros _. by eapply marked_in_prefix. }
  { done. }
  intros l2 _. apply okl_bind, okl_okp, okp_acquire; [done|by intros []|]. intros f t d l3 _.
  apply okl_bind, okl_settle.
  eapply okl_mono; [by apply okl_execute|]. intros [rc|[e|p]] g l4 [Hg Hc]; cbn [settle_result];
    [..|done]; destruct Hg; by apply okl_finish.
Qed.

(** *** Plans and recovery *)

(** An intent recorded again, by a task that holds nothing. *)
Lemma rebind_writable r b s :
  plans R = true → allowed r → to_vec r = Some b →
  writable (operation_entry r Intent "Operation" "REBOUND" b
    (Some (rebind_key (rq_operation_id r) (sn_provider_revision (rq_snapshot r))))) s.
Proof.
  intros Hp Hr Hb. split; [apply operation_entry_wf|apply mark_ok_other; by intros []| |].
  - intros Hd. apply rebinding_spec, rebind_entry; auto.
  - by rewrite Hp.
Qed.

Lemma okp_outcome io r provider phase reason Q :
  clashes (":" +:+ phase) = false → Q (Ok tt) Free → (∀ e, Q (Err (Failed_ e)) Free) →
  okp (outcome_prog io r provider phase reason) Free Q.
Proof.
  intros Hc HO HE. apply okp_append_foreign; [done|done| |done|done].
  intros _. by apply candidate_outcome_key_foreign.
Qed.

Lemma okp_rebind c step r to_provider report st Q :
  plans R = true → allowed r → (∀ st', Q (Ok st') Free) → (∀ e, Q (Err (Failed_ e)) Free) →
  okp (rebind_if_failed_prog c step r to_provider report st) Free Q.
Proof.
  intros Hp Hr HO HE. unfold rebind_if_failed_prog. destruct (at_failure st) as [[from e]|]; [|apply HO].
  apply okp_bind, okp_bind, okp_append; [done|by intros []| | |apply HE].
  { intros s b Hb _ _. by apply rebind_writable. }
  apply okp_append_foreign; [done|done| |apply HO|apply HE].
  intros Hd. apply provider_rebind_key_foreign, (Hr Hd).
Qed.

Lemma validate_candidate_op plan step_id op r m u :
  validate_continuity_candidate plan step_id op r m = Ok u → rq_operation_id r = op.
Proof.
  unfold validate_continuity_candidate. case_decide as Hd; [done|]. intros _.
  destruct (decide (rq_operation_id r = op)); [done|]. destruct Hd. auto.
Qed.

Lemma okl_candidate c plan step op cand st l Q :
  plans R = true → allowed (fc_request cand) →
  (∀ st' l', Q (Ok (inl st')) Free l') →
  (∀ ex st' l', l `prefix_of` l' → committed_if op (re_receipt ex) l' →
     Q (Ok (inr (ex, st'))) Free l') →
  (∀ h g l', halted h g → Q (Err h) g l') →
  okl (candidate_prog c plan step op cand st) Free l Q.
Proof.
  intros Hp Hr HN HO HE. unfold candidate_prog.
  apply okl_bind, okl_okp, okp_outcome; [done|intros l1 Hl1|intros e l1 _; by apply HE].
  apply okl_bind. destruct (validate_continuity_candidate _ _ _ _ _) eqn:Hv; [|by apply HE].
  apply validate_candidate_op in Hv. cbn [map_err].
  destruct (effective_capabilities c cand) as [caps|e].
  - destruct (gate_closed _ _).
    { apply okl_bind, okl_okp, okp_outcome; [done|intros l2 _; apply HN|intros e' l2 _; by apply HE]. }
    apply okl_bind, okl_okp, okp_rebind; [done|done|intros st1 l2 Hl2|intros e l2 _; by apply HE].
    apply okl_bind, okl_settle. eapply okl_mono; [by apply okl_seen, okl_internal|].
    intros [ex|[e|p]] g l3 (Hl3 & Hg & Hc); cbn [settle_result]; [| |by apply HE]; simpl in Hg; subst g.
    + rewrite Hv in Hc. apply HO; [|done]. etrans; [exact Hl1|]. by etrans.
    + destruct (kernel_error_retryable e); [|by apply HE].
      apply okl_bind, okl_okp, okp_outcome; [done|intros l4 _; apply HN|intros e' l4 _; by apply HE].
  - destruct (kernel_error_retryable e); [|by apply HE].
    apply okl_bind, okl_okp, okp_outcome; [done|intros l2 _; apply HN|intros e' l2 _; by apply HE].
Qed.

Lemma okl_candidates c plan step op i cands st l Q :
  plans R = true → Forall (λ cand, allowed (fc_request cand)) cands →
  (∀ st' l', Q (Ok (None, st')) Free l') →
  (∀ ex st' l', committed_if op (re_receipt ex) l' → Q (Ok (Some ex, st')) Free l') →
  (∀ h g l', halted h g → Q (Err h) g l') →
  okl (candidates_prog c plan step op i cands st) Free l Q.
Proof.
  intros Hp Hv HN HO HE. revert i st l.
  induction Hv as [|cand cands Hr _ IH]; intros i st l; [apply HN|].
  apply okl_bind, okl_candidate; [done|done|intros st1 l1; apply IH| |done].
  intros ex st1 l1 _. apply HO.
Qed.

(** The receipt of a step is committed under its operation. *)
Definition step_committed (l : list JournalEntry) (step : ContinuityStep) (ex : RuntimeExecution) :
    Prop :=
  ∃ op, step_op step = Some op ∧ committed_if op (re_receipt ex) l.
Lemma steps_committed_prefix l l' steps exs :
  l `prefix_of` l' → Forall2 (step_committed l) steps exs → Forall2 (step_committed l') steps exs.
Proof.
  intros Hl Hs. eapply Forall2_impl; [exact Hs|]. intros step ex (op & Ho & Hc). exists op.
  split; [done|]. by eapply committed_if_prefix.
Qed.

Definition allowed_step (step : ContinuityStep) : Prop :=
  Forall (λ cand, allowed (fc_request cand)) (cs_candidates step).
Definition allowed_plan (plan : ContinuityPlan) : Prop := disciplined R = true → valid_plan wl plan.
Lemma allowed_steps plan : allowed_plan plan → Forall allowed_step (cpl_steps plan).
Proof.
  intros Hv. apply Forall_forall. intros step Hs. apply Forall_forall. intros cand Hc Hd.
  specialize (Hv Hd). unfold valid_plan in Hv. rewrite Forall_forall in Hv. specialize (Hv step Hs).
  unfold valid_step in Hv. rewrite Forall_forall in Hv. by apply Hv.
Qed.

Lemma okl_step y plan step failovers l Q :
  plans R = true → allowed_step step →
  (∀ ex fo l', step_committed l' step ex → Q (Ok (ex, fo)) Free l') →
  (∀ h g l', halted h g → Q (Err h) g l') →
  okl (step_prog y plan step failovers) Free l Q.
Proof.
  intros Hp Hv HO HE. unfold step_prog, step_committed, step_op, allowed_step in *.
  destruct (cs_candidates step) as [|first rest]; [by apply HE|]. simpl in HO.
  apply okl_bind, (okl_read _ _ MCommit _ Free); [done|done| | | |].
  { intros s Hs Hh _. by apply inert_astep, Hh; apply inert_refl. }
  { intros rc l1 _ Hc. apply HO. eexists. split; [done|]. by intros _. }
  { intros e l1 _. by apply HE. }
  intros l1 _. apply okl_bind, okl_candidates; [done|done| | |done].
  - intros st l2. by apply HE.
  - intros ex st l2 Hc. apply HO. by eauto.
Qed.

Lemma okl_steps y plan i steps past completed failovers l Q :
  plans R = true → Forall allowed_step steps → Forall2 (step_committed l) past completed →
  (∀ exs fo l', Forall2 (step_committed l') (past ++ steps) exs → Q (Ok (exs, fo)) Free l') →
  (∀ h g l', halted h g → Q (Err h) g l') →
  okl (steps_prog y plan i steps completed failovers) Free l Q.
Proof.
  intros Hp Hv Hpast HO HE. revert i past completed failovers l Hpast HO.
  induction Hv as [|step steps Hr _ IH]; intros i past completed failovers l Hpast HO.
  { apply HO. by rewrite app_nil_r. }
  apply okl_bind. eapply okl_mono.
  { apply okl_seen, (okl_step _ _ _ _ _ (λ a g l', match a with
      | Ok (ex, fo) => g = Free ∧ step_committed l' step ex | Err h => halted h g end)); done. }
  intros [[ex fo]|h] g l1 [Hl1 Hq]; [|by apply HE]. destruct Hq as [-> Hc].
  apply (IH _ (past ++ [step])).
  - apply Forall2_app; [|by constructor]. by eapply steps_committed_prefix.
  - intros exs fo' l2. rewrite <-(assoc app). apply HO.
Qed.

(** How a plan ends. *)
Definition plan_done (plan : ContinuityPlan) (a : result Halt ContinuityExecution) (g : held)
    (l : list JournalEntry) : Prop :=
  released a g ∧
  match a with
  | Ok ce => Forall2 (step_committed l) (cpl_steps plan) (ce_completed_steps ce)
  | Err _ => True
  end.

Lemma okl_plan y plan l :
  plans R = true → allowed_plan plan → okl (plan_prog y plan) Free l (plan_done plan).
Proof.
  intros Hp Hv. unfold plan_prog. case_decide; [done|].
  apply okl_bind, (okl_steps _ _ _ _ [] []); [done|by apply allowed_steps|constructor|done|done].
Qed.

Lemma okp_revoke io requests orphans Q :
  (∀ a, Q a Free) → okp (revoke_prog io requests orphans) Free Q.
Proof.
  intros HQ. induction orphans as [|[id [w l]] rest IH]; [apply HQ|]. cbn [revoke_prog].
  apply okp_bind. destruct (requests !! w) as [r|]; [|apply HQ]. cbn [ok_or].
  apply okp_bind, okp_append_foreign; [done|done|intros _; by eauto with apeir|apply IH|].
  intros. apply HQ.
Qed.

(** How a recovery ends: what it returns is committed, operation by operation. *)
Definition executions_committed (l : list JournalEntry) (rs : list OperationRequest)
    (exs : list RuntimeExecution) : Prop :=
  Forall2 (λ r ex, committed_if (rq_operation_id r) (re_receipt ex) l) rs exs.
Definition recovery_done (a : result Halt (list RuntimeExecution)) (g : held)
    (l : list JournalEntry) : Prop :=
  released a g ∧
  match a with Ok exs => ∃ rs, executions_committed l rs exs | Err _ => True end.

Lemma safe_marks_inv s :
  disciplined R = true → safe s → marks_inv wl plain_request (x_journal (rt_x s)).
Proof. intros Hd Hs. split; [apply Hs|by apply (sf_spec _ Hs)]. Qed.
Lemma pending_allowed io s rs :
  safe s → pending_operations io (x_journal (rt_x s)) = Ok rs → Forall allowed rs.
Proof.
  intros Hs Hp. apply Forall_forall. intros r Hr Hd.
  pose proof (pending_operations_valid wl io (rt_x s) rs (safe_marks_inv s Hd Hs) Hp) as Hv.
  rewrite Forall_forall in Hv. by apply Hv.
Qed.

Lemma okl_recovered run rs l Q :
  Forall allowed rs →
  (∀ exs l', executions_committed l' rs exs → Q (Ok exs) Free l') →
  (∀ h g l', halted h g → Q (Err h) g l') →
  okl (recovered_prog run rs) Free l Q.
Proof.
  intros Hv HO HE. revert l Q HO HE.
  induction Hv as [|r rs Hr _ IH]; intros l Q HO HE; [apply HO; constructor|].
  cbn [recovered_prog]. destruct (rq_delivery r); try (by apply HE);
    (apply okl_bind; eapply okl_mono; [by apply okl_internal|];
     intros [ex|h] g l1 [Hg Hc]; [simpl in Hg; subst g|by apply HE];
     apply okl_bind; eapply okl_mono;
       [apply okl_seen, (IH _ (λ a g l', match a with
          | Ok exs => g = Free ∧ executions_committed l' rs exs | Err h => halted h g end)); done|];
     intros [exs|h] g l2 [Hl2 Hq]; [|by apply HE]; destruct Hq as [-> Hq]; apply HO;
     constructor; [by eapply committed_if_prefix|done]).
Qed.

Lemma okl_recover y l : okl (recover_prog y) Free l recovery_done.
Proof.
  apply okl_bind, okl_okp, okp_inert; [done|intros; by apply inert_refl|].
  intros [[requests active]|[]] l1 _; [|done..].
  apply okl_bind, okl_okp, okp_revoke. intros [[]|[]] l2 _; [|done..].
  apply okl_bind, okl_okp, okp_inert_wp; [done|]. intros s Hs _. split; [by apply inert_refl|].
  unfold scan_pending. simpl. destruct (pending_operations _ _) as [rs|e] eqn:Hp; [|done].
  intros l3 _. apply okl_recovered; [| |by intros []].
  - by eapply pending_allowed.
  - intros exs l' Hc. split; [done|]. by exists rs.
Qed.

(** *** Alone *)

(** Without other tasks the assumption about time is met: the task finds no lease
    but its own. *)
Definition only_own (g : held) (s : Runtime) : Prop :=
  ∀ id le, table s !! id = Some le → own g = Some id.

Lemma only_own_timely lb g s : only_own g s → draws lb g → timely lb s.
Proof.
  intros Ho Hd. destruct lb as [|w gi|r|r]; try done. simpl in Hd. subst g.
  assert (∀ id, table s !! id = None) as Hnone.
  { intros id. apply eq_None_not_Some. intros [le Hle]. by apply Ho in Hle. }
  split; [apply Hnone|]. intros _ i le Hi. by rewrite Hnone in Hi.
Qed.

Lemma run_okl {A} (p : Prog A) g l Q s :
  okl p g l Q → safe s → holds_in g s → l `prefix_of` records s → only_own g s →
  ∃ g' l', Q (run p s).1 g' l' ∧ l' `prefix_of` records (run p s).2 ∧
    safe (run p s).2 ∧ only_own g' (run p s).2.
Proof.
  revert g l s. induction p as [a|lb B m k IH]; intros g l s Hp Hs Hh Hl Ho; [by exists g, l|].
  destruct Hp as [Hd Hp].
  destruct (Hp s Hs Hh (only_own_timely lb g s Ho Hd) Hl) as (g' & Ha & _ & Hk).
  cbn [run]. destruct (m s) as [b s']. cbn [fst snd] in *. apply (IH b g' (records s')); [done|..].
  - apply Ha.
  - apply Ha.
  - done.
  - intros id le Hle. destruct (decide (own g' = Some id)) as [|Hne]; [done|].
    rewrite (as_table _ _ _ _ Ha id Hne) in Hle. case_decide; [done|]. by apply Ho in Hle.
Qed.
End Tasks.

Notation committed_in := (marked_in MCommit).
