(* ===== verification/Pool.v ===== *)
(** * Tasks that share a runtime

    The programs of [Interleave] as the tasks of one runtime: executions, plans
    and recoveries whose actions interleave in any order, with cancellations, the
    beginning of a shutdown, appends of other components, and restarts. What every
    interleaving keeps. *)

From S2P Require Import Prelude Errors Float64 Resource Fencing Workload Journal Semantic Lease.
From S2P Require Import Admission Policy Placement Provider Executor Coordinator Refines Continuity.
From S2P Require Import Interleave Tasks.
Local Open Scope Z_scope.

Section Pool.
Context `{JournalEnv} `{TextPlatform} `{FloatPlatform} `{HostPlatform} `{HashOrder}.
Context `{Serde OperationRequest} `{Serde OperationReceipt} `{Serde DecisionTrace}.
Context `{Serde FencedLease} `{Serde ExecutionProfile} `{Serde Json}.
Context `{!SerdeLaws OperationRequest} `{!SerdeLaws OperationReceipt}.
Context (wl : string → string) (R : Rules).

Notation table s := (leases (rt_leases s)).
Notation records s := (entries (x_journal (rt_x s))).
Notation safe := (safe wl R).
Notation inert := (inert wl R).
Notation holds_in := (holds_in wl R).
Notation astep := (astep wl R).
Notation okl := (okl wl R).
Notation allowed := (allowed wl R).
Notation timely := (timely R).
Notation step_committed := (step_committed R).
Notation executions_committed := (executions_committed R).
Notation committed_if := (committed_if R).

(** ** The tasks of a runtime *)

Inductive Outcome : Type :=
| OutExecution (ex : RuntimeExecution)
| OutPlan (ex : ContinuityExecution)
| OutRecovered (exs : list RuntimeExecution).

(** What a task was started for, its program, and what is left of it. *)
Inductive Work : Type :=
| WExecution (x : RunIo) (recovered : bool) (r : OperationRequest)
| WPlan (y : nat → StepIo) (plan : ContinuityPlan)
| WRecovery (y : RecoverIo).
Definition work_prog (w : Work) : Prog Outcome :=
  match w with
  | WExecution x b r => ex ← internal_prog x b r; mret (OutExecution ex)
  | WPlan y plan => ex ← plan_prog y plan; mret (OutPlan ex)
  | WRecovery y => exs ← recover_prog y; mret (OutRecovered exs)
  end.

Record Task : Type := mkTask {
  t_work : Work;
  t_prog : Prog Outcome;
  t_call : option OperationRequest
}.
Definition new_task (w : Work) : Task := mkTask w (work_prog w) None.

(** What is on record once a task returned: the receipts it returned, under the
    operations it was asked to execute. *)
Definition answered (w : Work) (o : Outcome) (l : list JournalEntry) : Prop :=
  match w, o with
  | WExecution _ _ r, OutExecution ex => committed_if (rq_operation_id r) (re_receipt ex) l
  | WPlan _ plan, OutPlan ce =>
      Forall2 (step_committed l) (cpl_steps plan) (ce_completed_steps ce)
  | WRecovery _, OutRecovered exs => ∃ rs, executions_committed l rs exs
  | _, _ => False
  end.
Definition returned (w : Work) (a : result Halt Outcome) (g : held) (l : list JournalEntry) : Prop :=
  released a g ∧ match a with Ok o => answered w o l | Err _ => True end.

Record PoolState : Type := mkPool { pl_rt : Runtime; pl_tasks : list Task }.

(** The request a task waits for the provider to execute. *)
Definition call_after (lb : Label) (c : option OperationRequest) : option OperationRequest :=
  match lb with Begin r => Some r | End_ _ => None | _ => c end.

Definition crashed (t : Task) : bool :=
  match t_prog t with Ret (Err (Crashed _)) => true | _ => false end.
Definition finished (t : Task) : bool :=
  match t_prog t with Ret (Ok _) | Ret (Err (Failed_ _)) => true | _ => false end.

(** The cancellation token of the active operation of [w] is set. A cancellation
    finds the operation, records the request for it, and sets the token, in
    critical sections of their own. *)
Definition set_token (w : string) (s : Runtime) : Runtime :=
  match lock (rt_active s) with
  | Some a =>
      match a !! w with
      | Some ao => set_rt_active (mutex_set
          (<[w := mkActive (ao_operation_id ao) (ao_request ao) true]> a) (rt_active s)) s
      | None => s
      end
  | None => s
  end.

(** What happens to a runtime: an execution, a plan or a recovery begins, a task
    performs its next action, the token of an operation is set, the kernel begins
    to shut down, another component inserts an entry into the journal (its search for the
    key changes nothing), and the process ends, at any moment, and a new one opens
    the journal. Once a task died at a fault point no task acts. *)
Inductive pstep : PoolState → PoolState → Prop :=
| PExecute x b r s ts :
    allowed r → pstep (mkPool s ts) (mkPool s (ts ++ [new_task (WExecution x b r)]))
| PPlan y plan s ts :
    plans R = true → allowed_plan wl R plan → pstep (mkPool s ts) (mkPool s (ts ++ [new_task (WPlan y plan)]))
| PRecover y s ts : pstep (mkPool s ts) (mkPool s (ts ++ [new_task (WRecovery y)]))
| PAtom i w lb B (m : M Runtime Halt B) k c s ts :
    existsb crashed ts = false → ts !! i = Some (mkTask w (Atom lb m k) c) → timely lb s →
    pstep (mkPool s ts)
          (mkPool (m s).2 (<[i := mkTask w (k (m s).1) (call_after lb c)]> ts))
| PToken w s ts : pstep (mkPool s ts) (mkPool (set_token w s) ts)
| PShutdown s ts : pstep (mkPool s ts) (mkPool (shutdown_begin s).2 ts)
| PForeign io e s ts :
    foreign e → entry_wf e →
    pstep (mkPool s ts)
      (mkPool (commit_entry io e s).2 ts)
| PRestart uuid k j s ts :
    open no_open_faults (inner (conn (x_journal (rt_x s)))) = Ok j →
    pstep (mkPool s ts) (mkPool (runtime_new uuid k j (x_calls (rt_x s))) []).

Definition pool_init (uuid : string) (k : KernelState) : PoolState :=
  mkPool (runtime_init uuid k) [].

(** *** The invariant *)

(** A task stands where its program says it does. *)
Record task_ok (s : Runtime) (t : Task) (g : held) : Prop := {
  tk_holds : holds_in g s;
  tk_prog : ∃ l, l `prefix_of` records s ∧ okl (t_prog t) g l (returned (t_work t));
  tk_call : t_call t = if calling g then request g else None
}.

Record pool_inv (p : PoolState) (gs : list held) : Prop := {
  pi_safe : safe (pl_rt p);
  pi_tasks : Forall2 (task_ok (pl_rt p)) (pl_tasks p) gs;
  pi_distinct : ∀ i k gi gk id, gs !! i = Some gi → gs !! k = Some gk →
    own gi = Some id → own gk = Some id → i = k;
  pi_owned : ∀ id l, table (pl_rt p) !! id = Some l → ∃ i g, gs !! i = Some g ∧ own g = Some id
}.

(** A task's step leaves what another one knows as it is. *)
Lemma holds_in_frame g1 g1' g2 s s' :
  safe s → holds_in g1 s → holds_in g2 s → (∀ id, own g1 = Some id → own g2 ≠ Some id) →
  astep g1 s s' g1' → holds_in g2 s'.
Proof.
  intros Hs Hh1 Hh2 Hne [_ _ Hown Htab Hm _].
  destruct g2 as [|r2 id2 st2]; [done|]. destruct Hh2 as (Hv2 & (l2 & Hl2 & Hr2) & Hk2).
  assert (own g1 ≠ Some id2) as Hn1 by (intros Ho; by apply (Hne _ Ho)).
  split_and!; [done| |].
  - exists l2. split; [|done]. rewrite Htab; [by rewrite decide_False|].
    intros Ho. apply Hown in Ho as [?|Hnone]; [done|]. by rewrite Hl2 in Hnone.
  - intros Ht. eapply knows_mono; [|exact (Hk2 Ht)]. intros k. apply Hm.
    destruct g1 as [|r1 id1 st1]; [done|]. intros [= Hw].
    destruct Hh1 as (_ & (l1 & Hl1 & Hr1) & _). apply Hn1. simpl. f_equal.
    apply (sf_table wl R _ Hs Ht id1 id2 l1 l2); [done..|]. congruence.
Qed.

Lemma holds_in_inert g s s' : inert s s' → holds_in g s → holds_in g s'.
Proof. intros Hi Hh. by apply (inert_astep wl R g s s' Hi Hh). Qed.

Lemma inert_pool s s' ts gs : inert s s' → pool_inv (mkPool s ts) gs → pool_inv (mkPool s' ts) gs.
Proof.
  intros Hi [Hs Ht Hd Ho]. split; simpl in *; [apply Hi| |done|by rewrite (in_table wl R _ _ Hi)].
  eapply Forall2_impl; [exact Ht|]. intros t g [? (l & Hl & Hk) ?]. split; [by eapply holds_in_inert| |done].
  exists l. split; [|done]. etrans; [exact Hl|]. by apply Hi.
Qed.

Lemma call_after_ok lb g g' x x' c :
  call_step lb g g' x x' → c = (if calling g then request g else None) →
  call_after lb c = if calling g' then request g' else None.
Proof.
  destruct lb as [|w gi|r|r]; simpl.
  - by intros (_ & -> & ->).
  - by intros (_ & -> & ->).
  - by intros (_ & id & -> & ->).
  - by intros (_ & id & -> & ->).
Qed.

(** One action of one task. *)
Lemma atom_inv i w lb B (m : M Runtime Halt B) k c s ts gs :
  ts !! i = Some (mkTask w (Atom lb m k) c) → timely lb s → pool_inv (mkPool s ts) gs →
  ∃ g g', gs !! i = Some g ∧ task_ok s (mkTask w (Atom lb m k) c) g ∧
    call_step lb g g' (rt_x s) (rt_x (m s).2) ∧
    records s `prefix_of` records (m s).2 ∧
    pool_inv (mkPool (m s).2 (<[i := mkTask w (k (m s).1) (call_after lb c)]> ts)) (<[i := g']> gs).
Proof.
  intros Hi Ht [Hs Htasks Hd Ho]. simpl in *.
  destruct (Forall2_lookup_l _ _ _ _ _ Htasks Hi) as (g & Hg & Htask).
  destruct (tk_prog _ _ _ Htask) as (l & Hl & Hprog).
  destruct Hprog as [_ Hprog]. destruct (Hprog s Hs (tk_holds _ _ _ Htask) Ht Hl) as (g' & Ha & Hc & Hk).
  pose proof (as_prefix wl R _ _ _ _ Ha) as Hpre.
  exists g, g'. split_and!; [done|done|done|done|]. clear l Hl Hprog. destruct Htask as [Hh _ Hcall].
  apply Forall2_same_length_lookup in Htasks as [Hlen Htasks].
  assert (<[i := g']> gs !! i = Some g') as Hgi
    by (apply list_lookup_insert_eq; by eapply lookup_lt_Some).
  split; simpl; [apply Ha| | |].
  - apply Forall2_same_length_lookup. split; [by rewrite !length_insert|]. intros j t h Hj Hh'.
    apply list_lookup_insert_Some in Hj as [(<- & <- & _)|[Hne Hj]].
    + rewrite Hgi in Hh'. injection Hh' as <-.
      split; [apply Ha|by exists (records (m s).2)|]. by eapply call_after_ok.
    + rewrite list_lookup_insert_ne in Hh' by done. destruct (Htasks j t h Hj Hh') as [? (l & Hl & Hp) ?].
      split; [|exists l; by split; [etrans|]|done]. eapply (holds_in_frame g g'); [done|done|done| |done].
      intros id Hid Hid'. apply Hne. by eapply (Hd i j).
  - assert (∀ j h id, i ≠ j → gs !! j = Some h → own g' = Some id → own h ≠ Some id) as Hnew.
    { intros j h id Hne Hj Hid Hh'. apply (as_own wl R _ _ _ _ Ha) in Hid as [Hid|Hnone].
      - apply Hne. by eapply (Hd i j).
      - destruct (lookup_lt_is_Some_2 ts j) as [t Hjt]; [rewrite Hlen; by eapply lookup_lt_Some|].
        destruct (Htasks j t h Hjt Hj) as [Hhold _ _]. destruct h as [|r' id' st]; [done|].
        injection Hh' as ->. destruct Hhold as (_ & (l & Hl & _) & _). by rewrite Hl in Hnone. }
    intros j j' h h' id Hj Hj' Hown Hown'.
    apply list_lookup_insert_Some in Hj as [(<- & <- & _)|[Hne Hj]];
      apply list_lookup_insert_Some in Hj' as [(<- & <- & _)|[Hne' Hj']];
      [done|by destruct (Hnew _ _ _ Hne' Hj' Hown)|by destruct (Hnew _ _ _ Hne Hj Hown')|].
    by eapply Hd.
  - intros id l Hl. destruct (decide (own g' = Some id)) as [Hid|Hid]; [eauto|].
    rewrite (as_table wl R _ _ _ _ Ha id Hid) in Hl. case_decide as Hold; [done|].
    destruct (Ho id l Hl) as (j & h & Hj & Hh'). exists j, h. split; [|done].
    rewrite list_lookup_insert_ne; [done|]. intros ->. congruence.
Qed.

Lemma inert_token w s : safe s → inert s (set_token w s).
Proof.
  intros Hs. unfold set_token. destruct (lock (rt_active s)) as [a|]; [|by apply inert_refl].
  destruct (a !! w); [by apply inert_active|by apply inert_refl].
Qed.
Lemma inert_foreign io e s : foreign e → entry_wf e → safe s → inert s (commit_entry io e s).2.
Proof. intros Hf Hwf. apply inert_commit; [apply Hf|by apply foreign_writable]. Qed.
Lemma inert_shutdown s : safe s → inert s (shutdown_begin s).2.
Proof.
  intros [? ? ? ? ? ?]. unfold shutdown_begin. destruct (lock (rt_state s)); simpl;
    (destruct (lock _); simpl; by split).
Qed.

(** A cancellation that nothing interrupts. *)
Lemma append_psteps `{Serde T} io r t obj ph (payload : T) key s ts :
  foreign_object t obj = true → foreign_key key →
  let s' := (on_x (exec_append io r t obj ph payload (Some key)) s).2 in
  rtc pstep (mkPool s ts) (mkPool s' ts) ∧ rt_active s' = rt_active s.
Proof.
  intros Ho Hk. rewrite <-append_implements. unfold append_prog.
  destruct (to_vec payload) as [b|]; [|done]. unfold entry_prog. simpl.
  destruct (map_err _ (find_by_idempotency_key _ _ _)) as [[n|]|h]; simpl; [done| |done].
  set (e := operation_entry _ _ _ _ _ _).
  assert (rtc pstep (mkPool s ts) (mkPool (commit_entry io e s).2 ts) ∧
          rt_active (commit_entry io e s).2 = rt_active s) as Hstep.
  { split; [|by destruct (commit_entry_cases io e s) as [(? & _ & ->)|(_ & -> & _)]].
    apply rtc_once, PForeign; [by apply (operation_entry_foreign wl no_ops)|apply operation_entry_wf]. }
  by destruct (commit_entry io e s) as [[n|h] s'].
Qed.
Lemma cancel_psteps io w s ts : rtc pstep (mkPool s ts) (mkPool (cancel io w s).2 ts).
Proof.
  unfold cancel. destruct (lock (rt_active s)) as [a|] eqn:Hl; [|done].
  destruct (a !! w) as [ao|] eqn:Ha; [|done].
  destruct (append_psteps io (ao_request ao) Transition "Workload" "CANCELLATION_REQUESTED"
    (JObj [("workload_id", JStr w); ("operation_id", JStr (ao_operation_id ao))])
    (cancel_key (ao_operation_id ao)) s ts eq_refl (cancel_key_foreign _)) as [Hs Hact].
  destruct (on_x _ s) as [[?|?] s']; [|done]. simpl in *. eapply rtc_r; [exact Hs|].
  assert (set_token w s' = set_rt_active (mutex_set
    (<[w := mkActive (ao_operation_id ao) (ao_request ao) true]> a) (rt_active s')) s') as <-.
  { unfold set_token. by rewrite Hact, Hl, Ha. }
  apply PToken.
Qed.

(** What a journal must satisfy for a process to begin on it. *)
Record sound_journal (j : Journal) : Prop := {
  sj_ok : journal_ok j;
  sj_marks : Forall mark_ok (entries j);
  sj_spec : disciplined R = true → Forall (entry_spec wl plain_request) (entries j);
  sj_settled : strict R → plans R = false → settled (entries j)
}.
Lemma safe_journal s : safe s → sound_journal (x_journal (rt_x s)).
Proof. intros []. by split. Qed.
Lemma new_runtime_safe uuid k j calls : sound_journal j → safe (runtime_new uuid k j calls).
Proof. intros []. by split. Qed.
Lemma new_runtime_inv uuid k j calls :
  sound_journal j → pool_inv (mkPool (runtime_new uuid k j calls) []) [].
Proof. intros Hj. split; [by apply new_runtime_safe|done..]. Qed.

(** A task that begins holds nothing. *)
Lemma spawn_inv w s ts gs :
  okl (work_prog w) Free [] (returned w) → pool_inv (mkPool s ts) gs →
  pool_inv (mkPool s (ts ++ [new_task w])) (gs ++ [Free]).
Proof.
  intros Hok [Hs Htasks Hd Hown]. split; simpl in *; [done| | |].
  - apply Forall2_app; [done|]. constructor; [|done]. split; [done| |done].
    exists []. split; [apply prefix_nil|done].
  - intros i k gi gk id Hi Hk Hid Hid'.
    apply lookup_app_Some in Hi as [Hi|[_ [_ <-]%list_lookup_singleton_Some]]; [|done].
    apply lookup_app_Some in Hk as [Hk|[_ [_ <-]%list_lookup_singleton_Some]]; [|done].
    by eapply Hd.
  - intros id l (i & g & Hi & Hg)%Hown. exists i, g. split; [|done]. by apply lookup_app_l_Some.
Qed.

Lemma okl_work w :
  match w with
  | WExecution _ _ r => allowed r
  | WPlan _ plan => plans R = true ∧ allowed_plan wl R plan
  | WRecovery _ => True
  end → okl (work_prog w) Free [] (returned w).
Proof.
  destruct w as [x b r|y plan|y]; cbn [work_prog]; [intros Hr|intros [Hp Hv]|intros _]; apply okl_bind;
    (eapply okl_mono; [first [by apply okl_internal | by apply okl_plan | apply okl_recover]|]);
    intros [a|h] g l [Hg Hq]; by split.
Qed.

(** A reopened journal has the entries it had. *)
Lemma reopened_ok j j' :
  sound_journal j → open no_open_faults (inner (conn j)) = Ok j' →
  sound_journal j' ∧ entries j' = entries j.
Proof.
  intros [Hok Hm Hs Hst] Ho. destruct (reopen_ok _ _ Hok Ho) as [Hok' He].
  split; [|done]. split; [done|by rewrite He..].
Qed.

Lemma pstep_inv p p' gs : pstep p p' → pool_inv p gs → ∃ gs', pool_inv p' gs'.
Proof.
  intros [x b r s ts Hr|y plan s ts Hpl Hv|y s ts|i w lb B m k c s ts _ Hi Ht|w s ts|s ts|
    io e s ts Hf Hwf|uuid k j s ts Ho] Hp.
  - exists (gs ++ [Free]). by apply spawn_inv; [apply okl_work|].
  - exists (gs ++ [Free]). by apply spawn_inv; [apply okl_work|].
  - exists (gs ++ [Free]). by apply spawn_inv; [apply okl_work|].
  - destruct (atom_inv i w lb B m k c s ts gs Hi Ht Hp) as (g & g' & _ & _ & _ & _ & Hp'). eauto.
  - exists gs. eapply inert_pool; [|done]. apply inert_token, Hp.
  - exists gs. eapply inert_pool; [|done]. apply inert_shutdown, Hp.
  - exists gs. eapply inert_pool; [|done]. apply inert_foreign; [done|done|apply Hp].
  - exists []. apply new_runtime_inv. eapply reopened_ok; [|exact Ho]. apply safe_journal, Hp.
Qed.

Lemma psteps_inv p p' gs : rtc pstep p p' → pool_inv p gs → ∃ gs', pool_inv p' gs'.
Proof.
  intros Hp. revert gs. induction Hp as [p|p1 p2 p3 H12 _ IH]; intros gs Hg; [eauto|].
  destruct (pstep_inv _ _ _ H12 Hg) as [gs2 Hg2]. by eapply IH.
Qed.

Lemma pool_reachable_inv uuid k p : rtc pstep (pool_init uuid k) p → ∃ gs, pool_inv p gs.
Proof.
  intros Hp. eapply psteps_inv; [exact Hp|].
  apply (new_runtime_inv _ _ _ []). pose proof (exec_init_inv wl plain_request) as Hi.
  split; [apply Hi|by apply Forall_nil|intros _; apply Hi|intros _ _; apply Hi].
Qed.

(** The journal only grows, over restarts too. *)
Lemma pstep_prefix p p' gs :
  pstep p p' → pool_inv p gs → records (pl_rt p) `prefix_of` records (pl_rt p').
Proof.
  intros [x b r s ts Hr|y plan s ts Hpl Hv|y s ts|i w lb B m k c s ts _ Hi Ht|w s ts|s ts|
    io e s ts Hf Hwf|uuid k j s ts Ho] Hp; simpl; try done.
  - by destruct (atom_inv i w lb B m k c s ts gs Hi Ht Hp) as (g & g' & _ & _ & _ & Hpre & _).
  - apply inert_token, Hp.
  - apply inert_shutdown, Hp.
  - apply commit_entry_prefix.
  - by destruct (reopened_ok _ _ (safe_journal _ (pi_safe _ _ Hp)) Ho) as [_ ->].
Qed.

Lemma psteps_prefix p p' gs :
  rtc pstep p p' → pool_inv p gs → records (pl_rt p) `prefix_of` records (pl_rt p').
Proof.
  intros Hp. revert gs. induction Hp as [p|p1 p2 p3 H12 _ IH]; intros gs Hg; [done|].
  destruct (pstep_inv _ _ _ H12 Hg) as [gs2 Hg2]. etrans; [by eapply pstep_prefix|by eapply IH].
Qed.

(** The task has returned the receipt [rc] for the operation [op]. *)
Definition returns (t : Task) (op : string) (rc : OperationReceipt) : Prop :=
  match t_work t, t_prog t with
  | WExecution _ _ r, Ret (Ok (OutExecution ex)) => rq_operation_id r = op ∧ re_receipt ex = rc
  | WPlan _ plan, Ret (Ok (OutPlan ce)) =>
      ∃ i step ex, cpl_steps plan !! i = Some step ∧ ce_completed_steps ce !! i = Some ex ∧
        step_op step = Some op ∧ re_receipt ex = rc
  | _, _ => False
  end.

Lemma returns_committed p gs t op rc :
  strict R → pool_inv p gs → t ∈ pl_tasks p → returns t op rc → committed_in op rc (records (pl_rt p)).
Proof.
  intros HR [_ Ht _ _] [i Hi]%list_elem_of_lookup_1 Hr.
  destruct (Forall2_lookup_l _ _ _ _ _ Ht Hi) as (g & _ & [_ (l & Hl & Hp) _]).
  eapply marked_in_prefix; [exact Hl|]. unfold returns in Hr. destruct t as [w prog c]; simpl in *.
  destruct w as [x b r|y plan|y], prog as [[o|]|]; try done; destruct o as [ex|ce|exs]; try done;
    destruct Hp as [_ Ha]; simpl in Ha.
  - destruct Hr as [<- <-]. by apply Ha.
  - destruct Hr as (k & step & ex & Hs & Hex & Ho & <-).
    destruct (Forall2_lookup_lr _ _ _ _ _ _ Ha Hs Hex) as (op' & Ho' & Hc). simplify_eq. by apply Hc.
Qed.

(** ** What holds of every interleaving *)

(** C8: in every interleaving of executions, plans, recoveries, cancellations and
    shutdowns, over any number of restarts, whenever two tasks have returned a
    receipt for the same operation, be it alone or as the step of a plan, at the
    same time or one long after the other, it is the same receipt, and it is the
    one that is committed; provided that callers use an operation identifier under
    one workload only and provider revisions that do not imitate a journal key, and
    that executions end before their leases run out ([strict]). *)
Theorem answers_agree uuid k p p' t t' op rc rc' :
  strict R → rtc pstep (pool_init uuid k) p → rtc pstep p p' →
  t ∈ pl_tasks p → t' ∈ pl_tasks p' → returns t op rc → returns t' op rc' →
  rc = rc' ∧ has_mark MCommit op rc (rt_x (pl_rt p')).
Proof.
  intros HR [gs Hp]%pool_reachable_inv Hs Ht Ht' Hr Hr'.
  destruct (psteps_inv _ _ _ Hs Hp) as [gs' Hp'].
  assert (has_mark MCommit op rc (rt_x (pl_rt p'))) as Hc.
  { eapply marked_in_prefix; [by eapply psteps_prefix|]. by eapply returns_committed. }
  split; [|done]. destruct HR as [Htm Hd].
  eapply (has_mark_unique wl plain_request); [by apply (safe_marks_inv wl R), Hp'|exact Hc|].
  by eapply returns_committed.
Qed.

(** What a task that waits for the provider holds. *)
Lemma waiting_holds p gs i t r :
  pool_inv p gs → pl_tasks p !! i = Some t → t_call t = Some r →
  ∃ id, gs !! i = Some (Hold r id Calling) ∧ holds_in (Hold r id Calling) (pl_rt p).
Proof.
  intros [_ Ht _ _] Hi Hc. destruct (Forall2_lookup_l _ _ _ _ _ Ht Hi) as (g & Hg & [Hh _ Hcall]).
  rewrite Hc in Hcall. destruct g as [|r' id []]; try done. injection Hcall as <-. by exists id.
Qed.

(** Two tasks that hold leases of one workload are one. *)
Lemma same_workload_same_task p gs i j r r' id id' st st' :
  timed R = true → pool_inv p gs →
  gs !! i = Some (Hold r id st) → gs !! j = Some (Hold r' id' st') →
  holds_in (Hold r id st) (pl_rt p) → holds_in (Hold r' id' st') (pl_rt p) →
  rq_workload_id r = rq_workload_id r' → i = j.
Proof.
  intros Ht [Hs _ Hd _] Hi Hj (_ & (l & Hl & Hw) & _) (_ & (l' & Hl' & Hw') & _) E.
  apply (Hd i j _ _ id Hi Hj); [done|]. simpl. f_equal. symmetry.
  apply (sf_table wl R _ Hs Ht id id' l l'); [done..|]. congruence.
Qed.

(** C6: in every interleaving of executions, plans, recoveries, cancellations and
    shutdowns, over any number of restarts, with any requests, provider calls that
    are outstanding at the same time are for requests of different workloads, as
    long as executions end before their leases run out ([timed]). *)
Theorem outstanding_calls_differ uuid k p i j ti tj r r' :
  timed R = true → rtc pstep (pool_init uuid k) p → i ≠ j →
  pl_tasks p !! i = Some ti → pl_tasks p !! j = Some tj →
  t_call ti = Some r → t_call tj = Some r' → rq_workload_id r ≠ rq_workload_id r'.
Proof.
  intros Ht [gs Hp]%pool_reachable_inv Hne Hi Hj Hci Hcj E. apply Hne.
  destruct (waiting_holds _ _ _ _ _ Hp Hi Hci) as (id & Hg & Hh).
  destruct (waiting_holds _ _ _ _ _ Hp Hj Hcj) as (id' & Hg' & Hh').
  by eapply same_workload_same_task.
Qed.

(** What a step adds to the provider's log. *)
Definition needed (r : OperationRequest) (p : PoolState) : Prop :=
  no_mark_in MReceipt (rq_workload_id r) (rq_operation_id r) (rt_x (pl_rt p)) ∧
  no_mark_in MCommit (rq_workload_id r) (rq_operation_id r) (rt_x (pl_rt p)) ∧
  ∀ t r', t ∈ pl_tasks p → t_call t = Some r' → rq_workload_id r' ≠ rq_workload_id r.

Lemma pstep_calls p p' gs :
  pstep p p' → pool_inv p gs →
  x_calls (rt_x (pl_rt p')) = x_calls (rt_x (pl_rt p)) ∨
  ∃ i t r, x_calls (rt_x (pl_rt p')) = rq_operation_id r :: x_calls (rt_x (pl_rt p)) ∧
    pl_tasks p' !! i = Some t ∧ t_call t = Some r ∧ allowed r ∧ (timed R = true → needed r p).
Proof.
  intros [x b r s ts Hr|y plan s ts Hpl Hv|y s ts|i w lb B m k c s ts _ Hi Ht|w s ts|s ts|
    io e s ts Hf Hwf|uuid k j s ts Ho] Hp; simpl; try by left.
  - destruct (atom_inv i w lb B m k c s ts gs Hi Ht Hp) as (g & g' & Hg & [Hh _ Hcall0] & Hc & _).
    destruct lb as [|w' gi|r|r]; simpl in Hc; [left; apply Hc..| |left; apply Hc].
    destruct Hc as (Hcalls & id & -> & ->). right. exists i, (mkTask w (k (m s).1) (Some r)), r. split_and!; [done| |done|apply Hh|].
    { apply list_lookup_insert_eq. by eapply lookup_lt_Some. }
    intros Htm. destruct Hh as (Hr & Hl & Hno). specialize (Hno Htm) as Hno'.
    split; [apply Hno'|]. split; [apply Hno'|].
    intros t r' [n Hn]%list_elem_of_lookup_1 Hcall E.
    destruct (waiting_holds _ _ _ _ _ Hp Hn Hcall) as (id' & Hg' & Hh').
    assert (i = n) as <- by by eapply (same_workload_same_task _ _ i n r r'). simplify_eq.
  - left. by apply (inert_token w s), Hp.
  - left. by apply (inert_shutdown s), Hp.
  - left. apply commit_entry_rest.
Qed.

(** C7: in every such interleaving, with any requests, a step that calls the
    provider calls it for the request of a task that then waits for it, whose
    workload has no receipt and no commit of the operation on record and no other
    call outstanding, as long as executions end before their leases run out
    ([timed]). *)
Theorem provider_called_once_needed uuid k p p' op :
  timed R = true → rtc pstep (pool_init uuid k) p → pstep p p' →
  x_calls (rt_x (pl_rt p')) = op :: x_calls (rt_x (pl_rt p)) →
  ∃ i t r, pl_tasks p' !! i = Some t ∧ t_call t = Some r ∧ rq_operation_id r = op ∧ needed r p.
Proof.
  intros Ht [gs Hp]%pool_reachable_inv Hstep Hc.
  destruct (pstep_calls _ _ _ Hstep Hp) as [Hsame|(i & t & r & Hnew & Hi & Hr & _ & Hn)].
  - rewrite Hsame in Hc. by apply (f_equal length), Nat.neq_succ_diag_r in Hc.
  - rewrite Hnew in Hc. injection Hc as <-. exists i, t, r. auto.
Qed.

(** C10: once the tasks of a runtime have all returned, its lease table is empty:
    whatever the requests, the interleaving and the time that passes, executions,
    plans and recoveries give back the leases they drew, on their error paths too,
    and after they ran out. The identifiers of leases are only assumed not to be
    drawn while they are in the table. *)
Theorem idle_pool_holds_no_lease uuid k p :
  rtc pstep (pool_init uuid k) p → forallb finished (pl_tasks p) = true →
  leases (rt_leases (pl_rt p)) = ∅.
Proof.
  intros [gs [Hs Ht _ Ho]]%pool_reachable_inv Hf.
  apply map_empty. intros id. apply eq_None_not_Some. intros [l Hl].
  destruct (Ho id l Hl) as (i & g & Hi & Hg).
  destruct (Forall2_lookup_r _ _ _ _ _ Ht Hi) as (t & Hti & [_ Hp _]).
  rewrite forallb_forall in Hf. specialize (Hf t). rewrite <-list_elem_of_In in Hf.
  assert (finished t = true) as Hft by (apply Hf; by eapply list_elem_of_lookup_2).
  destruct Hp as (l' & _ & Hp).
  unfold finished in Hft. destruct (t_prog t) as [[?|[]]|]; try done; destruct Hp as [Hp _];
    simpl in Hp; by subst g.
Qed.

(** C9: in the journal that any interleaving leaves behind, at any moment, with
    any requests and whatever time passes, every receipt and commit is on record
    once and can be read back. If callers and time are as assumed ([strict]) and no
    plans are among the tasks, moreover, it is a journal the executor could have
    written alone, in which no operation is intended again after its commit. *)
Theorem interleaved_journal_ok uuid k p :
  rtc pstep (pool_init uuid k) p →
  let j := x_journal (rt_x (pl_rt p)) in
  (∀ m op e e', e ∈ entries j → e' ∈ entries j → is_mark m op e → is_mark m op e' → e = e') ∧
  (∀ m op e, e ∈ entries j → is_mark m op e →
     ∃ rc : OperationReceipt, from_slice (je_payload e) = Some rc) ∧
  (strict R → plans R = false → exec_inv wl plain_request j).
Proof.
  intros [gs [Hs _ _ _]]%pool_reachable_inv j. split_and!.
  - intros. by eapply safe_mark_unique.
  - intros m op e He (_ & Ho & _). pose proof (sf_marks _ _ _ Hs) as Hm. rewrite Forall_forall in Hm.
    by destruct (Hm e He m Ho).
  - intros [Ht Hd] Hp. split; [by apply (safe_marks_inv wl R)|]. by apply (sf_settled _ _ _ Hs).
Qed.

(** Once a commit is on record, no provider is called for the operation. *)
Lemma committed_not_called p p' gs op rc :
  strict R → pool_inv p gs → committed_in op rc (records (pl_rt p)) → rtc pstep p p' →
  ∃ calls, x_calls (rt_x (pl_rt p')) = calls ++ x_calls (rt_x (pl_rt p)) ∧ op ∉ calls.
Proof.
  intros HR Hp Hc Hs. revert gs Hp Hc. induction Hs as [p|p p1 p2 Hstep _ IH]; intros gs Hp Hc.
  { exists []. split; [done|]. apply not_elem_of_nil. }
  destruct (pstep_inv _ _ _ Hstep Hp) as [gs1 Hp1].
  destruct (IH gs1 Hp1) as (calls & Heq & Hnot).
  { eapply marked_in_prefix; [by eapply pstep_prefix|exact Hc]. }
  destruct (pstep_calls _ _ _ Hstep Hp) as [Hsame|(i & t & r & Hnew & _ & _ & Hr & Hn)].
  - exists calls. by rewrite Heq, Hsame.
  - exists (calls ++ [rq_operation_id r]). rewrite Heq, Hnew, <-(assoc app). split; [done|].
    rewrite elem_of_app, list_elem_of_singleton. intros [?|E]; [done|].
    destruct HR as [Htm Hd]. destruct (Hn Htm) as (_ & Hno & _).
    destruct Hc as (e & He & Hm & _). rewrite E in Hm.
    by apply (no_mark_everywhere wl R MCommit r (pl_rt p) Hd (pi_safe _ _ Hp) Hr Hno e He).
Qed.

(** *** Schedules *)

(** Let the tasks named act in turn. *)
Definition act_of (i : nat) (p : PoolState) : option PoolState :=
  match pl_tasks p !! i with
  | Some (mkTask w (Atom lb m k) c) =>
      if decide (existsb crashed (pl_tasks p) = false ∧ timely lb (pl_rt p)) then
        Some (mkPool (m (pl_rt p)).2
          (<[i := mkTask w (k (m (pl_rt p)).1) (call_after lb c)]> (pl_tasks p)))
      else None
  | _ => None
  end.
Fixpoint schedule (order : list nat) (p : PoolState) : option PoolState :=
  match order with
  | [] => Some p
  | i :: order => p' ← act_of i p; schedule order p'
  end.

Lemma act_of_pstep i p p' : act_of i p = Some p' → pstep p p'.
Proof.
  unfold act_of. destruct p as [s ts]. simpl.
  destruct (ts !! i) as [[w [?|lb B m k] c]|] eqn:Hi; [done| |done].
  case_decide as Hd; [|done]. intros [= <-]. destruct Hd as [Hc Ht].
  by eapply PAtom.
Qed.
Lemma schedule_psteps order p p' : schedule order p = Some p' → rtc pstep p p'.
Proof.
  revert p. induction order as [|i order IH]; simpl; intros p Hp; [simplify_eq; done|].
  apply bind_Some in Hp as (p1 & H1' & H2'). eapply rtc_l; [by eapply act_of_pstep|by apply IH].
Qed.

(** The state a schedule leads to, if it can be followed. *)
Definition scheduled (order : list nat) (p : PoolState) : PoolState :=
  default p (schedule order p).
Definition followed (order : list nat) (p : PoolState) : bool :=
  bool_decide (is_Some (schedule order p)).
Lemma scheduled_psteps order p : followed order p = true → rtc pstep p (scheduled order p).
Proof.
  unfold followed, scheduled. rewrite bool_decide_eq_true. intros [p' Hp]. rewrite Hp.
  by eapply schedule_psteps.
Qed.
Lemma scheduled_pstep i p : followed [i] p = true → pstep p (scheduled [i] p).
Proof.
  unfold followed, scheduled. rewrite bool_decide_eq_true. intros [p' Hp]. rewrite Hp. simpl in *.
  apply bind_Some in Hp as (p1 & H1' & [= <-]). by eapply act_of_pstep.
Qed.
End Pool.

(** ** Concrete interleavings *)

#[local] Existing Instances rq_serde rc_serde fl_serde json_serde rq_serde_laws rc_serde_laws
  fl_serde_laws json_serde_laws trace_serde profile_serde ex_host ex_env ex_text ex_platform
  key_order.

(** Callers and time as assumed, and nothing assumed of them. *)
Definition strict_rules (plans : bool) : Rules := mkRules true true plans.
Definition free_rules : Rules := mkRules false false true.

Definition ex_task (t : Z) (lease op w : string) : Task :=
  new_task (WExecution (ex_run t lease None) false (ex_req op w)).
Definition ex_pool (ts : list Task) : PoolState := mkPool ex_rt0 ts.

(** Two workloads, each operation in a workload of its own name. *)
Definition ex_two : PoolState := ex_pool [ex_task 1 "l1" "a" "a"; ex_task 2 "l2" "b" "b"].
Definition own_workload (op : string) : string := op.

Lemma ex_two_reachable R : rtc (pstep own_workload R) (pool_init "u" Ready) ex_two.
Proof.
  eapply rtc_l; [by apply (PExecute own_workload R (ex_run 1 "l1" None) false (ex_req "a" "a"))|].
  eapply rtc_l; [by apply (PExecute own_workload R (ex_run 2 "l2" None) false (ex_req "b" "b"))|].
  done.
Qed.

(** Both wait for their providers. *)
Definition ex_both : list nat := replicate 18 0%nat ++ replicate 18 1%nat.
Definition calls_of (p : option PoolState) : list (option string) :=
  match p with Some p => (λ t, rq_operation_id <$> t_call t) <$> pl_tasks p | None => [] end.
Definition results_of (p : option PoolState) : list (option (result Halt string)) :=
  match p with
  | Some p => (λ t, match t_prog t with
                    | Ret (Ok (OutExecution e)) => Some (Ok (or_operation_id (re_receipt e)))
                    | Ret (Err h) => Some (Err h)
                    | _ => None
                    end) <$> pl_tasks p
  | None => []
  end.

Example two_calls_outstanding :
  calls_of (schedule (strict_rules true) ex_both ex_two) = [Some "a"; Some "b"].
Proof. vm_compute. reflexivity. Qed.

(** Two executions of the same operation: the second one is refused a lease, and
    the provider is called once. *)
Example same_operation_refused :
  let p := schedule (strict_rules true) (replicate 18 0%nat ++ replicate 4 1%nat)
             (ex_pool [ex_task 1 "l1" "op" "w"; ex_task 2 "l2" "op" "w"]) in
  calls_of p = [Some "op"; None] ∧
  results_of p = [None; Some (Err (Failed_ (resource_error (already_leased "w"))))].
Proof. vm_compute. done. Qed.

Definition ex_late : PoolState :=
  ex_pool [ex_task 0 "l1" "op" "w"; ex_task (seconds 31) "l2" "op" "w"].
(** When the first one takes longer than its lease of thirty seconds, both wait
    for the provider at the same time. *)
Example expired_lease_doubles_call :
  calls_of (schedule free_rules (replicate 18 0%nat ++ replicate 16 1%nat) ex_late) = [Some "op"; Some "op"].
Proof. vm_compute. reflexivity. Qed.

(** Operations of different workloads share one fencing domain: if the second
    is granted its lease before the first has validated its own, the first is
    refused although it holds a valid lease. *)
Example concurrent_grant_fences_other_workload :
  results_of (schedule (strict_rules true)
    (replicate 9 0%nat ++ replicate 9 1%nat ++ replicate 4 0%nat) ex_two) =
  [Some (Err (Failed_ (KResource "new resource lease failed fencing validation"))); None].
Proof. vm_compute. reflexivity. Qed.

Definition task_at (i : nat) (p : PoolState) : Task :=
  default (ex_task 0 "" "" "") (pl_tasks p !! i).
Lemma task_at_Some i p :
  (i < length (pl_tasks p))%nat → pl_tasks p !! i = Some (task_at i p).
Proof. unfold task_at. intros [t Ht]%lookup_lt_is_Some_2. by rewrite Ht. Qed.

Lemma ex_reached R order : followed R order ex_two = true →
  rtc (pstep own_workload R) (pool_init "u" Ready) (scheduled R order ex_two).
Proof. intros Hf. etrans; [apply ex_two_reachable|]. by apply scheduled_psteps. Qed.

Definition ex_timed : Rules := mkRules true false true.
Lemma outstanding_calls_differ_witness :
  let p := scheduled ex_timed ex_both ex_two in
  t_call (task_at 0 p) = Some (ex_req "a" "a") ∧ t_call (task_at 1 p) = Some (ex_req "b" "b") ∧
  "a" ≠ "b".
Proof.
  split; [vm_compute; reflexivity|]. split; [vm_compute; reflexivity|].
  apply (outstanding_calls_differ own_workload ex_timed "u" Ready (scheduled ex_timed ex_both ex_two) 0 1
    (task_at 0 (scheduled ex_timed ex_both ex_two)) (task_at 1 (scheduled ex_timed ex_both ex_two))
    (ex_req "a" "a") (ex_req "b" "b")).
  - reflexivity.
  - apply ex_reached. vm_compute. reflexivity.
  - discriminate.
  - apply task_at_Some. vm_compute. lia.
  - apply task_at_Some. vm_compute. lia.
  - vm_compute. reflexivity.
  - vm_compute. reflexivity.
Defined.

Lemma provider_called_once_needed_witness :
  let p := scheduled ex_timed (replicate 17 0%nat) ex_two in
  ∃ i t r, pl_tasks (scheduled ex_timed [0%nat] p) !! i = Some t ∧ t_call t = Some r ∧
    rq_operation_id r = "a" ∧ needed r p.
Proof.
  apply (provider_called_once_needed own_workload ex_timed "u" Ready
    (scheduled ex_timed (replicate 17 0%nat) ex_two)
    (scheduled ex_timed [0%nat] (scheduled ex_timed (replicate 17 0%nat) ex_two))).
  - reflexivity.
  - apply ex_reached. vm_compute. reflexivity.
  - apply scheduled_pstep. vm_compute. reflexivity.
  - vm_compute. reflexivity.
Defined.

(** The two executions to their ends, alternating while both wait. *)
Definition ex_done : list nat := ex_both ++ concat (replicate 13 [0%nat; 1%nat]).

Example both_committed :
  results_of (schedule (strict_rules true) ex_done ex_two) = [Some (Ok "a"); Some (Ok "b")].
Proof. vm_compute. reflexivity. Qed.

(** Two executions of one operation, the second after the lease of the first ran
    out: when both have ended, nothing is leased. The second finds the receipt of
    the first inserted between its own search for the key and its insertion, and
    fails. *)
Lemma ex_late_reachable : rtc (pstep own_workload free_rules) (pool_init "u" Ready) ex_late.
Proof.
  eapply rtc_l; [by apply (PExecute own_workload free_rules (ex_run 0 "l1" None) false (ex_req "op" "w"))|].
  eapply rtc_l;
    [by apply (PExecute own_workload free_rules (ex_run (seconds 31) "l2" None) false (ex_req "op" "w"))|].
  done.
Qed.
Definition ex_late_order : list nat :=
  replicate 18 0%nat ++ replicate 18 1%nat ++ replicate 13 0%nat ++ replicate 13 1%nat.
Example late_receipt_rejected :
  results_of (schedule free_rules ex_late_order ex_late) =
  [Some (Ok "op"); Some (Err (Failed_ (KJournal "AlreadyExists: Idempotency key already used")))].
Proof. vm_compute. reflexivity. Qed.

Lemma idle_pool_holds_no_lease_witness :
  let p := scheduled free_rules ex_late_order ex_late in
  length (pl_tasks p) = 2%nat ∧ leases (rt_leases (pl_rt p)) = ∅.
Proof.
  split; [vm_compute; reflexivity|].
  apply (idle_pool_holds_no_lease own_workload free_rules "u" Ready
    (scheduled free_rules ex_late_order ex_late)).
  - etrans; [apply ex_late_reachable|]. apply scheduled_psteps. vm_compute. reflexivity.
  - vm_compute. reflexivity.
Defined.

Lemma interleaved_journal_ok_witness :
  let j := x_journal (rt_x (pl_rt (scheduled (strict_rules false) ex_both ex_two))) in
  (0 < length (entries j))%nat ∧ exec_inv own_workload plain_request j.
Proof.
  split; [vm_compute; lia|].
  apply (interleaved_journal_ok own_workload (strict_rules false) "u" Ready
    (scheduled (strict_rules false) ex_both ex_two)); [|done|done].
  apply ex_reached. vm_compute. reflexivity.
Defined.

(** ** A plan among the tasks *)

(** The plan of [Continuity] with its first provider down, and an execution of the
    same operation. *)
Definition ex_delivered (delivery : DeliverySemantics) (rev : string) : OperationRequest :=
  mkRequest "op" "w" "s" "reference" PRC_Reference "m" "" "" "" "in" delivery
    (mkSnapshot "" rev "" "" "" "" "" "") 10.
Definition ex_delivered_plan (delivery : DeliverySemantics) : ContinuityPlan :=
  let candidate rev := mkFailover (ex_delivered delivery rev) (ex_manifest rev) in
  mkPlan "w" "proc"
    [mkStep "s" (mkRequirements true false false false false false false 0 false) false
       [candidate "p1"; candidate "p2"]].
Definition ex_race (delivery : DeliverySemantics) : PoolState :=
  ex_pool [new_task (WPlan ex_plan_io (ex_delivered_plan delivery));
           new_task (WExecution (ex_run 2 "l3" None) false (ex_delivered delivery "p3"))].

(** The plan fails over, the execution commits the operation before the plan
    records the new intent, and the plan then finds the commit. *)
Definition ex_race_order : list nat := replicate 38 0%nat ++ replicate 29 1%nat ++ replicate 7 0%nat.
Definition ex_raced (delivery : DeliverySemantics) : Runtime :=
  pl_rt (scheduled (strict_rules true) ex_race_order (ex_race delivery)).

(** Both return the one receipt, and the operation is committed, but it is pending
    again: every recovery from now on executes it, which finds the commit. *)
Example rebind_races_commit :
  forallb finished (pl_tasks (scheduled (strict_rules true) ex_race_order (ex_race Idempotent))) = true ∧
  x_calls (rt_x (ex_raced Idempotent)) = ["op"; "op"] ∧
  is_ok (committed_receipt ex_io (ex_rev "op" "p2") (rt_x (ex_raced Idempotent))).1 = true ∧
  (length <$> pending_operations ex_io (x_journal (rt_x (ex_raced Idempotent)))) = Ok 1%nat.
Proof. vm_compute. done. Qed.

(** If the operation may not be repeated, no recovery succeeds any more. *)
Example rebind_race_blocks_recovery :
  (runtime_recover ex_recover (ex_raced AtMostOnce)).1 = Err (Failed_ (KUnsafeRecovery "op")).
Proof. vm_compute. reflexivity. Qed.

(** Recovery refuses an operation that must not be repeated, but a plan does not:
    when the first provider fails with a retryable error after it was called, the
    operation is handed to the second. *)
Example at_most_once_failed_over :
  let '(res, s) := execute_continuously ex_plan_io (ex_delivered_plan AtMostOnce) ex_rt0 in
  is_ok res = true ∧ x_calls (rt_x s) = ["op"; "op"].
Proof. vm_compute. done. Qed.

(** The plan and the execution return the same receipt. *)
Definition one_workload (_ : string) : string := "w".
Lemma ex_race_reachable : rtc (pstep one_workload (strict_rules true)) (pool_init "u" Ready) (ex_race Idempotent).
Proof.
  eapply rtc_l.
  { apply (PPlan one_workload (strict_rules true) ex_plan_io (ex_delivered_plan Idempotent)); [done|].
    intros _. repeat constructor. }
  eapply rtc_l;
    [by apply (PExecute one_workload (strict_rules true) (ex_run 2 "l3" None) false (ex_delivered Idempotent "p3"))|].
  done.
Qed.

Lemma answers_agree_witness :
  let p := scheduled (strict_rules true) ex_race_order (ex_race Idempotent) in
  ex_rc "op" = ex_rc "op" ∧ has_mark MCommit "op" (ex_rc "op") (rt_x (pl_rt p)).
Proof.
  apply (answers_agree one_workload (strict_rules true) "u" Ready (scheduled (strict_rules true) ex_race_order (ex_race Idempotent))
    (scheduled (strict_rules true) ex_race_order (ex_race Idempotent))
    (task_at 0 (scheduled (strict_rules true) ex_race_order (ex_race Idempotent)))
    (task_at 1 (scheduled (strict_rules true) ex_race_order (ex_race Idempotent)))).
  - done.
  - etrans; [apply ex_race_reachable|]. apply scheduled_psteps. vm_compute. reflexivity.
  - reflexivity.
  - apply (list_elem_of_lookup_2 _ 0), task_at_Some. vm_compute. lia.
  - apply (list_elem_of_lookup_2 _ 1), task_at_Some. vm_compute. lia.
  - vm_compute. exists 0%nat. do 2 eexists. split_and!; reflexivity.
  - vm_compute. split; reflexivity.
Defined.
