(* ===== verification/Server.v ===== *)
(** * The daemon with requests of many connections in flight

    [serve] and [dispatch_request] of [daemon/nousd/src/main.rs] when connections
    are served at the same time: submissions and plans are tasks of [Pool], the
    extension and deletion requests are cut where they read before they write, and
    every other request is one step. That what happens is a history of the pool, of
    the extension protocol and of the catalog at once. *)

From S2P Require Import Prelude Errors Float64 Journal Lease Policy Placement Semantic Provider Contracts Nki.
From S2P Require Import Extensions Intelligence ControlPlane Executor Coordinator Refines Continuity History.
From S2P Require Import Daemon Startup Interleave Tasks Pool.
Local Open Scope Z_scope.

(** ** What the tasks write *)

(** At most one record, which is not one of the extension protocol. *)
Definition one_record `{JournalEnv} (j j' : Journal) : Prop :=
  j' = j ∨ ∃ io e, j' = (append_commit io e j).2 ∧ je_object_type e ∉ extension_types ∧ entry_wf e.

Section Records.
Context `{JournalEnv} `{TextPlatform} `{FloatPlatform} `{HostPlatform} `{HashOrder}.
Context `{Serde OperationRequest} `{Serde OperationReceipt} `{Serde DecisionTrace}.
Context `{Serde FencedLease} `{Serde ExecutionProfile} `{Serde Json}.

Notation journal s := (x_journal (rt_x s)).

Fixpoint writes {A} (p : Prog A) : Prop :=
  match p with
  | Ret _ => True
  | Atom lb m k => (∀ s, one_record (journal s) (journal (m s).2)) ∧ ∀ b, writes (k b)
  end.

Lemma writes_bind {A B} (p : Prog A) (f : A → Prog B) :
  writes p → (∀ a, writes (f a)) → writes (p ≫= f).
Proof.
  intros Hp Hf. induction p as [[a|h]|lb C m k IH]; [apply Hf|done|]. destruct Hp as [Hm Hk].
  split; [done|]. intros b. by apply IH.
Qed.
Lemma writes_settle {A} (p : Prog A) : writes p → writes (psettle p).
Proof. induction p as [|lb C m k IH]; [done|]. intros [Hm Hk]. split; [done|auto]. Qed.
Lemma writes_act {A} lb (m : M Runtime Halt A) :
  (∀ s, one_record (journal s) (journal (m s).2)) → writes (act lb m).
Proof. by split. Qed.
Lemma writes_ret {A} (r : result Halt A) : writes (Ret r).
Proof. done. Qed.
Lemma writes_mret {A} (a : A) : writes (mret a).
Proof. done. Qed.
Lemma writes_throw {A} h : writes (pthrow (A := A) h).
Proof. done. Qed.
Lemma writes_trigger crash p : writes (ptrigger crash p).
Proof. unfold ptrigger. by case_decide. Qed.

(** The actions, one critical section each. *)
Lemma one_append io e j :
  je_object_type e ∉ extension_types → entry_wf e → one_record j (append io e j).2.
Proof.
  intros Ho Hwf. destruct (append_or_commit io e j) as [->| ->]; [by left|right; by exists io, e].
Qed.
Lemma record_appended `{Serde T} io r t obj ph (payload : T) key s :
  obj ∉ extension_types →
  one_record (journal s) (journal (on_x (exec_append io r t obj ph payload key) s).2).
Proof.
  intros Ho. unfold on_x, zoom, exec_append. destruct (to_vec payload) as [b|]; [|by left].
  pose proof (one_append io (operation_entry r t obj ph b key) (journal s) Ho
    (operation_entry_wf r t obj ph b key)) as Hw.
  by destruct (append _ _ _) as [[]].
Qed.
Lemma leases_write_nothing {A} (m : M LeaseManager NousError A) s :
  journal (on_leases m s).2 = journal s.
Proof. unfold on_leases, zoom, map_err_M. by destruct (m (rt_leases s)) as [[]]. Qed.
Lemma reader_writes_nothing {A} (f : XState → result Halt A) s :
  journal (on_x (λ x, (f x, x)) s).2 = journal s.
Proof. done. Qed.

Lemma writes_leases {A} lb (m : M LeaseManager NousError A) : writes (act lb (on_leases m)).
Proof. apply writes_act. intros s. left. apply leases_write_nothing. Qed.
Lemma writes_nothing {A} lb (m : M Runtime Halt A) :
  (∀ s, journal (m s).2 = journal s) → writes (act lb m).
Proof. intros Hm. apply writes_act. intros s. left. apply Hm. Qed.

Lemma writes_entry io e :
  je_object_type e ∉ extension_types → entry_wf e → writes (entry_prog io e).
Proof.
  intros Ho Hwf. assert (writes (tau (commit_entry io e))) as Hcommit.
  { apply writes_act. intros s. right. exists io, e. split_and!; [|done|done].
    unfold commit_entry, on_x, zoom, map_err_M. simpl. by destruct (append_commit _ _ _) as [[]]. }
  unfold entry_prog. destruct (je_idempotency_key e); [|done].
  apply writes_bind; [by apply writes_nothing|]. by intros [].
Qed.
Lemma writes_append `{Serde T} io r t obj ph (payload : T) key :
  obj ∉ extension_types → writes (append_prog io r t obj ph payload key).
Proof.
  intros Ho. apply writes_bind; [apply writes_ret|intros b].
  apply writes_bind; [apply writes_entry; [done|apply operation_entry_wf]|intros n; apply writes_mret].
Qed.
Lemma writes_profile x p : writes (profile_prog x p).
Proof.
  apply writes_bind; [apply writes_ret|intros b]. apply writes_entry; [by vm_compute; set_solver|].
  unfold entry_wf, u64_ok, u64_max. simpl. lia.
Qed.

Ltac writes_step :=
  match goal with
  | |- writes (_ ≫= _) => apply writes_bind; [|intros]
  | |- writes (psettle _) => apply writes_settle
  | |- writes (act _ (on_leases _)) => apply writes_leases
  | |- writes (tau (on_leases _)) => apply writes_leases
  | |- writes (profile_prog _ _) => apply writes_profile
  | |- writes (append_prog _ _ _ _ _ _ _) => apply writes_append; by vm_compute; set_solver
  | |- writes (ptrigger _ _) => apply writes_trigger
  | |- writes (Ret _) => apply writes_ret
  | |- writes (mret _) => apply writes_mret
  | |- writes (pthrow _) => apply writes_throw
  | |- writes (let '(_, _) := ?x in _) => destruct x
  | |- writes (match ?x with _ => _ end) => destruct x
  | |- writes (act _ _) => apply writes_nothing; intros ?; try done
  | |- writes (tau _) => apply writes_nothing; intros ?; try done
  | Hw : ∀ _, _ |- writes _ => apply Hw
  | |- _ => progress cbv zeta
  end.

Lemma writes_internal x b r : writes (internal_prog x b r).
Proof.
  unfold internal_prog, acquire_prog, confirm_prog, grant_prog, drop_prog, execute_prog, obtain_prog,
    finish_prog, failure_prog, close_prog, return_prog, final_phase.
  repeat writes_step.
  all: unfold active_insert, active_remove; by destruct (lock _).
Qed.

Lemma writes_candidate c plan step op cand st : writes (candidate_prog c plan step op cand st).
Proof.
  pose proof @writes_internal. unfold candidate_prog, outcome_prog, rebind_if_failed_prog, rebind_prog.
  repeat writes_step.
Qed.
Lemma writes_candidates c plan step op i cands st :
  writes (candidates_prog c plan step op i cands st).
Proof.
  revert i st. induction cands as [|cand cands IH]; intros i st; cbn [candidates_prog]; [done|].
  pose proof writes_candidate. repeat writes_step.
Qed.
Lemma writes_steps y plan i steps completed failovers :
  writes (steps_prog y plan i steps completed failovers).
Proof.
  revert i completed failovers.
  induction steps as [|step steps IH]; intros i completed failovers; cbn [steps_prog]; [done|].
  pose proof writes_candidates. unfold step_prog. repeat writes_step.
Qed.
Lemma writes_revoke io requests orphans : writes (revoke_prog io requests orphans).
Proof. induction orphans as [|[id [w l]] rest IH]; cbn [revoke_prog]; repeat writes_step. done. Qed.
Lemma writes_recovered run rs : writes (recovered_prog run rs).
Proof.
  pose proof writes_internal. induction rs as [|r rs IH]; cbn [recovered_prog]; repeat writes_step; done.
Qed.

Lemma writes_work w : writes (work_prog w).
Proof.
  pose proof writes_internal. pose proof writes_steps. pose proof writes_revoke.
  pose proof writes_recovered. destruct w; unfold work_prog, plan_prog, recover_prog;
  repeat writes_step.
Qed.
End Records.

(** ** Requests in flight *)

(** What is left of a request that has read and will write. *)
Inductive Rest : Type :=
| RestAuthorize (es : list JournalEntry) (a : ExtensionAuthorizationRequest)
| RestPermit (es : list JournalEntry) (x : ExtensionExecutionRequest)
| RestRevoke (es : list JournalEntry) (r : ExtensionRevocationRequest)
| RestDelete (sel : AssetSelector) (generation : Z).

Record Server : Type := mkServer {
  sv_pool : PoolState;
  sv_integrity : Mutex (list Z);
  sv_catalog : Catalog;
  sv_parts : list (DispatchIo * NKIRequest * Rest);
  sv_ready : bool
}.
Definition daemon_of (v : Server) : Daemon :=
  mkDaemon (pl_rt (sv_pool v)) (sv_integrity v) (sv_catalog v).
(** The state after a dispatch, the tasks being as they were. *)
Definition set_daemon (d : Daemon) (v : Server) : Server :=
  mkServer (mkPool (dd_runtime d) (pl_tasks (sv_pool v))) (dd_integrity d) (dd_catalog d)
    (sv_parts v) (sv_ready v).
Definition set_parts (l : list (DispatchIo * NKIRequest * Rest)) (v : Server) : Server :=
  mkServer (sv_pool v) (sv_integrity v) (sv_catalog v) l (sv_ready v).
Definition set_tasks (ts : list Task) (v : Server) : Server :=
  mkServer (mkPool (pl_rt (sv_pool v)) ts) (sv_integrity v) (sv_catalog v) (sv_parts v) (sv_ready v).

Section Server.
Context `{JournalEnv} `{TextPlatform} `{FloatPlatform} `{HostPlatform} `{HashOrder}.
Context `{Serde OperationRequest} `{Serde OperationReceipt} `{Serde DecisionTrace}.
Context `{Serde FencedLease} `{Serde ExecutionProfile} `{Serde Json}.
Context `{!SerdeLaws OperationRequest} `{!SerdeLaws OperationReceipt}.
Context `{Serde ExtensionAdmissionRequest} `{Serde ExtensionAuthorizationRequest}
  `{Serde ExtensionExecutionRequest} `{Serde ExtensionRevocationRequest}
  `{Serde ExtensionAdmissionDecision} `{Serde ExtensionExecutionPermit}
  `{Serde AdmissionMaterial} `{Serde AuthorizationMaterial} `{Serde ExecutionMaterial}
  `{Serde RevocationMaterial}.
Context `{Serde Value} `{FromValue ProjectManifest} `{FromValue ModelProfile}
  `{FromValue ModelSpec} `{FromValue IntelligenceGraph} `{FromValue DatasetManifest}
  `{FromValue ExperimentManifest} `{FromValue (Contract ArtifactFields)} `{FromValue AssetSelector}.
Context `{Serde ContinuityPlan} `{Serde PutAssetRequest} `{Serde AssetSelector}
  `{Serde ListAssetsRequest} `{Serde ProviderProbeRequest}.
Context (wl : string → string) (R : Rules).

(** The task of a request that runs operations. *)
Definition work_of (io : DispatchIo) (q : NKIRequest) : option Work :=
  if decide (nk_method q = "SubmitWorkload") then
    r ← from_slice (nk_payload q);
    Some (WExecution (di_run io) false (within_deadline (di_now io) (nk_deadline_us q) r))
  else if decide (nk_method q = "SubmitContinuityPlan") then
    plan ← from_slice (nk_payload q); Some (WPlan (di_plan io) plan)
  else None.

(** Whether plans are among the tasks. *)
Definition begins (w : Work) : Prop := match w with WPlan _ _ => plans R = true | _ => True end.

(** How the dispatch of a request ends when its task has returned. *)
Definition reply (a : result Halt Outcome) : option (result Ending (NKIOutcome Payload)) :=
  match a with
  | Ok (OutExecution ex) => Some (Ok (Success (PExecution ex)))
  | Ok (OutPlan ce) => Some (Ok (Success (PContinuity ce)))
  | Ok (OutRecovered _) => None
  | Err (Failed_ e) => Some (Ok (kernel_error e))
  | Err (Crashed p) => Some (Err (Died p))
  end.

(** The requests that read the records of an extension, or an asset, before they
    write: up to the read, and from there on. *)
Definition read_extension (io : DispatchIo) (d : Daemon) (id : string) : option (list JournalEntry) :=
  result_ok (read_workload (di_read io) (daemon_journal d) (extension_workload id)).
Definition authorize_read (io : DispatchIo) (q : NKIRequest) (d : Daemon) : option Rest :=
  a ← from_slice (nk_payload q); _ ← result_ok (validate_authorization a);
  es ← read_extension io d (ea_extension_id (eu_admission a)); Some (RestAuthorize es a).
Definition permit_read (io : DispatchIo) (q : NKIRequest) (d : Daemon) : option Rest :=
  x ← from_slice (nk_payload q); _ ← result_ok (validate_execution x);
  es ← read_extension io d (ex_extension_id x); Some (RestPermit es x).
Definition revoke_read (io : DispatchIo) (q : NKIRequest) (d : Daemon) : option Rest :=
  r ← from_slice (nk_payload q); _ ← result_ok (validate_revocation r);
  es ← read_extension io d (er_extension_id r); Some (RestRevoke es r).
Definition delete_read (io : DispatchIo) (q : NKIRequest) (d : Daemon) : option Rest :=
  payload ← from_slice (nk_payload q);
  sel ← value_get payload "selector" ≫= from_value;
  generation ← value_get payload "expected_generation" ≫= value_as_u64;
  _ ← result_ok (delete_check (di_catalog_read io) (dd_catalog d) sel generation);
  Some (RestDelete sel generation).
Definition first_part (io : DispatchIo) (q : NKIRequest) (d : Daemon) : option Rest :=
  if decide (nk_method q = "AuthorizeExtension") then authorize_read io q d
  else if decide (nk_method q = "AuthorizeExtensionExecution") then permit_read io q d
  else if decide (nk_method q = "RevokeExtension") then revoke_read io q d
  else if decide (nk_method q = "DeleteControlAsset") then delete_read io q d
  else None.
Definition second_part (io : DispatchIo) (q : NKIRequest) (rest : Rest) : Arm :=
  match rest with
  | RestAuthorize es a => on_extensions (authorize_after es (di_write io) q a)
  | RestPermit es x => on_extensions (permit_after es (di_write io) (di_now io) q x)
  | RestRevoke es r => on_extensions (revoke_after es (di_write io) q r)
  | RestDelete sel generation =>
      on_catalog (delete_row (di_catalog io) sel generation) (λ _, PDeleted (as_kind sel) (as_id sel))
  end.

(** ** The server

    A process opens what the last one left and begins to recover; once it has,
    it listens. Then requests begin, tasks act, requests that have read write,
    other requests are answered, in any order, until a signal is caught or the
    process ends. *)
Inductive sstep : Server → Server → Prop :=
| SStart uuid k j c failure y corrupted v :
    open no_open_faults (inner (conn (daemon_journal (daemon_of v)))) = Ok j →
    catalog_open failure (sv_catalog v) = Ok c →
    sstep v (mkServer (mkPool (runtime_new uuid k j (x_calls (rt_x (pl_rt (sv_pool v)))))
                         [new_task (WRecovery y)]) (mutex_new corrupted) c [] false)
| SListen w exs call v :
    pl_tasks (sv_pool v) !! 0%nat = Some (mkTask w (Ret (Ok (OutRecovered exs))) call) →
    sstep v (mkServer (sv_pool v) (sv_integrity v) (sv_catalog v) (sv_parts v) true)
| SBegin io q w v :
    sv_ready v = true → (disciplined R = true → request_ok wl q) → work_of io q = Some w →
    begins w →
    sstep v (set_tasks (pl_tasks (sv_pool v) ++ [new_task w]) v)
| SAct i w lb B (m : M Runtime Halt B) k call v :
    let s := pl_rt (sv_pool v) in
    let ts := pl_tasks (sv_pool v) in
    existsb crashed ts = false → ts !! i = Some (mkTask w (Atom lb m k) call) → timely R lb s →
    sstep v (mkServer (mkPool (m s).2 (<[i := mkTask w (k (m s).1) (call_after lb call)]> ts))
               (sv_integrity v) (sv_catalog v) (sv_parts v) (sv_ready v))
| SRead io q rest v :
    sv_ready v = true → first_part io q (daemon_of v) = Some rest →
    sstep v (set_parts (sv_parts v ++ [(io, q, rest)]) v)
| SWrite i io q rest v :
    sv_parts v !! i = Some (io, q, rest) →
    sstep v (set_parts (delete i (sv_parts v)) (set_daemon (second_part io q rest (daemon_of v)).2 v))
| SDispatch io q v :
    sv_ready v = true → work_of io q = None →
    sstep v (set_daemon (dispatch_request io q (daemon_of v)).2 v)
| SSignal v :
    sstep v (mkServer (mkPool (shutdown_begin (pl_rt (sv_pool v))).2 (pl_tasks (sv_pool v)))
               (sv_integrity v) (sv_catalog v) (sv_parts v) (sv_ready v)).

(** A host without a journal and a catalog. *)
Definition server_init (uuid : string) (k : KernelState) : Server :=
  mkServer (pool_init uuid k) (mutex_new []) catalog_new [] false.

(** ** One request alone *)

Ltac find_arm Hm :=
  unfold dispatch_request, arms; rewrite Hm; cbn [list_find fst];
  repeat first [rewrite decide_True by done | rewrite decide_False by done];
  cbn [fmap option_fmap option_map prod_map fst snd].

Lemma dispatch_method io q :
  (nk_method q = "SubmitContinuityPlan" → dispatch_request io q = submit_continuity_plan io q) ∧
  (nk_method q = "AuthorizeExtension" →
   dispatch_request io q = on_extensions (authorize_extension (di_read io) (di_write io) q)) ∧
  (nk_method q = "AuthorizeExtensionExecution" →
   dispatch_request io q = on_extensions (permit_execution (di_read io) (di_write io) (di_now io) q)) ∧
  (nk_method q = "RevokeExtension" →
   dispatch_request io q = on_extensions (revoke_extension (di_read io) (di_write io) q)) ∧
  (nk_method q = "DeleteControlAsset" → dispatch_request io q = delete_control_asset io q).
Proof. split_and!; intros Hm; by find_arm Hm. Qed.

Lemma run_wrapped {A} (p : Prog A) (f : A → Outcome) s :
  run (a ← p; mret (f a)) s =
  match run p s with (Ok a, s') => (Ok (f a), s') | (Err h, s') => (Err h, s') end.
Proof.
  revert s. induction p as [[a|h]|lb C m k IH]; intros s; [done|done|]. simpl.
  destruct (m s) as [b s']. apply IH.
Qed.

Lemma on_extensions_part h h' d :
  h (daemon_journal d) = h' (daemon_journal d) → on_extensions h d = on_extensions h' d.
Proof. intros Hh. unfold on_extensions. by rewrite Hh. Qed.
Lemma authorize_part io_read io q a es j :
  from_slice (nk_payload q) = Some a → validate_authorization a = Ok tt →
  read_workload io_read j (extension_workload (ea_extension_id (eu_admission a))) = Ok es →
  authorize_extension io_read io q j = authorize_after es io q a j.
Proof.
  intros Hq Hv Hr. unfold authorize_extension. rewrite Hq, Hv. unfold mbind, M_bind, ext_read.
  by rewrite Hr.
Qed.
Lemma permit_part io_read io now q x es j :
  from_slice (nk_payload q) = Some x → validate_execution x = Ok tt →
  read_workload io_read j (extension_workload (ex_extension_id x)) = Ok es →
  permit_execution io_read io now q j = permit_after es io now q x j.
Proof.
  intros Hq Hv Hr. unfold permit_execution. rewrite Hq, Hv. unfold mbind, M_bind, ext_read.
  by rewrite Hr.
Qed.
Lemma revoke_part io_read io q x es j :
  from_slice (nk_payload q) = Some x → validate_revocation x = Ok tt →
  read_workload io_read j (extension_workload (er_extension_id x)) = Ok es →
  revoke_extension io_read io q j = revoke_after es io q x j.
Proof.
  intros Hq Hv Hr. unfold revoke_extension. rewrite Hq, Hv. unfold mbind, M_bind, ext_read.
  by rewrite Hr.
Qed.
Lemma delete_part io q d payload sel g :
  from_slice (nk_payload q) = Some payload →
  value_get payload "selector" ≫= from_value = Some sel →
  value_get payload "expected_generation" ≫= value_as_u64 = Some g →
  delete_check (di_catalog_read io) (dd_catalog d) sel g = Ok tt →
  delete_control_asset io q d = second_part io q (RestDelete sel g) d.
Proof.
  intros Hq Hs Hg Hd. unfold delete_control_asset, json_payload. rewrite Hq.
  unfold mbind at 1, M_bind. simpl. rewrite Hs, Hg. unfold on_catalog, catalog_delete.
  by rewrite Hd.
Qed.

(** Alone, a request is what the dispatcher makes of it: a submission or a
    plan whose task is not interrupted, and a request that reads and then writes
    with nothing in between, end with the reply and the state of
    [dispatch_request]. *)
Theorem request_alone io q d :
  match work_of io q with
  | Some w => let '(a, s) := run (work_prog w) (dd_runtime d) in
              reply a = Some (dispatch_request io q d).1 ∧
              (dispatch_request io q d).2 = set_dd_runtime s d
  | None => match first_part io q d with
            | Some rest => dispatch_request io q d = second_part io q rest d
            | None => True
            end
  end.
Proof.
  destruct (dispatch_method io q) as (Dplan & Dauth & Dperm & Drev & Ddel).
  destruct (work_of io q) as [w|] eqn:Hw.
  - unfold work_of in Hw. case_decide as Hm; [|case_decide as Hm'; [|done]].
    + apply bind_Some in Hw as (r & Hr & [= <-]). rewrite dispatch_submit by done.
      unfold submit_workload, typed_payload, on_runtime. rewrite Hr. cbn [work_prog].
      rewrite run_wrapped, internal_implements. unfold execute_request.
      by destruct (execute_internal _ _ _ _) as [[ex|[e|p]] s].
    + apply bind_Some in Hw as (plan & Hp & [= <-]). rewrite Dplan by done.
      unfold submit_continuity_plan, typed_payload, on_runtime. rewrite Hp. cbn [work_prog].
      rewrite run_wrapped, plan_implements.
      by destruct (execute_continuously _ _ _) as [[ex|[e|p]] s].
  - clear Hw Dplan. destruct (first_part io q d) as [rest|] eqn:Hf; [|done].
    unfold first_part, authorize_read, permit_read, revoke_read, delete_read, read_extension in Hf.
    repeat case_decide; [| | | |done];
      repeat (apply bind_Some in Hf as (? & ?%result_ok_Some & Hf) ||
              apply bind_Some in Hf as (? & ? & Hf)); injection Hf as <-;
      repeat match goal with u : unit |- _ => destruct u end.
    + rewrite Dauth by done. apply on_extensions_part. by eapply authorize_part.
    + rewrite Dperm by done. apply on_extensions_part. by eapply permit_part.
    + rewrite Drev by done. apply on_extensions_part. by eapply revoke_part.
    + rewrite Ddel by done. by eapply delete_part.
Qed.

(** ** What happens is a history of each component *)

Notation pool_step := (pstep wl R).

Lemma one_record_step j j' : one_record j j' → rtc any_step j j'.
Proof.
  intros [->|(io & e & -> & Ht & Hwf)]; [done|].
  destruct (commit_or_append io e j) as [->|[io' ->]]; [done|].
  apply rtc_once. exists None. by apply XOther.
Qed.
Lemma cancel_writes io w s :
  one_record (x_journal (rt_x s)) (x_journal (rt_x (cancel io w s).2)).
Proof.
  unfold cancel. destruct (lock _) as [a|]; [|by left]. destruct (a !! w) as [ao|]; [|by left].
  pose proof (record_appended io (ao_request ao) Transition "Workload" "CANCELLATION_REQUESTED"
    (JObj [("workload_id", JStr w); ("operation_id", JStr (ao_operation_id ao))])
    (Some (cancel_key (ao_operation_id ao))) s ltac:(by vm_compute; set_solver)) as Hw.
  by destruct (on_x _ s) as [[]].
Qed.

(** What a request that is not a task does. *)
Definition drel (d d' : Daemon) : Prop :=
  (∀ ts, rtc pool_step (mkPool (dd_runtime d) ts) (mkPool (dd_runtime d') ts)) ∧
  rtc any_step (daemon_journal d) (daemon_journal d') ∧
  rtc cstep (dd_catalog d) (dd_catalog d').
Definition dinv (d : Daemon) : Prop := ∃ ts gs, pool_inv wl R (mkPool (dd_runtime d) ts) gs.

Lemma dinv_journal d : dinv d → journal_ok (daemon_journal d).
Proof. intros (ts & gs & Hp). apply Hp. Qed.

#[local] Instance drel_kept : Kept dinv drel.
Proof.
  split; [split|].
  - intros d. by split_and!.
  - intros x y z (Hp & Hx & Hc) (Hp' & Hx' & Hc'). split_and!;
      [intros ts; by etrans; [apply Hp|apply Hp']|by etrans..].
  - intros d d' (Hp & _ & _) (ts & gs & Hi). destruct (psteps_inv _ _ _ _ _ (Hp ts) Hi) as [gs' ?].
    by exists ts, gs'.
Qed.

Lemma records_only_pool (h : Handler) d :
  records_only h →
  ∀ ts, rtc pool_step (mkPool (dd_runtime d) ts)
    (mkPool (dd_runtime (set_daemon_journal (h (daemon_journal d)).2 d)) ts).
Proof.
  intros Hh ts.
  assert (mkPool (dd_runtime (set_daemon_journal (daemon_journal d) d)) ts =
          mkPool (dd_runtime d) ts) as Hsame by (by destruct d as [[? [] ? ?] ? ?]).
  destruct (Hh (daemon_journal d)) as [->|(io & e & -> & Hr)]; [by rewrite Hsame|].
  destruct (append_or_commit io e (daemon_journal d)) as [->| ->]; [by rewrite Hsame|].
  assert (dd_runtime (set_daemon_journal (append_commit io e (daemon_journal d)).2 d) =
          (commit_entry io e (dd_runtime d)).2) as ->.
  { unfold commit_entry, on_x, zoom, map_err_M, daemon_journal. simpl.
    by destruct (append_commit _ _ _) as [[]]. }
  apply rtc_once, PForeign; [by apply extension_record_foreign|apply Hr].
Qed.

#[local] Instance drel_laws : ArmLaws dinv drel.
Proof.
  split.
  - apply _.
  - intros d l. by split_and!.
  - intros d c Hc. by split_and!.
  - intros d io q h Hd Hh. pose proof (dinv_journal d Hd) as Hj.
    destruct (handlers_step (di_read io) (di_write io) (di_now io) q _ Hj) as (Ha & Hu & Hp & Hr).
    split_and!; [apply records_only_pool; by eapply handler_records| |done].
    unfold ext_handlers in Hh. rewrite !elem_of_cons, elem_of_nil in Hh.
    by destruct Hh as [->|[->|[->|[->|[]]]]].
  - intros d io w Hd. split_and!; [|apply one_record_step, cancel_writes|done].
    intros ts. apply cancel_psteps.
Qed.

Lemma dispatch_drel io q : work_of io q = None → keeps dinv drel (dispatch_request io q).
Proof.
  intros Hw. unfold work_of in Hw. apply dispatch_keep; intros Hm; rewrite Hm in Hw; simpl in Hw;
    apply keep_typed; intros x Hx; by rewrite Hx in Hw.
Qed.

(** What was read is still on record. *)
Definition rest_ok (j : Journal) (rest : Rest) : Prop :=
  match rest with
  | RestAuthorize es a => es ⊆ entries j ∧ validate_authorization a = Ok tt
  | RestPermit es _ | RestRevoke es _ => es ⊆ entries j
  | RestDelete _ _ => True
  end.
Lemma rest_ok_prefix j j' rest :
  entries j `prefix_of` entries j' → rest_ok j rest → rest_ok j' rest.
Proof.
  intros Hp. assert (entries j ⊆ entries j') as Hs.
  { destruct Hp as [l ->]. set_solver. }
  destruct rest; simpl; [intros [? ?]; split; [by etrans|done]|by intros; etrans..|done].
Qed.

Lemma first_part_ok io q d rest :
  dinv d → first_part io q d = Some rest → rest_ok (daemon_journal d) rest.
Proof.
  intros Hd%dinv_journal Hf. unfold first_part, authorize_read, permit_read, revoke_read, delete_read, read_extension in Hf.
  repeat case_decide; [| | | |done];
    repeat (apply bind_Some in Hf as (? & ?%result_ok_Some & Hf) ||
            apply bind_Some in Hf as (? & ? & Hf)); injection Hf as <-;
    repeat match goal with u : unit |- _ => destruct u end; simpl; try done;
    [split; [|done]| |]; by eapply read_workload_elem.
Qed.

Lemma second_part_drel io q rest d :
  dinv d → rest_ok (daemon_journal d) rest → drel d (second_part io q rest d).2.
Proof.
  intros Hd Hr.
  assert (∀ h, records_only h → any_step (daemon_journal d) (h (daemon_journal d)).2 →
    drel d (on_extensions h d).2) as Hext.
  { intros h Hh Hs. assert (drel d (set_daemon_journal (h (daemon_journal d)).2 d)) as Hd'.
    { split_and!; [by apply records_only_pool|by apply rtc_once|done]. }
    unfold on_extensions. by destruct (h (daemon_journal d)) as [[[]|] j]. }
  destruct rest as [es a|es x|es r|sel g]; simpl in *.
  - destruct Hr as [Hs Hv]. apply Hext; [unfold authorize_after; records_auto|].
    eexists. by apply XAuthorize.
  - apply Hext; [unfold permit_after; records_auto|]. eexists. by apply XPermit.
  - apply Hext; [unfold revoke_after; records_auto|]. eexists. by apply XRevoke.
  - apply keep_on_catalog; [|done]. intros c. eapply rtc_once, cstep_delete, surjective_pairing.
Qed.

(** From the pool [p0] on. *)
Record server_inv (p0 : PoolState) (v : Server) : Prop := {
  si_start : ∃ gs, pool_inv wl R p0 gs;
  si_pool : rtc pool_step p0 (sv_pool v);
  si_journal : rtc any_step fresh_journal (daemon_journal (daemon_of v));
  si_catalog : rtc cstep catalog_new (sv_catalog v);
  si_writes : Forall (λ t, writes (t_prog t)) (pl_tasks (sv_pool v));
  si_parts : Forall (λ x, rest_ok (daemon_journal (daemon_of v)) x.2) (sv_parts v)
}.

Lemma server_pool_inv p0 v : server_inv p0 v → ∃ gs, pool_inv wl R (sv_pool v) gs.
Proof. intros [[gs Hp0] Hp _ _ _ _]. by eapply psteps_inv. Qed.

Lemma server_dinv p0 v : server_inv p0 v → dinv (daemon_of v).
Proof.
  intros [gs Hi]%server_pool_inv.
  destruct v as [[s ts] ? ? ? ?]. by exists ts, gs.
Qed.

Lemma parts_prefix j j' l :
  entries j `prefix_of` entries j' →
  Forall (λ x : DispatchIo * NKIRequest * Rest, rest_ok j x.2) l → Forall (λ x, rest_ok j' x.2) l.
Proof. intros Hp Hl. eapply Forall_impl; [exact Hl|]. intros x. by apply rest_ok_prefix. Qed.

(** A step that leaves the tasks alone. *)
Lemma drel_inv p0 v d parts :
  server_inv p0 v → drel (daemon_of v) d → parts ⊆ sv_parts v →
  server_inv p0 (set_parts parts (set_daemon d v)).
Proof.
  intros Hv (Hd & Hx & Hk) Hs. pose proof (server_pool_inv _ _ Hv) as [gs Hi].
  destruct Hv as [H0' Hp Hj Hc Hw Hr]. pose proof (Hd (pl_tasks (sv_pool v))) as Hsteps.
  assert (mkPool (dd_runtime (daemon_of v)) (pl_tasks (sv_pool v)) = sv_pool v) as Heq
    by (by destruct v as [[] ? ? ? ?]). rewrite Heq in Hsteps.
  pose proof (psteps_prefix _ _ _ _ _ Hsteps Hi) as Hpre.
  split; simpl; [done|etrans; [exact Hp|exact Hsteps]|by etrans|by etrans|done|].
  eapply parts_prefix; [exact Hpre|]. rewrite Forall_forall in Hr |- *. intros x Hin. by apply Hr, Hs.
Qed.

Lemma sstep_inv p0 v v' : sstep v v' → server_inv p0 v → server_inv p0 v'.
Proof.
  intros Hs Hv. pose proof (server_dinv _ _ Hv) as Hd.
  pose proof (server_pool_inv _ _ Hv) as [gs Hgs]. destruct Hs as
    [uuid' k' j c failure y corrupted v Ho Hc|w exs call v Hi|io q w v Hr Hq Hw Hpl
    |i w lb B m kk call v s ts Hcr Hi Ht|io q rest v Hr Hf|i io q rest v Hi|io q v Hr Hw|v].
  - destruct Hv as [H0' Hp Hj Hk Hw Hr]. split; simpl in *.
    + done.
    + eapply rtc_r; [|apply (PRecover wl R y _ [])]. eapply rtc_r; [exact Hp|].
      destruct v as [[] ? ? ? ?]. by apply PRestart.
    + eapply rtc_r; [exact Hj|]. exists None. by apply XReopen.
    + eapply rtc_r; [exact Hk|]. by eapply cstep_reopen.
    + constructor; [apply writes_work|done].
    + constructor.
  - by destruct Hv.
  - destruct Hv as [H0' Hp Hj Hk Hwr Hparts]. split; simpl; [done| |done|done| |done].
    + eapply rtc_r; [exact Hp|]. destruct (sv_pool v) as [s ts]. unfold work_of in Hw.
      case_decide as Hm; [|case_decide as Hm'; [|done]].
      * apply bind_Some in Hw as (r & Hx & [= <-]). apply PExecute. intros Hdis.
        apply within_deadline_valid. by apply (proj1 (Hq Hdis)).
      * apply bind_Some in Hw as (plan & Hx & [= <-]). apply PPlan; [done|]. intros Hdis.
        by apply (proj2 (Hq Hdis)).
    + apply Forall_app_2; [done|]. constructor; [apply writes_work|done].
  - destruct Hv as [H0' Hp Hj Hk Hwr Hparts].
    assert (pool_step (sv_pool v)
      (mkPool (m s).2 (<[i := mkTask w (kk (m s).1) (call_after lb call)]> ts))) as Hstep.
    { subst s ts. destruct v as [[] ? ? ? ?]. by eapply PAtom. }
    pose proof (Forall_lookup_1 _ _ _ _ Hwr Hi) as [Hm Hkk].
    split; simpl.
    + done.
    + by eapply rtc_r.
    + etrans; [exact Hj|]. apply one_record_step, Hm.
    + done.
    + apply Forall_insert; [done|apply Hkk].
    + eapply parts_prefix; [|exact Hparts]. exact (pstep_prefix _ _ _ _ _ Hstep Hgs).
  - pose proof (first_part_ok _ _ _ _ Hd Hf). destruct Hv as [H0' Hp Hj Hk Hwr Hparts].
    split; simpl; [done..|]. apply Forall_app_2; [done|]. by constructor.
  - pose proof (Forall_lookup_1 _ _ _ _ (si_parts _ _ Hv) Hi) as Hrest.
    apply drel_inv; [done|by apply second_part_drel|].
    intros x Hx. eapply elem_of_submseteq; [exact Hx|]. apply sublist_submseteq, sublist_delete.
  - apply (drel_inv _ _ _ (sv_parts v)); [done|by apply dispatch_drel|done].
  - apply (drel_inv _ v (set_dd_runtime (shutdown_begin (pl_rt (sv_pool v))).2 (daemon_of v))
      (sv_parts v)); [done| |done].
    split_and!; [intros ts; apply rtc_once, PShutdown| |done].
    apply one_record_step. left. simpl. unfold shutdown_begin.
    by destruct (lock (rt_state _)); simpl; destruct (lock _).
Qed.

Lemma server_reachable_inv uuid k v :
  rtc sstep (server_init uuid k) v → server_inv (pool_init uuid k) v.
Proof.
  revert v. apply rtc_ind_r; [|intros v v' _ Hs Hi; by eapply sstep_inv].
  split; [|done..]. by apply (pool_reachable_inv wl R uuid k).
Qed.

(** While requests of any number of connections are in flight, the runtime and its
    tasks are those of an interleaving of the pool under the same assumptions, the
    journal is one the extension protocol can produce, and the catalog one that
    writes and deletions can produce. *)
Theorem server_refines uuid k v :
  rtc sstep (server_init uuid k) v →
  rtc pool_step (pool_init uuid k) (sv_pool v) ∧
  rtc any_step fresh_journal (daemon_journal (daemon_of v)) ∧
  rtc cstep catalog_new (sv_catalog v).
Proof. by intros [_ Hp Hj Hk _ _]%server_reachable_inv. Qed.

Lemma ssteps_inv p0 v v' : rtc sstep v v' → server_inv p0 v → server_inv p0 v'.
Proof. induction 1 as [v1|v1 v2 v3 Hstep _ IH]; [done|]. intros Hv. apply IH. by eapply sstep_inv. Qed.

(** ** What an answer is worth *)

(** C5: A workload a daemon answered runs once. When a submission, or a plan with a
    step for it, returned a receipt for an operation, then whatever happens
    afterwards (submissions of the same operation and any other requests, all in
    flight at once, signals, ends of the process at any time, new starts and their
    recovery), no provider is called for that operation again; provided that callers
    use an operation identifier under one workload only and provider revisions that
    do not imitate a journal key, and that executions end before their leases run
    out ([strict]). *)
Theorem answered_workload_runs_once uuid k v v' t op rc :
  strict R → rtc sstep (server_init uuid k) v →
  t ∈ pl_tasks (sv_pool v) → returns t op rc → rtc sstep v v' →
  ∃ calls, x_calls (rt_x (pl_rt (sv_pool v'))) = calls ++ x_calls (rt_x (pl_rt (sv_pool v))) ∧
    op ∉ calls.
Proof.
  intros HR Hv%server_reachable_inv Ht Hret Hs. destruct (server_pool_inv _ _ Hv) as [gs Hgs].
  assert (server_inv (sv_pool v) v') as [_ Hp _ _ _ _].
  { eapply ssteps_inv; [exact Hs|]. destruct Hv. split; [by eexists|done..]. }
  eapply (committed_not_called wl R); [done|exact Hgs|by eapply returns_committed|exact Hp].
Qed.

(** ** What a start is worth *)

(** Recovery of a process that just began, with nothing else running: what was
    pending is committed. The assumption about time holds of it by itself. *)
Definition alone_rules : Rules := mkRules true true true.
Lemma alone_journal j : disciplined R = true → sound_journal wl R j → sound_journal wl alone_rules j.
Proof. intros Hd [Hok Hm Hs Hst]. split; [done|done|intros _; by apply Hs|done]. Qed.

Lemma revoke_alone io requests orphans s a s' :
  safe wl alone_rules s → only_own Free s → revoke_loop io requests orphans s = (a, s') →
  safe wl alone_rules s' ∧ only_own Free s'.
Proof.
  intros Hs Ho Hr. pose proof (revoke_implements io requests orphans s) as Hrun. rewrite Hr in Hrun.
  destruct (run_okl wl alone_rules (revoke_prog io requests orphans) Free []
    (λ a g l, g = Free) s) as (g & l & -> & _ & Hsafe & Hown); [|done|done|apply prefix_nil|done|].
  - apply okl_okp, okp_revoke. by intros.
  - by rewrite Hrun in Hsafe, Hown.
Qed.
Lemma recover_loop_alone run rs s exs s' :
  safe wl alone_rules s → only_own Free s → Forall (allowed wl alone_rules) rs →
  recover_loop run rs s = (Ok exs, s') →
  Forall2 (λ r ex, has_mark MCommit (rq_operation_id r) (re_receipt ex) (rt_x s')) rs exs.
Proof.
  intros Hs Ho Hv Hr. pose proof (recovered_implements run rs s) as Hrun. rewrite Hr in Hrun.
  destruct (run_okl wl alone_rules (recovered_prog run rs) Free []
    (λ a g l, match a with Ok exs => executions_committed alone_rules l rs exs | Err _ => True end) s)
    as (g & l & Hc & Hl & _); [|done|done|apply prefix_nil|done|].
  - by apply okl_recovered.
  - rewrite Hrun in Hc, Hl. simpl in Hc, Hl. eapply Forall2_impl; [exact Hc|]. intros r ex Hm.
    eapply marked_in_prefix; [exact Hl|by apply Hm].
Qed.

Lemma recover_alone y uuid k j calls exs s' op r :
  disciplined R = true → sound_journal wl R j →
  runtime_recover y (runtime_new uuid k j calls) = (Ok exs, s') →
  pending_map (entries j) !! op = Some r → ∃ rc, has_mark MCommit op rc (rt_x s').
Proof.
  intros Hd Hj Hrec Hop. rewrite runtime_recover_scans in Hrec.
  pose proof (new_runtime_safe wl alone_rules uuid k j calls (alone_journal j Hd Hj)) as Hs.
  assert (only_own Free (runtime_new uuid k j calls)) as Ho by done.
  change (entries j) with (entries (x_journal (rt_x (runtime_new uuid k j calls)))) in Hop.
  set (s := runtime_new uuid k j calls) in *. clearbody s.
  apply M_bind_inv_ok in Hrec as ([requests active] & s1 & [= _ <-] & Hrec).
  apply M_bind_inv_ok in Hrec as (u & s2 & Hrev & Hrec).
  pose proof (revoke_loop_pending wl (rv_revoke y) requests (hash_iter active) s) as Hsame.
  rewrite Hrev in Hsame. simpl in Hsame. rewrite <-Hsame in Hop.
  destruct (revoke_alone _ _ _ _ _ _ Hs Ho Hrev) as [Hs2 Ho2].
  apply M_bind_inv_ok in Hrec as (rs & s3 & Hp & Hl). unfold scan_pending in Hp.
  destruct (pending_operations _ _) as [rs'|] eqn:Hpo; [|done]. injection Hp as -> <-.
  pose proof (pending_allowed wl alone_rules _ _ _ Hs2 Hpo) as Hv.
  pose proof (recover_loop_alone _ _ _ _ _ Hs2 Ho2 Hv Hl) as Hall.
  pose proof (pending_map_keyed _ _ _ Hop) as <-.
  apply (pending_scan_spec wl _ _ _ (safe_marks_inv wl alone_rules _ eq_refl Hs2) Hpo) in Hop
    as [i Hi]%list_elem_of_lookup_1.
  destruct (Forall2_lookup_l _ _ _ _ _ Hall Hi) as (ex & _ & Hm). by exists (re_receipt ex).
Qed.

(** C4: A process that says it is ready is ready. Whatever requests earlier
    processes served, in flight at once in any interleaving, with leases running out
    or not, and wherever those processes ended, when [serve] reaches that point the
    session token is absent or has 32 bytes or more, the listener is bound to a
    loopback address, and every operation that was pending in the journal it found
    has a committed receipt; provided that callers use an operation identifier under
    one workload only and provider revisions that do not imitate a journal key
    ([disciplined]). *)
Theorem ready_server_recovered uuid k v x address token d' :
  disciplined R = true → rtc sstep (server_init uuid k) v →
  serve_start x address (daemon_of v) = (Ok token, d') →
  (token = "" ∨ 32 ≤ String.length token)%nat ∧
  (∃ ip, st_bind x address = Ok (Ok ip) ∧ is_loopback ip = true) ∧
  ∀ op r, pending_map (entries (daemon_journal (daemon_of v))) !! op = Some r →
    ∃ rc, has_mark MCommit op rc (rt_x (dd_runtime d')).
Proof.
  intros Hd Hv Hs. destruct (server_pool_inv _ _ (server_reachable_inv _ _ _ Hv)) as [gs [Hsafe _ _ _]].
  pose proof (safe_journal wl R _ Hsafe) as Hj.
  apply serve_start_Ok in Hs as (Htok & ip & Hb & Hloop & j & cat & k' & exs & s & Ho & Hrec & ->).
  destruct (reopened_ok wl R _ _ Hj Ho) as [Hj' He].
  split_and!; [done|by exists ip|]. intros op r Hop. simpl.
  eapply recover_alone; [done|exact Hj'|exact Hrec|]. by rewrite He.
Qed.

(** Before a process has recovered it has read no request, and runs nothing but
    its recovery. *)
Definition serves_after_recovery (v : Server) : Prop :=
  if sv_ready v then
    ∃ y exs call ts,
      pl_tasks (sv_pool v) = mkTask (WRecovery y) (Ret (Ok (OutRecovered exs))) call :: ts
  else sv_parts v = [] ∧
    (pl_tasks (sv_pool v) = [] ∨ ∃ y p call, pl_tasks (sv_pool v) = [mkTask (WRecovery y) p call]).

Lemma sstep_serves v v' : sstep v v' → serves_after_recovery v → serves_after_recovery v'.
Proof.
  unfold serves_after_recovery. intros Hs Hv. destruct Hs as
    [uuid' k' j c failure y corrupted v Ho Hc|w exs call v Hi|io q w v Hr Hq Hw Hpl
    |i w lb B m kk call v s ts Hcr Hi Ht|io q rest v Hr Hf|i io q rest v Hi|io q v Hr Hw|v];
    simpl; try (rewrite Hr in Hv |- *).
  - split; [done|right; by do 3 eexists].
  - destruct (sv_ready v); [done|]. destruct Hv as [_ [Hv|(y & p & call' & Hv)]]; rewrite Hv in Hi;
      [done|]. simplify_eq/=. rewrite Hv. by do 4 eexists.
  - destruct Hv as (y & exs & call & ts & ->). by do 4 eexists.
  - subst s ts. destruct (sv_ready v).
    + destruct Hv as (y & exs & call' & ts & Hv). rewrite Hv in Hi |- *.
      destruct i as [|i]; [by simplify_eq/=|]. by do 4 eexists.
    + destruct Hv as [Hp [Hv|(y & p & call' & Hv)]]; rewrite Hv in Hi |- *; [done|]. split; [done|].
      right. destruct i as [|i]; [|done]. simplify_eq/=. by do 3 eexists.
  - done.
  - destruct (sv_ready v); [done|]. by destruct Hv as [Hv _]; rewrite Hv in Hi.
  - done.
  - done.
Qed.

(** No request is read, and no task of one runs, before the process has recovered. *)
Theorem requests_after_recovery uuid k v :
  rtc sstep (server_init uuid k) v → serves_after_recovery v.
Proof.
  revert v. apply rtc_ind_r; [by split; [|left]|]. intros v v' _ Hs Hi. by eapply sstep_serves.
Qed.

(** *** Schedules *)

Definition set_pool (p : PoolState) (v : Server) : Server :=
  mkServer p (sv_integrity v) (sv_catalog v) (sv_parts v) (sv_ready v).

Lemma act_of_sstep i v p : act_of R i (sv_pool v) = Some p → sstep v (set_pool p v).
Proof.
  unfold act_of. destruct (pl_tasks (sv_pool v) !! i) as [[w [?|lb B m k] c]|] eqn:Hi; [done| |done].
  case_decide as Hd; [|done]. intros [= <-]. destruct Hd as [Hc Ht]. by eapply SAct.
Qed.
Lemma schedule_ssteps order v p :
  schedule R order (sv_pool v) = Some p → rtc sstep v (set_pool p v).
Proof.
  revert v. induction order as [|i order IH]; simpl; intros v Hp.
  { simplify_eq. by destruct v. }
  apply bind_Some in Hp as (p1 & Ha & Hp). eapply rtc_l; [by eapply act_of_sstep|].
  by apply (IH (set_pool p1 v)).
Qed.
Definition run_tasks (order : list nat) (v : Server) : Server :=
  set_pool (scheduled R order (sv_pool v)) v.
Lemma run_tasks_ssteps order v : followed R order (sv_pool v) = true → rtc sstep v (run_tasks order v).
Proof.
  unfold followed, run_tasks, scheduled. rewrite bool_decide_eq_true. intros [p Hp]. rewrite Hp.
  by eapply schedule_ssteps.
Qed.
End Server.

(** ** A concrete course *)

#[local] Existing Instances rq_serde rc_serde fl_serde json_serde rq_serde_laws rc_serde_laws
  fl_serde_laws json_serde_laws trace_serde profile_serde ex_host ex_env ex_text ex_platform
  key_order.
#[local] Existing Instance no_serde | 100.
#[local] Existing Instance ex_unread | 100.

(** A process starts, recovers and listens; a submission is under way up to the
    call of the provider; the health of the daemon is asked; the submission ends. *)
Definition ex_rules : Rules := strict_rules true.
Definition ex_started : Server :=
  mkServer (mkPool (runtime_new "u2" Ready fresh_journal []) [new_task (WRecovery ex_recover)])
    (mutex_new []) catalog_new [] false.
Definition ex_recovered : Server := run_tasks ex_rules [0%nat; 0%nat] ex_started.
Definition ex_listening : Server :=
  mkServer (sv_pool ex_recovered) (sv_integrity ex_recovered) (sv_catalog ex_recovered) [] true.
Definition ex_submitted : OperationRequest := within_deadline 5 100 (ex_req "op" "w").
Definition ex_begun : Server :=
  set_tasks (pl_tasks (sv_pool ex_listening) ++
    [new_task (WExecution (ex_run 1 "l1" None) false ex_submitted)]) ex_listening.
Definition ex_calling : Server := run_tasks ex_rules (replicate 18 1%nat) ex_begun.
Definition ex_health : NKIRequest := mkNki "r2" "k" 2 "p" "" "ns" 0 "" "" [] "HealthCheck" [].
Definition ex_asked : Server := set_daemon (dispatch_request ex_dio ex_health (daemon_of ex_calling)).2 ex_calling.
Definition ex_served : Server := run_tasks ex_rules (replicate 13 1%nat) ex_asked.

Example health_while_calling :
  ((λ t, rq_operation_id <$> t_call t) <$> pl_tasks (sv_pool ex_calling)) = [None; Some "op"] ∧
  is_ok (dispatch_request ex_dio ex_health (daemon_of ex_calling)).1 = true ∧
  map finished (pl_tasks (sv_pool ex_served)) = [true; true].
Proof. by vm_compute. Qed.

Lemma ex_calling_reachable : rtc (sstep ex_wl ex_rules) (server_init "u" Ready) ex_calling.
Proof.
  eapply rtc_l; [by apply (SStart ex_wl ex_rules "u2" Ready fresh_journal catalog_new None ex_recover [])|].
  etrans; [apply (run_tasks_ssteps ex_wl ex_rules [0%nat; 0%nat] ex_started); vm_compute; reflexivity|].
  eapply rtc_l.
  { eapply (SListen ex_wl ex_rules (WRecovery ex_recover) [] None). vm_compute. reflexivity. }
  eapply rtc_l.
  { apply (SBegin ex_wl ex_rules ex_dio (ex_submission "op")); [done|intros _; apply ex_request_ok| |].
    - unfold work_of. rewrite decide_True by done. by rewrite ex_payload.
    - done. }
  apply (run_tasks_ssteps ex_wl ex_rules (replicate 18 1%nat) ex_begun). vm_compute. reflexivity.
Qed.
Lemma ex_served_reachable : rtc (sstep ex_wl ex_rules) (server_init "u" Ready) ex_served.
Proof.
  etrans; [apply ex_calling_reachable|].
  eapply rtc_l; [by apply (SDispatch ex_wl ex_rules ex_dio ex_health)|].
  apply (run_tasks_ssteps ex_wl ex_rules (replicate 13 1%nat) ex_asked). vm_compute. reflexivity.
Qed.

(** The process is killed while the provider works, and started again: the start
    recovers the operation. *)
Definition ex_restarted : Daemon := (serve_start ex_start "127.0.0.1:8771" (daemon_of ex_calling)).2.
Lemma ready_server_recovered_witness :
  is_Some (pending_map (entries (daemon_journal (daemon_of ex_calling))) !! "op") ∧
  ∃ rc, has_mark MCommit "op" rc (rt_x (dd_runtime ex_restarted)).
Proof.
  split; [vm_compute; by eexists|].
  destruct (pending_map (entries (daemon_journal (daemon_of ex_calling))) !! "op") as [r|] eqn:Hop;
    [|exfalso; vm_compute in Hop; discriminate].
  destruct (ready_server_recovered ex_wl ex_rules "u" Ready ex_calling ex_start "127.0.0.1:8771" ""
    ex_restarted) as (_ & _ & Hc).
  - reflexivity.
  - apply ex_calling_reachable.
  - rewrite (surjective_pairing (serve_start _ _ _)). fold ex_restarted.
    assert ((serve_start ex_start "127.0.0.1:8771" (daemon_of ex_calling)).1 = Ok "") as ->
      by (vm_compute; reflexivity).
    reflexivity.
  - exact (Hc "op" r Hop).
Defined.

(** The submission was answered; the process is killed and started again. *)
Definition ex_task_served : Task := default (new_task (WRecovery ex_recover)) (pl_tasks (sv_pool ex_served) !! 1%nat).
Definition ex_later : Server :=
  let j := default fresh_journal (result_ok (open no_open_faults
             (inner (conn (daemon_journal (daemon_of ex_served)))))) in
  mkServer (mkPool (runtime_new "u3" Ready j (x_calls (rt_x (pl_rt (sv_pool ex_served)))))
              [new_task (WRecovery ex_recover)]) (mutex_new []) (sv_catalog ex_served) [] false.
Lemma answered_workload_runs_once_witness :
  ∃ calls, x_calls (rt_x (pl_rt (sv_pool ex_later))) =
      calls ++ x_calls (rt_x (pl_rt (sv_pool ex_served))) ∧ "op" ∉ calls.
Proof.
  apply (answered_workload_runs_once ex_wl ex_rules "u" Ready ex_served ex_later ex_task_served "op"
    (ex_rc "op")).
  - done.
  - apply ex_served_reachable.
  - apply (list_elem_of_lookup_2 _ 1%nat). vm_compute. reflexivity.
  - vm_compute. split; reflexivity.
  - apply rtc_once, (SStart _ _ "u3" Ready _ _ None ex_recover []); vm_compute; reflexivity.
Defined.
